(* ===== verification/_CoqProject ===== *)
-Q . S2P
Prelude.v
Effects.v
DriverKit.v
Sample.v
Packets.v
Descriptors.v
InputState.v
InputPipes.v
InputComm.v
HidDescription.v
InputLifecycle.v
UserClient.v
Device.v
CoreInterface.v
Tester.v
System.v
