(* ===== verification/Prelude.v ===== *)
(** * A verification of the Xbox One controller driver

    The repository is a DriverKit sample: a driver that presents an Xbox One
    controller, which speaks a vendor protocol over USB, as a HID game pad.

    ** The program

    - XboxOneDevice.cpp matches the USB device and activates its configuration.
    - XboxOneInputInterface.cpp matches the input interface that appears then.  It
      opens the two interrupt pipes, wakes the controller up with two packets, queues
      a read, and for each completed read forwards the packet to the HID stack,
      answers guide button packets and queues the next read.  It describes the
      device to the HID stack with the report descriptor of XboxOneDescriptors.h;
      the packets are the structures of XboxOneInputPackets.h.
    - XboxOneUserClient.cpp is the object an application talks to.  Its one request
      switches forwarding on and off through a pointer to the input interface.
    - UserClientTester/main.cpp is such an application.
    - XboxOneInterface.cpp is an earlier driver for the interface that the project
      file does not build any more.

    All of these are translated, function by function, under the names they have in
    C++ (with a prefix where two classes use the same name).

    ** How effects are modelled

    [Effects] has the monad [M E S]: a computation over the object's own state [S]
    (the [ivars] pointer, null before [init] and after [free]), a memory with one block
    of bytes per mapped buffer, and the history of calls into the framework.  Undefined
    behaviour of the C++ (null pointers, accesses outside a buffer) is a [Fault]; an
    access past the end of a block is one, whatever else is mapped.  [wp] is total
    correctness, so a proved specification excludes every fault and non-termination;
    [wpx Ψ] lets the faults in [Ψ] through, for code that does fault.

    The framework is not part of the repository.  [DriverKit] lists the calls the
    sources make, as the family [driverkitE]; an instance of the class [DriverKit]
    answers each call as an arbitrary function of the whole history.  A theorem that
    holds for every instance holds for every behaviour of the framework.  Where
    documented behaviour is needed it is a field of [DriverKitOk] or a named
    hypothesis.  Where a superclass calls back into the driver ([super::Start],
    [IOService::Create]) the answer is a tree of the callbacks it makes and the
    model runs it.  An out-parameter counts as written only when the call succeeded.
    What a history amounts to is read off it by projections: reports forwarded
    ([hid_reports]), packets handed to a pipe ([out_packets]), pipes opened
    ([opened_pipes]), buffers mapped ([mappings]), reads queued ([reads_armed]),
    references owned ([refs]), dictionary contents ([dict_lookup]).  [Sample] is a
    concrete framework on which the witnesses run the driver.

    ** Files and what their theorems show

    - [Packets]: layout of the packet structures by the C rules and their bytes in
      memory; the button bits cover the field.
    - [Descriptors]: the report descriptor, read by a HID report descriptor parser:
      the HID stack sees each member of a button report under its usage; two defects
      of the descriptor.
    - [InputState], [InputPipes]: the instance variables; [InitDescriptors],
      [InitPipes], [SetupPipe], [SetupPipes].  The pipe search finds the pipes if they
      are there, buffers are mapped, references are accounted for, and the pipes of
      surplus endpoints are lost.
    - [InputComm]: [GotData_Impl], the report handlers, [SendInterruptData],
      [SetEnable].  Refinement of a specification of one completed read; how long the
      input buffer must be for it, exactly; sequences of reads, stale bytes of short
      transfers included; counters; bounds.
    - [HidDescription]: [CopyStringAtIndex], [newDeviceDescription],
      [newReportDescriptor].  The dictionary is known for every key, and why there is
      none if there is none; strings are copied within bounds.
    - [InputLifecycle]: [init], [Start_Impl], [handleStart], [Stop_Impl] and its
      completion block, [free].  What a start achieves on each path, that it succeeds
      when it can, and the ledger of references from start to free.
    - [UserClient]: the user client and [NewUserClient_Impl], on a heap of objects;
      dispatch, licensing, and creation.  [EnableSwitch] is what the input interface
      promises the client.
    - [Device], [CoreInterface], [Tester]: the remaining programs.
    - [System]: the input interface under the framework's call protocol as a step
      relation.  In every reachable state an allowed call returns, except a completed
      read that runs past a short input buffer, and that is characterised exactly; at
      most one read is outstanding, packet counters are consecutive, the reports
      forwarded are those of an abstract gate, and a freed object has given back what it
      took but for lost pipes; and a licensing request decides what becomes of later
      packets.

    No theorem assumes that the endpoints of an interface are all different, that a
    buffer can hold a report, or that a transfer fills it.

    ** Fuel

    Two loops have no bound of their own.  The endpoint loop of [InitPipes] takes
    fuel; its theorems ask for more fuel than the interface has endpoints
    ([finite_endpoints]), and a USB interface has at most 30.  The loop of the tester over services asks for more fuel
    than there are services.  Exhaustion is a fault, so it is excluded as well.

    ** What is not modelled

    Logging has no effect but that a debug build reads the bytes it prints, which is
    modelled.  The Swift application that loads the driver only calls the system and
    draws; the interface declarations (.iig), property lists and project files hold no
    executable code.  The type of a user client request and the structure arguments of
    an external method are ignored by the sources and left out.  Calls arrive one at a
    time, as the framework's default dispatch queue guarantees. *)

From stdpp Require Export base tactics list gmap strings numbers option.
From stdpp Require Export relations.
#[export] Set Default Goal Selector "!".
#[global] Open Scope Z_scope.
Coercion Z.of_nat : nat >-> Z.

(** [lia] reasons about division and remainder by constants. *)
Ltac Zify.zify_post_hook ::= Z.to_euclidean_division_equations.

(** ** Hint databases and tactics of the development *)

(** Projections of traces distribute over concatenation. *)
Create Rewrite HintDb trace.

(** ** Machine integers

    A w-bit unsigned integer is a [Z] kept in range by an explicit wrap. *)

Definition wrap8 (z : Z) : Z := z mod 256.
Definition wrap16 (z : Z) : Z := z mod 65536.
Definition wrap32 (z : Z) : Z := z mod 4294967296.

Definition u8 (z : Z) : Prop := 0 ≤ z < 256.
Definition u16 (z : Z) : Prop := 0 ≤ z < 65536.
Definition i16 (z : Z) : Prop := -32768 ≤ z < 32768.

#[global] Instance u8_dec z : Decision (u8 z).
Proof. unfold u8. apply _. Defined.
#[global] Instance u16_dec z : Decision (u16 z).
Proof. unfold u16. apply _. Defined.
#[global] Instance i16_dec z : Decision (i16 z).
Proof. unfold i16. apply _. Defined.

(** Reads an unsigned [n]-bit pattern as a two's complement number. *)
Definition to_signed (n : Z) (v : Z) : Z :=
  if decide (2 ^ (n - 1) ≤ v) then v - 2 ^ n else v.

(** ** Little-endian byte strings *)

Fixpoint le_value (bs : list Z) : Z :=
  match bs with
  | [] => 0
  | b :: bs' => b + 256 * le_value bs'
  end.

Fixpoint le_bytes (n : nat) (z : Z) : list Z :=
  match n with
  | O => []
  | S n' => z mod 256 :: le_bytes n' (z / 256)
  end.

(** ** The mapped memory of the driver process

    One block of bytes per mapped buffer, under the address it is mapped at.  An
    access names the address it is relative to, so running past the end of a block is
    an error even where the next byte happens to be mapped for something else. *)

Abbreviation memory := (gmap Z (list Z)).

(** A block with the bytes [bs] written over it from offset [off] on. *)
Definition overwrite (off : nat) (bs blk : list Z) : list Z :=
  take off blk ++ bs ++ drop (off + length bs) blk.

Definition load_bytes (a : Z) (off n : nat) (m : memory) : option (list Z) :=
  blk ← m !! a;
  if decide (off + n ≤ length blk)%nat then Some (take n (drop off blk)) else None.

Definition store_bytes (a : Z) (off : nat) (bs : list Z) (m : memory) : option memory :=
  blk ← m !! a;
  if decide (off + length bs ≤ length blk)%nat then Some (<[a := overwrite off bs blk]> m) else None.

(** ** Lemmas: integers and bytes *)

Lemma wrap8_u8 z : u8 (wrap8 z).
Proof. unfold u8, wrap8. lia. Qed.

Lemma wrap8_id z : u8 z → wrap8 z = z.
Proof. unfold u8, wrap8. intros. by apply Z.mod_small. Qed.

Lemma le_bytes_length n z : length (le_bytes n z) = n.
Proof. revert z. induction n; intros; simpl; congruence. Qed.

Lemma le_bytes_u8 n z : Forall u8 (le_bytes n z).
Proof.
  revert z. induction n as [|n IH]; intros z; simpl; constructor; [|done].
  unfold u8. lia.
Qed.

Lemma le_value_bytes n z : 0 ≤ z < 256 ^ Z.of_nat n → le_value (le_bytes n z) = z.
Proof.
  revert z. induction n as [|n IH]; intros z Hz; simpl.
  { simpl in Hz. lia. }
  rewrite IH; [lia|].
  rewrite Nat2Z.inj_succ, Z.pow_succ_r in Hz by lia. lia.
Qed.

Lemma le_value_bound bs :
  Forall u8 bs → 0 ≤ le_value bs < 256 ^ Z.of_nat (length bs).
Proof.
  induction 1 as [|b bs Hb _ IH]; simpl; [lia|].
  unfold u8 in Hb. rewrite Nat2Z.inj_succ, Z.pow_succ_r by lia. lia.
Qed.

Lemma le_value_app bs1 bs2 :
  le_value (bs1 ++ bs2) = le_value bs1 + 256 ^ Z.of_nat (length bs1) * le_value bs2.
Proof.
  induction bs1 as [|b bs1 IH]; simpl; [lia|].
  rewrite IH, Nat2Z.inj_succ, Z.pow_succ_r by lia. lia.
Qed.

(** A single-bit mask tests one bit. *)
Lemma land_pow2_testbit v i : 0 ≤ i → bool_decide (Z.land v (2 ^ i) ≠ 0) = Z.testbit v i.
Proof.
  intros Hi. destruct (Z.testbit v i) eqn:Hb.
  - apply bool_decide_eq_true. intros H0.
    assert (Z.testbit (Z.land v (2 ^ i)) i = true) as Ht
      by (rewrite Z.land_spec, Hb, Z.pow2_bits_true by lia; done).
    rewrite H0, Z.testbit_0_l in Ht. done.
  - apply bool_decide_eq_false. intros Hn. apply Hn, Z.bits_inj'. intros j Hj.
    rewrite Z.land_spec, Z.testbit_0_l, Z.pow2_bits_eqb by lia.
    destruct (Z.eqb_spec i j) as [->|]; [by rewrite Hb|by rewrite andb_false_r].
Qed.

(** The weighted sum of the low [n] bits of a number. *)
Fixpoint bits_sum (n : nat) (v : Z) : Z :=
  match n with
  | O => 0
  | S n' => bits_sum n' v + (if Z.testbit v n' then 2 ^ n' else 0)
  end.

Lemma bits_sum_mod n v : bits_sum n v = v mod 2 ^ n.
Proof.
  induction n as [|n IH]; simpl bits_sum; [by rewrite Z.mod_1_r|].
  rewrite IH, Nat2Z.inj_succ, Z.pow_succ_r by lia.
  rewrite (Z.mul_comm 2), Z.rem_mul_r by lia.
  pose proof (Z.testbit_spec' v n ltac:(lia)) as Hb.
  destruct (Z.testbit v n); simpl in Hb; lia.
Qed.

Lemma to_signed_i16 v : i16 v → to_signed 16 (wrap16 v) = v.
Proof.
  unfold i16, to_signed, wrap16. change (2 ^ (16 - 1)) with 32768.
  change (2 ^ 16) with 65536. intros. case_decide; lia.
Qed.

(** ** Lemmas: memory *)

Lemma overwrite_length off bs blk :
  (off + length bs ≤ length blk)%nat → length (overwrite off bs blk) = length blk.
Proof. intros. unfold overwrite. rewrite !length_app, length_take, length_drop. lia. Qed.

Lemma overwrite_0 bs blk : overwrite 0 bs blk = bs ++ drop (length bs) blk.
Proof. done. Qed.

Lemma take_overwrite bs blk : take (length bs) (overwrite 0 bs blk) = bs.
Proof. rewrite overwrite_0. apply take_app_length. Qed.

(** Writing one byte of the bytes just written. *)
Lemma overwrite_insert (i : nat) v bs blk :
  (i < length bs)%nat →
  overwrite i [v] (overwrite 0 bs blk) = overwrite 0 (<[i := v]> bs) blk.
Proof.
  intros Hi. rewrite !overwrite_0, length_insert. unfold overwrite. simpl length.
  rewrite take_app_le, drop_app_le, (insert_take_drop bs i v Hi) by lia.
  rewrite Nat.add_1_r, <- !app_assoc. done.
Qed.

Lemma load_bytes_one a off m blk :
  m !! a = Some blk →
  load_bytes a off 1 m = if decide (off < length blk)%nat then Some [blk !!! off] else None.
Proof.
  intros Hm. unfold load_bytes. rewrite Hm. simpl. repeat case_decide; try lia; [|done].
  destruct (lookup_lt_is_Some_2 blk off) as [x Hx]; [done|].
  by rewrite (drop_S _ _ _ Hx), (list_lookup_total_correct _ _ _ Hx).
Qed.

Lemma alter_insert_Some {V} (f : V → V) (a : Z) (m : gmap Z V) v :
  m !! a = Some v → alter f a m = <[a := f v]> m.
Proof.
  intros Hm. apply map_eq. intros a'. destruct (decide (a = a')) as [<-|Hne].
  - by rewrite lookup_alter_eq, lookup_insert_eq, Hm.
  - by rewrite lookup_alter_ne, lookup_insert_ne.
Qed.

(** ** Parts of lists *)

(** A contiguous part of a list. *)
Definition infix {A} (l l' : list A) : Prop := ∃ l1 l2, l' = l1 ++ l ++ l2.

Create HintDb infix.

Lemma infix_here {A} (l l' : list A) : infix l (l ++ l').
Proof. by exists [], l'. Qed.

Lemma infix_refl {A} (l : list A) : infix l l.
Proof. exists [], []. by rewrite app_nil_r. Qed.

Lemma infix_app {A} (l l1 l2 : list A) : infix l l2 → infix l (l1 ++ l2).
Proof. intros (a & b & ->). exists (l1 ++ a), b. by rewrite <- app_assoc. Qed.

Lemma infix_app_l {A} (l l1 l2 : list A) : infix l l1 → infix l (l1 ++ l2).
Proof. intros (a & b & ->). exists a, (b ++ l2). by rewrite <- !app_assoc. Qed.

Lemma infix_cons {A} (l l' : list A) x : infix l l' → infix l (x :: l').
Proof. apply (infix_app l [x]). Qed.

Lemma infix_head {A} (l : list A) x : infix [x] (x :: l).
Proof. apply (infix_here [x]). Qed.

#[export] Hint Resolve infix_refl infix_here infix_head infix_app infix_app_l infix_cons : infix.
