(* ===== verification/Effects.v ===== *)
(** * Effects: calls into the framework, traces, faults and a program logic

    The driver is ordinary C++ that calls a framework it does not define.  A
    call is a constructor of an indexed family [E : Set → Type], whose index is
    the type of the answer.  An [Env E] answers every call as a function of the
    whole history of earlier calls, so quantifying over environments covers
    every behaviour the framework can have.  [M E S] is the monad of the model:
    it threads the component's own state [S], a memory of blocks and the history,
    and stops at a [fault] where the C++ has undefined behaviour. *)

From S2P Require Import Prelude.

(** ** Events and worlds *)

(** One answered call. *)
Inductive event (E : Set → Type) : Type :=
| Ev {R : Set} (c : E R) (r : R).
Arguments Ev {E R} c r.

(** What the rest of the system is: an answer for each call, given the past. *)
Class Env (E : Set → Type) := answer : ∀ R : Set, E R → list (event E) → R.
Arguments answer {E Env R} c h.

Record world (E : Set → Type) (S : Type) := World {
  w_st : S;
  w_mem : memory;
  w_trace : list (event E);
}.
Arguments World {E S} w_st w_mem w_trace.
Arguments w_st {E S} _.
Arguments w_mem {E S} _.
Arguments w_trace {E S} _.

(** The undefined behaviours the model can reach, and exhaustion of fuel. *)
Inductive fault : Set :=
| NullDeref
| OutOfBounds
| BadCall
| OutOfFuel.

Inductive outcome (E : Set → Type) (S A : Type) : Type :=
| Done (a : A) (w : world E S)
| Fault (f : fault).
Arguments Done {E S A} a w.
Arguments Fault {E S A} f.

Definition M (E : Set → Type) (S A : Type) : Type := world E S → outcome E S A.

#[global] Instance M_ret {E S} : MRet (M E S) := λ A a w, Done a w.
#[global] Instance M_bind {E S} : MBind (M E S) := λ A B k m w,
  match m w with
  | Done a w' => k a w'
  | Fault f => Fault f
  end.

(** ** Worlds, one change at a time *)

Section worlds.
Context {E : Set → Type} {S : Type}.
Implicit Types w : world E S.

Definition log (e : event E) w : world E S := World (w_st w) (w_mem w) (w_trace w ++ [e]).
Definition extend (evs : list (event E)) w : world E S :=
  World (w_st w) (w_mem w) (w_trace w ++ evs).
Definition set_st {T} (s : T) w : world E T := World s (w_mem w) (w_trace w).
Definition set_mem (m : memory) w : world E S := World (w_st w) m (w_trace w).
End worlds.

(** ** Primitive operations *)

Section operations.
Context {E : Set → Type} {S : Type}.

Definition raise {A} (f : fault) : M E S A := λ _, Fault f.

(** Call the framework and log the answer. *)
Definition call `{Env E} {R : Set} (c : E R) : M E S R := λ w,
  let r := answer c (w_trace w) in Done r (log (Ev c r) w).

Definition get_st : M E S S := λ w, Done (w_st w) w.
Definition put_st (s : S) : M E S unit := λ w, Done tt (set_st s w).
Definition get_mem : M E S memory := λ w, Done (w_mem w) w.
Definition put_mem (m : memory) : M E S unit := λ w, Done tt (set_mem m w).
Definition get_trace : M E S (list (event E)) := λ w, Done (w_trace w) w.

(** Reads [n] bytes [off] bytes behind [a]; reading outside the block is undefined. *)
Definition load (a : Z) (off n : nat) : M E S (list Z) :=
  m ← get_mem;
  match load_bytes a off n m with
  | Some bs => mret bs
  | None => raise OutOfBounds
  end.

(** [memcpy] and single stores; writing outside the block is undefined. *)
Definition store (a : Z) (off : nat) (bs : list Z) : M E S unit :=
  m ← get_mem;
  match store_bytes a off bs m with
  | Some m' => put_mem m'
  | None => raise OutOfBounds
  end.

(** A pointer that must not be null where the code dereferences it. *)
Definition nonnull {A} (p : option A) : M E S A :=
  match p with
  | Some a => mret a
  | None => raise NullDeref
  end.
End operations.

(** The [ivars] pointer of a driver object: null, or a heap record. *)
Section ivars.
Context {E : Set → Type} {I : Type}.

Definition ivars : M E (option I) I := p ← get_st; nonnull p.
Definition modify (f : I → I) : M E (option I) unit := iv ← ivars; put_st (Some (f iv)).
End ivars.

(** Runs a method of an object held in a larger state. *)
Definition zoom {E S T A} (get : S → option T) (put : T → S → S) (m : M E T A) : M E S A :=
  λ w,
  match get (w_st w) with
  | None => Fault NullDeref
  | Some t =>
      match m (set_st t w) with
      | Done a w' => Done a (set_st (put (w_st w') (w_st w)) w')
      | Fault f => Fault f
      end
  end.

(** ** The program logic *)

Section wp.
Context {E : Set → Type} {S : Type}.
Implicit Types w : world E S.

(** [wpx Ψ m Φ w]: run from [w], [m] returns and satisfies [Φ], or ends in a fault
    that satisfies [Ψ]. *)
Definition wpx {A} (Ψ : fault → Prop) (m : M E S A) (Φ : A → world E S → Prop) w : Prop :=
  match m w with
  | Done a w' => Φ a w'
  | Fault f => Ψ f
  end.
End wp.

(** Total correctness: [m] returns without a fault and satisfies [Φ]. *)
Abbreviation wp := (wpx (λ _, False)).

Section wp_rules.
Context {E : Set → Type} {S : Type}.
Implicit Types (w : world E S) (Ψ : fault → Prop).

Lemma wp_elim {A} (m : M E S A) Φ w : wp m Φ w → ∃ a w', m w = Done a w' ∧ Φ a w'.
Proof. unfold wpx. destruct (m w); [by eauto|done]. Qed.

Lemma wpx_elim {A} Ψ (m : M E S A) Φ w :
  wpx Ψ m Φ w → (∃ a w', m w = Done a w' ∧ Φ a w') ∨ (∃ f, m w = Fault f ∧ Ψ f).
Proof. unfold wpx. destruct (m w); eauto. Qed.

Lemma wp_mono {A} Ψ (m : M E S A) (Φ Φ' : A → world E S → Prop) w :
  wpx Ψ m Φ w → (∀ a w', Φ a w' → Φ' a w') → wpx Ψ m Φ' w.
Proof. unfold wpx. destruct (m w); naive_solver. Qed.

(** Faults can be excluded afterwards, or admitted. *)
Lemma wpx_mono {A} (Ψ Ψ' : fault → Prop) (m : M E S A) (Φ Φ' : A → world E S → Prop) w :
  wpx Ψ m Φ w → (∀ a w', Φ a w' → Φ' a w') → (∀ f, Ψ f → Ψ' f) → wpx Ψ' m Φ' w.
Proof. unfold wpx. destruct (m w); naive_solver. Qed.

Lemma wp_ret {A} Ψ (a : A) (Φ : A → world E S → Prop) w : Φ a w → wpx Ψ (mret a) Φ w.
Proof. done. Qed.

Lemma wp_bind {A B} Ψ (m : M E S A) (k : A → M E S B) Φ w :
  wpx Ψ m (λ a w', wpx Ψ (k a) Φ w') w → wpx Ψ (mbind k m) Φ w.
Proof. unfold wpx, mbind, M_bind. by destruct (m w). Qed.

Lemma wp_call_eq `{Env E} {R : Set} Ψ (c : E R) (Φ : R → world E S → Prop) w :
  (∀ r, r = answer c (w_trace w) → Φ r (log (Ev c r) w)) → wpx Ψ (call c) Φ w.
Proof. intros HΦ. by apply HΦ. Qed.

Lemma wp_call `{Env E} {R : Set} Ψ (c : E R) (Φ : R → world E S → Prop) w :
  (∀ r, Φ r (log (Ev c r) w)) → wpx Ψ (call c) Φ w.
Proof. intros HΦ. by apply HΦ. Qed.

Lemma wp_get_st Ψ (Φ : S → world E S → Prop) w : Φ (w_st w) w → wpx Ψ get_st Φ w.
Proof. done. Qed.

Lemma wp_put_st Ψ s (Φ : unit → world E S → Prop) w : Φ tt (set_st s w) → wpx Ψ (put_st s) Φ w.
Proof. done. Qed.

Lemma wp_get_trace Ψ (Φ : list (event E) → world E S → Prop) w :
  Φ (w_trace w) w → wpx Ψ get_trace Φ w.
Proof. done. Qed.

Lemma wp_get_mem Ψ (Φ : memory → world E S → Prop) w : Φ (w_mem w) w → wpx Ψ get_mem Φ w.
Proof. done. Qed.

Lemma wp_put_mem Ψ m (Φ : unit → world E S → Prop) w :
  Φ tt (set_mem m w) → wpx Ψ (put_mem m) Φ w.
Proof. done. Qed.

(** Reading one byte of a block, in bounds or not. *)
Lemma wp_load_one Ψ a off blk (Φ : list Z → world E S → Prop) w :
  w_mem w !! a = Some blk →
  ((off < length blk)%nat → Φ [blk !!! off] w) →
  ((length blk ≤ off)%nat → Ψ OutOfBounds) → wpx Ψ (load a off 1) Φ w.
Proof.
  intros Hm Hin Hout. unfold wpx, load, mbind, M_bind, get_mem.
  rewrite (load_bytes_one _ _ _ _ Hm). case_decide; [by apply Hin|]. apply Hout. lia.
Qed.

(** Reading the beginning of a block, in bounds or not. *)
Lemma wp_load_prefix Ψ a n blk (Φ : list Z → world E S → Prop) w :
  w_mem w !! a = Some blk →
  ((n ≤ length blk)%nat → Φ (take n blk) w) →
  ((length blk < n)%nat → Ψ OutOfBounds) → wpx Ψ (load a 0 n) Φ w.
Proof.
  intros Hm Hin Hout. unfold wpx, load, mbind, M_bind, get_mem, load_bytes. rewrite Hm. simpl.
  case_decide; [by apply Hin|]. apply Hout. lia.
Qed.

Lemma wp_store Ψ a off bs blk (Φ : unit → world E S → Prop) w :
  w_mem w !! a = Some blk → (off + length bs ≤ length blk)%nat →
  Φ tt (set_mem (<[a := overwrite off bs blk]> (w_mem w)) w) → wpx Ψ (store a off bs) Φ w.
Proof.
  intros Hm Hle HΦ. unfold wpx, store, mbind, M_bind, get_mem, store_bytes. rewrite Hm. simpl.
  by rewrite decide_True.
Qed.

Lemma wp_nonnull {A} Ψ (a : A) (Φ : A → world E S → Prop) w :
  Φ a w → wpx Ψ (nonnull (Some a)) Φ w.
Proof. done. Qed.
End wp_rules.

Section wp_ivars.
Context {E : Set → Type} {I : Type}.
Implicit Types w : world E (option I).

Lemma wp_ivars Ψ iv (Φ : I → world E (option I) → Prop) w :
  w_st w = Some iv → Φ iv w → wpx Ψ ivars Φ w.
Proof. intros Hw HΦ. unfold wpx, ivars, mbind, M_bind, get_st. rewrite Hw. done. Qed.

Lemma wp_modify Ψ f iv (Φ : unit → world E (option I) → Prop) w :
  w_st w = Some iv → Φ tt (set_st (Some (f iv)) w) → wpx Ψ (modify f) Φ w.
Proof.
  intros Hw HΦ. apply wp_bind, (wp_ivars _ iv); [done|]. by apply wp_put_st.
Qed.
End wp_ivars.

Lemma wp_zoom {E S T A} Ψ get put (m : M E T A) t (Φ : A → world E S → Prop) w :
  get (w_st w) = Some t →
  wpx Ψ m (λ a w', Φ a (set_st (put (w_st w') (w_st w)) w')) (set_st t w) →
  wpx Ψ (zoom get put m) Φ w.
Proof. unfold wpx, zoom. intros ->. by destruct (m (set_st t w)). Qed.

(** Events accumulate. *)
Lemma extend_nil {E S} (w : world E S) : extend [] w = w.
Proof. destruct w. unfold extend. simpl. by rewrite app_nil_r. Qed.

Lemma extend_extend {E S} evs1 evs2 (w : world E S) :
  extend evs2 (extend evs1 w) = extend (evs1 ++ evs2) w.
Proof. unfold extend. simpl. by rewrite app_assoc. Qed.

Lemma log_extend {E S} e (w : world E S) : log e w = extend [e] w.
Proof. done. Qed.

(** Postconditions can be rewritten pointwise. *)
#[global] Instance wp_proper {E S A} Ψ (m : M E S A) :
  Proper (pointwise_relation A (pointwise_relation (world E S) impl) ==>
          pointwise_relation (world E S) impl) (wpx Ψ m).
Proof. intros Φ Φ' HΦ w H. eapply wp_mono; [exact H|]. intros a w'. apply HΦ. Qed.

(** One step of symbolic execution. *)
Ltac wp_step :=
  lazymatch goal with
  | |- wpx _ (mbind _ _) _ _ => apply wp_bind
  | |- wpx _ (mret _) _ _ => apply wp_ret
  | |- wpx _ (call _) _ _ => let r := fresh "r" in apply wp_call; intros r
  | |- wpx _ get_st _ _ => apply wp_get_st
  | |- wpx _ (put_st _) _ _ => apply wp_put_st
  | |- wpx _ get_trace _ _ => apply wp_get_trace
  | |- wpx _ get_mem _ _ => apply wp_get_mem
  | |- wpx _ (put_mem _) _ _ => apply wp_put_mem
  | |- wpx _ ivars _ _ => eapply wp_ivars; [simpl; first [eassumption | reflexivity]|]
  | |- wpx _ (modify _) _ _ => eapply wp_modify; [simpl; first [eassumption | reflexivity]|]
  | |- wpx _ (nonnull (Some _)) _ _ => apply wp_nonnull
  | |- wpx _ (match decide ?P with _ => _ end) _ _ => destruct (decide P)
  | |- wpx _ (if negb ?b then _ else _) _ _ => let H := fresh "Hb" in destruct b eqn:H; cbn [negb]
  | |- wpx _ (if ?b then _ else _) _ _ => let H := fresh "Hb" in destruct b eqn:H
  | |- wpx _ (match ?x with _ => _ end) _ _ => let H := fresh "Hx" in destruct x eqn:H
  end; cbv beta.

Ltac wp_steps := repeat wp_step.
