(* ===== verification/DriverKit.v ===== *)
(** * DriverKit: the framework the driver is written against

    DriverKit, USBDriverKit and HIDDriverKit are not part of the repository.
    They enter the model as a parameter: [driverkitE] lists every call the
    sources make, one constructor per function with its arguments and the type
    of what it hands back, and a [DriverKit] instance answers the calls and
    supplies the pure descriptor accessors.  Nothing is assumed of the answers
    here; a theorem that relies on documented behaviour names it as a
    hypothesis.  Two conventions of the framework are built into how the model
    uses answers: an out-parameter is only written when the call returns
    [kIOReturnSuccess], and [OSDynamicCast] gives back its argument or null.

    The file also defines what can be read off a history of calls: the balance
    of references the driver owns, the contents of a dictionary, the pipes
    opened, the packets handed to them and the reports forwarded. *)

From S2P Require Import Prelude Effects.

Create Rewrite HintDb ledger.

(** ** Values *)

(** A framework object; a pointer to one may be null. *)
Definition obj : Set := positive.
Abbreviation ptr := (option obj).
Abbreviation nullptr := (@None obj).

(** Error codes the sources name, and every other one. *)
Inductive kern_return_t : Set :=
| kIOReturnSuccess
| kIOReturnError
| kIOReturnNotFound
| kIOReturnBadArgument
| kIOReturnOther (code : Z).

#[global] Instance kern_return_t_eq_dec : EqDecision kern_return_t.
Proof. solve_decision. Defined.

Definition succeeded (ret : kern_return_t) : bool := bool_decide (ret = kIOReturnSuccess).

(** The classes the sources cast to with [OSDynamicCast]. *)
Inductive os_class : Set :=
| Class_IOUSBHostInterface
| Class_IOUSBHostDevice
| Class_XboxOneInputInterface
| Class_XboxOneUserClient.

Inductive endpoint_type : Set :=
| kIOUSBEndpointTypeControl
| kIOUSBEndpointTypeIsochronous
| kIOUSBEndpointTypeBulk
| kIOUSBEndpointTypeInterrupt.

Inductive endpoint_direction : Set :=
| kIOUSBEndpointDirectionOut
| kIOUSBEndpointDirectionIn
| kIOUSBEndpointDirectionUnknown.

#[global] Instance endpoint_type_eq_dec : EqDecision endpoint_type.
Proof. solve_decision. Defined.
#[global] Instance endpoint_direction_eq_dec : EqDecision endpoint_direction.
Proof. solve_decision. Defined.

(** The fields of a device descriptor that the sources read. *)
Record IOUSBDeviceDescriptor : Set := {
  idVendor : Z;
  idProduct : Z;
  bcdDevice : Z;
  iManufacturer : Z;
  iProduct : Z;
  iSerialNumber : Z;
  bNumConfigurations : Z;
}.

(** Dictionary keys: the constants of the SDK by name, and string literals. *)
Inductive dict_key : Set :=
| kIOHIDReportIntervalKey
| kIOHIDVendorIDKey
| kIOHIDProductIDKey
| kIOHIDTransportKey
| kIOHIDVersionNumberKey
| kIOHIDCountryCodeKey
| kIOHIDRequestTimeoutKey
| kIOHIDPrimaryUsagePageKey
| kIOHIDPrimaryUsageKey
| kIOHIDLocationIDKey
| kIOHIDManufacturerKey
| kIOHIDProductKey
| kIOHIDSerialNumberKey
| kIOHIDBuiltInKey
| kIOHIDMaxInputReportSizeKey
| kIOHIDMaxOutputReportSizeKey
| kUSBHostPropertyLocationID
| kUSBHostMatchingPropertyPortType
| KeyLiteral (s : string).

#[global] Instance dict_key_eq_dec : EqDecision dict_key.
Proof. solve_decision. Defined.

Inductive dict_value : Set :=
| kOSBooleanTrue
| VUInt64 (v : Z)
| VString (s : string)
| VObject (o : obj).

(** What [super::Start] of a HID class does: it may call the overridden virtual
    methods, look at their results, and finally returns. *)
Inductive hid_start_script : Set :=
| StartReturn (ret : kern_return_t)
| StartHandleStart (k : bool → hid_start_script)
| StartNewDeviceDescription (k : ptr → hid_start_script)
| StartNewReportDescriptor (k : ptr → hid_start_script).

(** A start that calls [handleStart] at most once, as long as it [may]. *)
Fixpoint handles_once (may : bool) (script : hid_start_script) : Prop :=
  match script with
  | StartReturn _ => True
  | StartHandleStart k => may = true ∧ ∀ r, handles_once false (k r)
  | StartNewDeviceDescription k => ∀ r, handles_once may (k r)
  | StartNewReportDescriptor k => ∀ r, handles_once may (k r)
  end.

(** The same for a class of which only [handleStart] is overridden. *)
Inductive usb_hid_start_script : Set :=
| UsbStartReturn (ret : kern_return_t)
| UsbStartHandleStart (k : bool → usb_hid_start_script).

(** What [IOService::Create] does for a user client: it instantiates and starts
    the class named in the property list, then returns the new object. *)
Inductive create_script : Set :=
| CreateReturn (ret : kern_return_t) (client : ptr)
| CreateInit (client : obj) (k : bool → create_script)
| CreateStart (client : obj) (k : kern_return_t → create_script).

(** Creating an object: it is initialised and started, and handed over when both
    succeeded. *)
Definition creates (script : create_script) : Prop :=
  match script with
  | CreateReturn ret _ => ret ≠ kIOReturnSuccess
  | CreateStart _ _ => False
  | CreateInit c k =>
      ∃ ret, ret ≠ kIOReturnSuccess ∧ k false = CreateReturn ret nullptr ∧
      ∃ k', k true = CreateStart c k' ∧
        ∀ r, k' r = if succeeded r then CreateReturn kIOReturnSuccess (Some c)
                    else CreateReturn r nullptr
  end.

(** The argument checks of an [IOUserClientMethodDispatch]. *)
Record method_checks : Set := {
  checkCompletionExists : bool;
  checkScalarInputCount : Z;
  checkStructureInputSize : Z;
  checkScalarOutputCount : Z;
  checkStructureOutputSize : Z;
}.

(** ** The calls

    [Super_ExternalMethod] answers [None] when the arguments pass the checks and
    the function of the dispatch entry is to be invoked, and an error otherwise. *)

Inductive driverkitE : Set → Type :=
(* superclass methods *)
| Super_init : driverkitE bool
| Super_Start_HID (provider : ptr) : driverkitE hid_start_script
| Super_Start_USBHID (provider : ptr) : driverkitE usb_hid_start_script
| Super_Start (provider : ptr) : driverkitE kern_return_t
| Super_handleStart (provider : ptr) : driverkitE bool
| Super_Stop (provider : ptr) : driverkitE kern_return_t
| Super_free : driverkitE unit
| RegisterService : driverkitE kern_return_t
| IOService_Create (properties : string) : driverkitE create_script
| IOService_CopyProperties : driverkitE (kern_return_t * ptr)
(* memory and references *)
| IONewZero : driverkitE bool
| IODelete : driverkitE unit
| OSObject_retain (o : obj) : driverkitE unit
| OSObject_release (o : obj) : driverkitE unit
| IOUSBHostFreeDescriptor (d : obj) : driverkitE unit
(* USB device *)
| IOUSBHostDevice_Open (d : obj) : driverkitE kern_return_t
| CopyDeviceDescriptor (d : obj) : driverkitE (option (obj * IOUSBDeviceDescriptor))
| CopyConfigurationDescriptorWithValue (d : obj) (v : Z) : driverkitE ptr
| SetConfiguration (d : obj) (v : Z) (matchInterfaces : bool) : driverkitE kern_return_t
(* USB interface *)
| IOUSBHostInterface_Open (i : obj) : driverkitE kern_return_t
| CopyConfigurationDescriptor (i : obj) : driverkitE ptr
| GetInterfaceDescriptor (i : obj) (c : ptr) : driverkitE (option (obj * Z))
| CopyStringDescriptor (i : obj) (index language : Z) : driverkitE (option (obj * list Z))
| IOUSBHostInterface_CopyProperties (i : obj) : driverkitE (kern_return_t * ptr)
| IOUSBHostInterface_CopyDevice (i : obj) : driverkitE (kern_return_t * ptr)
| CopyPipe (i : obj) (address : Z) : driverkitE (kern_return_t * ptr)
| CreateIOBuffer (i : obj) (capacity : Z) : driverkitE (kern_return_t * ptr)
(* pipes and buffers *)
| IOUSBHostPipe_GetSpeed (p : obj) : driverkitE (kern_return_t * Z)
| IOBufferMemoryDescriptor_Map (b : obj) : driverkitE (kern_return_t * (Z * Z * list Z))
| IOUSBHostPipe_AsyncIO (p : obj) (b : ptr) (length : Z) (action : ptr) : driverkitE kern_return_t
| IOUSBHostPipe_IO (p : obj) (b : ptr) (length : Z) (contents : list Z)
    : driverkitE (kern_return_t * Z)
| CreateActionGotData (size : Z) : driverkitE (kern_return_t * ptr)
| OSAction_Cancel (action : obj) (block_provider : obj) : driverkitE unit
(* HID *)
| IOUserHIDDevice_handleReport (timestamp : Z) (b : ptr) (length : Z) (contents : list Z)
    : driverkitE kern_return_t
(* collections *)
| OSDictionary_withCapacity (capacity : Z) : driverkitE ptr
| OSDictionarySet (d : obj) (k : dict_key) (v : dict_value) : driverkitE unit
| OSDictionaryGetValue (d : obj) (k : dict_key) : driverkitE ptr
| OSDictionaryGetUInt64Value (d : ptr) (k : dict_key) : driverkitE Z
| OSStringCreate (bytes : list Z) (length : Z) : driverkitE ptr
| OSData_withBytesNoCopy (bytes : list Z) (length : Z) : driverkitE ptr
(* user client *)
| Super_ExternalMethod (selector : Z) (checks : option method_checks) (inputs outputs : Z)
    : driverkitE (option kern_return_t)
| ExternalFunction (id : Z) : driverkitE kern_return_t.

Abbreviation dk_event := (event driverkitE).
Abbreviation dk_trace := (list (event driverkitE)).

(** [OSAction_Cancel] carries the block it is given, reduced to the provider the
    block captures.  [IOBufferMemoryDescriptor_Map] answers with the address and the
    length it reports and with the contents of the memory that is now there.
    [IOUSBHostPipe_IO] and [handleReport] carry the length they are given and, besides,
    the bytes of the buffer they will find. *)

(** The framework as a parameter of the driver. *)
Class DriverKit := {
  dk_env :: Env driverkitE;
  (** run-time type of an object, for [OSDynamicCast] *)
  dk_instanceof : os_class → obj → bool;
  IOUSBGetNextEndpointDescriptor : ptr → ptr → ptr → ptr;
  IOUSBGetEndpointType : obj → endpoint_type;
  IOUSBGetEndpointDirection : obj → endpoint_direction;
  IOUSBGetEndpointAddress : obj → Z;
  IOUSBGetEndpointIntervalFrames : Z → ptr → Z;
  IOUSBGetEndpointMaxPacketSize : Z → ptr → Z;
  USBToHost16 : Z → Z;
  kIOUSBHostPortTypeInternal : Z;
  (** the build configuration: a debug build reads packets to print them *)
  DEBUG : bool;
}.

Definition OSDynamicCast `{DriverKit} (cls : os_class) (p : ptr) : ptr :=
  match p with
  | Some o => if dk_instanceof cls o then Some o else nullptr
  | None => nullptr
  end.

(** ** Reading a history *)

(** The pointer part of a descriptor handed over with its contents. *)
Definition desc_ptr {A} (d : option (obj * A)) : ptr := fst <$> d.

(** An object handed over by a call that transfers a reference on success. *)
Definition gained_ptr (o : obj) (p : ptr) : Z := if bool_decide (p = Some o) then 1 else 0.
Definition gained (o : obj) (r : kern_return_t * ptr) : Z :=
  if succeeded (fst r) then gained_ptr o (snd r) else 0.
Definition gained_with {A} (o : obj) (p : option (obj * A)) : Z := gained_ptr o (desc_ptr p).

(** How one event changes the number of references to [o] the driver owns. *)
Definition ref_delta (o : obj) (e : dk_event) : Z :=
  match e with
  | Ev c r =>
      match c in driverkitE R return R → Z with
      | OSObject_retain x => λ _, gained_ptr o (Some x)
      | OSObject_release x => λ _, - gained_ptr o (Some x)
      | IOUSBHostFreeDescriptor x => λ _, - gained_ptr o (Some x)
      | IOService_CopyProperties => gained o
      | IOUSBHostInterface_CopyProperties _ => gained o
      | IOUSBHostInterface_CopyDevice _ => gained o
      | CopyPipe _ _ => gained o
      | CreateIOBuffer _ _ => gained o
      | CreateActionGotData _ => gained o
      | CopyDeviceDescriptor _ => gained_with o
      | CopyStringDescriptor _ _ _ => gained_with o
      | CopyConfigurationDescriptorWithValue _ _ => gained_ptr o
      | CopyConfigurationDescriptor _ => gained_ptr o
      | OSDictionary_withCapacity _ => gained_ptr o
      | OSStringCreate _ _ => gained_ptr o
      | OSData_withBytesNoCopy _ _ => gained_ptr o
      | _ => λ _, 0
      end r
  end.

Fixpoint refs (o : obj) (tr : dk_trace) : Z :=
  match tr with
  | [] => 0
  | e :: tr' => ref_delta o e + refs o tr'
  end.

(** The descriptions made for the framework, which takes their references over. *)
Definition handed (e : dk_event) : list obj :=
  match e with
  | Ev c r =>
      match c in driverkitE R return R → list obj with
      | OSDictionary_withCapacity _ => option_list
      | OSData_withBytesNoCopy _ _ => option_list
      | _ => λ _, []
      end r
  end.
Definition handed_over (tr : dk_trace) : list obj := tr ≫= handed.

(** How many of the references to [o] a list of objects stands for. *)
Definition held (o : obj) (os : list obj) : Z :=
  foldr (λ x n, gained_ptr o (Some x) + n) 0 os.

(** The pipes opened, oldest first. *)
Definition opened_pipe (e : dk_event) : list obj :=
  match e with
  | Ev c r =>
      match c in driverkitE R return R → list obj with
      | CopyPipe _ _ => λ r, if succeeded (fst r) then option_list (snd r) else []
      | _ => λ _, []
      end r
  end.
Definition opened_pipes (tr : dk_trace) : list obj := tr ≫= opened_pipe.

(** Events without effect on the references. *)
Definition neutral (evs : dk_trace) : Prop :=
  (∀ o, refs o evs = 0) ∧ handed_over evs = [] ∧ opened_pipes evs = [].

(** The packets handed to a pipe for sending, with the pipe, oldest first.  Transfers
    the pipe then failed are among them. *)
Definition out_packet (e : dk_event) : list (obj * list Z) :=
  match e with
  | Ev c r =>
      match c in driverkitE R return R → list (obj * list Z) with
      | IOUSBHostPipe_IO p _ _ bs => λ _, [(p, bs)]
      | _ => λ _, []
      end r
  end.
Definition out_packets (tr : dk_trace) : list (obj * list Z) := tr ≫= out_packet.

(** The calls of [handleReport], oldest first: time stamp, length and bytes of the
    report, and whether the HID stack accepted it. *)
Definition hid_call (e : dk_event) : list (Z * Z * list Z * bool) :=
  match e with
  | Ev c r =>
      match c in driverkitE R return R → list (Z * Z * list Z * bool) with
      | IOUserHIDDevice_handleReport ts _ n bs => λ r, [(ts, n, bs, succeeded r)]
      | _ => λ _, []
      end r
  end.
Definition hid_calls (tr : dk_trace) : list (Z * Z * list Z * bool) := tr ≫= hid_call.
Definition hid_reports (tr : dk_trace) : list (Z * Z * list Z) := fst <$> hid_calls tr.
Definition hid_answers (tr : dk_trace) : list bool := snd <$> hid_calls tr.

(** Reads queued on the [IN] pipe that the framework accepted. *)
Definition read_armed (e : dk_event) : Z :=
  match e with
  | Ev c r =>
      match c in driverkitE R return R → Z with
      | IOUSBHostPipe_AsyncIO _ _ _ _ => λ r, if succeeded r then 1 else 0
      | _ => λ _, 0
      end r
  end.
Fixpoint reads_armed (tr : dk_trace) : Z :=
  match tr with
  | [] => 0
  | e :: tr' => read_armed e + reads_armed tr'
  end.

(** The address a buffer was last mapped at. *)
Definition map_of (b : obj) (e : dk_event) : option Z :=
  match e with
  | Ev c r =>
      match c in driverkitE R return R → option Z with
      | IOBufferMemoryDescriptor_Map x => λ r,
          if succeeded (fst r) && bool_decide (x = b) then Some (fst (fst (snd r))) else None
      | _ => λ _, None
      end r
  end.
Fixpoint mapped_at (b : obj) (tr : dk_trace) : option Z :=
  match tr with
  | [] => None
  | e :: tr' => match mapped_at b tr' with Some a => Some a | None => map_of b e end
  end.

(** What the buffers held when they were mapped, oldest first. *)
Definition mapping (e : dk_event) : list (list Z) :=
  match e with
  | Ev c r =>
      match c in driverkitE R return R → list (list Z) with
      | IOBufferMemoryDescriptor_Map _ => λ r, if succeeded (fst r) then [snd (snd r)] else []
      | _ => λ _, []
      end r
  end.
Definition mappings (tr : dk_trace) : list (list Z) := tr ≫= mapping.

(** The value a dictionary holds under a key: the last one set. *)
Definition dict_set_of (d : obj) (k : dict_key) (e : dk_event) : option dict_value :=
  match e with
  | Ev c r =>
      match c in driverkitE R return R → option dict_value with
      | OSDictionarySet d' k' v => λ _,
          if bool_decide (d' = d) && bool_decide (k' = k) then Some v else None
      | _ => λ _, None
      end r
  end.
Fixpoint dict_lookup (d : obj) (k : dict_key) (tr : dk_trace) : option dict_value :=
  match tr with
  | [] => None
  | e :: tr' => match dict_lookup d k tr' with Some v => Some v | None => dict_set_of d k e end
  end.

(** The count in a dispatch entry that turns its check off. *)
Definition kIOUserClientVariableStructureSize : Z := 0xffffffff.
Definition count_checked (expected actual : Z) : Prop :=
  expected = actual ∨ expected = kIOUserClientVariableStructureSize.

(** Documented behaviour some theorems rely on: creating a buffer yields an object, and
    a new one, which is not mapped yet; a mapping is as long as it is reported to be, at
    least as long as the buffer was created, and apart from the mappings there are; a
    string descriptor has the length its first byte says; starting a HID device calls
    [handleStart] at most once; a function of a dispatch table is only invoked when the
    argument counts pass the checks of its entry, and a call that is not carried out
    reports an error; creating a service follows the protocol of [creates]. *)
Class DriverKitOk (DK : DriverKit) : Prop := {
  ok_buffer_exists i n tr p :
    answer (CreateIOBuffer i n) tr = (kIOReturnSuccess, p) → is_Some p;
  ok_buffer_new i n tr b :
    answer (CreateIOBuffer i n) tr = (kIOReturnSuccess, Some b) → mapped_at b tr = None;
  ok_map_length b tr a n bs :
    answer (IOBufferMemoryDescriptor_Map b) tr = (kIOReturnSuccess, (a, n, bs)) →
    n = Z.of_nat (length bs);
  ok_map_capacity b tr a n bs i capacity :
    Ev (CreateIOBuffer i capacity) (kIOReturnSuccess, Some b) ∈ tr →
    answer (IOBufferMemoryDescriptor_Map b) tr = (kIOReturnSuccess, (a, n, bs)) →
    capacity ≤ n;
  ok_map_new b tr a n bs b' :
    answer (IOBufferMemoryDescriptor_Map b) tr = (kIOReturnSuccess, (a, n, bs)) →
    mapped_at b' tr ≠ Some a;
  ok_string_descriptor i index language tr o bytes :
    answer (CopyStringDescriptor i index language) tr = Some (o, bytes) →
    ∃ bLength, bytes !! 0%nat = Some bLength ∧ 0 ≤ bLength < 256 ∧
      bLength ≤ Z.of_nat (length bytes);
  ok_handles_once provider tr : handles_once true (answer (Super_Start_HID provider) tr);
  ok_external_checks selector checks inputs outputs tr :
    answer (Super_ExternalMethod selector checks inputs outputs) tr = None →
    ∃ c, checks = Some c ∧ count_checked (checkScalarInputCount c) inputs ∧
      count_checked (checkScalarOutputCount c) outputs;
  ok_external_refusal selector checks inputs outputs tr ret :
    answer (Super_ExternalMethod selector checks inputs outputs) tr = Some ret →
    ret ≠ kIOReturnSuccess;
  ok_creates properties tr : creates (answer (IOService_Create properties) tr);
}.

(** ** Shared idioms of the sources *)

Section idioms.
Context {DK : DriverKit} {S : Type}.
Abbreviation M := (M driverkitE S).

(** [OSSafeReleaseNULL]: the caller stores the null it returns. *)
Definition OSSafeReleaseNULL (p : ptr) : M unit :=
  match p with
  | Some o => call (OSObject_release o)
  | None => mret tt
  end.

Definition free_descriptor (p : ptr) : M unit :=
  match p with
  | Some d => call (IOUSBHostFreeDescriptor d)
  | None => mret tt
  end.

(** The bytes a call finds that is told to use [n] bytes of buffer [b]: the first [n]
    bytes the memory mapped for the buffer holds when the call is made, all of them
    when it holds fewer. *)
Definition buffer_contents (b : ptr) (n : Z) : M (list Z) :=
  tr ← get_trace;
  m ← get_mem;
  mret (default [] (o ← b; a ← mapped_at o tr; blk ← m !! a;
                    Some (take (Z.to_nat n) blk))).
End idioms.

(** ** Lemmas: histories are read piecewise *)

Lemma succeeded_true ret : succeeded ret = true ↔ ret = kIOReturnSuccess.
Proof. apply bool_decide_eq_true. Qed.

Lemma succeeded_success : succeeded kIOReturnSuccess = true.
Proof. done. Qed.

Lemma succeeded_false ret : succeeded ret = false ↔ ret ≠ kIOReturnSuccess.
Proof. apply bool_decide_eq_false. Qed.

Lemma refs_app o tr1 tr2 : refs o (tr1 ++ tr2) = refs o tr1 + refs o tr2.
Proof. induction tr1; simpl; lia. Qed.

Lemma handed_over_app tr1 tr2 : handed_over (tr1 ++ tr2) = handed_over tr1 ++ handed_over tr2.
Proof. apply bind_app. Qed.

Lemma handed_over_cons e tr : handed_over (e :: tr) = handed e ++ handed_over tr.
Proof. done. Qed.

Lemma held_app o h1 h2 : held o (h1 ++ h2) = held o h1 + held o h2.
Proof. unfold held. induction h1; simpl; lia. Qed.

Lemma opened_pipes_app tr1 tr2 : opened_pipes (tr1 ++ tr2) = opened_pipes tr1 ++ opened_pipes tr2.
Proof. apply bind_app. Qed.

Lemma opened_pipes_cons e tr : opened_pipes (e :: tr) = opened_pipe e ++ opened_pipes tr.
Proof. done. Qed.

Lemma neutral_app evs1 evs2 : neutral evs1 → neutral evs2 → neutral (evs1 ++ evs2).
Proof.
  intros (Ho1 & Hh1 & Hp1) (Ho2 & Hh2 & Hp2). split_and!.
  - intros o. by rewrite refs_app, Ho1, Ho2.
  - by rewrite handed_over_app, Hh1, Hh2.
  - by rewrite opened_pipes_app, Hp1, Hp2.
Qed.

Lemma out_packets_app tr1 tr2 : out_packets (tr1 ++ tr2) = out_packets tr1 ++ out_packets tr2.
Proof. apply bind_app. Qed.

Lemma out_packets_cons e tr : out_packets (e :: tr) = out_packet e ++ out_packets tr.
Proof. done. Qed.

Lemma hid_calls_app tr1 tr2 : hid_calls (tr1 ++ tr2) = hid_calls tr1 ++ hid_calls tr2.
Proof. apply bind_app. Qed.

Lemma hid_calls_cons e tr : hid_calls (e :: tr) = hid_call e ++ hid_calls tr.
Proof. done. Qed.

Lemma hid_reports_app tr1 tr2 : hid_reports (tr1 ++ tr2) = hid_reports tr1 ++ hid_reports tr2.
Proof. unfold hid_reports. by rewrite hid_calls_app, fmap_app. Qed.

Lemma hid_answers_app tr1 tr2 : hid_answers (tr1 ++ tr2) = hid_answers tr1 ++ hid_answers tr2.
Proof. unfold hid_answers. by rewrite hid_calls_app, fmap_app. Qed.

Lemma mappings_app tr1 tr2 : mappings (tr1 ++ tr2) = mappings tr1 ++ mappings tr2.
Proof. apply bind_app. Qed.

Lemma mappings_cons e tr : mappings (e :: tr) = mapping e ++ mappings tr.
Proof. done. Qed.

Lemma reads_armed_app tr1 tr2 : reads_armed (tr1 ++ tr2) = reads_armed tr1 + reads_armed tr2.
Proof. induction tr1; simpl; lia. Qed.

Lemma mapped_at_app b tr1 tr2 :
  mapped_at b (tr1 ++ tr2) =
    match mapped_at b tr2 with Some a => Some a | None => mapped_at b tr1 end.
Proof.
  induction tr1 as [|e tr1 IH]; simpl; [by destruct (mapped_at b tr2)|].
  rewrite IH. by destruct (mapped_at b tr2).
Qed.

Lemma dict_lookup_app d k tr1 tr2 :
  dict_lookup d k (tr1 ++ tr2) =
    match dict_lookup d k tr2 with Some v => Some v | None => dict_lookup d k tr1 end.
Proof.
  induction tr1 as [|e tr1 IH]; simpl; [by destruct (dict_lookup d k tr2)|].
  rewrite IH. by destruct (dict_lookup d k tr2).
Qed.

#[export] Hint Rewrite out_packets_cons hid_calls_cons mappings_cons refs_app out_packets_app
  hid_calls_app hid_reports_app hid_answers_app reads_armed_app mapped_at_app mappings_app
  dict_lookup_app handed_over_app opened_pipes_app : trace.

(** The reference ledger, one event at a time. *)
Lemma gained_ptr_null o : gained_ptr o nullptr = 0.
Proof. done. Qed.

Lemma held_option o p : held o (option_list p) = gained_ptr o p.
Proof. destruct p; simpl; rewrite ?gained_ptr_null; lia. Qed.

Lemma gained_success o p : gained o (kIOReturnSuccess, p) = gained_ptr o p.
Proof. done. Qed.

Lemma gained_with_none {A} o : gained_with (A:=A) o None = 0.
Proof. apply gained_ptr_null. Qed.

Lemma gained_with_some {A} o x (a : A) : gained_with o (Some (x, a)) = gained_ptr o (Some x).
Proof. done. Qed.

#[export] Hint Rewrite gained_ptr_null gained_success @gained_with_none @gained_with_some : ledger.

Ltac solve_ledger := intros; cbn [refs ref_delta app]; autorewrite with ledger; lia.

(** ** Events that neither talk to the controller nor open pipes nor map memory *)

Definition silent_event (e : dk_event) : Prop :=
  out_packet e = [] ∧ hid_call e = [] ∧ read_armed e = 0 ∧ mapping e = [] ∧
  opened_pipe e = [] ∧ ∀ b, map_of b e = None.
Definition silent (evs : dk_trace) : Prop := Forall silent_event evs.

Lemma silent_projections evs :
  silent evs → out_packets evs = [] ∧ hid_calls evs = [] ∧ reads_armed evs = 0 ∧
    mappings evs = [] ∧ opened_pipes evs = [] ∧ ∀ b, mapped_at b evs = None.
Proof.
  induction 1 as [|e evs (Hs & Hh & Ha & Hp & Ho & Hm) _ (IHs & IHh & IHa & IHp & IHo & IHm)]; [done|].
  rewrite out_packets_cons, hid_calls_cons, mappings_cons, opened_pipes_cons. simpl.
  rewrite Hs, Hh, Ha, Hp, Ho, IHs, IHh, IHa, IHp, IHo. split_and!; try done.
  intros b. by rewrite IHm, Hm.
Qed.

Lemma silent_app evs1 evs2 : silent evs1 → silent evs2 → silent (evs1 ++ evs2).
Proof. apply Forall_app_2. Qed.

Lemma silent_cons e evs : silent_event e → silent evs → silent (e :: evs).
Proof. by constructor. Qed.

Lemma silent_nil : silent [].
Proof. constructor. Qed.

Create HintDb silent.
#[export] Hint Resolve silent_app silent_cons silent_nil : silent.
#[export] Hint Extern 1 (silent_event _) => done : silent.
