(* ===== verification/Sample.v ===== *)
(** * Sample: a concrete framework

    An instance of [DriverKit] that behaves like the real one with an Xbox One
    controller attached.  It shows that the hypotheses of the theorems can hold
    together, and it is what their witnesses run the driver on. *)

From S2P Require Import Prelude Effects DriverKit.

(** ** Objects *)

Definition sample_provider : obj := 1%positive.
Definition sample_config : obj := 2%positive.
Definition sample_interface_descriptor : obj := 3%positive.
Definition sample_ep_in : obj := 4%positive.
Definition sample_ep_out : obj := 5%positive.
Definition sample_ep_in2 : obj := 6%positive.
Definition sample_ep_audio : obj := 7%positive.
Definition sample_action : obj := 30%positive.
Definition sample_properties : obj := 31%positive.
Definition sample_device : obj := 32%positive.
Definition sample_device_descriptor : obj := 33%positive.
Definition sample_dict : obj := 34%positive.
Definition sample_string : obj := 35%positive.
Definition sample_string_descriptor : obj := 36%positive.
Definition sample_data : obj := 37%positive.
Definition sample_client : obj := 38%positive.

(** The pipe of an endpoint address. *)
Definition sample_pipe (address : Z) : obj := Z.to_pos (1000 + address).

(** An object no event of the history maps. *)
Fixpoint sample_fresh (tr : dk_trace) : obj :=
  match tr with
  | [] => 100%positive
  | Ev c r :: tr' =>
      match c in driverkitE R return obj with
      | IOBufferMemoryDescriptor_Map b => Pos.max (sample_fresh tr') (Pos.succ b)
      | _ => sample_fresh tr'
      end
  end.

(** An address behind all mappings of the history. *)
Fixpoint sample_address (tr : dk_trace) : Z :=
  match tr with
  | [] => 65536
  | Ev c r :: tr' =>
      match c in driverkitE R return R → Z with
      | IOBufferMemoryDescriptor_Map _ => λ r, Z.max (sample_address tr') (fst (fst (snd r)) + 65536)
      | _ => λ _, sample_address tr'
      end r
  end.

(** The capacity a buffer was created with. *)
Definition sample_created (b : obj) (e : dk_event) : Z :=
  match e with
  | Ev c r =>
      match c in driverkitE R return R → Z with
      | CreateIOBuffer _ n => λ r, if bool_decide (snd r = Some b) then n else 0
      | _ => λ _, 0
      end r
  end.
Fixpoint sample_capacity (b : obj) (tr : dk_trace) : Z :=
  match tr with
  | [] => 0
  | e :: tr' => Z.max (sample_created b e) (sample_capacity b tr')
  end.

Definition sample_descriptor_contents : IOUSBDeviceDescriptor :=
  {| idVendor := 1118; idProduct := 746; bcdDevice := 0x0408; iManufacturer := 1;
     iProduct := 2; iSerialNumber := 0; bNumConfigurations := 1 |}.

(** "Xbox" as a string descriptor. *)
Definition sample_string_bytes : list Z := [10; 3; 0x58; 0; 0x62; 0; 0x6f; 0; 0x78; 0].

Definition sample_answer : Env driverkitE := λ R c tr,
  match c in driverkitE R return R with
  | Super_init => true
  | Super_Start_HID _ =>
      StartHandleStart (λ ok, StartNewDeviceDescription (λ _, StartNewReportDescriptor (λ _,
        StartReturn (if ok then kIOReturnSuccess else kIOReturnError))))
  | Super_Start_USBHID _ =>
      UsbStartHandleStart (λ ok, UsbStartReturn (if ok then kIOReturnSuccess else kIOReturnError))
  | Super_Start _ => kIOReturnSuccess
  | Super_handleStart _ => true
  | Super_Stop _ => kIOReturnSuccess
  | Super_free => tt
  | RegisterService => kIOReturnSuccess
  | IOService_Create _ =>
      CreateInit sample_client (λ ok,
        if ok then
          CreateStart sample_client (λ r,
            if succeeded r then CreateReturn kIOReturnSuccess (Some sample_client)
            else CreateReturn r nullptr)
        else CreateReturn kIOReturnError nullptr)
  | IOService_CopyProperties => (kIOReturnSuccess, Some sample_properties)
  | IONewZero => true
  | IODelete => tt
  | OSObject_retain _ => tt
  | OSObject_release _ => tt
  | IOUSBHostFreeDescriptor _ => tt
  | IOUSBHostDevice_Open _ => kIOReturnSuccess
  | CopyDeviceDescriptor _ => Some (sample_device_descriptor, sample_descriptor_contents)
  | CopyConfigurationDescriptorWithValue _ _ => Some sample_config
  | SetConfiguration _ _ _ => kIOReturnSuccess
  | IOUSBHostInterface_Open _ => kIOReturnSuccess
  | CopyConfigurationDescriptor _ => Some sample_config
  | GetInterfaceDescriptor _ _ => Some (sample_interface_descriptor, 0)
  | CopyStringDescriptor _ _ _ => Some (sample_string_descriptor, sample_string_bytes)
  | IOUSBHostInterface_CopyProperties _ => (kIOReturnSuccess, Some sample_properties)
  | IOUSBHostInterface_CopyDevice _ => (kIOReturnSuccess, Some sample_device)
  | CopyPipe _ a => (kIOReturnSuccess, Some (sample_pipe a))
  | CreateIOBuffer _ _ => (kIOReturnSuccess, Some (sample_fresh tr))
  | IOUSBHostPipe_GetSpeed _ => (kIOReturnSuccess, 2)
  | IOBufferMemoryDescriptor_Map b =>
      (kIOReturnSuccess, (sample_address tr, sample_capacity b tr,
                          replicate (Z.to_nat (sample_capacity b tr)) 0))
  | IOUSBHostPipe_AsyncIO _ _ _ _ => kIOReturnSuccess
  | IOUSBHostPipe_IO _ _ n _ => (kIOReturnSuccess, n)
  | CreateActionGotData _ => (kIOReturnSuccess, Some sample_action)
  | OSAction_Cancel _ _ => tt
  | IOUserHIDDevice_handleReport _ _ _ _ => kIOReturnSuccess
  | OSDictionary_withCapacity _ => Some sample_dict
  | OSDictionarySet _ _ _ => tt
  | OSDictionaryGetValue _ _ => Some sample_string
  | OSDictionaryGetUInt64Value _ k =>
      if decide (k = kIOHIDMaxInputReportSizeKey) then 64
      else if decide (k = kIOHIDMaxOutputReportSizeKey) then 13 else 0
  | OSStringCreate _ _ => Some sample_string
  | OSData_withBytesNoCopy _ _ => Some sample_data
  | Super_ExternalMethod _ checks inputs outputs =>
      match checks with
      | Some ch => if decide (checkScalarInputCount ch = inputs ∧
                              checkScalarOutputCount ch = outputs)
                   then None else Some kIOReturnBadArgument
      | None => Some kIOReturnBadArgument
      end
  | ExternalFunction _ => kIOReturnSuccess
  end.

(** Iterates over a list of endpoint descriptors. *)
Fixpoint next_endpoint (eps : list obj) (cur : obj) : ptr :=
  match eps with
  | [] => nullptr
  | e :: eps' => if decide (e = cur) then head eps' else next_endpoint eps' cur
  end.

(** The framework with a given environment and list of endpoints. *)
Definition sample_with (env : Env driverkitE) (eps : list obj) (debug : bool) : DriverKit := {|
  dk_env := env;
  dk_instanceof := λ cls o,
    match cls with
    | Class_IOUSBHostInterface => bool_decide (o = sample_provider)
    | Class_IOUSBHostDevice => bool_decide (o = sample_device)
    | Class_XboxOneInputInterface => bool_decide (o = 50%positive)
    | Class_XboxOneUserClient => bool_decide (o = sample_client)
    end;
  IOUSBGetNextEndpointDescriptor := λ _ _ cur,
    match cur with Some e => next_endpoint eps e | None => head eps end;
  IOUSBGetEndpointType := λ ep,
    if decide (ep = sample_ep_audio) then kIOUSBEndpointTypeIsochronous
    else kIOUSBEndpointTypeInterrupt;
  IOUSBGetEndpointDirection := λ ep,
    if decide (ep = sample_ep_out) then kIOUSBEndpointDirectionOut
    else kIOUSBEndpointDirectionIn;
  IOUSBGetEndpointAddress := λ ep,
    if decide (ep = sample_ep_out) then 0x02
    else if decide (ep = sample_ep_in2) then 0x83 else 0x81;
  IOUSBGetEndpointIntervalFrames := λ _ _, 4;
  IOUSBGetEndpointMaxPacketSize := λ _ _, 64;
  USBToHost16 := λ v, v;
  kIOUSBHostPortTypeInternal := 2;
  DEBUG := debug |}.

Definition sample : DriverKit :=
  sample_with sample_answer [sample_ep_audio; sample_ep_in; sample_ep_out] true.

(** The object the driver runs as. *)
Definition sample_this : obj := 50%positive.

(** ** The sample framework behaves as documented *)

Lemma sample_fresh_map b tr a : mapped_at b tr = Some a → (b < sample_fresh tr)%positive.
Proof.
  induction tr as [|[R c r] tr IH]; simpl; [done|].
  destruct (mapped_at b tr) as [a'|] eqn:Hm.
  { intros Ha. specialize (IH Ha). destruct c; lia. }
  clear IH. destruct c; simpl; try done.
  destruct (succeeded _); simpl; [|done]. case_bool_decide; [|done]. subst. intros _. lia.
Qed.

Lemma sample_address_map b tr a : mapped_at b tr = Some a → a < sample_address tr.
Proof.
  induction tr as [|[R c r] tr IH]; simpl; [done|].
  destruct (mapped_at b tr) as [a'|] eqn:Hm.
  { intros [= ->]. specialize (IH eq_refl). destruct c; lia. }
  clear IH. destruct c; simpl; try done.
  destruct (succeeded _); simpl; [|done]. case_bool_decide; [|done]. intros [= <-]. lia.
Qed.

Lemma sample_capacity_nonneg b tr : 0 ≤ sample_capacity b tr.
Proof. induction tr; simpl; lia. Qed.

Lemma sample_capacity_created i n b tr :
  Ev (CreateIOBuffer i n) (kIOReturnSuccess, Some b) ∈ tr → n ≤ sample_capacity b tr.
Proof.
  induction tr as [|e tr IH]; simpl; [by intros ?%elem_of_nil|].
  intros [<-|Hin]%elem_of_cons; [|specialize (IH Hin); lia]. simpl.
  rewrite bool_decide_eq_true_2 by done. lia.
Qed.

#[global] Instance sample_with_ok eps debug : DriverKitOk (sample_with sample_answer eps debug).
Proof.
  split.
  - intros i n tr p [= <-]. eauto.
  - intros i n tr b [= <-]. destruct (mapped_at (sample_fresh tr) tr) eqn:Hm; [|done].
    apply sample_fresh_map in Hm. lia.
  - intros b tr a n bs [= <- <- <-]. rewrite length_replicate.
    pose proof (sample_capacity_nonneg b tr). lia.
  - intros b tr a n bs i capacity Hin [= <- <- <-]. by apply sample_capacity_created in Hin.
  - intros b tr a n bs b' [= <- <- <-] Hm. apply sample_address_map in Hm. lia.
  - intros i n l tr o bytes [= <- <-]. exists 10. split_and!; [done|lia..|simpl; lia].
  - intros provider tr. by repeat split.
  - intros selector [c|] inputs outputs tr Hr; [|done].
    change ((if decide (checkScalarInputCount c = inputs ∧ checkScalarOutputCount c = outputs)
             then None else Some kIOReturnBadArgument) = None) in Hr.
    case_decide as Hc; [|done]. destruct Hc. exists c. by split_and!; [|left|left].
  - intros selector [c|] inputs outputs tr ret Hr; [|by injection Hr as <-].
    change ((if decide (checkScalarInputCount c = inputs ∧ checkScalarOutputCount c = outputs)
             then None else Some kIOReturnBadArgument) = Some ret) in Hr.
    case_decide; [done|by injection Hr as <-].
  - intros properties tr. exists kIOReturnError. split_and!; [done..|]. eexists. split; [done|]. done.
Qed.

#[global] Instance sample_ok : DriverKitOk sample := sample_with_ok _ _.
