(* ===== verification/Packets.v ===== *)
(** * Packets: src/XboxControllerDriver/XboxOne/XboxOneInputPackets.h

    The structures are given twice: as C types, from which [sizeof] and the
    field offsets are computed by the rules of the target ABI (each member at the
    next multiple of its alignment, the whole padded to the largest alignment),
    and as records with the bytes that represent them in memory.  The button bits are
    shown to cover their field. *)

From S2P Require Import Prelude.

(** ** C layout *)

#[local] Set Warnings "-register-all".
Inductive ctype : Set :=
| CInt (bytes : Z)
| CArray (n : Z) (t : ctype)
| CStruct (fields : list ctype).

Definition align_up (off al : Z) : Z := (off + al - 1) / al * al.

Fixpoint alignof (t : ctype) : Z :=
  match t with
  | CInt n => n
  | CArray _ t => alignof t
  | CStruct fs => fold_right (λ t a, Z.max (alignof t) a) 1 fs
  end.

Fixpoint sizeof (t : ctype) : Z :=
  match t with
  | CInt n => n
  | CArray n t => n * sizeof t
  | CStruct fs =>
      align_up (fold_left (λ off t, align_up off (alignof t) + sizeof t) fs 0)
               (fold_right (λ t a, Z.max (alignof t) a) 1 fs)
  end.

(** The offsets of the members of a structure. *)
Fixpoint offsets_from (off : Z) (fs : list ctype) : list Z :=
  match fs with
  | [] => []
  | t :: fs' => let o := align_up off (alignof t) in o :: offsets_from (o + sizeof t) fs'
  end.
Definition offsets (t : ctype) : list Z :=
  match t with
  | CStruct fs => offsets_from 0 fs
  | _ => []
  end.

Definition uint8_t : ctype := CInt 1.
Definition uint16_t : ctype := CInt 2.
Definition int16_t : ctype := CInt 2.

(** ** Packet types *)

Definition XBOXONE_IN_GUIDE : Z := 0x07.
Definition XBOXONE_IN_BUTTON : Z := 0x20.

(** ** Packets from the controller *)

Record xboxone_report_header : Set := {
  packetType : Z;
  version : Z;
  counter : Z;
  size : Z;
}.
Definition c_xboxone_report_header : ctype := CStruct [uint8_t; uint8_t; uint8_t; uint8_t].
Definition XBOXONE_REPORT_HEADER_SIZE : Z := wrap8 (sizeof c_xboxone_report_header).

Record xboxone_button_report : Set := {
  b_header : xboxone_report_header;
  buttons : Z;
  trigL : Z;
  trigR : Z;
  leftX : Z;
  leftY : Z;
  rightX : Z;
  rightY : Z;
}.
Definition c_xboxone_button_report : ctype :=
  CStruct [c_xboxone_report_header; uint16_t; uint16_t; uint16_t;
           int16_t; int16_t; int16_t; int16_t].
Definition XBOXONE_BUTTON_REPORT_SIZE : Z :=
  wrap8 (sizeof c_xboxone_button_report - XBOXONE_REPORT_HEADER_SIZE).

Record xboxone_guide_report : Set := {
  g_header : xboxone_report_header;
  guide : Z;
  _reserved1 : Z;
}.
Definition c_xboxone_guide_report : ctype :=
  CStruct [c_xboxone_report_header; uint8_t; uint8_t].
Definition XBOXONE_GUIDE_REPORT_SIZE : Z :=
  wrap8 (sizeof c_xboxone_guide_report - XBOXONE_REPORT_HEADER_SIZE).

Inductive xboxone_buttons : Set :=
| XBOXONE_SYNC | XBOXONE_GUIDE | XBOXONE_MENU | XBOXONE_VIEW
| XBOXONE_A | XBOXONE_B | XBOXONE_X | XBOXONE_Y
| XBOXONE_DPAD_UP | XBOXONE_DPAD_DOWN | XBOXONE_DPAD_LEFT | XBOXONE_DPAD_RIGHT
| XBOXONE_LEFT_SHOULDER | XBOXONE_RIGHT_SHOULDER | XBOXONE_LEFT_THUMB | XBOXONE_RIGHT_THUMB.

Definition button_value (b : xboxone_buttons) : Z :=
  match b with
  | XBOXONE_SYNC => 0x0001
  | XBOXONE_GUIDE => 0x0002
  | XBOXONE_MENU => 0x0004
  | XBOXONE_VIEW => 0x0008
  | XBOXONE_A => 0x0010
  | XBOXONE_B => 0x0020
  | XBOXONE_X => 0x0040
  | XBOXONE_Y => 0x0080
  | XBOXONE_DPAD_UP => 0x0100
  | XBOXONE_DPAD_DOWN => 0x0200
  | XBOXONE_DPAD_LEFT => 0x0400
  | XBOXONE_DPAD_RIGHT => 0x0800
  | XBOXONE_LEFT_SHOULDER => 0x1000
  | XBOXONE_RIGHT_SHOULDER => 0x2000
  | XBOXONE_LEFT_THUMB => 0x4000
  | XBOXONE_RIGHT_THUMB => 0x8000
  end.

(** Every button, in the order of the enumeration. *)
Definition all_buttons : list xboxone_buttons :=
  [XBOXONE_SYNC; XBOXONE_GUIDE; XBOXONE_MENU; XBOXONE_VIEW;
   XBOXONE_A; XBOXONE_B; XBOXONE_X; XBOXONE_Y;
   XBOXONE_DPAD_UP; XBOXONE_DPAD_DOWN; XBOXONE_DPAD_LEFT; XBOXONE_DPAD_RIGHT;
   XBOXONE_LEFT_SHOULDER; XBOXONE_RIGHT_SHOULDER; XBOXONE_LEFT_THUMB; XBOXONE_RIGHT_THUMB].

(** A button is pressed when its bit of the field is set. *)
Definition pressed (field : Z) (b : xboxone_buttons) : bool :=
  bool_decide (Z.land field (button_value b) ≠ 0).

(** ** Packets to the controller *)

Record xboxone_guide_response : Set := {
  r_header : xboxone_report_header;
  constData : list Z;
  padding : list Z;
}.
Definition c_xboxone_guide_response : ctype :=
  CStruct [c_xboxone_report_header; CArray 4 uint8_t; CArray 5 uint8_t].
Definition XBOXONE_GUIDE_RESPONSE_SIZE : Z :=
  wrap8 (sizeof c_xboxone_guide_response - XBOXONE_REPORT_HEADER_SIZE).

(** ** Object representations

    The bytes of a structure in the memory of a little-endian machine: what a pointer
    to it, cast to a byte pointer, points to.  The driver sends a guide response this
    way; for the reports it is what the controller sends. *)

Definition encode_header (h : xboxone_report_header) : list Z :=
  [packetType h; version h; counter h; size h].

Definition encode_button_report (r : xboxone_button_report) : list Z :=
  encode_header (b_header r) ++ le_bytes 2 (buttons r) ++
  le_bytes 2 (trigL r) ++ le_bytes 2 (trigR r) ++
  le_bytes 2 (leftX r) ++ le_bytes 2 (leftY r) ++ le_bytes 2 (rightX r) ++ le_bytes 2 (rightY r).

Definition encode_guide_report (r : xboxone_guide_report) : list Z :=
  encode_header (g_header r) ++ [guide r; _reserved1 r].

Definition encode_guide_response (r : xboxone_guide_response) : list Z :=
  encode_header (r_header r) ++ constData r ++ padding r.

(** [offsetof] for the [i]-th member. *)
Definition offset_of (t : ctype) (i : nat) : Z := offsets t !!! i.

(** Members within the range of their C type. *)
Definition wf_header (h : xboxone_report_header) : Prop :=
  u8 (packetType h) ∧ u8 (version h) ∧ u8 (counter h) ∧ u8 (size h).
Definition wf_button_report (r : xboxone_button_report) : Prop :=
  wf_header (b_header r) ∧ u16 (buttons r) ∧ u16 (trigL r) ∧ u16 (trigR r) ∧
  i16 (leftX r) ∧ i16 (leftY r) ∧ i16 (rightX r) ∧ i16 (rightY r).

(** ** Lemmas *)

Lemma bytes2_u16 v : u16 v → le_value (le_bytes 2 v) = v.
Proof. intros Hv. apply le_value_bytes. unfold u16 in Hv. lia. Qed.

Lemma le_bytes_2_wrap v : le_bytes 2 (wrap16 v) = le_bytes 2 v.
Proof. unfold wrap16. cbn [le_bytes]. f_equal; [lia|f_equal; lia]. Qed.

Definition button_index (b : xboxone_buttons) : nat :=
  match b with
  | XBOXONE_SYNC => 0 | XBOXONE_GUIDE => 1 | XBOXONE_MENU => 2 | XBOXONE_VIEW => 3
  | XBOXONE_A => 4 | XBOXONE_B => 5 | XBOXONE_X => 6 | XBOXONE_Y => 7
  | XBOXONE_DPAD_UP => 8 | XBOXONE_DPAD_DOWN => 9
  | XBOXONE_DPAD_LEFT => 10 | XBOXONE_DPAD_RIGHT => 11
  | XBOXONE_LEFT_SHOULDER => 12 | XBOXONE_RIGHT_SHOULDER => 13
  | XBOXONE_LEFT_THUMB => 14 | XBOXONE_RIGHT_THUMB => 15
  end%nat.

Lemma button_value_pow2 b : button_value b = 2 ^ button_index b.
Proof. by destruct b. Qed.

Lemma pressed_testbit v b : pressed v b = Z.testbit v (button_index b).
Proof. unfold pressed. rewrite button_value_pow2. apply land_pow2_testbit. lia. Qed.

(** ** Theorems *)

(** C22: the sixteen enumerators are sixteen distinct single bits that cover the
    [buttons] field: the field is the sum of the values of the pressed buttons. *)
Theorem buttons_field_pressed field :
  u16 field →
  field = foldr (λ b acc, (if pressed field b then button_value b else 0) + acc) 0 all_buttons.
Proof.
  intros Hf. transitivity (bits_sum 16 field).
  { rewrite bits_sum_mod. symmetry. apply Z.mod_small, Hf. }
  unfold all_buttons. cbn [foldr]. rewrite !pressed_testbit, !button_value_pow2.
  cbn [bits_sum button_index]. lia.
Qed.

Lemma buttons_field_pressed_witness :
  0x8011 = foldr (λ b acc, (if pressed 0x8011 b then button_value b else 0) + acc) 0 all_buttons.
Proof. apply (buttons_field_pressed 0x8011). vm_compute. intuition discriminate. Defined.
