(* ===== verification/Descriptors.v ===== *)
(** * Descriptors: src/XboxControllerDriver/XboxOne/XboxOneDescriptors.h

    [ReportDescriptor] is the byte string the driver hands to the HID stack in
    [newReportDescriptor].  The stack reads the controller's packets through it,
    so the descriptor is correct when it lays the fields out where the packet
    structures of Packets.v have them.  The reading of a report descriptor is
    specified here from the USB HID 1.11 standard (section 6.2.2: short items,
    global and local state, input items); it is the specification the
    descriptor is checked against and models no code of the repository. *)

From S2P Require Import Prelude Packets.

Definition ReportDescriptor : list Z := [
  0x05; 0x01;  (* USAGE_PAGE (Generic Desktop) *)
  0x09; 0x05;  (* USAGE (Game Pad) *)
  0xa1; 0x01;  (* COLLECTION (Application) *)
  0xa1; 0x00;  (* COLLECTION (Physical) *)
  0x85; 0x20;  (* REPORT_ID (32) *)
  0x75; 0x08;  (* REPORT_SIZE (8) *)
  0x95; 0x03;  (* REPORT_COUNT (3) *)
  0x81; 0x03;  (* INPUT (Cnst,Var,Abs) *)
  0x05; 0x09;  (* USAGE_PAGE (Button) *)
  0x09; 0x0b;  (* USAGE (Button 11) *)
  0x15; 0x01;  (* LOGICAL_MINIMUM (1) *)
  0x75; 0x01;  (* REPORT_SIZE (1) *)
  0x95; 0x01;  (* REPORT_COUNT (1) *)
  0x81; 0x02;  (* INPUT (Data,Var,Abs) *)
  0x81; 0x03;  (* INPUT (Cnst,Var,Abs) *)
  0x19; 0x09;  (* USAGE_MINIMUM (Button 9) *)
  0x29; 0x0a;  (* USAGE_MAXIMUM (Button 10) *)
  0x95; 0x02;  (* REPORT_COUNT (2) *)
  0x81; 0x02;  (* INPUT (Data,Var,Abs) *)
  0x19; 0x01;  (* USAGE_MINIMUM (Button 1) *)
  0x29; 0x04;  (* USAGE_MAXIMUM (Button 4) *)
  0x95; 0x04;  (* REPORT_COUNT (4) *)
  0x81; 0x02;  (* INPUT (Data,Var,Abs) *)
  0x19; 0x0c;  (* USAGE_MINIMUM (Button 12) *)
  0x29; 0x0f;  (* USAGE_MAXIMUM (Button 15) *)
  0x81; 0x02;  (* INPUT (Data,Var,Abs) *)
  0x19; 0x05;  (* USAGE_MINIMUM (Button 5) *)
  0x29; 0x06;  (* USAGE_MAXIMUM (Button 6) *)
  0x95; 0x02;  (* REPORT_COUNT (2) *)
  0x81; 0x02;  (* INPUT (Data,Var,Abs) *)
  0x19; 0x07;  (* USAGE_MINIMUM (Button 7) *)
  0x29; 0x08;  (* USAGE_MAXIMUM (Button 8) *)
  0x81; 0x02;  (* INPUT (Data,Var,Abs) *)
  0x05; 0x01;  (* USAGE_PAGE (Generic Desktop) *)
  0x09; 0x32;  (* USAGE (Z) *)
  0x09; 0x35;  (* USAGE (Rz) *)
  0x15; 0x00;  (* LOGICAL_MINIMUM (0) *)
  0x26; 0xff; 0x03;  (* LOGICAL_MAXIMUM (1023) *)
  0x75; 0x10;  (* REPORT_SIZE (16) *)
  0x81; 0x02;  (* INPUT (Data,Var,Abs) *)
  0x09; 0x30;  (* USAGE (X) *)
  0x09; 0x31;  (* USAGE (Y) *)
  0x09; 0x33;  (* USAGE (Rx) *)
  0x09; 0x34;  (* USAGE (Ry) *)
  0x16; 0x00; 0x80;  (* LOGICAL_MINIMUM (-32768) *)
  0x26; 0xff; 0x7f;  (* LOGICAL_MAXIMUM (32767) *)
  0x95; 0x04;  (* REPORT_COUNT (4) *)
  0x81; 0x02;  (* INPUT (Data,Var,Abs) *)
  0xc0;  (* END_COLLECTION *)
  0x05; 0x01;  (* USAGE_PAGE (Generic Desktop) *)
  0x09; 0x05;  (* USAGE (Game Pad) *)
  0xa1; 0x00;  (* COLLECTION (Physical) *)
  0x85; 0x07;  (* REPORT_ID (7) *)
  0x75; 0x08;  (* REPORT_SIZE (8) *)
  0x95; 0x03;  (* REPORT_COUNT (3) *)
  0x81; 0x03;  (* INPUT (Cnst,Var,Abs) *)
  0x05; 0x09;  (* USAGE_PAGE (Button) *)
  0x09; 0x10;  (* USAGE (Button 16) *)
  0x15; 0x00;  (* LOGICAL_MINIMUM (0) *)
  0x25; 0x01;  (* LOGICAL_MAXIMUM (1) *)
  0x75; 0x01;  (* REPORT_SIZE (1) *)
  0x95; 0x01;  (* REPORT_COUNT (1) *)
  0x81; 0x02;  (* INPUT (Data,Var,Abs) *)
  0x75; 0x0a;  (* REPORT_SIZE (15) *)
  0x81; 0x03;  (* INPUT (Cnst,Var,Abs) *)
  0xc0;  (* END_COLLECTION *)
  0xc0  (* END_COLLECTION *)
].
Definition REPORT_DESCRIPTOR_SIZE : Z := wrap32 (Z.of_nat (length ReportDescriptor)).

(** ** HID 1.11: items *)

Record hid_item : Set := { it_type : Z; it_tag : Z; it_data : list Z }.

(** A short item: a prefix byte with size, type and tag, then 0, 1, 2 or 4 bytes. *)
Fixpoint read_items (fuel : nat) (bs : list Z) : option (list hid_item) :=
  match fuel, bs with
  | _, [] => Some []
  | O, _ => None
  | S fuel', p :: bs' =>
      let n := Z.to_nat (if decide (Z.land p 3 = 3) then 4 else Z.land p 3) in
      if decide (length bs' < n)%nat then None else
      rest ← read_items fuel' (drop n bs');
      Some ({| it_type := Z.land (Z.shiftr p 2) 3; it_tag := Z.shiftr p 4;
               it_data := take n bs' |} :: rest)
  end.

Definition item_unsigned (i : hid_item) : Z := le_value (it_data i).
Definition item_signed (i : hid_item) : Z :=
  match it_data i with
  | [] => 0
  | bs => to_signed (8 * Z.of_nat (length bs)) (le_value bs)
  end.

(** ** HID 1.11: the parser state and the fields it produces *)

Record hid_global : Set := {
  g_page : Z;
  g_min : option Z;
  g_max : option Z;
  g_size : Z;
  g_count : Z;
  g_report : Z;
}.

Record hid_field : Set := Field {
  f_report : Z;            (* report ID *)
  f_offset : Z;            (* in bits, from the report ID byte *)
  f_size : Z;
  f_page : Z;
  f_usage : option Z;      (* None: padding *)
  f_min : option Z;
  f_max : option Z;
}.

Record hid_state : Set := {
  hs_global : hid_global;
  hs_usages : list Z;      (* usages declared for the next main item *)
  hs_umin : option Z;
  hs_depth : Z;            (* open collections *)
  hs_offsets : gmap Z Z;   (* bits used so far by each report ID *)
  hs_fields : list hid_field;
}.

Definition hid_initial : hid_state := {|
  hs_global := {| g_page := 0; g_min := None; g_max := None; g_size := 0; g_count := 0;
                  g_report := 0 |};
  hs_usages := []; hs_umin := None; hs_depth := 0; hs_offsets := ∅; hs_fields := [] |}.

Definition with_global (g : hid_global) (s : hid_state) : hid_state := {|
  hs_global := g; hs_usages := hs_usages s; hs_umin := hs_umin s; hs_depth := hs_depth s;
  hs_offsets := hs_offsets s; hs_fields := hs_fields s |}.

(** The report ID byte itself takes the first eight bits. *)
Definition used_bits (s : hid_state) (id : Z) : Z := default 8 (hs_offsets s !! id).

(** The [i]-th control of an item has the [i]-th usage, the last one repeating. *)
Definition usage_of (us : list Z) (i : nat) : option Z :=
  match us !! i with Some u => Some u | None => last us end.

Fixpoint input_fields (g : hid_global) (us : list Z) (const : bool) (off : Z) (i n : nat)
    : list hid_field :=
  match n with
  | O => []
  | S n' =>
      {| f_report := g_report g; f_offset := off; f_size := g_size g; f_page := g_page g;
         f_usage := if const then None else usage_of us i;
         f_min := g_min g; f_max := g_max g |}
      :: input_fields g us const (off + g_size g) (S i) n'
  end.

(** Local items last until the next main item. *)
Definition main_item (s : hid_state) (depth : Z) (offs : gmap Z Z) (fs : list hid_field)
    : hid_state := {|
  hs_global := hs_global s; hs_usages := []; hs_umin := None; hs_depth := depth;
  hs_offsets := offs; hs_fields := hs_fields s ++ fs |}.

Definition do_input (flags : Z) (s : hid_state) : hid_state :=
  let g := hs_global s in
  let off := used_bits s (g_report g) in
  main_item s (hs_depth s) (<[g_report g := off + g_size g * g_count g]> (hs_offsets s))
    (input_fields g (hs_usages s) (Z.testbit flags 0) off 0 (Z.to_nat (g_count g))).

Definition do_global (tag : Z) (i : hid_item) (g : hid_global) : option hid_global :=
  let u := item_unsigned i in
  match tag with
  | 0 => Some {| g_page := u; g_min := g_min g; g_max := g_max g; g_size := g_size g;
                 g_count := g_count g; g_report := g_report g |}
  | 1 => Some {| g_page := g_page g; g_min := Some (item_signed i); g_max := g_max g;
                 g_size := g_size g; g_count := g_count g; g_report := g_report g |}
  | 2 => Some {| g_page := g_page g; g_min := g_min g; g_max := Some (item_signed i);
                 g_size := g_size g; g_count := g_count g; g_report := g_report g |}
  | 7 => Some {| g_page := g_page g; g_min := g_min g; g_max := g_max g; g_size := u;
                 g_count := g_count g; g_report := g_report g |}
  | 8 => Some {| g_page := g_page g; g_min := g_min g; g_max := g_max g; g_size := g_size g;
                 g_count := g_count g; g_report := u |}
  | 9 => Some {| g_page := g_page g; g_min := g_min g; g_max := g_max g; g_size := g_size g;
                 g_count := u; g_report := g_report g |}
  | _ => None
  end.

Definition with_usages (us : list Z) (umin : option Z) (s : hid_state) : hid_state := {|
  hs_global := hs_global s; hs_usages := us; hs_umin := umin; hs_depth := hs_depth s;
  hs_offsets := hs_offsets s; hs_fields := hs_fields s |}.

(** Usage, usage minimum, and usage maximum, which closes a range. *)
Definition do_local (tag : Z) (u : Z) (s : hid_state) : option hid_state :=
  match tag with
  | 0 => Some (with_usages (hs_usages s ++ [u]) (hs_umin s) s)
  | 1 => Some (with_usages (hs_usages s) (Some u) s)
  | 2 => umin ← hs_umin s;
         Some (with_usages (hs_usages s ++ seqZ umin (u - umin + 1)) None s)
  | _ => None
  end.

Definition do_item (i : hid_item) (s : hid_state) : option hid_state :=
  match it_type i, it_tag i with
  | 0, 8 => Some (do_input (item_unsigned i) s)
  | 0, 10 => Some (main_item s (hs_depth s + 1) (hs_offsets s) [])
  | 0, 12 => if decide (0 < hs_depth s)
             then Some (main_item s (hs_depth s - 1) (hs_offsets s) []) else None
  | 1, tag => g ← do_global tag i (hs_global s); Some (with_global g s)
  | 2, tag => do_local tag (item_unsigned i) s
  | _, _ => None
  end.

Fixpoint do_items (its : list hid_item) (s : hid_state) : option hid_state :=
  match its with
  | [] => Some s
  | i :: its' => s' ← do_item i s; do_items its' s'
  end.

(** A descriptor is accepted when it is a sequence of known items in which every
    collection is closed. *)
Definition parse_descriptor (bs : list Z) : option hid_state :=
  its ← read_items (length bs) bs;
  s ← do_items its hid_initial;
  if decide (hs_depth s = 0) then Some s else None.

#[global] Instance hid_field_eq_dec : EqDecision hid_field.
Proof. solve_decision. Defined.

(** ** HID 1.11: reading a report *)

Definition bit_field (bs : list Z) (off n : Z) : Z := (le_value bs / 2 ^ off) mod 2 ^ n.

(** The number in the bits of a field, signed when the logical minimum is negative.  It
    is a null value, and the control keeps its state, when it is not [in_range]. *)
Definition field_value (f : hid_field) (report : list Z) : Z :=
  let v := bit_field report (f_offset f) (f_size f) in
  match f_min f with
  | Some m => if decide (m < 0) then to_signed (f_size f) v else v
  | None => v
  end.

(** HID 1.11, section 5.10: whether a value lies in the logical range of a field.  A bound
    that was never declared does not bind. *)
Definition in_range (f : hid_field) (v : Z) : bool :=
  default true ((λ m, bool_decide (m ≤ v)) <$> f_min f) &&
  default true ((λ m, bool_decide (v ≤ m)) <$> f_max f).

(** What the HID stack reads: (usage page, usage, value) for each data field of the
    report whose ID the first byte carries, null values included. *)
Definition hid_view (fs : list hid_field) (report : list Z) : list (Z * Z * Z) :=
  f ← filter (λ f, f_report f = report !!! 0%nat) fs;
  match f_usage f with
  | Some u => [(f_page f, u, field_value f report)]
  | None => []
  end.

Definition descriptor_fields : list hid_field :=
  default [] (hs_fields <$> parse_descriptor ReportDescriptor).

(** The bits of a report, the ID byte included. *)
Definition report_bits (id : Z) : option Z :=
  s ← parse_descriptor ReportDescriptor; hs_offsets s !! id.

(** Evaluated only by [vm_compute]. *)
#[global] Opaque parse_descriptor descriptor_fields.

(** ** Lemmas *)

Lemma bit_field_app_r bs1 bs2 off n :
  Forall u8 bs1 → 8 * Z.of_nat (length bs1) ≤ off →
  bit_field (bs1 ++ bs2) off n = bit_field bs2 (off - 8 * Z.of_nat (length bs1)) n.
Proof.
  intros Hu Hoff. unfold bit_field. f_equal. rewrite le_value_app.
  apply le_value_bound in Hu. revert Hu.
  set (k := Z.of_nat (length bs1)) in *. intros Hu.
  replace (256 ^ k) with (2 ^ (8 * k)) in *
    by (rewrite Z.pow_mul_r by lia; done).
  replace (2 ^ off) with (2 ^ (8 * k) * 2 ^ (off - 8 * k))
    by (rewrite <- Z.pow_add_r by lia; f_equal; lia).
  assert (0 < 2 ^ (8 * k)) by (apply Z.pow_pos_nonneg; lia).
  assert (0 < 2 ^ (off - 8 * k)) by (apply Z.pow_pos_nonneg; lia).
  rewrite <- Z.div_div by lia. f_equal.
  rewrite (Z.mul_comm (2 ^ (8 * k)) (le_value bs2)), Z.div_add by lia.
  rewrite Z.div_small by done. done.
Qed.

(** A bit of a two-byte field. *)
Lemma bit_field_u16_bit v bs i :
  u16 v → 0 ≤ i < 16 → bit_field (le_bytes 2 v ++ bs) i 1 = if Z.testbit v i then 1 else 0.
Proof.
  intros Hv Hi. unfold bit_field. rewrite le_value_app, bytes2_u16, le_bytes_length by done.
  change (256 ^ 2%nat) with (2 ^ 16). change (2 ^ 1) with 2.
  replace (2 ^ 16) with (2 ^ i * (2 * 2 ^ (15 - i))).
  2: { rewrite <- Z.pow_succ_r, <- Z.pow_add_r by lia. f_equal. lia. }
  replace (v + 2 ^ i * (2 * 2 ^ (15 - i)) * le_value bs)
    with (v + (2 ^ (15 - i) * le_value bs * 2) * 2 ^ i) by ring.
  rewrite Z.div_add by (apply Z.pow_nonzero; lia).
  rewrite Z.mod_add by lia.
  pose proof (Z.testbit_spec' v i ltac:(lia)) as Hb. rewrite <- Hb.
  by destruct (Z.testbit v i).
Qed.

Lemma bit_field_u16 v bs : bit_field (le_bytes 2 v ++ bs) 0 16 = wrap16 v.
Proof.
  unfold bit_field. rewrite le_value_app, le_bytes_length, <- le_bytes_2_wrap.
  rewrite bytes2_u16 by (unfold u16, wrap16; lia).
  change (256 ^ 2%nat) with 65536. change (2 ^ 16) with 65536. change (2 ^ 0) with 1.
  unfold wrap16. lia.
Qed.

(** Skips the two-byte fields in front of a field. *)
Lemma bit_field_skip_u16 v bs off n :
  16 ≤ off → bit_field (le_bytes 2 v ++ bs) off n = bit_field bs (off - 16) n.
Proof.
  intros. rewrite bit_field_app_r; rewrite ?le_bytes_length; [done|apply le_bytes_u8|lia].
Qed.

Lemma bit_field_skip_header h bs off n :
  wf_header h → 32 ≤ off → bit_field (encode_header h ++ bs) off n = bit_field bs (off - 32) n.
Proof.
  intros (? & ? & ? & ?) ?. rewrite bit_field_app_r; [done|unfold encode_header|simpl; lia].
  auto using List.Forall.
Qed.

(** The fields the parser finds in the driver's descriptor, for each report. *)
Lemma button_report_fields :
  filter (λ f, f_report f = XBOXONE_IN_BUTTON) descriptor_fields =
    let constant off := Field 0x20 off 8 1 None None None in
    let button off u := Field 0x20 off 1 9 u (Some 1) None in
    let trigger off u := Field 0x20 off 16 1 (Some u) (Some 0) (Some 1023) in
    let stick off u := Field 0x20 off 16 1 (Some u) (Some (-32768)) (Some 32767) in
    [constant 8; constant 16; constant 24;
     button 32 (Some 11); button 33 None; button 34 (Some 9); button 35 (Some 10);
     button 36 (Some 1); button 37 (Some 2); button 38 (Some 3); button 39 (Some 4);
     button 40 (Some 12); button 41 (Some 13); button 42 (Some 14); button 43 (Some 15);
     button 44 (Some 5); button 45 (Some 6); button 46 (Some 7); button 47 (Some 8);
     trigger 48 0x32; trigger 64 0x35;
     stick 80 0x30; stick 96 0x31; stick 112 0x33; stick 128 0x34].
Proof. vm_compute. reflexivity. Qed.

(** Cases on which field of the button report a field is. *)
Ltac button_report_field_cases Hin :=
  rewrite button_report_fields in Hin; cbv zeta in Hin;
  rewrite !elem_of_cons, elem_of_nil in Hin;
  destruct_or! Hin; subst; simplify_eq/=.

Lemma guide_report_fields :
  filter (λ f, f_report f = XBOXONE_IN_GUIDE) descriptor_fields =
    let constant off := Field 7 off 8 1 None (Some (-32768)) (Some 32767) in
    [constant 8; constant 16; constant 24;
     Field 7 32 1 9 (Some 16) (Some 0) (Some 1);
     Field 7 33 10 9 None (Some 0) (Some 1)].
Proof. vm_compute. reflexivity. Qed.

(** What the HID stack should see of a button report: the button page with the
    numbering of the descriptor's comments, then triggers and sticks. *)
Definition button_report_view (r : xboxone_button_report) : list (Z * Z * Z) :=
  let b u btn := (9, u, if pressed (buttons r) btn then 1 else 0) in
  [b 11 XBOXONE_SYNC; b 9 XBOXONE_MENU; b 10 XBOXONE_VIEW;
   b 1 XBOXONE_A; b 2 XBOXONE_B; b 3 XBOXONE_X; b 4 XBOXONE_Y;
   b 12 XBOXONE_DPAD_UP; b 13 XBOXONE_DPAD_DOWN; b 14 XBOXONE_DPAD_LEFT; b 15 XBOXONE_DPAD_RIGHT;
   b 5 XBOXONE_LEFT_SHOULDER; b 6 XBOXONE_RIGHT_SHOULDER;
   b 7 XBOXONE_LEFT_THUMB; b 8 XBOXONE_RIGHT_THUMB;
   (1, 0x32, trigL r); (1, 0x35, trigR r);
   (1, 0x30, leftX r); (1, 0x31, leftY r); (1, 0x33, rightX r); (1, 0x34, rightY r)].

(** The 16-bit members behind the header, in order. *)
Definition button_report_words (r : xboxone_button_report) : list Z :=
  [buttons r; trigL r; trigR r; leftX r; leftY r; rightX r; rightY r].

Lemma encode_button_report_words r :
  encode_button_report r = encode_header (b_header r) ++ (button_report_words r ≫= le_bytes 2).
Proof. unfold encode_button_report. by rewrite <- (app_nil_r (le_bytes 2 (rightY r))). Qed.

Lemma bit_field_words ws (k : nat) v :
  ws !! k = Some v → bit_field (ws ≫= le_bytes 2) (16 * k) 16 = wrap16 v.
Proof.
  revert k. induction ws as [|w ws IH]; intros k Hk; [done|].
  rewrite bind_cons. destruct k as [|k]; [injection Hk as ->; apply bit_field_u16|].
  rewrite bit_field_skip_u16 by lia. rewrite <- (IH k) by done. f_equal. lia.
Qed.

Lemma word_field r (k : nat) v off :
  wf_header (b_header r) → button_report_words r !! k = Some v → off = 32 + 16 * k →
  bit_field (encode_button_report r) off 16 = wrap16 v.
Proof.
  intros Hh Hk ->. rewrite encode_button_report_words, bit_field_skip_header by (done || lia).
  rewrite <- (bit_field_words _ _ _ Hk). f_equal. lia.
Qed.

Lemma button_field r off :
  wf_header (b_header r) → u16 (buttons r) → 32 ≤ off < 48 →
  bit_field (encode_button_report r) off 1 = if Z.testbit (buttons r) (off - 32) then 1 else 0.
Proof.
  intros Hh Hb Hoff. rewrite encode_button_report_words, bit_field_skip_header by (done || lia).
  apply bit_field_u16_bit; [done|lia].
Qed.

Lemma wrap16_id v : u16 v → wrap16 v = v.
Proof. apply Z.mod_small. Qed.

(** ** Theorems *)

(** C4: through the driver's report descriptor the HID stack reads exactly the
    members of every button report: each button usage is the bit the
    [xboxone_buttons] enumeration gives it, each trigger and stick usage the
    16-bit member with its sign. *)
Theorem hid_view_button_report r :
  wf_button_report r → packetType (b_header r) = XBOXONE_IN_BUTTON →
  hid_view descriptor_fields (encode_button_report r) = button_report_view r.
Proof.
  intros (Hh & Hb & Htl & Htr & Hlx & Hly & Hrx & Hry) Hid.
  unfold hid_view. replace (encode_button_report r !!! 0%nat) with XBOXONE_IN_BUTTON by done.
  rewrite button_report_fields. unfold button_report_view. rewrite !pressed_testbit.
  cbn [mbind list_bind f_usage f_page app].
  unfold field_value. cbn [f_min f_offset f_size].
  rewrite !button_field by (done || lia).
  rewrite (word_field r 1 _ 48), (word_field r 2 _ 64), (word_field r 3 _ 80),
    (word_field r 4 _ 96), (word_field r 5 _ 112), (word_field r 6 _ 128) by done.
  repeat (rewrite decide_False by lia). repeat (rewrite decide_True by lia).
  rewrite !to_signed_i16, !wrap16_id by done. done.
Qed.

Lemma hid_view_button_report_witness :
  let r := {| b_header := {| packetType := 0x20; version := 0; counter := 7; size := 14 |};
              buttons := 0x8011; trigL := 0; trigR := 1023;
              leftX := -32768; leftY := 32767; rightX := -1; rightY := 0 |} in
  hid_view descriptor_fields (encode_button_report r) = button_report_view r.
Proof.
  intros r. apply (hid_view_button_report r); [vm_compute; intuition discriminate|reflexivity].
Defined.

(** C23: the report descriptor is a well-formed sequence of items with every
    collection closed; its button report has exactly the size of
    [xboxone_button_report], so no member is cut off or overrun, and the ranges it
    declares for triggers and sticks are 0..1023 and the range of [int16_t]. *)
Theorem report_descriptor_layout :
  is_Some (parse_descriptor ReportDescriptor) ∧
  REPORT_DESCRIPTOR_SIZE = 134 ∧
  report_bits XBOXONE_IN_BUTTON = Some (8 * sizeof c_xboxone_button_report) ∧
  (∀ f u, f ∈ descriptor_fields → f_report f = XBOXONE_IN_BUTTON → f_page f = 1 →
     f_usage f = Some u →
     (u ∈ [0x32; 0x35] ∧ f_min f = Some 0 ∧ f_max f = Some 1023) ∨
     (u ∈ [0x30; 0x31; 0x33; 0x34] ∧ ∀ v, i16 v ↔ default 1 (f_min f) ≤ v ≤ default 0 (f_max f))).
Proof.
  split_and!; [by vm_compute; eauto|done|by vm_compute|].
  intros f u Hf Hr Hp Hu.
  assert (f ∈ filter (λ f, f_report f = XBOXONE_IN_BUTTON) descriptor_fields) as Hin
    by (by apply list_elem_of_filter).
  clear Hf. unfold i16. button_report_field_cases Hin;
    first [left; split_and!; [set_solver|done|done]
          |right; split; [set_solver|intros; lia]].
Qed.

Lemma report_descriptor_layout_witness :
  let f := Field 0x20 80 16 1 (Some 0x30) (Some (-32768)) (Some 32767) in
  (0x30 ∈ [0x32; 0x35] ∧ f_min f = Some 0 ∧ f_max f = Some 1023) ∨
  (0x30 ∈ [0x30; 0x31; 0x33; 0x34] ∧ ∀ v, i16 v ↔ default 1 (f_min f) ≤ v ≤ default 0 (f_max f)).
Proof.
  intros f. apply (proj2 (proj2 (proj2 report_descriptor_layout)) f 0x30);
    [|reflexivity|reflexivity|reflexivity].
  apply (bool_decide_unpack _). vm_compute. exact I.
Defined.

(** C24: a guide report shows the HID stack one value, button 16, which is the low
    bit of the [guide] member. *)
Theorem hid_view_guide_report r :
  wf_header (g_header r) → u8 (guide r) → packetType (g_header r) = XBOXONE_IN_GUIDE →
  hid_view descriptor_fields (encode_guide_report r) = [(9, 16, guide r mod 2)].
Proof.
  intros Hh Hg Hid. unfold hid_view.
  replace (encode_guide_report r !!! 0%nat) with XBOXONE_IN_GUIDE by done.
  rewrite guide_report_fields. cbn [mbind list_bind f_usage f_page app].
  unfold field_value. cbn [f_min f_offset f_size]. rewrite decide_False by lia.
  unfold encode_guide_report. rewrite bit_field_skip_header by (done || lia).
  unfold bit_field. change (2 ^ (32 - 32)) with 1. change (2 ^ 1) with 2.
  apply (f_equal (λ v, [(9, 16, v)])). simpl. lia.
Qed.

Lemma hid_view_guide_report_witness :
  let r := {| g_header := {| packetType := 0x07; version := 0x30; counter := 1; size := 2 |};
              guide := 1; _reserved1 := 0 |} in
  hid_view descriptor_fields (encode_guide_report r) = [(9, 16, 1)].
Proof.
  intros r. apply (hid_view_guide_report r); [| |reflexivity]; vm_compute; intuition discriminate.
Defined.

(** C36: the guide report of the descriptor is 43 bits, five short of the 48 bits of
    [xboxone_guide_report]: its last constant field is 10 bits wide where the
    comment next to it says 15. *)
Theorem guide_report_bits_short :
  report_bits XBOXONE_IN_GUIDE = Some 43 ∧ 8 * sizeof c_xboxone_guide_report = 48 ∧
  ∃ f, f ∈ descriptor_fields ∧ f_report f = XBOXONE_IN_GUIDE ∧ f_usage f = None ∧
       f_offset f = 33 ∧ f_size f = 10 ∧ f_offset f + 15 = 8 * sizeof c_xboxone_guide_report.
Proof.
  split_and!; [by vm_compute|done|].
  exists (Field 7 33 10 9 None (Some 0) (Some 1)). split_and!; try done.
  apply (bool_decide_unpack _). vm_compute. exact I.
Qed.

(** C38: every button field of the button report is declared with logical minimum 1
    and no logical maximum.  So of the two values a button can have only the pressed one is
    in the declared range: in every button report, the 0 of a released button is a null
    value. *)
Theorem button_logical_range f :
  f ∈ descriptor_fields → f_report f = XBOXONE_IN_BUTTON → f_page f = 9 →
  f_min f = Some 1 ∧ f_max f = None ∧
  ∀ r, wf_button_report r →
    in_range f (field_value f (encode_button_report r)) = Z.testbit (buttons r) (f_offset f - 32).
Proof.
  intros Hf Hr Hp.
  assert (f ∈ filter (λ f, f_report f = XBOXONE_IN_BUTTON) descriptor_fields) as Hin
    by (by apply list_elem_of_filter).
  assert (f_min f = Some 1 ∧ f_max f = None ∧ f_size f = 1 ∧ 32 ≤ f_offset f < 48)
    as (Hmin & Hmax & Hsize & Hoff) by (clear Hf; button_report_field_cases Hin; split_and!; done).
  split_and!; [done..|]. intros r (Hh & Hb & _). unfold in_range, field_value.
  rewrite Hmin, Hmax, Hsize, button_field by done. rewrite decide_False by lia.
  by destruct (Z.testbit _ _).
Qed.

Lemma button_logical_range_witness :
  let f := Field 0x20 36 1 9 (Some 1) (Some 1) None in
  f_min f = Some 1 ∧ f_max f = None ∧
  ∀ r, wf_button_report r →
    in_range f (field_value f (encode_button_report r)) = Z.testbit (buttons r) 4.
Proof.
  intros f. apply (button_logical_range f); [|reflexivity|reflexivity].
  apply (bool_decide_unpack _). vm_compute. exact I.
Defined.
