(* ===== verification/InputState.v ===== *)
(** * InputState: the instance variables of XboxOneInputInterface

    The structures of src/XboxControllerDriver/Shared/USBPipeData.h and
    [XboxOneInputInterface_IVars] of XboxOneInputInterface.cpp, with one setter
    per assignment the sources make.  A C pointer to one of the two pipe
    structures inside the instance variables is a [pipe_sel]. *)

From S2P Require Import Prelude Effects DriverKit.

(** ** USBPipeData.h *)

(** [bm_address] is the mapped address, 0 for the null pointer. *)
Record buffer_memory_descriptor : Set := {
  bm_buffer : ptr;
  bm_address : Z;
  bm_length : Z;
}.

Record usb_pipe_data : Set := {
  pd_pipe : ptr;
  pd_speed : Z;
  pd_interval : Z;
  pd_reportSize : Z;
  pd_maxPacketSize : Z;
  pd_descriptor : ptr;
  pd_memory : buffer_memory_descriptor;
}.

(** ** XboxOneInputInterface_IVars *)

Record XboxOneInputInterface_IVars : Set := {
  iv_interface : ptr;
  iv_configurationDescriptor : ptr;
  iv_interfaceDescriptor : ptr;
  iv_inPipe : usb_pipe_data;
  iv_outPipe : usb_pipe_data;
  iv_gotDataAction : ptr;
  iv_outCounter : Z;
  iv_enabled : bool;
}.

(** What [IONewZero] leaves in the structure. *)
Definition zero_memory : buffer_memory_descriptor :=
  {| bm_buffer := nullptr; bm_address := 0; bm_length := 0 |}.
Definition zero_pipe : usb_pipe_data :=
  {| pd_pipe := nullptr; pd_speed := 0; pd_interval := 0; pd_reportSize := 0;
     pd_maxPacketSize := 0; pd_descriptor := nullptr; pd_memory := zero_memory |}.
Definition zero_ivars : XboxOneInputInterface_IVars :=
  {| iv_interface := nullptr; iv_configurationDescriptor := nullptr;
     iv_interfaceDescriptor := nullptr; iv_inPipe := zero_pipe; iv_outPipe := zero_pipe;
     iv_gotDataAction := nullptr; iv_outCounter := 0; iv_enabled := false |}.

(** ** Assignments *)

Section setters.
Implicit Types (m : buffer_memory_descriptor) (d : usb_pipe_data)
  (iv : XboxOneInputInterface_IVars).

Definition set_buffer p m :=
  {| bm_buffer := p; bm_address := bm_address m; bm_length := bm_length m |}.
Definition set_mapping a n m :=
  {| bm_buffer := bm_buffer m; bm_address := a; bm_length := n |}.

Definition set_pipe p d :=
  {| pd_pipe := p; pd_speed := pd_speed d; pd_interval := pd_interval d;
     pd_reportSize := pd_reportSize d; pd_maxPacketSize := pd_maxPacketSize d;
     pd_descriptor := pd_descriptor d; pd_memory := pd_memory d |}.
Definition set_speed v d :=
  {| pd_pipe := pd_pipe d; pd_speed := v; pd_interval := pd_interval d;
     pd_reportSize := pd_reportSize d; pd_maxPacketSize := pd_maxPacketSize d;
     pd_descriptor := pd_descriptor d; pd_memory := pd_memory d |}.
Definition set_interval v d :=
  {| pd_pipe := pd_pipe d; pd_speed := pd_speed d; pd_interval := v;
     pd_reportSize := pd_reportSize d; pd_maxPacketSize := pd_maxPacketSize d;
     pd_descriptor := pd_descriptor d; pd_memory := pd_memory d |}.
Definition set_reportSize v d :=
  {| pd_pipe := pd_pipe d; pd_speed := pd_speed d; pd_interval := pd_interval d;
     pd_reportSize := v; pd_maxPacketSize := pd_maxPacketSize d;
     pd_descriptor := pd_descriptor d; pd_memory := pd_memory d |}.
Definition set_maxPacketSize v d :=
  {| pd_pipe := pd_pipe d; pd_speed := pd_speed d; pd_interval := pd_interval d;
     pd_reportSize := pd_reportSize d; pd_maxPacketSize := v;
     pd_descriptor := pd_descriptor d; pd_memory := pd_memory d |}.
Definition set_descriptor p d :=
  {| pd_pipe := pd_pipe d; pd_speed := pd_speed d; pd_interval := pd_interval d;
     pd_reportSize := pd_reportSize d; pd_maxPacketSize := pd_maxPacketSize d;
     pd_descriptor := p; pd_memory := pd_memory d |}.
Definition set_memory f d :=
  {| pd_pipe := pd_pipe d; pd_speed := pd_speed d; pd_interval := pd_interval d;
     pd_reportSize := pd_reportSize d; pd_maxPacketSize := pd_maxPacketSize d;
     pd_descriptor := pd_descriptor d; pd_memory := f (pd_memory d) |}.

Definition set_interface p iv :=
  {| iv_interface := p; iv_configurationDescriptor := iv_configurationDescriptor iv;
     iv_interfaceDescriptor := iv_interfaceDescriptor iv; iv_inPipe := iv_inPipe iv;
     iv_outPipe := iv_outPipe iv; iv_gotDataAction := iv_gotDataAction iv;
     iv_outCounter := iv_outCounter iv; iv_enabled := iv_enabled iv |}.
Definition set_configurationDescriptor p iv :=
  {| iv_interface := iv_interface iv; iv_configurationDescriptor := p;
     iv_interfaceDescriptor := iv_interfaceDescriptor iv; iv_inPipe := iv_inPipe iv;
     iv_outPipe := iv_outPipe iv; iv_gotDataAction := iv_gotDataAction iv;
     iv_outCounter := iv_outCounter iv; iv_enabled := iv_enabled iv |}.
Definition set_interfaceDescriptor p iv :=
  {| iv_interface := iv_interface iv;
     iv_configurationDescriptor := iv_configurationDescriptor iv;
     iv_interfaceDescriptor := p; iv_inPipe := iv_inPipe iv;
     iv_outPipe := iv_outPipe iv; iv_gotDataAction := iv_gotDataAction iv;
     iv_outCounter := iv_outCounter iv; iv_enabled := iv_enabled iv |}.
Definition set_gotDataAction p iv :=
  {| iv_interface := iv_interface iv;
     iv_configurationDescriptor := iv_configurationDescriptor iv;
     iv_interfaceDescriptor := iv_interfaceDescriptor iv; iv_inPipe := iv_inPipe iv;
     iv_outPipe := iv_outPipe iv; iv_gotDataAction := p;
     iv_outCounter := iv_outCounter iv; iv_enabled := iv_enabled iv |}.
Definition set_outCounter v iv :=
  {| iv_interface := iv_interface iv;
     iv_configurationDescriptor := iv_configurationDescriptor iv;
     iv_interfaceDescriptor := iv_interfaceDescriptor iv; iv_inPipe := iv_inPipe iv;
     iv_outPipe := iv_outPipe iv; iv_gotDataAction := iv_gotDataAction iv;
     iv_outCounter := v; iv_enabled := iv_enabled iv |}.
Definition set_enabled v iv :=
  {| iv_interface := iv_interface iv;
     iv_configurationDescriptor := iv_configurationDescriptor iv;
     iv_interfaceDescriptor := iv_interfaceDescriptor iv; iv_inPipe := iv_inPipe iv;
     iv_outPipe := iv_outPipe iv; iv_gotDataAction := iv_gotDataAction iv;
     iv_outCounter := iv_outCounter iv; iv_enabled := v |}.

(** [&ivars->inPipe] and [&ivars->outPipe]. *)
Inductive pipe_sel : Set := InPipe | OutPipe.

Definition get_pipe (s : pipe_sel) iv : usb_pipe_data :=
  match s with InPipe => iv_inPipe iv | OutPipe => iv_outPipe iv end.
Definition upd_pipe (s : pipe_sel) (f : usb_pipe_data → usb_pipe_data) iv :=
  {| iv_interface := iv_interface iv;
     iv_configurationDescriptor := iv_configurationDescriptor iv;
     iv_interfaceDescriptor := iv_interfaceDescriptor iv;
     iv_inPipe := match s with InPipe => f (iv_inPipe iv) | OutPipe => iv_inPipe iv end;
     iv_outPipe := match s with InPipe => iv_outPipe iv | OutPipe => f (iv_outPipe iv) end;
     iv_gotDataAction := iv_gotDataAction iv;
     iv_outCounter := iv_outCounter iv; iv_enabled := iv_enabled iv |}.
End setters.

(** The methods of the class run on the [ivars] pointer of one object. *)
Abbreviation InputM := (M driverkitE (option XboxOneInputInterface_IVars)).
Abbreviation input_world := (world driverkitE (option XboxOneInputInterface_IVars)).

(** ** What the instance variables own

    [owned o iv] counts the pointers to [o] that [free] will release, other than
    the interface itself, whose reference is taken separately. *)
Definition pipe_owned (o : obj) (d : usb_pipe_data) : Z :=
  gained_ptr o (pd_pipe d) + gained_ptr o (bm_buffer (pd_memory d)).
Definition owned (o : obj) (iv : XboxOneInputInterface_IVars) : Z :=
  gained_ptr o (iv_configurationDescriptor iv) +
  pipe_owned o (iv_inPipe iv) + pipe_owned o (iv_outPipe iv) +
  gained_ptr o (iv_gotDataAction iv).

(** A step keeps the books when every reference it took is in the instance
    variables and every pointer it dropped was released. *)
Definition balanced (iv iv' : XboxOneInputInterface_IVars) (tr tr' : dk_trace) : Prop :=
  ∀ o, refs o tr' - refs o tr = owned o iv' - owned o iv.

(** The books of a step that leaves one more reference to each object of [lost]. *)
Definition owing (lost : list obj) (iv iv' : XboxOneInputInterface_IVars) (tr tr' : dk_trace) : Prop :=
  ∀ o, refs o tr' - refs o tr = owned o iv' - owned o iv + held o lost.

(** The pipes the instance variables hold. *)
Definition pipes (iv : XboxOneInputInterface_IVars) : list obj :=
  option_list (pd_pipe (iv_inPipe iv)) ++ option_list (pd_pipe (iv_outPipe iv)).

(** The books of a step that opened the pipes [ops]: the ones it lost are those that
    are opened or held before, and not held after. *)
Definition ledger (ops lost : list obj) (iv iv' : XboxOneInputInterface_IVars)
    (tr tr' : dk_trace) : Prop :=
  owing lost iv iv' tr tr' ∧ pipes iv ++ ops ≡ₚ pipes iv' ++ lost.

Lemma balanced_refl iv tr : balanced iv iv tr tr.
Proof. intros o. lia. Qed.

Lemma owing_trans l1 l2 iv1 iv2 iv3 tr1 tr2 tr3 :
  owing l1 iv1 iv2 tr1 tr2 → owing l2 iv2 iv3 tr2 tr3 → owing (l1 ++ l2) iv1 iv3 tr1 tr3.
Proof. intros H1 H2 o. specialize (H1 o). specialize (H2 o). rewrite held_app. lia. Qed.

Lemma balanced_owing iv iv' tr tr' : balanced iv iv' tr tr' ↔ owing [] iv iv' tr tr'.
Proof. split; intros H o; specialize (H o); simpl in *; lia. Qed.

Lemma ledger_balanced iv iv' tr tr' :
  balanced iv iv' tr tr' → pipes iv' = pipes iv → ledger [] [] iv iv' tr tr'.
Proof. intros Hb Hp. split; [by apply balanced_owing|]. by rewrite Hp. Qed.

Lemma pipes_trans ops1 ops2 l1 l2 iv1 iv2 iv3 :
  pipes iv1 ++ ops1 ≡ₚ pipes iv2 ++ l1 → pipes iv2 ++ ops2 ≡ₚ pipes iv3 ++ l2 →
  pipes iv1 ++ ops1 ++ ops2 ≡ₚ pipes iv3 ++ l1 ++ l2.
Proof.
  intros Hp1 Hp2. rewrite app_assoc, Hp1. transitivity ((pipes iv2 ++ ops2) ++ l1); [solve_Permutation|].
  rewrite Hp2. solve_Permutation.
Qed.

Lemma ledger_trans ops1 ops2 l1 l2 iv1 iv2 iv3 tr1 tr2 tr3 :
  ledger ops1 l1 iv1 iv2 tr1 tr2 → ledger ops2 l2 iv2 iv3 tr2 tr3 →
  ledger (ops1 ++ ops2) (l1 ++ l2) iv1 iv3 tr1 tr3.
Proof.
  intros [Ho1 Hp1] [Ho2 Hp2]. split; [by eapply owing_trans|by eapply pipes_trans].
Qed.
