(* ===== verification/InputPipes.v ===== *)
(** * InputPipes: finding and setting up the interrupt pipes

    [InitDescriptors], [InitPipes], [SetupPipe] and [SetupPipes] of
    src/XboxControllerDriver/XboxOne/XboxOneInputInterface.cpp, the part of
    [handleStart] that fills the instance variables. *)

From S2P Require Import Prelude Effects DriverKit Sample InputState.

Section definitions.
Context {DK : DriverKit}.

Definition InitDescriptors : InputM bool :=
  iv ← ivars;
  i ← nonnull (iv_interface iv);
  c ← call (CopyConfigurationDescriptor i);
  modify (set_configurationDescriptor c);;
  if decide (c = nullptr) then mret false else
  d ← call (GetInterfaceDescriptor i c);
  modify (set_interfaceDescriptor (desc_ptr d));;
  if decide (desc_ptr d = nullptr) then mret false else
  mret true.

(** The pipe structure an endpoint direction selects; none for an unexpected one. *)
Definition pipe_for (ep : obj) : option pipe_sel :=
  match IOUSBGetEndpointDirection ep with
  | kIOUSBEndpointDirectionIn => Some InPipe
  | kIOUSBEndpointDirectionOut => Some OutPipe
  | kIOUSBEndpointDirectionUnknown => None
  end.

(** The [while] loop over endpoint descriptors; [cur] is the loop variable. *)
Fixpoint init_pipes_loop (fuel : nat) (cur : ptr) : InputM bool :=
  match fuel with
  | O => raise OutOfFuel
  | S fuel' =>
      iv ← ivars;
      match IOUSBGetNextEndpointDescriptor (iv_configurationDescriptor iv)
              (iv_interfaceDescriptor iv) cur with
      | None => mret false
      | Some ep =>
          if decide (IOUSBGetEndpointType ep ≠ kIOUSBEndpointTypeInterrupt)
          then init_pipes_loop fuel' (Some ep) else
          match pipe_for ep with
          | None => init_pipes_loop fuel' (Some ep)
          | Some s =>
              modify (upd_pipe s (set_descriptor (Some ep)));;
              i ← nonnull (iv_interface iv);
              '(ret, p) ← call (CopyPipe i (IOUSBGetEndpointAddress ep));
              if negb (succeeded ret) then mret false else
              modify (upd_pipe s (set_pipe p));;
              iv' ← ivars;
              if decide (pd_pipe (iv_inPipe iv') ≠ nullptr ∧ pd_pipe (iv_outPipe iv') ≠ nullptr)
              then mret true
              else init_pipes_loop fuel' (Some ep)
          end
      end
  end.

Definition InitPipes (fuel : nat) : InputM bool := init_pipes_loop fuel nullptr.

(** Maps a buffer: the framework reports the address and the length, and the memory
    there becomes part of the driver's memory. *)
Definition Map_buffer (b : obj) : InputM (kern_return_t * (Z * Z)) :=
  '(ret, (a, n, bs)) ← call (IOBufferMemoryDescriptor_Map b);
  (if succeeded ret then m ← get_mem; put_mem (<[a := bs]> m) else mret tt);;
  mret (ret, (a, n)).

Definition SetupPipe (s : pipe_sel) : InputM bool :=
  iv ← ivars;
  p ← nonnull (pd_pipe (get_pipe s iv));
  '(ret, speed) ← call (IOUSBHostPipe_GetSpeed p);
  if negb (succeeded ret) then mret false else
  modify (upd_pipe s (set_speed speed));;
  let interval := IOUSBGetEndpointIntervalFrames speed (pd_descriptor (get_pipe s iv)) in
  modify (upd_pipe s (set_interval interval));;
  if decide (interval = 0) then mret false else
  let maxPacketSize := IOUSBGetEndpointMaxPacketSize speed (pd_descriptor (get_pipe s iv)) in
  modify (upd_pipe s (set_maxPacketSize maxPacketSize));;
  if decide (maxPacketSize = 0) then mret false else
  i ← nonnull (iv_interface iv);
  '(ret, b) ← call (CreateIOBuffer i maxPacketSize);
  if negb (succeeded ret) then mret false else
  modify (upd_pipe s (set_memory (set_buffer b)));;
  b ← nonnull b;
  '(ret, (address, length)) ← Map_buffer b;
  if negb (succeeded ret) then mret false else
  modify (upd_pipe s (set_memory (set_mapping address length)));;
  mret true.

Definition SetupPipes : InputM bool :=
  '(ret, properties) ← call IOService_CopyProperties;
  if negb (succeeded ret) then OSSafeReleaseNULL nullptr;; mret false else
  result ← SetupPipe InPipe;
  if negb result then OSSafeReleaseNULL properties;; mret false else
  n ← call (OSDictionaryGetUInt64Value properties kIOHIDMaxInputReportSizeKey);
  modify (upd_pipe InPipe (set_reportSize n));;
  result ← SetupPipe OutPipe;
  if negb result then OSSafeReleaseNULL properties;; mret false else
  n ← call (OSDictionaryGetUInt64Value properties kIOHIDMaxOutputReportSizeKey);
  modify (upd_pipe InPipe (set_reportSize n));;
  OSSafeReleaseNULL properties;;
  mret true.
End definitions.

(** ** Specifications *)

(** A stretch of history in which nothing is sent, forwarded or queued, the pipes [ops]
    are opened, and buffers with the contents [ms] are mapped. *)
Definition quiet (ops : list obj) (ms : list (list Z)) (tr tr' : dk_trace) : Prop :=
  ∃ evs, tr' = tr ++ evs ∧ out_packets evs = [] ∧ hid_calls evs = [] ∧ reads_armed evs = 0 ∧
    handed_over evs = [] ∧ opened_pipes evs = ops ∧ mappings evs = ms.

(** What no part of the set-up touches. *)
Definition keeps_comm (iv iv' : XboxOneInputInterface_IVars) : Prop :=
  iv_interface iv' = iv_interface iv ∧ iv_outCounter iv' = iv_outCounter iv ∧
  iv_enabled iv' = iv_enabled iv.

Lemma quiet_refl tr : quiet [] [] tr tr.
Proof. exists []. by rewrite app_nil_r. Qed.

Lemma quiet_trans ops1 ops2 ms1 ms2 tr1 tr2 tr3 :
  quiet ops1 ms1 tr1 tr2 → quiet ops2 ms2 tr2 tr3 → quiet (ops1 ++ ops2) (ms1 ++ ms2) tr1 tr3.
Proof.
  intros (e1 & -> & Hs1 & Hh1 & Ha1 & Hd1 & <- & <-) (e2 & -> & Hs2 & Hh2 & Ha2 & Hd2 & <- & <-).
  exists (e1 ++ e2). autorewrite with trace. rewrite Hs1, Hs2, Hh1, Hh2, Ha1, Ha2, Hd1, Hd2.
  by rewrite app_assoc.
Qed.

Lemma quiet_snoc ops ms tr tr' e :
  quiet ops ms tr tr' → silent_event e → handed e = [] → quiet ops ms tr (tr' ++ [e]).
Proof.
  intros Hq (Hs & Hh & Ha & Hp & Ho & _) Hd.
  rewrite <- (app_nil_r ops), <- (app_nil_r ms). eapply quiet_trans; [exact Hq|].
  exists [e]. split_and!; unfold out_packets, hid_calls, handed_over, opened_pipes, mappings; simpl;
    rewrite ?Hs, ?Hh, ?Ha, ?Hp, ?Ho, ?Hd; done.
Qed.

Lemma keeps_comm_refl iv : keeps_comm iv iv.
Proof. done. Qed.

Lemma keeps_comm_trans iv1 iv2 iv3 :
  keeps_comm iv1 iv2 → keeps_comm iv2 iv3 → keeps_comm iv1 iv3.
Proof. unfold keeps_comm. intros. destruct_and!. split_and!; congruence. Qed.

#[export] Hint Resolve quiet_refl keeps_comm_refl balanced_refl : core.
#[export] Hint Extern 2 (quiet _ _ _ (_ ++ [_])) => apply quiet_snoc : core.
#[export] Hint Extern 1 (silent_event _) => done : core.

(** Solves the accounting of a step: the history grew by known events. *)
Ltac solve_balanced :=
  let o := fresh "o" in
  intros o; simpl; rewrite ?refs_app; simpl;
  unfold owned, pipe_owned, gained, gained_with in *; simpl in *;
  repeat match goal with
  | H : succeeded _ = _ |- _ => rewrite H
  | H : _ = nullptr |- _ => rewrite H
  end; rewrite ?gained_ptr_null, ?succeeded_success; simpl; try lia.

(** Closes the routine parts of a specification of one step. *)
Ltac finish_step :=
  split_and!; simpl; try done; try (by auto 10); try (by solve_balanced).

Section specifications.
Context {DK : DriverKit}.
Implicit Types (iv : XboxOneInputInterface_IVars) (w : input_world).

(** The endpoint descriptors the iteration yields, from a given one on. *)
Inductive endpoint_chain (c d : ptr) : ptr → list obj → Prop :=
| chain_nil cur :
    IOUSBGetNextEndpointDescriptor c d cur = nullptr → endpoint_chain c d cur []
| chain_cons cur ep eps :
    IOUSBGetNextEndpointDescriptor c d cur = Some ep →
    endpoint_chain c d (Some ep) eps → endpoint_chain c d cur (ep :: eps).

(** The pipes the interrupt endpoints of a list select, in order. *)
Definition interrupt_pipe (ep : obj) : option pipe_sel :=
  if decide (IOUSBGetEndpointType ep = kIOUSBEndpointTypeInterrupt) then pipe_for ep else None.
Definition interrupt_pipes (eps : list obj) : list pipe_sel := omap interrupt_pipe eps.

Lemma interrupt_pipes_cons ep eps :
  interrupt_pipes (ep :: eps) =
    match interrupt_pipe ep with Some s => s :: interrupt_pipes eps | None => interrupt_pipes eps end.
Proof. done. Qed.

(** A pipe was found during [evs]: it is open, its descriptor is an interrupt endpoint
    of the right direction, and it is the pipe interface [i] has at the address of that
    endpoint. *)
Definition pipe_found (i : obj) (eps : list obj) (evs : dk_trace) (s : pipe_sel)
    (d : usb_pipe_data) : Prop :=
  ∃ p ep, pd_pipe d = Some p ∧ pd_descriptor d = Some ep ∧ ep ∈ eps ∧ interrupt_pipe ep = Some s ∧
    Ev (CopyPipe i (IOUSBGetEndpointAddress ep)) (kIOReturnSuccess, Some p) ∈ evs.

(** The other direction. *)
Definition other (s : pipe_sel) : pipe_sel :=
  match s with InPipe => OutPipe | OutPipe => InPipe end.

(** What the loop leaves alone: everything but the pipes and endpoint descriptors. *)
Definition keeps_but_pipes iv iv' : Prop :=
  keeps_comm iv iv' ∧
  iv_configurationDescriptor iv' = iv_configurationDescriptor iv ∧
  iv_interfaceDescriptor iv' = iv_interfaceDescriptor iv ∧
  iv_gotDataAction iv' = iv_gotDataAction iv ∧
  ∀ s, ∃ p ep, get_pipe s iv' = set_pipe p (set_descriptor ep (get_pipe s iv)).

Lemma keeps_but_pipes_refl iv : keeps_but_pipes iv iv.
Proof.
  split_and!; try done. intros s. exists (pd_pipe (get_pipe s iv)), (pd_descriptor (get_pipe s iv)).
  by destruct (get_pipe s iv).
Qed.

Lemma keeps_but_pipes_trans iv1 iv2 iv3 :
  keeps_but_pipes iv1 iv2 → keeps_but_pipes iv2 iv3 → keeps_but_pipes iv1 iv3.
Proof.
  unfold keeps_but_pipes. intros (? & ? & ? & ? & Hm1) (? & ? & ? & ? & Hm2).
  split; [by eapply keeps_comm_trans|]. split_and!; [congruence..|]. intros s.
  destruct (Hm1 s) as (p1 & e1 & Hs1), (Hm2 s) as (p2 & e2 & Hs2).
  exists p2, e2. by rewrite Hs2, Hs1.
Qed.

Lemma InitDescriptors_spec w iv i :
  w_st w = Some iv → iv_interface iv = Some i → iv_configurationDescriptor iv = nullptr →
  wp InitDescriptors (λ b w', ∃ iv' c d,
    w_st w' = Some iv' ∧ w_mem w' = w_mem w ∧ quiet [] [] (w_trace w) (w_trace w') ∧
    iv' = set_interfaceDescriptor d (set_configurationDescriptor c iv) ∧
    balanced iv iv' (w_trace w) (w_trace w') ∧
    (b = true → is_Some c ∧ is_Some d)) w.
Proof.
  intros Hst Hi Hc. unfold InitDescriptors. do 2 wp_step. rewrite Hi. wp_steps.
  - exists (set_configurationDescriptor r iv), r, (iv_interfaceDescriptor iv). finish_step.
  - eexists _, r, (desc_ptr r0). finish_step.
  - eexists _, r, (desc_ptr r0). finish_step.
    intros _. split; by apply not_eq_None_Some.
Qed.

Lemma get_upd_pipe s f iv : get_pipe s (upd_pipe s f iv) = f (get_pipe s iv).
Proof. by destruct s. Qed.

Lemma get_upd_pipe_ne s s' f iv : s ≠ s' → get_pipe s' (upd_pipe s f iv) = get_pipe s' iv.
Proof. by destruct s, s'. Qed.

#[local] Instance pipe_sel_eq_dec : EqDecision pipe_sel.
Proof. solve_decision. Defined.

(** Opening one endpoint replaces the pipe it selects. *)
Definition open_endpoint (s : pipe_sel) (p : ptr) (ep : obj) iv : XboxOneInputInterface_IVars :=
  upd_pipe s (set_pipe p) (upd_pipe s (set_descriptor (Some ep)) iv).

Lemma keeps_but_pipes_upd s f iv p ep :
  f (get_pipe s iv) = set_pipe p (set_descriptor ep (get_pipe s iv)) →
  keeps_but_pipes iv (upd_pipe s f iv).
Proof.
  intros Hf. split_and!; try (by destruct s). intros s'. destruct (decide (s = s')) as [<-|Hne].
  - rewrite get_upd_pipe. eauto.
  - rewrite get_upd_pipe_ne by done. apply (keeps_but_pipes_refl iv).
Qed.

Lemma keeps_but_pipes_descriptor s ep iv :
  keeps_but_pipes iv (upd_pipe s (set_descriptor ep) iv).
Proof. apply (keeps_but_pipes_upd _ _ _ (pd_pipe (get_pipe s iv)) ep). by destruct (get_pipe s iv). Qed.

Lemma keeps_but_pipes_open s p ep iv : keeps_but_pipes iv (open_endpoint s p ep iv).
Proof.
  eapply keeps_but_pipes_trans; [apply keeps_but_pipes_descriptor|].
  apply (keeps_but_pipes_upd _ _ _ p (Some ep)). rewrite get_upd_pipe. by destruct (get_pipe s iv).
Qed.

(** Every open pipe was found since the history [tr0]. *)
Definition pipes_described i (all : list obj) (tr0 tr : dk_trace) iv : Prop :=
  ∃ evs, tr = tr0 ++ evs ∧
    ∀ s, is_Some (pd_pipe (get_pipe s iv)) → pipe_found i all evs s (get_pipe s iv).

Lemma pipe_found_snoc i all evs e s d : pipe_found i all evs s d → pipe_found i all (evs ++ [e]) s d.
Proof.
  intros (p & ep & Hp & Hd & Hin & Hs & Hev). exists p, ep. split_and!; try done.
  apply elem_of_app. by left.
Qed.

Lemma pipes_described_open i all tr0 tr s p ep iv :
  ep ∈ all → interrupt_pipe ep = Some s → pipes_described i all tr0 tr iv →
  pipes_described i all tr0
    (tr ++ [Ev (CopyPipe i (IOUSBGetEndpointAddress ep)) (kIOReturnSuccess, p)])
    (open_endpoint s p ep iv).
Proof.
  intros Hin Hs (evs & -> & Hd). rewrite <- app_assoc. eexists. split; [done|].
  intros s'. unfold open_endpoint. destruct (decide (s = s')) as [<-|Hne].
  - rewrite !get_upd_pipe. simpl. intros [q ->]. exists q, ep. split_and!; try done.
    apply elem_of_app. right. by left.
  - rewrite !get_upd_pipe_ne by done. intros Hp. by apply pipe_found_snoc, Hd.
Qed.

Lemma pipes_described_null i all tr iv :
  (∀ s, pd_pipe (get_pipe s iv) = nullptr) → pipes_described i all tr tr iv.
Proof.
  intros Hn. exists []. split; [by rewrite app_nil_r|]. intros s [p Hp]. by rewrite Hn in Hp.
Qed.

(** Opening an endpoint keeps the books, but for the pipe it replaces. *)
Lemma ledger_open s p ep iv i a tr :
  ledger (option_list p) (option_list (pd_pipe (get_pipe s iv))) iv (open_endpoint s p ep iv)
    tr (tr ++ [Ev (CopyPipe i a) (kIOReturnSuccess, p)]).
Proof.
  split.
  - intros o. rewrite refs_app, held_option. simpl. rewrite gained_success.
    destruct s; unfold owned, pipe_owned; simpl; lia.
  - unfold pipes. destruct s; simpl; solve_Permutation.
Qed.

Definition loop_post i (all : list obj) (tr0 : dk_trace) w iv (b : bool) (w' : input_world) : Prop :=
  ∃ iv' ops lost, w_st w' = Some iv' ∧ w_mem w' = w_mem w ∧
    quiet ops [] (w_trace w) (w_trace w') ∧ keeps_but_pipes iv iv' ∧
    ledger ops lost iv iv' (w_trace w) (w_trace w') ∧
    (b = true → pipes_described i all tr0 (w_trace w') iv' ∧
       ∀ s, is_Some (pd_pipe (get_pipe s iv'))).

(** Opening endpoint [ep] and going on. *)
Lemma loop_post_open i all tr0 ep s p w iv b w' :
  let iv1 := open_endpoint s p ep iv in
  let e := Ev (CopyPipe i (IOUSBGetEndpointAddress ep)) (kIOReturnSuccess, p) in
  loop_post i all tr0 (set_st (Some iv1) (log e w)) iv1 b w' → loop_post i all tr0 w iv b w'.
Proof.
  intros iv1 e (iv' & ops & lost & Hst & Hm & Hq & Hk & Hl & Hb).
  exists iv', (option_list p ++ ops), (option_list (pd_pipe (get_pipe s iv)) ++ lost).
  split_and!; try done.
  - eapply (quiet_trans _ _ [] []); [|exact Hq]. exists [e]. by destruct p.
  - eapply keeps_but_pipes_trans; [apply keeps_but_pipes_open|exact Hk].
  - eapply ledger_trans; [apply ledger_open|exact Hl].
Qed.

(** One iteration of the loop. *)
Lemma wp_loop_step fuel cur ep w iv i (Φ : bool → input_world → Prop) :
  let c := CopyPipe i (IOUSBGetEndpointAddress ep) in
  w_st w = Some iv → iv_interface iv = Some i →
  IOUSBGetNextEndpointDescriptor (iv_configurationDescriptor iv) (iv_interfaceDescriptor iv) cur =
    Some ep →
  (interrupt_pipe ep = None → wp (init_pipes_loop fuel (Some ep)) Φ w) →
  (∀ s ret p, interrupt_pipe ep = Some s → (ret, p) = answer c (w_trace w) →
     let w1 := log (Ev c (ret, p)) w in
     let iv1 := open_endpoint s p ep iv in
     if succeeded ret then
       if decide (pd_pipe (iv_inPipe iv1) ≠ nullptr ∧ pd_pipe (iv_outPipe iv1) ≠ nullptr)
       then Φ true (set_st (Some iv1) w1)
       else wp (init_pipes_loop fuel (Some ep)) Φ (set_st (Some iv1) w1)
     else Φ false (set_st (Some (upd_pipe s (set_descriptor (Some ep)) iv)) w1)) →
  wp (init_pipes_loop (S fuel) cur) Φ w.
Proof.
  intros c Hst Hi Hn Hskip Hopen. cbn [init_pipes_loop]. do 2 wp_step. rewrite Hn. cbv beta iota.
  unfold interrupt_pipe in Hskip, Hopen.
  destruct (decide (IOUSBGetEndpointType ep ≠ kIOUSBEndpointTypeInterrupt)) as [Ht|Ht].
  { apply Hskip. by rewrite decide_False. }
  apply dec_stable in Ht. rewrite decide_True in Hskip, Hopen by done.
  destruct (pipe_for ep) as [s|]; [|by apply Hskip].
  do 3 wp_step. rewrite Hi. do 2 wp_step. apply wp_call_eq. intros [ret p] Hr.
  specialize (Hopen s ret p eq_refl Hr). destruct (succeeded ret); cbn [negb]; [|by wp_step].
  do 4 wp_step. fold (open_endpoint s p ep iv). destruct (decide _); [by wp_step|done].
Qed.

Lemma init_pipes_loop_spec i all tr0 c d cur eps :
  endpoint_chain c d cur eps → (∀ ep, ep ∈ eps → ep ∈ all) →
  ∀ fuel w iv,
  (length eps < fuel)%nat → w_st w = Some iv → iv_interface iv = Some i →
  iv_configurationDescriptor iv = c → iv_interfaceDescriptor iv = d →
  pipes_described i all tr0 (w_trace w) iv →
  wp (init_pipes_loop fuel cur) (loop_post i all tr0 w iv) w.
Proof.
  induction 1 as [cur Hn|cur ep eps Hn Hch IH]; intros Hall fuel w iv Hf Hst Hi Hc Hd Hdesc;
    (destruct fuel as [|fuel]; [simpl in Hf; lia|]); simpl in Hf.
  { cbn [init_pipes_loop]. do 2 wp_step. rewrite Hc, Hd, Hn. wp_step. exists iv, [], [].
    split_and!; auto using keeps_but_pipes_refl; [by apply ledger_balanced|done]. }
  eapply (wp_loop_step _ _ ep _ _ i); [done|done|by rewrite Hc, Hd|..].
  { intros _. apply (IH ltac:(set_solver)); auto with lia. }
  intros s ret p Hs _. cbv zeta. destruct (succeeded ret) eqn:Hb.
  2: { exists (upd_pipe s (set_descriptor (Some ep)) iv), [], []. split_and!; simpl; auto; [| | |done].
    - eexists [_]. split_and!; try done. unfold opened_pipes. simpl. by rewrite Hb.
    - apply keeps_but_pipes_descriptor.
    - apply ledger_balanced; [|by destruct s]. destruct s; solve_balanced. }
  apply succeeded_true in Hb as ->.
  pose proof (pipes_described_open i all tr0 _ s p ep iv ltac:(set_solver) Hs Hdesc) as Hd1.
  case_decide as Hboth.
  - eapply (loop_post_open _ _ _ ep s p). exists (open_endpoint s p ep iv), [], [].
    split_and!; auto using keeps_but_pipes_refl; [by apply ledger_balanced|].
    intros _. split; [done|]. intros []; apply not_eq_None_Some; tauto.
  - eapply wp_mono; [|intros b w'; by apply (loop_post_open _ _ _ ep s p)].
    apply (IH ltac:(set_solver)); try done; [lia|by destruct s..].
Qed.

(** ** SetupPipe and SetupPipes *)

(** A pipe that can be used: open, with a buffer for a whole packet whose memory is
    mapped over the length that is noted. *)
Definition pipe_ready w (d : usb_pipe_data) : Prop :=
  let m := pd_memory d in
  is_Some (pd_pipe d) ∧ pd_interval d ≠ 0 ∧ pd_maxPacketSize d ≠ 0 ∧
  pd_maxPacketSize d ≤ bm_length m ∧
  ∃ b blk, bm_buffer m = Some b ∧ mapped_at b (w_trace w) = Some (bm_address m) ∧
    w_mem w !! bm_address m = Some blk ∧ bm_length m = Z.of_nat (length blk).

(** Buffers stay where they are, with what they hold. *)
Definition keeps_blocks w w' : Prop :=
  ∀ b a, mapped_at b (w_trace w) = Some a →
    mapped_at b (w_trace w') = Some a ∧ w_mem w' !! a = w_mem w !! a.

(** Buffers stay where they are, with the length they have. *)
Definition keeps_lengths w w' : Prop :=
  ∀ b a, mapped_at b (w_trace w) = Some a →
    mapped_at b (w_trace w') = Some a ∧
    ∀ blk, w_mem w !! a = Some blk → ∃ blk', w_mem w' !! a = Some blk' ∧ length blk' = length blk.

(** Setting up one pipe leaves the rest of the object alone. *)
Definition keeps_rest (s : pipe_sel) iv iv' : Prop :=
  keeps_comm iv iv' ∧
  iv_configurationDescriptor iv' = iv_configurationDescriptor iv ∧
  iv_gotDataAction iv' = iv_gotDataAction iv ∧
  get_pipe (other s) iv' = get_pipe (other s) iv ∧
  pd_pipe (get_pipe s iv') = pd_pipe (get_pipe s iv) ∧
  pd_descriptor (get_pipe s iv') = pd_descriptor (get_pipe s iv) ∧
  pd_reportSize (get_pipe s iv') = pd_reportSize (get_pipe s iv).

Lemma keeps_blocks_refl w : keeps_blocks w w.
Proof. done. Qed.

Lemma keeps_blocks_trans w1 w2 w3 : keeps_blocks w1 w2 → keeps_blocks w2 w3 → keeps_blocks w1 w3.
Proof.
  intros H12 H23 b a Hb. destruct (H12 b a Hb) as [Hb2 <-]. by destruct (H23 b a Hb2) as [? <-].
Qed.

Lemma keeps_blocks_lengths w w' : keeps_blocks w w' → keeps_lengths w w'.
Proof. intros H b a Hb. destruct (H b a Hb) as [? ->]. eauto. Qed.

Lemma keeps_blocks_log w w' e :
  keeps_blocks w w' → (∀ b, map_of b e = None) → keeps_blocks w (log e w').
Proof.
  intros H He b a Hb. destruct (H b a Hb) as [Hb' Hm]. split; [|done]. simpl.
  rewrite mapped_at_app. simpl. by rewrite He.
Qed.

Lemma keeps_blocks_set_st w w' s : keeps_blocks w w' → keeps_blocks w (set_st s w').
Proof. done. Qed.

#[local] Hint Resolve keeps_blocks_refl keeps_blocks_log keeps_blocks_set_st : core.

Lemma pipe_ready_keeps w w' d : keeps_lengths w w' → pipe_ready w d → pipe_ready w' d.
Proof.
  intros Hk (? & ? & ? & ? & b & blk & Hb & Hat & Hblk & Hlen). destruct (Hk b _ Hat) as [Hat' Hm].
  destruct (Hm blk Hblk) as (blk' & Hblk' & Hl). split_and!; try done.
  exists b, blk'. split_and!; try done. by rewrite Hl.
Qed.

(** A pipe just set up: ready, its buffer holding what it held when it was mapped, at
    an address where nothing was mapped before. *)
Definition pipe_set_up w w' (d : usb_pipe_data) (ms : list (list Z)) : Prop :=
  pipe_ready w' d ∧
  (∃ blk, ms = [blk] ∧ w_mem w' !! bm_address (pd_memory d) = Some blk) ∧
  ∀ b, mapped_at b (w_trace w) ≠ Some (bm_address (pd_memory d)).

Definition setup_post (s : pipe_sel) w iv (b : bool) (w' : input_world) : Prop :=
  ∃ iv' ms, w_st w' = Some iv' ∧ quiet [] ms (w_trace w) (w_trace w') ∧ keeps_rest s iv iv' ∧
    balanced iv iv' (w_trace w) (w_trace w') ∧ keeps_blocks w w' ∧
    (b = true → pipe_set_up w w' (get_pipe s iv') ms).

Lemma wp_Map_buffer b (Φ : _ → input_world → Prop) w :
  (∀ a n bs, answer (IOBufferMemoryDescriptor_Map b) (w_trace w) = (kIOReturnSuccess, (a, n, bs)) →
     Φ (kIOReturnSuccess, (a, n))
     (set_mem (<[a := bs]> (w_mem w))
        (log (Ev (IOBufferMemoryDescriptor_Map b) (kIOReturnSuccess, (a, n, bs))) w))) →
  (∀ ret a n bs, succeeded ret = false → Φ (ret, (a, n))
     (log (Ev (IOBufferMemoryDescriptor_Map b) (ret, (a, n, bs))) w)) →
  wp (Map_buffer b) Φ w.
Proof.
  intros Hok Hfail. unfold Map_buffer. wp_step. apply wp_call_eq. intros [ret [[a n] bs]] Hans.
  wp_step. destruct (succeeded ret) eqn:Hr; wp_steps; [|by apply Hfail].
  apply succeeded_true in Hr as ->. by apply Hok.
Qed.

Lemma upd_upd_pipe s f g iv : upd_pipe s f (upd_pipe s g iv) = upd_pipe s (f ∘ g) iv.
Proof. by destruct s. Qed.

(** Leaving [SetupPipe] after some assignments and events. *)
Lemma setup_exit s f evs b w iv w' :
  w_st w' = Some (upd_pipe s f iv) → w_trace w' = w_trace w ++ evs →
  (let d := get_pipe s iv in
   pd_pipe (f d) = pd_pipe d ∧ pd_descriptor (f d) = pd_descriptor d ∧
   pd_reportSize (f d) = pd_reportSize d ∧
   ∀ o, refs o evs = pipe_owned o (f d) - pipe_owned o d) →
  out_packets evs = [] ∧ hid_calls evs = [] ∧ reads_armed evs = 0 ∧ handed_over evs = [] ∧
  opened_pipes evs = [] →
  keeps_blocks w w' →
  (b = true → pipe_set_up w w' (f (get_pipe s iv)) (mappings evs)) →
  setup_post s w iv b w'.
Proof.
  intros Hst Htr (Hp & Hd & Hr & Ho) (? & ? & ? & ? & ?) Hg Hready.
  exists (upd_pipe s f iv), (mappings evs). split_and!; try done.
  - rewrite Htr. by exists evs.
  - unfold keeps_rest. rewrite get_upd_pipe, get_upd_pipe_ne by (by destruct s).
    by destruct s.
  - intros o. rewrite Htr, refs_app, Ho. destruct s; unfold owned; simpl; lia.
  - by rewrite get_upd_pipe.
Qed.

(** Mapping a new buffer, at a new address. *)
Lemma keeps_blocks_map b ret a n bs w w' :
  keeps_blocks w w' → mapped_at b (w_trace w') = None →
  keeps_blocks w (log (Ev (IOBufferMemoryDescriptor_Map b) (ret, (a, n, bs))) w').
Proof.
  intros Hk Hb. eapply keeps_blocks_trans; [exact Hk|]. intros b' a' Hb'. split; [|done]. simpl.
  rewrite mapped_at_app. simpl. destruct (decide (b = b')) as [->|Hne]; [congruence|].
  by rewrite bool_decide_eq_false_2, andb_false_r by done.
Qed.

Lemma keeps_blocks_store w w' a bs m :
  keeps_blocks w w' → (∀ b, mapped_at b (w_trace w) ≠ Some a) → m = w_mem w' →
  keeps_blocks w (set_mem (<[a := bs]> m) w').
Proof.
  intros Hk Hnew -> b a' Hb. destruct (Hk b a' Hb) as [? <-]. split; [done|]. simpl.
  apply lookup_insert_ne. intros ->. by apply (Hnew b).
Qed.

(** Closes the side conditions of [setup_exit]. *)
Ltac solve_setup :=
  simpl; unfold pipe_owned, gained; simpl;
  repeat match goal with
  | H : succeeded _ = _ |- _ => rewrite H
  | H : bm_buffer _ = nullptr |- _ => rewrite H
  end; rewrite ?gained_ptr_null, ?succeeded_success; split_and!; try done; intros; simpl;
  rewrite ?gained_ptr_null, ?succeeded_success; lia.

Ltac solve_keeps :=
  repeat first [apply keeps_blocks_refl | apply keeps_blocks_set_st
               | apply keeps_blocks_store; [|assumption|reflexivity]
               | apply keeps_blocks_log; [|done]
               | apply keeps_blocks_map; [|simpl; rewrite ?mapped_at_app; simpl; assumption]].

Ltac leave_setup :=
  eapply setup_exit;
  [simpl; rewrite ?upd_upd_pipe; reflexivity
  |simpl; rewrite <- ?app_assoc; reflexivity
  |solve_setup|done|solve_keeps|try done].

Lemma SetupPipe_spec `{!DriverKitOk DK} s w iv i p :
  w_st w = Some iv → iv_interface iv = Some i → pd_pipe (get_pipe s iv) = Some p →
  bm_buffer (pd_memory (get_pipe s iv)) = nullptr →
  wp (SetupPipe s) (setup_post s w iv) w.
Proof.
  intros Hst Hi Hp Hbuf. unfold SetupPipe. do 2 wp_step. rewrite Hp. do 4 wp_step.
  destruct r as [ret speed]. wp_step; [|wp_step].
  2: { apply (setup_exit s id [Ev (IOUSBHostPipe_GetSpeed p) (ret, speed)]);
         [simpl; by rewrite Hst; destruct s, iv|done|solve_setup|done|by auto|done]. }
  do 4 wp_step. wp_step; [wp_step; by leave_setup|]. do 2 wp_step.
  wp_step; [wp_step; by leave_setup|]. rewrite Hi. do 3 wp_step.
  apply wp_call_eq. intros [ret' b] Hans. wp_step; [|wp_step; by leave_setup].
  apply succeeded_true in Hb0 as ->.
  destruct (ok_buffer_exists _ _ _ _ (eq_sym Hans)) as [buf ->].
  apply eq_sym, ok_buffer_new in Hans.
  simpl in Hans. rewrite mapped_at_app in Hans. simpl in Hans.
  do 5 wp_step. apply wp_Map_buffer.
  - intros a len bs Hmap. rewrite succeeded_success. cbn [negb]. do 3 wp_step.
    assert (∀ b, mapped_at b (w_trace w) ≠ Some a) as Hnew.
    { intros b. pose proof (ok_map_new _ _ _ _ _ b Hmap) as Hnew. simpl in Hnew.
      rewrite !mapped_at_app in Hnew. exact Hnew. }
    leave_setup. intros _. split_and!; [|exists bs; simpl; by rewrite lookup_insert_eq|done].
    split_and!; simpl; [by rewrite Hp|done|done| |].
    + eapply ok_map_capacity; [|exact Hmap]. simpl. apply elem_of_app. right. by left.
    + exists buf, bs. rewrite !mapped_at_app, lookup_insert_eq. simpl.
      rewrite bool_decide_eq_true_2 by done. split_and!; try done. by eapply ok_map_length.
  - intros ret' a len bs Hr. rewrite Hr. cbn [negb]. wp_step. leave_setup.
Qed.

(** Both pipes are usable, with a buffer each. *)
Definition pipes_ready w iv : Prop :=
  (∀ s, pipe_ready w (get_pipe s iv)) ∧
  bm_address (pd_memory (iv_inPipe iv)) ≠ bm_address (pd_memory (iv_outPipe iv)).

(** The structures [SetupPipes] starts from: open pipes without buffers. *)
Definition pipes_open iv : Prop :=
  ∀ s, is_Some (pd_pipe (get_pipe s iv)) ∧ bm_buffer (pd_memory (get_pipe s iv)) = nullptr.

(** The world after [OSSafeReleaseNULL]. *)
Definition released (p : ptr) w : input_world :=
  match p with Some o => log (Ev (OSObject_release o) tt) w | None => w end.

Lemma wp_OSSafeReleaseNULL p (Φ : unit → input_world → Prop) w :
  Φ tt (released p w) → wp (OSSafeReleaseNULL p) Φ w.
Proof. destruct p; [|done]. intros HΦ. apply wp_call. by intros []. Qed.

Lemma refs_released o p w : refs o (w_trace (released p w)) = refs o (w_trace w) - gained_ptr o p.
Proof. destruct p; simpl; rewrite ?refs_app, ?gained_ptr_null; simpl; lia. Qed.

Lemma released_st p w : w_st (released p w) = w_st w.
Proof. by destruct p. Qed.

Lemma quiet_released ops ms tr p w :
  quiet ops ms tr (w_trace w) → quiet ops ms tr (w_trace (released p w)).
Proof. destruct p; simpl; auto. Qed.

Lemma keeps_blocks_released p w w' : keeps_blocks w w' → keeps_blocks w (released p w').
Proof. destruct p; simpl; auto. Qed.

Lemma released_mem p w : w_mem (released p w) = w_mem w.
Proof. by destruct p. Qed.

Lemma released_trace p w e : e ∈ w_trace w → e ∈ w_trace (released p w).
Proof. destruct p; [|done]. intros ?. apply elem_of_app. by left. Qed.

(** Everything a set-up step guarantees but the books. *)
Definition setup_rel (ms : list (list Z)) w iv w' iv' : Prop :=
  w_st w' = Some iv' ∧ quiet [] ms (w_trace w) (w_trace w') ∧ keeps_comm iv iv' ∧
  iv_configurationDescriptor iv' = iv_configurationDescriptor iv ∧
  iv_gotDataAction iv' = iv_gotDataAction iv ∧ pipes iv' = pipes iv ∧ keeps_blocks w w'.

Lemma setup_rel_trans ms1 ms2 w1 iv1 w2 iv2 w3 iv3 :
  setup_rel ms1 w1 iv1 w2 iv2 → setup_rel ms2 w2 iv2 w3 iv3 →
  setup_rel (ms1 ++ ms2) w1 iv1 w3 iv3.
Proof.
  intros (? & Hq1 & ? & ? & ? & ? & ?) (? & Hq2 & ? & ? & ? & ? & ?).
  unfold setup_rel. split_and!; try done; try congruence;
    eauto using keeps_comm_trans, keeps_blocks_trans. by apply (quiet_trans [] [] ms1 ms2 _ _ _ Hq1).
Qed.

Lemma keeps_rest_pipes s iv iv' : keeps_rest s iv iv' → pipes iv' = pipes iv.
Proof. intros (_ & _ & _ & Ho & Hp & _). unfold pipes. destruct s; simpl in *; by rewrite Ho, Hp. Qed.

Lemma setup_post_rel s w iv b w' :
  setup_post s w iv b w' →
  ∃ iv' ms, setup_rel ms w iv w' iv' ∧ keeps_rest s iv iv' ∧
    balanced iv iv' (w_trace w) (w_trace w') ∧
    (b = true → pipe_set_up w w' (get_pipe s iv') ms).
Proof.
  intros (iv' & ms & ? & ? & Hk & ? & ? & ?). exists iv', ms. split; [|done].
  unfold setup_rel. split_and!; try done; [apply Hk..|by eapply keeps_rest_pipes].
Qed.

Lemma setup_rel_released ms p w iv w' iv' :
  setup_rel ms w iv w' iv' → setup_rel ms w iv (released p w') iv'.
Proof.
  intros (? & ? & ? & ? & ? & ? & ?). unfold setup_rel.
  split_and!; rewrite ?released_st; auto using quiet_released, keeps_blocks_released.
Qed.

(** The books with the properties [p] still to be released. *)
Lemma owing_balanced p iv1 iv2 iv3 tr1 tr2 tr3 :
  owing (option_list p) iv1 iv2 tr1 tr2 → balanced iv2 iv3 tr2 tr3 →
  owing (option_list p) iv1 iv3 tr1 tr3.
Proof. intros H1 H2 o. specialize (H1 o). specialize (H2 o). lia. Qed.

Lemma owing_released p iv iv' tr w :
  owing (option_list p) iv iv' tr (w_trace w) → balanced iv iv' tr (w_trace (released p w)).
Proof. intros H1 o. specialize (H1 o). rewrite held_option in H1. rewrite refs_released. lia. Qed.

(** Both pipes just set up, the [IN] buffer first. *)
Definition pipes_set_up w' iv' (ms : list (list Z)) : Prop :=
  pipes_ready w' iv' ∧
  ∃ blk ms', ms = blk :: ms' ∧ w_mem w' !! bm_address (pd_memory (iv_inPipe iv')) = Some blk.

Definition setup_pipes_post w iv (b : bool) (w' : input_world) : Prop :=
  ∃ iv' ms, setup_rel ms w iv w' iv' ∧ balanced iv iv' (w_trace w) (w_trace w') ∧
    (b = true → pipes_set_up w' iv' ms ∧
       (∃ props, Ev (OSDictionaryGetUInt64Value props kIOHIDMaxOutputReportSizeKey)
                    (pd_reportSize (iv_inPipe iv')) ∈ w_trace w') ∧
       pd_reportSize (iv_outPipe iv') = pd_reportSize (iv_outPipe iv)).

(** Storing a report size read from the properties. *)
Definition report_size_world (props : ptr) (k : dict_key) (n : Z) w iv : input_world :=
  set_st (Some (upd_pipe InPipe (set_reportSize n) iv))
    (log (Ev (OSDictionaryGetUInt64Value props k) n) w).

Lemma report_size_step props k n w iv :
  let iv' := upd_pipe InPipe (set_reportSize n) iv in
  let w' := report_size_world props k n w iv in
  setup_rel [] w iv w' iv' ∧ balanced iv iv' (w_trace w) (w_trace w') ∧
  ∀ s, pipe_ready w (get_pipe s iv) → pipe_ready w' (get_pipe s iv').
Proof.
  intros iv' w'. assert (keeps_blocks w w') by (apply keeps_blocks_set_st; auto). split_and!.
  - subst iv' w'. unfold setup_rel. split_and!; simpl; auto. done.
  - subst iv' w'. solve_balanced.
  - intros s Hr. apply (pipe_ready_keeps w); [by apply keeps_blocks_lengths|]. by destruct s.
Qed.

(** The [IN] pipe as the second half of [SetupPipes] finds it. *)
Definition in_set_up w iv (ms : list (list Z)) : Prop :=
  let d := iv_inPipe iv in
  pipe_ready w d ∧ ∃ b blk, ms = [blk] ∧ bm_buffer (pd_memory d) = Some b ∧
    mapped_at b (w_trace w) = Some (bm_address (pd_memory d)) ∧
    w_mem w !! bm_address (pd_memory d) = Some blk.

Lemma pipe_set_up_in w w' iv ms : pipe_set_up w w' (iv_inPipe iv) ms → in_set_up w' iv ms.
Proof.
  intros (Hr & (blk & Hms & Hblk) & _). split; [done|].
  destruct Hr as (_ & _ & _ & _ & b & blk' & Hb & Hat & _). by exists b, blk.
Qed.

(** Setting the [OUT] pipe up does not disturb the [IN] pipe. *)
Lemma both_set_up w w' iv iv' ms ms' :
  in_set_up w iv ms → keeps_blocks w w' → iv_inPipe iv' = iv_inPipe iv →
  pipe_set_up w w' (iv_outPipe iv') ms' → pipes_set_up w' iv' (ms ++ ms').
Proof.
  intros (Hr & b & blk & -> & Hb & Hat & Hblk) Hk Hin (Hout & _ & Hnew). rewrite <- Hin in *.
  destruct (Hk b _ Hat) as [_ Hblk']. split; [split|].
  - intros []; [|done]. by apply (pipe_ready_keeps w); [apply keeps_blocks_lengths|].
  - intros Heq. apply (Hnew b). by rewrite <- Heq.
  - exists blk, ms'. by rewrite Hblk'.
Qed.

(** The second half of [SetupPipes], with the properties still to be released. *)
Lemma SetupPipes_out_spec `{!DriverKitOk DK} ms props w iv w2 iv2 i p :
  setup_rel ms w iv w2 iv2 → owing (option_list props) iv iv2 (w_trace w) (w_trace w2) →
  iv_interface iv2 = Some i → pd_pipe (get_pipe OutPipe iv2) = Some p →
  bm_buffer (pd_memory (get_pipe OutPipe iv2)) = nullptr →
  pd_reportSize (iv_outPipe iv2) = pd_reportSize (iv_outPipe iv) → in_set_up w2 iv2 ms →
  wp (result ← SetupPipe OutPipe;
      if negb result then OSSafeReleaseNULL props;; mret false else
      n ← call (OSDictionaryGetUInt64Value props kIOHIDMaxOutputReportSizeKey);
      modify (upd_pipe InPipe (set_reportSize n));;
      OSSafeReleaseNULL props;;
      mret true) (setup_pipes_post w iv) w2.
Proof.
  intros Hrel2 How2 Hi2 Hp2 Hb2 Hsize Hin2. pose proof Hrel2 as (Hst2 & _).
  wp_step. eapply wp_mono; [by eapply (SetupPipe_spec OutPipe)|].
  intros b3 w3 (iv3 & ms3 & Hrel3 & Hk3 & Hbal3 & Hrdy3)%setup_post_rel.
  pose proof (setup_rel_trans _ _ _ _ _ _ _ _ Hrel2 Hrel3) as Hrel03.
  pose proof (owing_balanced _ _ _ _ _ _ _ How2 Hbal3) as How3.
  destruct b3; cbn [negb].
  2: { wp_step. apply wp_OSSafeReleaseNULL, wp_ret. eexists iv3, _.
       split_and!; [by apply setup_rel_released|by apply owing_released|done]. }
  specialize (Hrdy3 eq_refl). destruct Hrel3 as (Hst3 & _ & _ & _ & _ & _ & Hg3).
  assert (pipes_set_up w3 iv3 (ms ++ ms3)) as [[Hr Hne] (blk & ms' & Heq & Hblk)]
    by (eapply both_set_up; [exact Hin2|done|apply Hk3|done]).
  do 4 wp_step. fold (report_size_world props kIOHIDMaxOutputReportSizeKey r w3 iv3).
  destruct (report_size_step props kIOHIDMaxOutputReportSizeKey r w3 iv3) as (Hrel4 & Hbal4 & Hrdy4).
  wp_step. apply wp_OSSafeReleaseNULL, wp_ret.
  exists (upd_pipe InPipe (set_reportSize r) iv3), ((ms ++ ms3) ++ []). split_and!.
  - apply setup_rel_released. by eapply setup_rel_trans.
  - apply owing_released. by eapply owing_balanced.
  - intros _. split_and!.
    + split; [split; [|done]|exists blk, ms'; by rewrite app_nil_r, released_mem].
      intros s. eapply pipe_ready_keeps; [|by apply Hrdy4].
      apply keeps_blocks_lengths, keeps_blocks_released, keeps_blocks_refl.
    + exists props. apply released_trace, elem_of_app. right. by left.
    + destruct Hk3 as (_ & _ & _ & _ & _ & _ & Hs3). simpl in *. by rewrite Hs3.
Qed.

Lemma SetupPipes_spec `{!DriverKitOk DK} w iv i :
  w_st w = Some iv → iv_interface iv = Some i → pipes_open iv →
  wp SetupPipes (setup_pipes_post w iv) w.
Proof.
  intros Hst Hi Hopen. unfold SetupPipes. do 2 wp_step. destruct r as [ret props].
  wp_step.
  2: { simpl. wp_steps. exists iv, [].
       split_and!; [unfold setup_rel; split_and!; simpl; auto|by solve_balanced|done]. }
  destruct (Hopen InPipe) as [[p1 Hp1] Hb1]. destruct (Hopen OutPipe) as [[p2 Hp2] Hb2].
  set (w0 := log (Ev IOService_CopyProperties (ret, props)) w).
  assert (setup_rel [] w iv w0 iv) as Hrel0
    by (subst w0; unfold setup_rel; split_and!; simpl; auto).
  assert (owing (option_list props) iv iv (w_trace w) (w_trace w0)) as How0.
  { subst w0. intros o. rewrite held_option. revert o. solve_balanced. }
  clearbody w0. wp_step. eapply wp_mono; [by eapply SetupPipe_spec; eauto; apply Hrel0|].
  intros b1 w1 (iv1 & ms1 & Hrel1 & Hk1 & Hbal1 & Hrdy1)%setup_post_rel.
  pose proof (setup_rel_trans _ _ _ _ _ _ _ _ Hrel0 Hrel1) as Hrel01.
  pose proof (owing_balanced _ _ _ _ _ _ _ How0 Hbal1) as How1.
  destruct b1; cbn [negb].
  2: { wp_step. apply wp_OSSafeReleaseNULL, wp_ret. eexists iv1, _.
       split_and!; [by apply setup_rel_released|by apply owing_released|done]. }
  specialize (Hrdy1 eq_refl). destruct Hrel1 as (Hst1 & Hq1 & Hc1 & _ & _ & _ & Hg1).
  do 4 wp_step. fold (report_size_world props kIOHIDMaxInputReportSizeKey r w1 iv1).
  destruct (report_size_step props kIOHIDMaxInputReportSizeKey r w1 iv1) as (Hrel2 & Hbal2 & Hrdy2).
  assert (get_pipe OutPipe (upd_pipe InPipe (set_reportSize r) iv1) = get_pipe OutPipe iv) as Hout2
    by apply Hk1.
  eapply (SetupPipes_out_spec (ms1 ++ []) props _ _ _ _ i p2).
  - by apply (setup_rel_trans _ _ _ _ _ _ _ _ Hrel01).
  - by eapply owing_balanced.
  - rewrite <- Hi. apply Hc1.
  - by rewrite Hout2.
  - by rewrite Hout2.
  - simpl in Hout2. simpl. by rewrite Hout2.
  - destruct (pipe_set_up_in _ _ _ _ Hrdy1) as (Hr & buf & blk & -> & Hbuf & Hat & Hblk).
    split; [by apply (Hrdy2 InPipe)|]. exists buf, blk. split_and!; try done.
    simpl. by rewrite mapped_at_app.
Qed.

(** ** The set-up succeeds when it can *)

(** A framework in which no call of the set-up fails. *)
Class Cooperative : Prop := {
  co_handleStart provider tr : answer (Super_handleStart provider) tr = true;
  co_configuration i tr : is_Some (answer (CopyConfigurationDescriptor i) tr);
  co_interface i c tr : is_Some (answer (GetInterfaceDescriptor i c) tr);
  co_pipe i a tr : ∃ p, answer (CopyPipe i a) tr = (kIOReturnSuccess, Some p);
  co_properties tr : ∃ p, answer IOService_CopyProperties tr = (kIOReturnSuccess, p);
  co_speed p tr : ∃ v, answer (IOUSBHostPipe_GetSpeed p) tr = (kIOReturnSuccess, v);
  co_interval speed d : IOUSBGetEndpointIntervalFrames speed d ≠ 0;
  co_maxPacketSize speed d : IOUSBGetEndpointMaxPacketSize speed d ≠ 0;
  co_buffer i n tr : ∃ b, answer (CreateIOBuffer i n) tr = (kIOReturnSuccess, Some b);
  co_map b tr : ∃ r, answer (IOBufferMemoryDescriptor_Map b) tr = (kIOReturnSuccess, r);
  co_action n tr : ∃ p, answer (CreateActionGotData n) tr = (kIOReturnSuccess, p);
}.

(** A pipe is open or still ahead. *)
Definition reachable_pipe eps iv (s : pipe_sel) : Prop :=
  is_Some (pd_pipe (get_pipe s iv)) ∨ s ∈ interrupt_pipes eps.

Lemma reachable_skip ep eps iv s :
  interrupt_pipe ep = None → reachable_pipe (ep :: eps) iv s → reachable_pipe eps iv s.
Proof. unfold reachable_pipe. intros Hs. by rewrite interrupt_pipes_cons, Hs. Qed.

Lemma reachable_open ep eps iv s s' p :
  interrupt_pipe ep = Some s' → reachable_pipe (ep :: eps) iv s →
  reachable_pipe eps (open_endpoint s' (Some p) ep iv) s.
Proof.
  unfold reachable_pipe, open_endpoint. intros Hs. rewrite interrupt_pipes_cons, Hs, elem_of_cons.
  destruct (decide (s' = s)) as [->|Hne].
  - intros _. left. rewrite get_upd_pipe. simpl. eauto.
  - rewrite !get_upd_pipe_ne by done. intros [?|[?|?]]; [by left|congruence|by right].
Qed.

Lemma init_pipes_loop_complete c d cur eps :
  (∀ i a tr, ∃ p, answer (CopyPipe i a) tr = (kIOReturnSuccess, Some p)) →
  endpoint_chain c d cur eps →
  ∀ fuel w iv i,
  (length eps < fuel)%nat → w_st w = Some iv → iv_interface iv = Some i →
  iv_configurationDescriptor iv = c → iv_interfaceDescriptor iv = d →
  (∀ s, reachable_pipe eps iv s) → (∃ s, s ∈ interrupt_pipes eps) →
  wp (init_pipes_loop fuel cur) (λ b _, b = true) w.
Proof.
  intros Hcopy. induction 1 as [cur Hn|cur ep eps Hn Hch IH];
    intros fuel w iv i Hf Hst Hi Hc Hd Hreach Hex; [destruct Hex as [? []%elem_of_nil]|].
  destruct fuel as [|fuel]; [simpl in Hf; lia|]. simpl in Hf.
  eapply (wp_loop_step _ _ ep _ _ i); [done|done|by rewrite Hc, Hd|..].
  { intros Hs. rewrite interrupt_pipes_cons, Hs in Hex.
    eapply IH; eauto using reachable_skip with lia. }
  intros s ret q Hs Hr. cbv zeta. edestruct Hcopy as [p Hp]. rewrite Hp in Hr.
  injection Hr as -> ->. rewrite succeeded_success.
  assert (∀ s', reachable_pipe eps (open_endpoint s (Some p) ep iv) s') as Hreach1
    by eauto using reachable_open.
  case_decide as Hboth; [done|]. eapply IH; try done; [lia|by destruct s..|].
  destruct (Hreach1 InPipe) as [Hp1|]; [|by eauto].
  destruct (Hreach1 OutPipe) as [Hp2|]; [|by eauto].
  destruct Hboth. split; by apply not_eq_None_Some.
Qed.

(** How many pipes the loop opens when the endpoints ahead begin with [k] of the same
    direction [s] in front of one of the other direction. *)
Lemma init_pipes_loop_opens s c d cur eps :
  (∀ i a tr, ∃ p, answer (CopyPipe i a) tr = (kIOReturnSuccess, Some p)) →
  endpoint_chain c d cur eps →
  ∀ fuel w iv i k rest,
  (length eps < fuel)%nat → w_st w = Some iv → iv_interface iv = Some i →
  iv_configurationDescriptor iv = c → iv_interfaceDescriptor iv = d →
  pd_pipe (get_pipe (other s) iv) = nullptr →
  interrupt_pipes eps = replicate k s ++ other s :: rest →
  (k = 0%nat → is_Some (pd_pipe (get_pipe s iv))) →
  wp (init_pipes_loop fuel cur) (λ b w', b = true ∧ ∃ evs, w_trace w' = w_trace w ++ evs ∧
    length (opened_pipes evs) = S k) w.
Proof.
  intros Hcopy. induction 1 as [cur Hn|cur ep eps Hn Hch IH];
    intros fuel w iv i k rest Hf Hst Hi Hc Hd Hnull Heps Hk; [by destruct k|].
  destruct fuel as [|fuel]; [simpl in Hf; lia|]. simpl in Hf. rewrite interrupt_pipes_cons in Heps.
  eapply (wp_loop_step _ _ ep _ _ i); [done|done|by rewrite Hc, Hd|..].
  { intros Hs. rewrite Hs in Heps. eapply IH; eauto with lia. }
  intros s' ret q Hs Hr. rewrite Hs in Heps. cbv zeta. edestruct Hcopy as [p Hp]. rewrite Hp in Hr.
  injection Hr as -> ->. rewrite succeeded_success.
  destruct k as [|k]; injection Heps as -> Heps.
  - destruct (Hk eq_refl) as [q Hq]. rewrite decide_True.
    { split; [done|]. by eexists [_]. }
    split; apply not_eq_None_Some; destruct s; simpl in *; rewrite ?Hq; eauto.
  - rewrite decide_False by (destruct s; simpl in *; rewrite Hnull; tauto).
    eapply wp_mono; [eapply IH with (k := k); try done; [lia|by destruct s..|]|].
    { intros _. destruct s; simpl; eauto. }
    intros b w' [-> (evs & Htr & Hl)]. split; [done|]. eexists (_ :: evs).
    split; [rewrite Htr; simpl; by rewrite <- app_assoc|]. rewrite opened_pipes_cons, length_app, Hl. done.
Qed.

Lemma InitDescriptors_complete `{!Cooperative} w iv i :
  w_st w = Some iv → iv_interface iv = Some i → wp InitDescriptors (λ b _, b = true) w.
Proof.
  intros Hst Hi. unfold InitDescriptors. do 2 wp_step. rewrite Hi. do 2 wp_step. wp_step.
  apply wp_call_eq. intros c Hc. destruct (co_configuration i (w_trace w)) as [x Hx].
  do 2 wp_step. rewrite decide_False by congruence. wp_step. apply wp_call_eq. intros d Hd.
  do 2 wp_step. rewrite decide_False; [done|]. rewrite Hd.
  destruct (co_interface i c (w_trace (set_st (Some (set_configurationDescriptor c iv))
    (log (Ev (CopyConfigurationDescriptor i) c) w)))) as [y Hy]. rewrite Hy. by destruct y.
Qed.

Lemma SetupPipe_complete `{!Cooperative} s w iv i p :
  w_st w = Some iv → iv_interface iv = Some i → pd_pipe (get_pipe s iv) = Some p →
  wp (SetupPipe s) (λ b _, b = true) w.
Proof.
  intros Hst Hi Hp. unfold SetupPipe. do 2 wp_step. rewrite Hp. do 3 wp_step.
  apply wp_call_eq. intros r Hr. destruct (co_speed p (w_trace w)) as [speed Hs].
  simpl in Hr. rewrite Hs in Hr. subst r. rewrite succeeded_success. cbn [negb].
  do 4 wp_step. rewrite decide_False by apply co_interval. do 2 wp_step.
  rewrite decide_False by apply co_maxPacketSize. rewrite Hi. do 3 wp_step.
  apply wp_call_eq. intros r Hr.
  edestruct co_buffer as [b Hb]. rewrite Hb in Hr. subst r. rewrite succeeded_success. cbn [negb].
  do 5 wp_step. unfold Map_buffer. wp_step. apply wp_call_eq. intros r Hr.
  edestruct co_map as [[[a n] bs] Hm]. rewrite Hm in Hr. subst r.
  rewrite succeeded_success. cbn [negb]. by wp_steps.
Qed.

(** Two facts about the same run. *)
Lemma wp_and {A} (m : InputM A) (Φ Φ' : A → input_world → Prop) w :
  wp m Φ w → wp m Φ' w → wp m (λ a w', Φ a w' ∧ Φ' a w') w.
Proof. unfold wpx. by destruct (m w). Qed.

Lemma SetupPipes_complete `{!DriverKitOk DK, !Cooperative} w iv i :
  w_st w = Some iv → iv_interface iv = Some i → pipes_open iv →
  wp SetupPipes (λ b _, b = true) w.
Proof.
  intros Hst Hi Hopen. unfold SetupPipes. wp_step. apply wp_call_eq. intros r Hr.
  edestruct co_properties as [props Hp]. rewrite Hp in Hr. subst r.
  rewrite succeeded_success. cbn [negb].
  destruct (Hopen InPipe) as [[p1 Hp1] Hb1]. destruct (Hopen OutPipe) as [[p2 Hp2] Hb2].
  wp_step. eapply wp_mono;
    [apply wp_and; [by eapply (SetupPipe_complete InPipe)|by eapply (SetupPipe_spec InPipe)]|].
  intros b1 w1 [-> (iv1 & _ & Hst1 & _ & Hk & _)]. cbn [negb]. do 5 wp_step.
  destruct Hk as ((Hi1 & _) & _ & _ & Ho1 & _). simpl in Ho1.
  assert (iv_interface (upd_pipe InPipe (set_reportSize r) iv1) = Some i) as Hi2 by (by simpl; rewrite Hi1).
  assert (get_pipe OutPipe (upd_pipe InPipe (set_reportSize r) iv1) = get_pipe OutPipe iv) as Ho2 by done.
  eapply wp_mono; [apply wp_and; [eapply (SetupPipe_complete OutPipe); try done; by rewrite Ho2
    |eapply (SetupPipe_spec OutPipe); try done; by rewrite Ho2]|].
  intros b2 w2 [-> (iv2 & _ & Hst2 & _)]. cbn [negb]. do 5 wp_step.
  apply wp_OSSafeReleaseNULL. by wp_step.
Qed.

(** [InitPipes] from an object without pipes. *)
Lemma InitPipes_spec fuel eps w iv i :
  endpoint_chain (iv_configurationDescriptor iv) (iv_interfaceDescriptor iv) nullptr eps →
  (length eps < fuel)%nat → w_st w = Some iv → iv_interface iv = Some i →
  (∀ s, pd_pipe (get_pipe s iv) = nullptr) →
  wp (InitPipes fuel) (λ b w', ∃ iv' evs lost,
    w_st w' = Some iv' ∧ w_mem w' = w_mem w ∧ w_trace w' = w_trace w ++ evs ∧
    keeps_but_pipes iv iv' ∧
    (b = true → ∀ s, pipe_found i eps evs s (get_pipe s iv')) ∧
    opened_pipes evs ≡ₚ pipes iv' ++ lost ∧
    ∀ o, refs o evs = owned o iv' - owned o iv + held o lost) w.
Proof.
  intros Hch Hf Hst Hi Hnull.
  eapply wp_mono; [eapply (init_pipes_loop_spec i eps (w_trace w)); eauto using pipes_described_null|].
  intros b w' (iv' & ops & lost & ? & ? & (evs & Htr & _ & _ & _ & _ & <- & _) & ? & [Ho Hp] & Hb).
  exists iv', evs, lost. split_and!; try done.
  - intros ->. destruct (Hb eq_refl) as [(evs' & Htr' & Hfound) Hopen].
    assert (evs' = evs) as -> by (apply (app_inv_head (w_trace w)); congruence). eauto.
  - rewrite <- Hp. pose proof (Hnull InPipe) as Hn1. pose proof (Hnull OutPipe) as Hn2.
    simpl in Hn1, Hn2. unfold pipes. by rewrite Hn1, Hn2.
  - intros o. specialize (Ho o). rewrite Htr, refs_app in Ho. lia.
Qed.
End specifications.

(** ** Theorems *)

(** C15: [InitPipes] terminates without a fault on every finite endpoint list, for any
    answers of the framework.  When it returns true both pipes are open; each is
    described by an interrupt endpoint of its own direction and is the pipe the
    framework handed over for the address of that endpoint.  Nothing but the pipes and
    endpoint descriptors changed.  Every pipe it opened is held by the instance
    variables or was lost when a later endpoint of the same direction replaced it, and
    no other reference was taken. *)
Theorem InitPipes_correct {DK : DriverKit} fuel eps (w : input_world) iv i :
  endpoint_chain (iv_configurationDescriptor iv) (iv_interfaceDescriptor iv) nullptr eps →
  (length eps < fuel)%nat → w_st w = Some iv → iv_interface iv = Some i →
  (∀ s, pd_pipe (get_pipe s iv) = nullptr) →
  wp (InitPipes fuel) (λ b w', ∃ iv' evs lost,
    w_st w' = Some iv' ∧ w_mem w' = w_mem w ∧ w_trace w' = w_trace w ++ evs ∧
    keeps_but_pipes iv iv' ∧
    (b = true → ∀ s, pipe_found i eps evs s (get_pipe s iv')) ∧
    opened_pipes evs ≡ₚ pipes iv' ++ lost ∧
    ∀ o, refs o evs = owned o iv' - owned o iv + held o lost) w.
Proof. apply InitPipes_spec. Qed.

(** The instance variables as [InitPipes] finds them. *)
Definition sample_iv : XboxOneInputInterface_IVars :=
  set_interfaceDescriptor (Some sample_interface_descriptor)
    (set_configurationDescriptor (Some sample_config)
      (set_interface (Some sample_provider) zero_ivars)).
Definition sample_world (iv : XboxOneInputInterface_IVars) : input_world := World (Some iv) ∅ [].

Lemma InitPipes_correct_witness :
  ∃ b w', @InitPipes sample 5 (sample_world sample_iv) = Done b w' ∧
  ∃ iv' evs lost, w_st w' = Some iv' ∧ w_trace w' = evs ∧
    (b = true → ∀ s, @pipe_found sample sample_provider [sample_ep_audio; sample_ep_in; sample_ep_out]
                       evs s (get_pipe s iv')) ∧
    opened_pipes evs ≡ₚ pipes iv' ++ lost.
Proof.
  destruct (wp_elim _ _ _ (@InitPipes_correct sample 5 [sample_ep_audio; sample_ep_in; sample_ep_out]
    (sample_world sample_iv) sample_iv sample_provider
    ltac:(repeat econstructor) ltac:(simpl; lia) eq_refl eq_refl ltac:(by intros [])))
    as (b & w' & Hrun & iv' & evs & lost & Hst & _ & Htr & _ & Hf & Hp & _).
  exists b, w'. split; [exact Hrun|]. exists iv', evs, lost.
  split; [exact Hst|]. split; [exact Htr|]. split; [exact Hf|exact Hp].
Defined.

(** C16: [InitPipes] finds the pipes whenever they are there: if the interface has an
    interrupt endpoint of each direction and the framework opens every pipe it is
    asked for, the result is true. *)
Theorem InitPipes_complete {DK : DriverKit} fuel eps (w : input_world) iv i :
  (∀ i a tr, ∃ p, answer (CopyPipe i a) tr = (kIOReturnSuccess, Some p)) →
  endpoint_chain (iv_configurationDescriptor iv) (iv_interfaceDescriptor iv) nullptr eps →
  (length eps < fuel)%nat → w_st w = Some iv → iv_interface iv = Some i →
  InPipe ∈ interrupt_pipes eps → OutPipe ∈ interrupt_pipes eps →
  wp (InitPipes fuel) (λ b _, b = true) w.
Proof.
  intros Hcopy Hch Hf Hst Hi Hin Hout. eapply init_pipes_loop_complete; eauto.
  intros []; by right.
Qed.

Lemma InitPipes_complete_witness :
  wp (@InitPipes sample 5) (λ b _, b = true) (sample_world sample_iv).
Proof.
  apply (@InitPipes_complete sample 5 [sample_ep_audio; sample_ep_in; sample_ep_out]
    (sample_world sample_iv) sample_iv sample_provider);
    [intros; eexists; reflexivity|repeat econstructor|simpl; lia|reflexivity|reflexivity
    |left|right; left].
Defined.

(** C14: when [SetupPipes] returns true, both pipes can be used: each has a non-zero
    interval and packet size and a buffer of its own, which has room for a packet and is
    mapped into memory over its whole noted length.  On every path, the properties
    dictionary is released and each buffer reference is accounted for. *)
Theorem SetupPipes_ready {DK : DriverKit} (Hok : DriverKitOk DK) (w : input_world) iv i :
  w_st w = Some iv → iv_interface iv = Some i → pipes_open iv →
  wp SetupPipes (λ b w', ∃ iv',
    w_st w' = Some iv' ∧ keeps_comm iv iv' ∧ balanced iv iv' (w_trace w) (w_trace w') ∧
    (b = true → pipes_ready w' iv')) w.
Proof.
  intros Hst Hi Hopen. eapply wp_mono; [by eapply SetupPipes_spec|].
  intros b w' (iv' & ms & (? & _ & ? & _) & ? & Hr). exists iv'. split_and!; auto.
  intros Hb. by apply Hr.
Qed.

(** Open pipes without buffers. *)
Definition sample_iv_open : XboxOneInputInterface_IVars :=
  upd_pipe InPipe (set_pipe (Some (sample_pipe 0x81)))
    (upd_pipe OutPipe (set_pipe (Some (sample_pipe 0x02))) sample_iv).

Lemma SetupPipes_ready_witness :
  ∃ b w', @SetupPipes sample (sample_world sample_iv_open) = Done b w' ∧
  ∃ iv', w_st w' = Some iv' ∧ (b = true → pipes_ready w' iv').
Proof.
  destruct (wp_elim _ _ _ (@SetupPipes_ready sample sample_ok (sample_world sample_iv_open)
    sample_iv_open sample_provider eq_refl eq_refl
    ltac:(intros []; split; [eexists; reflexivity|reflexivity|eexists; reflexivity|reflexivity])))
    as (b & w' & Hrun & iv' & Hst & _ & _ & Hr).
  exists b, w'. split; [exact Hrun|]. exists iv'. split; [exact Hst|exact Hr].
Defined.

(** C33: [SetupPipes] stores both report sizes into the [IN] pipe.  After it returns
    true the [IN] pipe holds the value read for the maximum output report size, and
    the report size of the [OUT] pipe is what it was before. *)
Theorem SetupPipes_report_sizes {DK : DriverKit} (Hok : DriverKitOk DK) (w : input_world) iv i :
  w_st w = Some iv → iv_interface iv = Some i → pipes_open iv →
  wp SetupPipes (λ b w', b = true → ∃ iv', w_st w' = Some iv' ∧
    (∃ props, Ev (OSDictionaryGetUInt64Value props kIOHIDMaxOutputReportSizeKey)
                 (pd_reportSize (iv_inPipe iv')) ∈ w_trace w') ∧
    pd_reportSize (iv_outPipe iv') = pd_reportSize (iv_outPipe iv)) w.
Proof.
  intros Hst Hi Hopen. eapply wp_mono; [by eapply SetupPipes_spec|].
  intros b w' (iv' & ms & (? & _) & _ & Hr) Hb. exists iv'. destruct (Hr Hb) as (_ & ? & ?). auto.
Qed.

Lemma SetupPipes_report_sizes_witness :
  wp (@SetupPipes sample) (λ b w', b = true → ∃ iv', w_st w' = Some iv' ∧
    (∃ props, Ev (OSDictionaryGetUInt64Value props kIOHIDMaxOutputReportSizeKey)
                 (pd_reportSize (iv_inPipe iv')) ∈ w_trace w') ∧
    pd_reportSize (iv_outPipe iv') = 0) (sample_world sample_iv_open).
Proof.
  apply (@SetupPipes_report_sizes sample sample_ok (sample_world sample_iv_open)
    sample_iv_open sample_provider); [reflexivity|reflexivity|].
  intros []; split; [eexists; reflexivity|reflexivity|eexists; reflexivity|reflexivity].
Defined.

(** C35: an interface whose interrupt endpoints begin with more than one of the same
    direction makes [InitPipes] lose pipes.  If [k + 1] endpoints of one direction come
    before the first of the other, and every pipe opens, the result is true, but [k] of
    the pipes it opened are held by no instance variable any more, and their references
    are never given back. *)
Theorem InitPipes_loses_pipes {DK : DriverKit} fuel eps (w : input_world) iv i s k rest :
  (∀ i a tr, ∃ p, answer (CopyPipe i a) tr = (kIOReturnSuccess, Some p)) →
  endpoint_chain (iv_configurationDescriptor iv) (iv_interfaceDescriptor iv) nullptr eps →
  (length eps < fuel)%nat → w_st w = Some iv → iv_interface iv = Some i →
  (∀ s, pd_pipe (get_pipe s iv) = nullptr) →
  interrupt_pipes eps = replicate (S k) s ++ other s :: rest →
  wp (InitPipes fuel) (λ b w', b = true ∧ ∃ iv' evs lost,
    w_st w' = Some iv' ∧ w_trace w' = w_trace w ++ evs ∧ length lost = k ∧
    opened_pipes evs ≡ₚ pipes iv' ++ lost ∧
    ∀ o, refs o evs = owned o iv' - owned o iv + held o lost) w.
Proof.
  intros Hcopy Hch Hf Hst Hi Hnull Heps.
  eapply wp_mono; [apply wp_and; [by eapply InitPipes_spec|by eapply (init_pipes_loop_opens s)]|].
  intros b w' [(iv' & evs & lost & ? & _ & Htr & _ & Hfound & Hp & Ho) [-> (evs' & Htr' & Hl)]].
  split; [done|]. exists iv', evs, lost. split_and!; try done.
  assert (evs' = evs) as -> by (apply (app_inv_head (w_trace w)); congruence).
  apply Permutation_length in Hp. revert Hp. rewrite Hl, length_app. unfold pipes.
  destruct (Hfound eq_refl InPipe) as (p1 & _ & Hp1 & _), (Hfound eq_refl OutPipe) as (p2 & _ & Hp2 & _).
  simpl in Hp1, Hp2. rewrite Hp1, Hp2. simpl. lia.
Qed.

Lemma InitPipes_loses_pipes_witness :
  let DK := sample_with sample_answer [sample_ep_in; sample_ep_in2; sample_ep_out] false in
  wp (@InitPipes DK 4) (λ b w', b = true ∧ ∃ iv' evs lost,
    w_st w' = Some iv' ∧ w_trace w' = [] ++ evs ∧ length lost = 1%nat ∧
    opened_pipes evs ≡ₚ pipes iv' ++ lost ∧
    ∀ o, refs o evs = owned o iv' - owned o sample_iv + held o lost) (sample_world sample_iv).
Proof.
  intros DK. apply (@InitPipes_loses_pipes DK 4 [sample_ep_in; sample_ep_in2; sample_ep_out]
    (sample_world sample_iv) sample_iv sample_provider InPipe 1 []);
    [intros; eexists; reflexivity|repeat econstructor|simpl; lia|reflexivity|reflexivity
    |by intros []|reflexivity].
Defined.
