(* ===== verification/InputComm.v ===== *)
(** * InputComm: talking to the controller

    The part of src/XboxControllerDriver/XboxOne/XboxOneInputInterface.cpp that runs
    once the pipes are set up: packets from the controller ([GotData_Impl] and the
    report handlers), packets to it ([SendInterruptData]), and the switch the user
    client controls ([SetEnable]).

    A pointer to a mapped buffer is its address; a pointer to a constant or a local
    structure is the list of its bytes.

    The driver judges a packet by what the input buffer holds and does not check how
    long the buffer is or how much of it a transfer filled.  So the specifications speak
    of the whole contents of the buffer, stale bytes included, and say exactly when a
    buffer is too short. *)

From S2P Require Import Prelude Effects DriverKit Sample Packets InputState InputPipes.

Definition INIT_PACKET : list Z := [0x05; 0x20; 0x00; 0x01; 0x00].
Definition INIT_PACKET_SIZE : Z := wrap8 (Z.of_nat (length INIT_PACKET)).
Definition SWAP_TO_WIRED_PACKET : list Z := [0x05; 0x20; 0x00; 0x0f; 0x06].
Definition SWAP_TO_WIRED_PACKET_SIZE : Z := wrap8 (Z.of_nat (length SWAP_TO_WIRED_PACKET)).

Section definitions.
Context {DK : DriverKit}.

(** [((uint8_t* )a)[off]] *)
Definition load_u8 (a : Z) (off : nat) : InputM Z := bs ← load a off 1; mret (bs !!! 0%nat).

(** [header->member] for the [i]-th member of the report header at [data]. *)
Definition header_member (data : Z) (i : nat) : InputM Z :=
  load_u8 data (Z.to_nat (offset_of c_xboxone_report_header i)).

(** Printing a packet reads its eighteen bytes. *)
Definition DebugPrintButtonPacket (data : Z) : InputM unit :=
  if DEBUG then load data 0 18;; mret tt else mret tt.

(** ** Data from device *)

Definition RequestAsyncInterruptData : InputM kern_return_t :=
  iv ← ivars;
  p ← nonnull (pd_pipe (iv_inPipe iv));
  call (IOUSBHostPipe_AsyncIO p (bm_buffer (pd_memory (iv_inPipe iv)))
          (wrap32 (bm_length (pd_memory (iv_inPipe iv)))) (iv_gotDataAction iv)).

Definition HandleReportGeneric (data actualByteCount completionTimestamp packetType size : Z)
    : InputM bool :=
  t ← header_member data 0;
  if decide (t ≠ packetType) then mret false else
  n ← header_member data 3;
  if decide (n ≠ size) then mret false else
  iv ← ivars;
  let b := bm_buffer (pd_memory (iv_inPipe iv)) in
  contents ← buffer_contents b actualByteCount;
  ret ← call (IOUserHIDDevice_handleReport completionTimestamp b actualByteCount contents);
  if negb (succeeded ret) then mret false else mret true.

Definition HandleControllerReport (data actualByteCount completionTimestamp : Z) : InputM bool :=
  result ← HandleReportGeneric data actualByteCount completionTimestamp
             XBOXONE_IN_BUTTON XBOXONE_BUTTON_REPORT_SIZE;
  (if result : bool then
     iv ← ivars; DebugPrintButtonPacket (bm_address (pd_memory (iv_inPipe iv)))
   else mret tt);;
  mret result.

(** ** Data to device *)

Definition SendInterruptData (data : list Z) (size : Z) : InputM kern_return_t :=
  iv ← ivars;
  let m := pd_memory (iv_outPipe iv) in
  if decide (bm_length m < size) then mret kIOReturnBadArgument else
  if decide (Z.of_nat (length data) < size) then raise OutOfBounds else
  store (bm_address m) 0 (take (Z.to_nat size) data);;
  store (bm_address m) 2 [iv_outCounter iv];;
  modify (set_outCounter (wrap8 (iv_outCounter iv + 1)));;
  p ← nonnull (pd_pipe (iv_outPipe iv));
  contents ← buffer_contents (bm_buffer m) size;
  '(ret, bytesTransferred) ← call (IOUSBHostPipe_IO p (bm_buffer m) size contents);
  if negb (succeeded ret) then mret ret else mret ret.

(** The response to a guide report, as it is initialised. *)
Definition guide_response : xboxone_guide_response :=
  {| r_header := {| packetType := 0x01; version := 0x20; counter := 0x00; size := 0x09 |};
     constData := [0x00; 0x07; 0x20; 0x02];
     padding := [0; 0; 0; 0; 0] |}.

Definition HandleGuideReport (data actualByteCount completionTimestamp : Z) : InputM bool :=
  result ← HandleReportGeneric data actualByteCount completionTimestamp
             XBOXONE_IN_GUIDE XBOXONE_GUIDE_REPORT_SIZE;
  (if result : bool then
     v ← header_member data 1;
     if decide (v = 0x30) then
       SendInterruptData (encode_guide_response guide_response) XBOXONE_GUIDE_RESPONSE_SIZE;;
       mret tt
     else mret tt
   else mret tt);;
  mret result.

(** The body of [GotData_Impl] up to its exit label. *)
Definition GotData_body (status : kern_return_t) (actualByteCount completionTimestamp : Z)
    : InputM unit :=
  if negb (succeeded status) then mret tt else
  iv ← ivars;
  if negb (iv_enabled iv) then mret tt else
  let header := bm_address (pd_memory (iv_inPipe iv)) in
  (if DEBUG then header_member header 0;; header_member header 3;; mret tt else mret tt);;
  handled ← HandleControllerReport header actualByteCount completionTimestamp;
  if handled : bool then mret tt else
  HandleGuideReport header actualByteCount completionTimestamp;;
  mret tt.

Definition GotData_Impl (status : kern_return_t) (actualByteCount completionTimestamp : Z)
    : InputM unit :=
  GotData_body status actualByteCount completionTimestamp;;
  RequestAsyncInterruptData;;
  mret tt.

(** ** User client communication *)

Definition SetEnable (enabled : bool) : InputM unit :=
  p ← get_st;
  match p with
  | Some iv => put_st (Some (set_enabled enabled iv))
  | None => mret tt
  end.
End definitions.

(** ** Abstract specification of one completed read

    What the bridge does with a completed read, given what the input buffer [buf] holds
    now: it is forwarded to the HID stack when the driver is enabled and the buffer
    begins with the header of one of the two known packets; a guide packet of version
    0x30 that the stack accepted is answered. *)

Inductive packet_class : Set := ControllerPacket | GuidePacket | UnknownPacket.

#[global] Instance packet_class_eq_dec : EqDecision packet_class.
Proof. solve_decision. Defined.

Definition classify (buf : list Z) : packet_class :=
  if decide (buf !!! 0%nat = 0x20 ∧ buf !!! 3%nat = 14) then ControllerPacket
  else if decide (buf !!! 0%nat = 0x07 ∧ buf !!! 3%nat = 2) then GuidePacket
  else UnknownPacket.

Definition forwards (status : kern_return_t) (enabled : bool) (buf : list Z) : bool :=
  succeeded status && enabled && bool_decide (classify buf ≠ UnknownPacket).

(** A packet that is answered once the HID stack has accepted it. *)
Definition wants_answer (buf : list Z) : bool :=
  bool_decide (classify buf = GuidePacket) && bool_decide (buf !!! 1%nat = 0x30).

(** The nine bytes of an answer carrying counter [c]. *)
Definition guide_packet (c : Z) : list Z := [0x01; 0x20; c; 0x09; 0x00; 0x07; 0x20; 0x02; 0x00].

(** A packet handed to the pipe of [d]. *)
Definition packet_to (d : usb_pipe_data) (bs : list Z) : list (obj * list Z) :=
  (λ p, (p, bs)) <$> option_list (pd_pipe d).

(** How much of the input buffer is read: nothing for a failed or ignored completion;
    else the packet type, and the rest of the header for a known type or to print it;
    a debug build prints the first eighteen bytes of a button packet it handled. *)
Definition bytes_read {DK : DriverKit} (status : kern_return_t) (enabled accepted : bool)
    (buf : list Z) : nat :=
  if succeeded status && enabled then
    Nat.max (if DEBUG || bool_decide (buf !!! 0%nat = 0x20 ∨ buf !!! 0%nat = 0x07) then 4 else 1)
            (if DEBUG && bool_decide (classify buf = ControllerPacket) && accepted then 18 else 0)
  else 0.

(** ** Lemmas *)

Section specifications.
Context {DK : DriverKit}.
Implicit Types (iv : XboxOneInputInterface_IVars) (w : input_world) (Ψ : fault → Prop).

(** The object can exchange packets: both pipes are ready, the input buffer holds a
    header, and a whole button report where a debug build prints it. *)
Definition comm_ready w iv : Prop :=
  pipes_ready w iv ∧
  (if DEBUG then 18 else 4) ≤ bm_length (pd_memory (iv_inPipe iv)).

(** What the input buffer holds. *)
Definition in_buffer w iv (buf : list Z) : Prop :=
  w_mem w !! bm_address (pd_memory (iv_inPipe iv)) = Some buf.

Lemma pipes_ready_buffer w iv :
  pipes_ready w iv →
  ∃ buf, in_buffer w iv buf ∧ bm_length (pd_memory (iv_inPipe iv)) = Z.of_nat (length buf).
Proof. intros [Hr _]. destruct (Hr InPipe) as (_ & _ & _ & _ & b & buf & _ & _ & ? & ?). eauto. Qed.

Lemma in_buffer_length w iv buf :
  pipes_ready w iv → in_buffer w iv buf →
  bm_length (pd_memory (iv_inPipe iv)) = Z.of_nat (length buf).
Proof.
  intros (buf' & Hbuf' & Hl)%pipes_ready_buffer Hbuf. unfold in_buffer in *. congruence.
Qed.

(** A ready buffer is long enough whatever it holds. *)
Lemma bytes_read_ready w iv buf status enabled accepted buf' :
  comm_ready w iv → in_buffer w iv buf → (bytes_read status enabled accepted buf' ≤ length buf)%nat.
Proof.
  intros [Hr Hl] Hbuf. rewrite (in_buffer_length _ _ _ Hr Hbuf) in Hl. unfold bytes_read.
  destruct (_ && _); [|lia]. destruct DEBUG; simpl; repeat case_match; lia.
Qed.

Lemma wp_header_member Ψ data buf i (Φ : Z → input_world → Prop) w :
  w_mem w !! data = Some buf → (i < 4)%nat →
  ((i < length buf)%nat → Φ (buf !!! i) w) → ((length buf ≤ i)%nat → Ψ OutOfBounds) →
  wpx Ψ (header_member data i) Φ w.
Proof.
  intros Hm Hi HΦ HΨ. unfold header_member, load_u8.
  replace (Z.to_nat (offset_of c_xboxone_report_header i)) with i
    by (do 4 (destruct i as [|i]; [done|]); lia).
  wp_step. eapply wp_load_one; [done| |done]. intros Hlt. wp_step. by apply HΦ.
Qed.

Lemma wp_buffer_contents Ψ b o a blk n (Φ : list Z → input_world → Prop) w :
  b = Some o → mapped_at o (w_trace w) = Some a → w_mem w !! a = Some blk →
  Φ (take (Z.to_nat n) blk) w → wpx Ψ (buffer_contents b n) Φ w.
Proof.
  intros -> Ha Hm HΦ. unfold buffer_contents. wp_steps. simpl. rewrite Ha. simpl. by rewrite Hm.
Qed.

(** Forwarding [count] bytes of the input buffer [buf]. *)
Definition report_call iv (buf : list Z) (count ts : Z) : driverkitE kern_return_t :=
  IOUserHIDDevice_handleReport ts (bm_buffer (pd_memory (iv_inPipe iv))) count
    (take (Z.to_nat count) buf).

(** The bytes [HandleReportGeneric] looks at. *)
Definition generic_bytes (t : Z) (buf : list Z) : nat := if decide (buf !!! 0%nat = t) then 4 else 1.

Lemma wp_HandleReportGeneric Ψ count ts t n buf (Φ : bool → input_world → Prop) w iv :
  w_st w = Some iv → pipe_ready w (iv_inPipe iv) → in_buffer w iv buf →
  ((length buf < generic_bytes t buf)%nat → Ψ OutOfBounds) →
  ((generic_bytes t buf ≤ length buf)%nat →
   if decide (buf !!! 0%nat = t ∧ buf !!! 3%nat = n)
   then let r := answer (report_call iv buf count ts) (w_trace w) in
        Φ (succeeded r) (log (Ev (report_call iv buf count ts) r) w)
   else Φ false w) →
  wpx Ψ (HandleReportGeneric (bm_address (pd_memory (iv_inPipe iv))) count ts t n) Φ w.
Proof.
  intros Hst (_ & _ & _ & _ & b & blk & Hb & Hat & Hblk & _) Hbuf HΨ HΦ.
  unfold in_buffer in Hbuf. rewrite Hbuf in Hblk. injection Hblk as <-.
  unfold HandleReportGeneric, generic_bytes in *.
  wp_step. eapply wp_header_member; [done|lia| |intros; apply HΨ; case_decide; lia].
  intros H0. destruct (decide (buf !!! 0%nat = t)) as [Ht|Ht].
  2: { rewrite decide_True by done. wp_step. rewrite decide_False in HΦ by tauto. apply HΦ. lia. }
  rewrite decide_False by tauto.
  wp_step. eapply wp_header_member; [done|lia| |intros; apply HΨ; lia]. intros H3.
  destruct (decide (buf !!! 3%nat = n)) as [Hn|Hn].
  2: { rewrite decide_True by done. wp_step. rewrite decide_False in HΦ by tauto. apply HΦ. lia. }
  rewrite decide_False by tauto. rewrite decide_True in HΦ by done.
  do 3 wp_step. eapply wp_buffer_contents; [done..|]. wp_step. apply wp_call_eq. intros r ->.
  fold (report_call iv buf count ts).
  cbv zeta in HΦ. specialize (HΦ ltac:(lia)). destruct (succeeded _); by wp_step.
Qed.

(** What the [OUT] pipe must be for a packet of [size] bytes. *)
Lemma wp_SendInterruptData Ψ data size (Φ : kern_return_t → input_world → Prop) w iv :
  w_st w = Some iv → pipe_ready w (iv_outPipe iv) → 3 ≤ size ≤ Z.of_nat (length data) →
  let m := pd_memory (iv_outPipe iv) in
  let packet := <[2%nat := iv_outCounter iv]> (take (Z.to_nat size) data) in
  (bm_length m < size → Φ kIOReturnBadArgument w) →
  (size ≤ bm_length m → ∀ p blk ret n,
     pd_pipe (iv_outPipe iv) = Some p → w_mem w !! bm_address m = Some blk →
     Φ ret (World (Some (set_outCounter (wrap8 (iv_outCounter iv + 1)) iv))
                  (<[bm_address m := overwrite 0 packet blk]> (w_mem w))
                  (w_trace w ++ [Ev (IOUSBHostPipe_IO p (bm_buffer m) size packet) (ret, n)]))) →
  wpx Ψ (SendInterruptData data size) Φ w.
Proof.
  intros Hst ([p Hp] & _ & _ & _ & b & blk & Hb & Hmap & Hblk & Hlen) Hsize m packet Hbad Hgood.
  unfold SendInterruptData. subst m. do 2 wp_step. wp_step; [wp_step; auto|].
  rewrite decide_False by lia.
  assert (length (take (Z.to_nat size) data) = Z.to_nat size) as Hl by (rewrite length_take; lia).
  wp_step. eapply wp_store; [done|rewrite Hl; lia|].
  wp_step. eapply wp_store; [apply lookup_insert_eq|rewrite overwrite_length; simpl; lia|].
  cbn [set_mem w_mem]. rewrite insert_insert_eq, overwrite_insert by lia. fold packet.
  do 2 wp_step. rewrite Hp. do 3 wp_step.
  eapply wp_buffer_contents; [done|exact Hmap|apply lookup_insert_eq|].
  replace (Z.to_nat size) with (length packet) by (subst packet; by rewrite length_insert).
  rewrite take_overwrite. do 2 wp_step. destruct r as [ret bytesTransferred].
  destruct (negb _); wp_step; (eapply Hgood; [lia|done|done]).
Qed.

(** Writing a block anew at its length. *)
Lemma keeps_lengths_insert w w' a blk blk' :
  w_mem w !! a = Some blk → length blk' = length blk →
  w_mem w' = <[a := blk']> (w_mem w) →
  (∀ b, mapped_at b (w_trace w') = mapped_at b (w_trace w)) → keeps_lengths w w'.
Proof.
  intros Hblk Hl Hm Htr b a' Hb. rewrite Htr. split; [done|]. intros blk0 Hblk0. rewrite Hm.
  destruct (decide (a = a')) as [<-|Hne]; [|rewrite lookup_insert_ne by done; eauto].
  rewrite lookup_insert_eq. eexists. split; [done|]. congruence.
Qed.

Lemma pipes_ready_keeps w w' iv : keeps_lengths w w' → pipes_ready w iv → pipes_ready w' iv.
Proof. intros Hk [Hr ?]. split; [|done]. intros s. by eapply pipe_ready_keeps. Qed.

Lemma pipes_ready_log e w iv :
  (∀ b, map_of b e = None) → pipes_ready w iv → pipes_ready (log e w) iv.
Proof.
  intros He. apply pipes_ready_keeps, keeps_blocks_lengths, keeps_blocks_log; [|done].
  apply keeps_blocks_refl.
Qed.

(** What the communication leaves alone: the instance variables but the counter and
    the flag. *)
Definition same_pipes iv iv' : Prop :=
  iv_inPipe iv' = iv_inPipe iv ∧ iv_outPipe iv' = iv_outPipe iv.

Lemma pipes_ready_same w iv iv' : same_pipes iv iv' → pipes_ready w iv → pipes_ready w iv'.
Proof.
  intros [Hi Ho] [Hr Hne]. split; [|by rewrite Hi, Ho].
  intros s. specialize (Hr s). destruct s; simpl in *; congruence.
Qed.

Lemma comm_ready_same w w' iv iv' :
  same_pipes iv iv' → pipes_ready w' iv' → comm_ready w iv → comm_ready w' iv'.
Proof. intros [Hi _] Hr [_ Hl]. split; [done|]. by rewrite Hi. Qed.

(** ** What the handlers do *)

Lemma wp_debug_header Ψ buf (Φ : unit → input_world → Prop) data w :
  w_mem w !! data = Some buf →
  (DEBUG = true → (length buf < 4)%nat → Ψ OutOfBounds) →
  ((DEBUG = true → (4 ≤ length buf)%nat) → Φ tt w) →
  wpx Ψ (if DEBUG then header_member data 0;; header_member data 3;; mret tt else mret tt) Φ w.
Proof.
  intros Hm HΨ HΦ. destruct DEBUG eqn:Hd; [|by wp_step; apply HΦ].
  wp_step. eapply wp_header_member; [done|lia| |intros; apply HΨ; [done|lia]]. intros _.
  wp_step. eapply wp_header_member; [done|lia| |intros; apply HΨ; [done|lia]]. intros H3.
  wp_step. apply HΦ. lia.
Qed.

Lemma wp_HandleControllerReport Ψ count ts buf (Φ : bool → input_world → Prop) w iv :
  let r := answer (report_call iv buf count ts) (w_trace w) in
  w_st w = Some iv → pipe_ready w (iv_inPipe iv) → in_buffer w iv buf →
  ((length buf < generic_bytes 0x20 buf)%nat → Ψ OutOfBounds) →
  (DEBUG = true → classify buf = ControllerPacket → succeeded r = true →
     (length buf < 18)%nat → Ψ OutOfBounds) →
  ((generic_bytes 0x20 buf ≤ length buf)%nat →
   if decide (buf !!! 0%nat = 0x20 ∧ buf !!! 3%nat = 14)
   then (DEBUG = true → succeeded r = true → (18 ≤ length buf)%nat) →
        Φ (succeeded r) (log (Ev (report_call iv buf count ts) r) w)
   else Φ false w) →
  wpx Ψ (HandleControllerReport (bm_address (pd_memory (iv_inPipe iv))) count ts) Φ w.
Proof.
  intros r Hst Hr Hbuf HΨ HΨ' HΦ. unfold HandleControllerReport. wp_step.
  eapply wp_HandleReportGeneric; [done..|]. intros Hlen. specialize (HΦ Hlen).
  change XBOXONE_IN_BUTTON with 0x20. change XBOXONE_BUTTON_REPORT_SIZE with 14.
  destruct (decide _) as [Hc|]; [|by wp_steps]. cbv zeta. fold r.
  assert (classify buf = ControllerPacket) as Hcl by (unfold classify; by rewrite decide_True).
  destruct (succeeded r) eqn:Hs; [|by wp_steps; apply HΦ].
  do 3 wp_step. unfold DebugPrintButtonPacket. destruct DEBUG eqn:Hd; [|by wp_steps; apply HΦ].
  wp_step. eapply wp_load_prefix; [exact Hbuf| |by auto]. intros H18. wp_steps. by apply HΦ.
Qed.

(** Whether an answer leaves the driver: it must be called for and fit the pipe. *)
Definition sends status accepted buf iv : bool :=
  forwards status (iv_enabled iv) buf && accepted && wants_answer buf &&
  bool_decide (9 ≤ bm_length (pd_memory (iv_outPipe iv))).

Definition after_sends (b : bool) iv : XboxOneInputInterface_IVars :=
  if b then set_outCounter (wrap8 (iv_outCounter iv + 1)) iv else iv.

(** The memory after an answer was written to the output buffer. *)
Definition memory_after (b : bool) iv (m : memory) : memory :=
  if b then alter (overwrite 0 (guide_packet (iv_outCounter iv)))
              (bm_address (pd_memory (iv_outPipe iv))) m
  else m.

(** The packets handed to the [OUT] pipe. *)
Definition answers_out (b : bool) iv : list (obj * list Z) :=
  if b then packet_to (iv_outPipe iv) (guide_packet (iv_outCounter iv)) else [].

(** Events that queue no read, map nothing and leave the references alone. *)
Definition idle (evs : dk_trace) : Prop :=
  reads_armed evs = 0 ∧ neutral evs ∧ mappings evs = [] ∧ ∀ b, mapped_at b evs = None.

Lemma idle_app evs1 evs2 : idle evs1 → idle evs2 → idle (evs1 ++ evs2).
Proof.
  intros (Ha1 & Hn1 & Hm1 & Hat1) (Ha2 & Hn2 & Hm2 & Hat2).
  split_and!; autorewrite with trace; rewrite ?Ha1, ?Ha2, ?Hm1, ?Hm2; auto using neutral_app.
  intros b. by rewrite mapped_at_app, Hat1, Hat2.
Qed.

Lemma wp_HandleGuideReport Ψ count ts buf (Φ : bool → input_world → Prop) w iv :
  let e := report_call iv buf count ts in
  let r := answer e (w_trace w) in
  let b := succeeded r && bool_decide (buf !!! 1%nat = 0x30) &&
           bool_decide (9 ≤ bm_length (pd_memory (iv_outPipe iv))) in
  w_st w = Some iv → pipes_ready w iv → in_buffer w iv buf →
  ((length buf < generic_bytes 0x07 buf)%nat → Ψ OutOfBounds) →
  ((generic_bytes 0x07 buf ≤ length buf)%nat →
   if decide (buf !!! 0%nat = 0x07 ∧ buf !!! 3%nat = 2)
   then ∀ evs w', w_trace w' = w_trace w ++ Ev e r :: evs → hid_calls evs = [] →
          out_packets evs = answers_out b iv → idle evs →
          w_st w' = Some (after_sends b iv) → w_mem w' = memory_after b iv (w_mem w) →
          Φ (succeeded r) w'
   else Φ false w) →
  wpx Ψ (HandleGuideReport (bm_address (pd_memory (iv_inPipe iv))) count ts) Φ w.
Proof.
  intros e r b Hst Hr Hbuf HΨ HΦ. unfold HandleGuideReport. wp_step.
  eapply wp_HandleReportGeneric; [done|apply (proj1 Hr InPipe)|done..|]. intros Hlen.
  specialize (HΦ Hlen). change XBOXONE_IN_GUIDE with 0x07. change XBOXONE_GUIDE_REPORT_SIZE with 2.
  destruct (decide _) as [[Ht Hn]|]; [|by wp_steps]. cbv zeta. fold e. fold r. subst b.
  unfold generic_bytes in Hlen. rewrite decide_True in Hlen by done.
  set (w1 := log (Ev e r) w). assert (∀ s, pipe_ready w1 (get_pipe s iv)) as Hr1.
  { intros s. apply (pipe_ready_keeps w); [|apply Hr]. by apply keeps_blocks_lengths, keeps_blocks_log. }
  destruct (succeeded r) eqn:Hs; cbn [andb] in HΦ.
  2: { do 2 wp_step. by apply (HΦ [] w1). }
  do 2 wp_step. eapply wp_header_member; [exact Hbuf|lia| |lia]. intros _.
  destruct (decide (buf !!! 1%nat = 0x30)) as [Hv|Hv].
  2: { do 2 wp_step. rewrite (bool_decide_eq_false_2 _ Hv) in HΦ. by apply (HΦ [] w1). }
  rewrite (bool_decide_eq_true_2 _ Hv) in HΦ. cbn [andb] in HΦ.
  change XBOXONE_GUIDE_RESPONSE_SIZE with 9.
  wp_step. eapply wp_SendInterruptData; [done|apply (Hr1 OutPipe)|done| |].
  - intros Hlt. rewrite bool_decide_eq_false_2 in HΦ by lia. do 2 wp_step. by apply (HΦ [] w1).
  - intros Hle p blk ret n Hp Hblk. rewrite bool_decide_eq_true_2 in HΦ by done.
    do 2 wp_step. eapply HΦ; [simpl; by rewrite <- app_assoc|done| |done|done|].
    + unfold answers_out, packet_to. by rewrite Hp.
    + simpl. by rewrite (alter_insert_Some _ _ _ _ Hblk).
Qed.

(** The bytes a completion reads, by who reads them. *)
Lemma bytes_read_le status accepted buf (n : nat) :
  succeeded status = true →
  (bytes_read status true accepted buf ≤ n)%nat ↔
    (generic_bytes 0x20 buf ≤ n)%nat ∧ (generic_bytes 0x07 buf ≤ n)%nat ∧
    (DEBUG = true → (4 ≤ n)%nat) ∧
    (DEBUG = true → classify buf = ControllerPacket → accepted = true → (18 ≤ n)%nat).
Proof.
  intros Hs. unfold bytes_read, generic_bytes. rewrite Hs. cbn [andb].
  destruct DEBUG, accepted; cbn [orb andb]; repeat case_decide; repeat case_bool_decide;
    cbn [andb]; intuition (try lia; try done).
Qed.

(** The specification of a completed read, but for the new read request. *)
Definition body_post status count ts buf w iv w' : Prop :=
  let accepted := succeeded (answer (report_call iv buf count ts) (w_trace w)) in
  let b := sends status accepted buf iv in
  ∃ evs, w_trace w' = w_trace w ++ evs ∧
    hid_calls evs =
      (if forwards status (iv_enabled iv) buf
       then [(ts, count, take (Z.to_nat count) buf, accepted)] else []) ∧
    out_packets evs = answers_out b iv ∧ idle evs ∧
    w_st w' = Some (after_sends b iv) ∧ w_mem w' = memory_after b iv (w_mem w).

Lemma body_post_ignored status count ts buf w iv :
  w_st w = Some iv → forwards status (iv_enabled iv) buf = false →
  body_post status count ts buf w iv w.
Proof. intros Hst Hf. exists []. unfold sends. rewrite Hf, app_nil_r. by split_and!. Qed.

Lemma classify_guide buf :
  buf !!! 0%nat = 0x07 → buf !!! 3%nat = 2 → classify buf = GuidePacket.
Proof. intros. unfold classify. rewrite decide_False by lia. by rewrite decide_True. Qed.

Lemma classify_guide_inv buf :
  classify buf = GuidePacket → buf !!! 0%nat = 0x07 ∧ buf !!! 3%nat = 2.
Proof. unfold classify. by repeat case_decide. Qed.

Lemma classify_controller buf :
  buf !!! 0%nat = 0x20 ∧ buf !!! 3%nat = 14 → classify buf = ControllerPacket.
Proof. intros. unfold classify. by rewrite decide_True. Qed.

Lemma classify_controller_inv buf :
  classify buf = ControllerPacket → buf !!! 0%nat = 0x20 ∧ buf !!! 3%nat = 14.
Proof. unfold classify. by repeat case_decide. Qed.

(** A button packet is handed on and never answered. *)
Lemma body_post_controller status count ts buf w iv :
  let e := report_call iv buf count ts in
  w_st w = Some iv → succeeded status = true → iv_enabled iv = true →
  classify buf = ControllerPacket →
  body_post status count ts buf w iv (log (Ev e (answer e (w_trace w))) w).
Proof.
  intros e Hst Hs He Hc. exists [Ev e (answer e (w_trace w))].
  unfold sends, forwards, wants_answer. rewrite Hs, He, Hc.
  rewrite (bool_decide_eq_false_2 (_ = GuidePacket)) by done.
  rewrite (bool_decide_eq_true_2 (_ ≠ _)) by done. cbn [andb]. rewrite andb_false_r. by split_and!.
Qed.

(** A guide packet is handed on and may be answered. *)
Lemma body_post_guide status count ts buf w iv evs w' :
  let e := report_call iv buf count ts in
  let r := answer e (w_trace w) in
  let b := succeeded r && bool_decide (buf !!! 1%nat = 0x30) &&
           bool_decide (9 ≤ bm_length (pd_memory (iv_outPipe iv))) in
  succeeded status = true → iv_enabled iv = true → buf !!! 0%nat = 0x07 ∧ buf !!! 3%nat = 2 →
  w_trace w' = w_trace w ++ Ev e r :: evs → hid_calls evs = [] →
  out_packets evs = answers_out b iv → idle evs →
  w_st w' = Some (after_sends b iv) → w_mem w' = memory_after b iv (w_mem w) →
  body_post status count ts buf w iv w'.
Proof.
  intros e r b Hs He [Ht Hn] Htr Hh Hout Hi Hst Hm. pose proof (classify_guide _ Ht Hn) as Hcl.
  assert (sends status (succeeded r) buf iv = b) as Hb.
  { unfold sends, forwards, wants_answer. rewrite Hs, He, Hcl.
    rewrite (bool_decide_eq_true_2 (GuidePacket = GuidePacket)) by done.
    by rewrite (bool_decide_eq_true_2 (GuidePacket ≠ UnknownPacket)) by done. }
  unfold body_post. fold e. fold r. rewrite Hb. exists (Ev e r :: evs).
  unfold forwards. rewrite Hs, He, Hcl, hid_calls_cons, Hh. split_and!; try done.
  by apply (idle_app [_]).
Qed.

Lemma GotData_body_spec status count ts buf w iv :
  let accepted := succeeded (answer (report_call iv buf count ts) (w_trace w)) in
  let need := bytes_read status (iv_enabled iv) accepted buf in
  w_st w = Some iv → pipes_ready w iv → in_buffer w iv buf →
  wpx (λ f, f = OutOfBounds ∧ (length buf < need)%nat) (GotData_body status count ts)
    (λ _ w', (need ≤ length buf)%nat ∧ body_post status count ts buf w iv w') w.
Proof.
  intros accepted need Hst Hr Hbuf. unfold GotData_body. destruct (succeeded status) eqn:Hs; cbn [negb].
  2: { wp_step. subst need. unfold bytes_read. rewrite Hs. split; [simpl; lia|].
       apply body_post_ignored; [done|]. unfold forwards. by rewrite Hs. }
  do 2 wp_step. destruct (iv_enabled iv) eqn:He; cbn [negb].
  2: { wp_step. subst need. unfold bytes_read. rewrite Hs. split; [simpl; lia|].
       apply body_post_ignored; [done|]. unfold forwards. by rewrite Hs, He. }
  pose proof (bytes_read_le status accepted buf (length buf) Hs) as Hneed. fold need in Hneed.
  assert (¬ (need ≤ length buf)%nat → OutOfBounds = OutOfBounds ∧ (length buf < need)%nat) as Hout
    by (intros; split; [done|lia]).
  cbv zeta. wp_step. eapply wp_debug_header; [exact Hbuf| |].
  { intros Hd ?. apply Hout. intros (_ & _ & H4 & _)%Hneed. specialize (H4 Hd). lia. }
  intros Hdebug. wp_step.
  apply wp_HandleControllerReport with (buf := buf) (iv := iv);
    [done|apply (proj1 Hr InPipe)|done|intros; apply Hout; intros (? & _)%Hneed; lia| |].
  { intros Hd Hcl Ha ?. apply Hout. intros (_ & _ & _ & H18)%Hneed. specialize (H18 Hd Hcl Ha). lia. }
  intros Hlen. fold accepted. destruct (decide _) as [Hc|Hc].
  - intros H18. pose proof (classify_controller _ Hc) as Hcl.
    pose proof (body_post_controller status count ts buf w iv Hst Hs He Hcl) as Hpost.
    assert (generic_bytes 0x07 buf ≤ length buf)%nat as H7
      by (revert Hlen; unfold generic_bytes; rewrite decide_True, decide_False by (destruct Hc; lia); lia).
    assert (need ≤ length buf)%nat as Hle by (apply Hneed; split_and!; auto).
    destruct accepted; [by wp_step|]. wp_step.
    eapply (wp_HandleGuideReport _ _ _ buf); [done|by apply pipes_ready_log|exact Hbuf|lia|].
    intros _. rewrite decide_False by (destruct Hc; lia). by wp_step.
  - assert (classify buf ≠ ControllerPacket) as Hcl by (by intros ?%classify_controller_inv).
    wp_step. eapply (wp_HandleGuideReport _ _ _ buf); [done..|intros; apply Hout; intros (_ & ? & _)%Hneed; lia|].
    intros H7. assert (need ≤ length buf)%nat as Hle by (apply Hneed; by split_and!). fold accepted.
    case_decide as Hg.
    + intros evs w' Htr Hh Hsent Hi Hst' Hm. wp_step. split; [done|].
      by eapply body_post_guide.
    + wp_step. split; [done|]. apply body_post_ignored; [done|]. unfold forwards, classify.
      by rewrite !decide_False, andb_false_r.
Qed.

Lemma after_sends_same b iv : same_pipes iv (after_sends b iv).
Proof. by destruct b. Qed.

Lemma sends_inv status accepted buf iv :
  sends status accepted buf iv = true →
  iv_enabled iv = true ∧ 9 ≤ bm_length (pd_memory (iv_outPipe iv)).
Proof.
  unfold sends, forwards. intros [[[[[_ ?]%andb_true_iff _]%andb_true_iff _]%andb_true_iff
    _]%andb_true_iff ?%bool_decide_eq_true]%andb_true_iff. done.
Qed.

(** Writing a packet to the output buffer disturbs neither pipe nor the input buffer. *)
Lemma sent_ready packet blk w w' iv buf :
  pipes_ready w iv → in_buffer w iv buf →
  w_mem w !! bm_address (pd_memory (iv_outPipe iv)) = Some blk → (length packet ≤ length blk)%nat →
  w_mem w' = <[bm_address (pd_memory (iv_outPipe iv)) := overwrite 0 packet blk]> (w_mem w) →
  (∀ b, mapped_at b (w_trace w') = mapped_at b (w_trace w)) →
  pipes_ready w' iv ∧ in_buffer w' iv buf.
Proof.
  intros Hr Hbuf Hblk Hlen Hm Hat. split.
  - eapply pipes_ready_keeps; [|exact Hr]. eapply keeps_lengths_insert; [exact Hblk| |done..].
    apply overwrite_length. simpl. lia.
  - unfold in_buffer. rewrite Hm, lookup_insert_ne; [done|]. intros Heq. by apply (proj2 Hr).
Qed.

Lemma after_ready b evs w w' iv buf :
  pipes_ready w iv → in_buffer w iv buf →
  (b = true → 9 ≤ bm_length (pd_memory (iv_outPipe iv))) →
  w_trace w' = w_trace w ++ evs → (∀ b, mapped_at b evs = None) →
  w_mem w' = memory_after b iv (w_mem w) →
  pipes_ready w' (after_sends b iv) ∧ in_buffer w' (after_sends b iv) buf.
Proof.
  intros Hr Hbuf Hb Htr Hat Hm.
  destruct (proj1 Hr OutPipe) as (_ & _ & _ & _ & o & blk & _ & _ & Hblk & Hlen). simpl in Hblk, Hlen.
  assert (∀ x, mapped_at x (w_trace w') = mapped_at x (w_trace w)) as Hat'
    by (intros x; by rewrite Htr, mapped_at_app, Hat).
  assert (pipes_ready w' iv ∧ in_buffer w' iv buf) as [? ?].
  { destruct b; simpl in Hm.
    - rewrite (alter_insert_Some _ _ _ _ Hblk) in Hm. specialize (Hb eq_refl).
      eapply (sent_ready (guide_packet (iv_outCounter iv)) blk); [done|done|done|simpl; lia|done|done].
    - unfold in_buffer. rewrite Hm. split; [|done]. eapply pipes_ready_keeps; [|exact Hr].
      intros x a Hx. rewrite Hat', Hm. eauto. }
  split; [by eapply pipes_ready_same; [apply after_sends_same|]|]. by destruct b.
Qed.

(** The read request that ends every completion. *)
Definition read_call p iv : driverkitE kern_return_t :=
  IOUSBHostPipe_AsyncIO p (bm_buffer (pd_memory (iv_inPipe iv)))
    (wrap32 (bm_length (pd_memory (iv_inPipe iv)))) (iv_gotDataAction iv).

Lemma wp_RequestAsyncInterruptData Ψ p (Φ : kern_return_t → input_world → Prop) w iv :
  w_st w = Some iv → pd_pipe (iv_inPipe iv) = Some p →
  (∀ r, Φ r (log (Ev (read_call p iv) r) w)) → wpx Ψ RequestAsyncInterruptData Φ w.
Proof. intros Hst Hp HΦ. unfold RequestAsyncInterruptData. do 2 wp_step. rewrite Hp. wp_steps. apply HΦ. Qed.

(** The specification of a completed read. *)
Definition gotdata_post status count ts buf w iv (w' : input_world) : Prop :=
  let accepted := succeeded (answer (report_call iv buf count ts) (w_trace w)) in
  let b := sends status accepted buf iv in
  ∃ p evs r, pd_pipe (iv_inPipe iv) = Some p ∧
    w_trace w' = w_trace w ++ evs ++ [Ev (read_call p iv) r] ∧ idle evs ∧
    hid_calls evs =
      (if forwards status (iv_enabled iv) buf
       then [(ts, count, take (Z.to_nat count) buf, accepted)] else []) ∧
    out_packets evs = answers_out b iv ∧
    w_st w' = Some (after_sends b iv) ∧ w_mem w' = memory_after b iv (w_mem w) ∧
    pipes_ready w' (after_sends b iv) ∧ in_buffer w' (after_sends b iv) buf.

Lemma GotData_Impl_spec status count ts buf w iv :
  let accepted := succeeded (answer (report_call iv buf count ts) (w_trace w)) in
  let need := bytes_read status (iv_enabled iv) accepted buf in
  w_st w = Some iv → pipes_ready w iv → in_buffer w iv buf →
  wpx (λ f, f = OutOfBounds ∧ (length buf < need)%nat) (GotData_Impl status count ts)
    (λ _ w', (need ≤ length buf)%nat ∧ gotdata_post status count ts buf w iv w') w.
Proof.
  intros accepted need Hst Hr Hbuf. unfold GotData_Impl. wp_step.
  eapply wp_mono; [by apply GotData_body_spec|].
  intros _ w1 [Hneed (evs & Htr & Hh & Hs & Hi & Hst1 & Hm)].
  destruct (proj1 Hr InPipe) as ([p Hp] & _). simpl in Hp.
  wp_step. eapply (wp_RequestAsyncInterruptData _ p);
    [done|by rewrite (proj1 (after_sends_same _ iv))|].
  intros r. wp_step. split; [done|]. exists p, evs, r. fold accepted in Hs, Hst1, Hm |- *.
  split_and!; try done.
  - simpl. unfold read_call. rewrite Htr. by destruct (sends _ _ _ _); rewrite <- app_assoc.
  - eapply pipes_ready_log; [done|]. eapply after_ready; eauto; [by intros [_ ?]%sends_inv|apply Hi].
  - eapply (after_ready _ evs w w1); eauto; [by intros [_ ?]%sends_inv|apply Hi].
Qed.

(** A ready object handles every completion. *)
Lemma GotData_Impl_ready status count ts buf w iv :
  let accepted := succeeded (answer (report_call iv buf count ts) (w_trace w)) in
  w_st w = Some iv → comm_ready w iv → in_buffer w iv buf →
  wp (GotData_Impl status count ts) (λ _ w', gotdata_post status count ts buf w iv w' ∧
    comm_ready w' (after_sends (sends status accepted buf iv) iv)) w.
Proof.
  intros accepted Hst Hr Hbuf. eapply wpx_mono; [apply GotData_Impl_spec; [done|apply Hr|done]| |].
  - intros _ w' [_ Hpost]. split; [done|]. destruct Hpost as (p & evs & r & Hpost). destruct_and! Hpost.
    eapply comm_ready_same; [apply after_sends_same|done|exact Hr].
  - intros f [_ Hlt]. pose proof (bytes_read_ready w iv buf status (iv_enabled iv) accepted buf Hr Hbuf).
    subst accepted. lia.
Qed.

(** ** Sequences of completed reads

    Between two calls of [GotData_Impl] the controller's next packet arrives in the
    input buffer.  [deliver] is that transfer followed by the callback.  A packet shorter
    than the buffer leaves the rest of the buffer as it was. *)

Record completion : Set := {
  c_status : kern_return_t;
  c_bytes : list Z;
  c_timestamp : Z;
}.

Definition transfer_in (bs : list Z) : InputM unit :=
  iv ← ivars; store (bm_address (pd_memory (iv_inPipe iv))) 0 bs.

Definition deliver (c : completion) : InputM unit :=
  transfer_in (c_bytes c);;
  GotData_Impl (c_status c) (Z.of_nat (length (c_bytes c))) (c_timestamp c).

Fixpoint deliver_all (cs : list completion) : InputM unit :=
  match cs with
  | [] => mret tt
  | c :: cs' => deliver c;; deliver_all cs'
  end.

(** The input buffer once the bytes of a completion have arrived. *)
Definition received (c : completion) (buf : list Z) : list Z := overwrite 0 (c_bytes c) buf.

(** The reports a completion should produce, given what the buffer then holds. *)
Definition expected_reports (enabled : bool) (buf : list Z) (c : completion) : list (Z * Z * list Z) :=
  if forwards (c_status c) enabled buf
  then [(c_timestamp c, Z.of_nat (length (c_bytes c)), c_bytes c)] else [].

(** The reports a sequence of completions should produce, and whether each is to be
    answered if it is accepted. *)
Fixpoint forwarded (enabled : bool) (buf : list Z) (cs : list completion)
    : list (Z * Z * list Z * bool) :=
  match cs with
  | [] => []
  | c :: cs' =>
      ((λ r, (r, wants_answer (received c buf))) <$> expected_reports enabled (received c buf) c) ++
      forwarded enabled (received c buf) cs'
  end.

(** How many reports that want an answer were accepted. *)
Fixpoint count_both (wants accepted : list bool) : nat :=
  match wants, accepted with
  | x :: xs, y :: ys => (if x && y then 1 else 0) + count_both xs ys
  | _, _ => 0
  end.

(** A packet fits the buffer. *)
Definition packet_fits iv (c : completion) : Prop :=
  Z.of_nat (length (c_bytes c)) ≤ bm_length (pd_memory (iv_inPipe iv)).

(** The call that forwards a completion. *)
Definition delivery_call iv (c : completion) : driverkitE kern_return_t :=
  IOUserHIDDevice_handleReport (c_timestamp c) (bm_buffer (pd_memory (iv_inPipe iv)))
    (Z.of_nat (length (c_bytes c))) (c_bytes c).

Lemma report_call_delivery iv buf c :
  report_call iv (received c buf) (Z.of_nat (length (c_bytes c))) (c_timestamp c) = delivery_call iv c.
Proof. unfold report_call, received. by rewrite Nat2Z.id, take_overwrite. Qed.

Lemma deliver_spec c w iv buf :
  let accepted := succeeded (answer (delivery_call iv c) (w_trace w)) in
  let buf' := received c buf in
  let need := bytes_read (c_status c) (iv_enabled iv) accepted buf' in
  let iv' := after_sends (sends (c_status c) accepted buf' iv) iv in
  w_st w = Some iv → pipes_ready w iv → in_buffer w iv buf → packet_fits iv c →
  wpx (λ f, f = OutOfBounds ∧ (length buf < need)%nat) (deliver c) (λ _ w',
    (need ≤ length buf)%nat ∧ ∃ evs,
    w_st w' = Some iv' ∧ pipes_ready w' iv' ∧ in_buffer w' iv' buf' ∧
    w_trace w' = w_trace w ++ evs ∧
    hid_calls evs = (λ r, (r, accepted)) <$> expected_reports (iv_enabled iv) buf' c ∧
    out_packets evs = answers_out (sends (c_status c) accepted buf' iv) iv ∧
    0 ≤ reads_armed evs ≤ 1 ∧ neutral evs ∧ mappings evs = []) w.
Proof.
  intros accepted buf' need iv' Hst Hr Hbuf Hfit. unfold deliver, transfer_in. do 3 wp_step.
  unfold packet_fits in Hfit. rewrite (in_buffer_length _ _ _ Hr Hbuf) in Hfit.
  eapply wp_store; [exact Hbuf|lia|]. fold (received c buf). set (w1 := set_mem _ w).
  assert (length buf' = length buf) as Hl by (apply overwrite_length; lia).
  assert (pipes_ready w1 iv) as Hr1.
  { eapply pipes_ready_keeps; [|exact Hr]. by eapply keeps_lengths_insert. }
  pose proof (report_call_delivery iv buf c) as Hcall. fold buf' in Hcall.
  eapply wpx_mono; [eapply (GotData_Impl_spec _ _ _ buf'); [done|done|apply lookup_insert_eq]|..];
    unfold gotdata_post; rewrite Hcall, Hl; change (w_trace w1) with (w_trace w);
    fold accepted; fold need; [|done].
  intros _ w' [Hneed (p & evs & r & _ & Htr & (Ha & Hn & Hm & _) & Hh & Ho & Hst' & _ & Hr' & Hbuf')].
  split; [done|]. eexists. split_and!; [exact Hst'|exact Hr'|exact Hbuf'|exact Htr|..].
  - rewrite hid_calls_app, app_nil_r, Hh. unfold expected_reports. rewrite Nat2Z.id.
    destruct (forwards _ _ _); [|done]. unfold buf', received at 1. by rewrite take_overwrite.
  - by rewrite out_packets_app, app_nil_r, Ho.
  - rewrite reads_armed_app, Ha. simpl. destruct (succeeded r); lia.
  - rewrite reads_armed_app, Ha. simpl. destruct (succeeded r); lia.
  - by apply neutral_app.
  - by rewrite mappings_app, Hm.
Qed.

(** The first [n] answers to the pipe [p], counted from [c]. *)
Definition counted_packets (p : obj) (c : Z) (n : nat) : list (obj * list Z) :=
  (λ k : nat, (p, guide_packet (wrap8 (c + k)))) <$> seq 0 n.

Lemma counted_packets_S p c n :
  u8 c → counted_packets p c (S n) = (p, guide_packet c) :: counted_packets p (wrap8 (c + 1)) n.
Proof.
  intros Hc. unfold counted_packets. cbn [seq fmap list_fmap]. f_equal.
  { by rewrite Z.add_0_r, wrap8_id. }
  rewrite <- fmap_S_seq, <- list_fmap_compose. apply list_fmap_ext. intros _ k _. simpl.
  unfold wrap8. do 2 f_equal. lia.
Qed.

(** How many answers a completion calls for. *)
Lemma count_both_sends c buf (accepted : bool) iv xs ys :
  (if bool_decide (9 ≤ bm_length (pd_memory (iv_outPipe iv))) then
     count_both
       (((λ r, (r, wants_answer buf)) <$> expected_reports (iv_enabled iv) buf c).*2 ++ xs)
       (((λ r, (r, accepted)) <$> expected_reports (iv_enabled iv) buf c).*2 ++ ys)
   else 0%nat) =
  Nat.add (if sends (c_status c) accepted buf iv then 1 else 0)
    (if bool_decide (9 ≤ bm_length (pd_memory (iv_outPipe iv))) then count_both xs ys else 0%nat).
Proof.
  unfold sends, expected_reports. destruct (forwards _ _ _); simpl; [|by case_bool_decide].
  rewrite (andb_comm accepted). by case_bool_decide; rewrite ?andb_true_r, ?andb_false_r.
Qed.

Lemma deliver_all_spec cs : ∀ w iv buf p,
  let outs := forwarded (iv_enabled iv) buf cs in
  w_st w = Some iv → comm_ready w iv → in_buffer w iv buf → u8 (iv_outCounter iv) →
  pd_pipe (iv_outPipe iv) = Some p → Forall (packet_fits iv) cs →
  wp (deliver_all cs) (λ _ w', ∃ n evs,
    w_st w' = Some (set_outCounter (wrap8 (iv_outCounter iv + Z.of_nat n)) iv) ∧
    w_trace w' = w_trace w ++ evs ∧ hid_reports evs = outs.*1 ∧
    out_packets evs = counted_packets p (iv_outCounter iv) n ∧
    n = (if bool_decide (9 ≤ bm_length (pd_memory (iv_outPipe iv)))
         then count_both outs.*2 (hid_answers evs) else 0%nat)) w.
Proof.
  induction cs as [|c cs IH]; intros w iv buf p outs Hst Hr Hbuf Hc Hp Hfit; cbn [deliver_all].
  { wp_step. exists 0%nat, []. rewrite Z.add_0_r, wrap8_id, app_nil_r by done.
    split_and!; try done; [by rewrite Hst; destruct iv|by case_bool_decide]. }
  apply Forall_cons in Hfit as [Hf Hfit].
  wp_step. eapply wpx_mono; [apply deliver_spec; [done|apply Hr|done|done]| |].
  2: { intros f [_ Hlt]. pose proof (bytes_read_ready w iv buf (c_status c) (iv_enabled iv)
         (succeeded (answer (delivery_call iv c) (w_trace w))) (received c buf) Hr Hbuf). lia. }
  set (accepted := succeeded _). set (b := sends _ _ _ _).
  intros _ w1 [_ (evs & Hst1 & Hr1 & Hbuf1 & Htr1 & Hh1 & Ho1 & _)].
  eapply wp_mono; [apply (IH _ _ (received c buf) p Hst1);
    [by eapply comm_ready_same; [apply after_sends_same|..]|done|..]|].
  { destruct b; simpl; [apply wrap8_u8|done]. }
  { by destruct b. }
  { eapply Forall_impl; [exact Hfit|]. intros c'. by destruct b. }
  intros _ w' (n & evs' & Hst' & Htr' & Hh' & Ho' & Hn).
  exists ((if b then 1 else 0) + n)%nat, (evs ++ evs').
  assert (iv_enabled (after_sends b iv) = iv_enabled iv) as He by (by destruct b). rewrite He in *.
  split_and!.
  - rewrite Hst'. destruct b; [|done]. unfold after_sends. simpl. unfold set_outCounter, wrap8. simpl.
    do 2 f_equal. lia.
  - by rewrite Htr', Htr1, app_assoc.
  - rewrite hid_reports_app, Hh'. unfold hid_reports. rewrite Hh1. subst outs. cbn [forwarded].
    by rewrite fmap_app, <- !list_fmap_compose.
  - rewrite out_packets_app, Ho1, Ho'. unfold answers_out, packet_to. rewrite Hp.
    destruct b; [|done]. simpl. by rewrite counted_packets_S.
  - subst outs. cbn [forwarded]. rewrite hid_answers_app, fmap_app. unfold hid_answers at 1.
    rewrite Hh1, count_both_sends. fold b. rewrite Hn.
    by rewrite (proj2 (after_sends_same b iv)).
Qed.

(** Nothing is forwarded while the driver is disabled. *)
Lemma forwarded_disabled buf cs : forwarded false buf cs = [].
Proof.
  revert buf. induction cs as [|c cs IH]; intros buf; [done|]. cbn [forwarded]. rewrite IH.
  unfold expected_reports, forwards. by rewrite andb_false_r.
Qed.
End specifications.

(** ** Theorems *)

(** A sample object that is ready to exchange packets, with an [IN] buffer of [n] bytes
    that begins with [bs] and an [OUT] buffer of [m] bytes. *)
Definition sample_pd (p b : obj) (a : Z) (n : nat) : usb_pipe_data :=
  {| pd_pipe := Some p; pd_speed := 2; pd_interval := 4; pd_reportSize := 0;
     pd_maxPacketSize := Z.of_nat n; pd_descriptor := Some sample_ep_in;
     pd_memory := {| bm_buffer := Some b; bm_address := a; bm_length := Z.of_nat n |} |}.
Definition sample_iv_with (n m : nat) : XboxOneInputInterface_IVars :=
  {| iv_interface := Some sample_provider; iv_configurationDescriptor := Some sample_config;
     iv_interfaceDescriptor := Some sample_interface_descriptor;
     iv_inPipe := sample_pd (sample_pipe 0x81) 100%positive 65536 n;
     iv_outPipe := sample_pd (sample_pipe 0x02) 101%positive 131072 m;
     iv_gotDataAction := Some sample_action; iv_outCounter := 255; iv_enabled := true |}.
Definition sample_buffer (n : nat) (bs : list Z) : list Z := take n (bs ++ replicate n 0).
Definition sample_ready_with (n m : nat) (bs : list Z) : input_world :=
  World (Some (sample_iv_with n m))
    (<[65536 := sample_buffer n bs]> (<[131072 := replicate m 0]> ∅))
    [Ev (IOBufferMemoryDescriptor_Map 100%positive) (kIOReturnSuccess, (65536, Z.of_nat n, replicate n 0));
     Ev (IOBufferMemoryDescriptor_Map 101%positive) (kIOReturnSuccess, (131072, Z.of_nat m, replicate m 0))].
Definition sample_iv_ready : XboxOneInputInterface_IVars := sample_iv_with 64 64.
Definition sample_ready (bs : list Z) : input_world := sample_ready_with 64 64 bs.

Lemma sample_buffer_length n bs : length (sample_buffer n bs) = n.
Proof. unfold sample_buffer. rewrite length_take, length_app, length_replicate. lia. Qed.

Lemma sample_pipes_ready n m bs :
  n ≠ 0%nat → m ≠ 0%nat → pipes_ready (sample_ready_with n m bs) (sample_iv_with n m).
Proof.
  intros Hn Hm. split; [|done]. intros []; (split_and!; simpl; [by eexists|done|lia|lia|]).
  - exists 100%positive, (sample_buffer n bs).
    rewrite lookup_insert_eq, sample_buffer_length. by split_and!.
  - exists 101%positive, (replicate m 0).
    rewrite lookup_insert_ne, lookup_insert_eq, length_replicate by done. by split_and!.
Qed.

Lemma sample_comm_ready bs : @comm_ready sample (sample_ready bs) sample_iv_ready.
Proof. split; [by apply sample_pipes_ready|by vm_compute]. Qed.

Lemma sample_in_buffer n m bs :
  in_buffer (sample_ready_with n m bs) (sample_iv_with n m) (sample_buffer n bs).
Proof. apply lookup_insert_eq. Qed.

(** C3: [GotData_Impl] implements the specification of a completed read.  For every
    status, byte count and buffer content, and whatever the framework answers, on an
    object whose input buffer has room for a header (for a whole button report in a
    debug build) it returns without a fault, forwards exactly the reports the
    specification forwards (at most one, with the time stamp, byte count and bytes of the
    transfer), hands exactly the answers the specification sends to the [OUT] pipe,
    changes nothing but the packet counter and the output buffer, ends by requesting the
    next read, and leaves the object ready for the next completion. *)
Theorem GotData_refines {DK : DriverKit} status count ts buf (w : input_world) iv :
  w_st w = Some iv → comm_ready w iv → in_buffer w iv buf →
  let accepted := succeeded (answer (report_call iv buf count ts) (w_trace w)) in
  wp (GotData_Impl status count ts) (λ _ w', gotdata_post status count ts buf w iv w' ∧
    comm_ready w' (after_sends (sends status accepted buf iv) iv)) w.
Proof. intros. by apply GotData_Impl_ready. Qed.

Lemma GotData_refines_witness :
  let bs := [0x07; 0x30; 1; 2; 1; 0] in
  ∃ w', @GotData_Impl sample kIOReturnSuccess 6 1234 (sample_ready bs) = Done tt w' ∧
    @gotdata_post sample kIOReturnSuccess 6 1234 (sample_buffer 64 bs) (sample_ready bs)
      sample_iv_ready w'.
Proof.
  intros bs.
  destruct (wp_elim _ _ _ (@GotData_refines sample kIOReturnSuccess 6 1234 (sample_buffer 64 bs)
    (sample_ready bs) sample_iv_ready eq_refl (sample_comm_ready _) (sample_in_buffer 64 64 bs)))
    as ([] & w' & Hrun & Hpost & _).
  exists w'. split; [exact Hrun|exact Hpost].
Defined.

(** C20: [GotData_Impl] does not check how long the input buffer is.  It reads the packet
    type, the rest of the header of a known type, and in a debug build a whole header and
    a whole button report; if the mapped buffer is shorter than what it reads, it reads
    past the end, and if not, it returns.  So the buffer must be as long as
    [bytes_read] says, and that is enough, for every status, byte count, buffer content
    and answer of the framework. *)
Theorem GotData_overruns_short_buffer {DK : DriverKit} status count ts buf (w : input_world) iv :
  w_st w = Some iv → pipes_ready w iv → in_buffer w iv buf →
  let accepted := succeeded (answer (report_call iv buf count ts) (w_trace w)) in
  if decide (length buf < bytes_read status (iv_enabled iv) accepted buf)%nat
  then GotData_Impl status count ts w = Fault OutOfBounds
  else ∃ w', GotData_Impl status count ts w = Done tt w'.
Proof.
  intros Hst Hr Hbuf accepted. pose proof (GotData_Impl_spec status count ts buf w iv Hst Hr Hbuf) as Hwp.
  fold accepted in Hwp. apply wpx_elim in Hwp as [([] & w' & Hrun & Hle & _)|(f & Hrun & -> & Hlt)].
  - rewrite decide_False by lia. eauto.
  - by rewrite decide_True.
Qed.

Lemma GotData_overruns_short_buffer_witness :
  @GotData_Impl sample kIOReturnSuccess 2 9 (sample_ready_with 2 64 [0x20; 0]) = Fault OutOfBounds.
Proof.
  pose proof (@GotData_overruns_short_buffer sample kIOReturnSuccess 2 9 (sample_buffer 2 [0x20; 0])
    (sample_ready_with 2 64 [0x20; 0]) (sample_iv_with 2 64) eq_refl
    (sample_pipes_ready 2 64 _ ltac:(lia) ltac:(lia)) (sample_in_buffer _ _ _)) as H.
  cbv zeta in H. rewrite decide_True in H by (vm_compute; lia). exact H.
Defined.





(** C10: [SendInterruptData] either refuses a packet that does not fit the output
    buffer, with [kIOReturnBadArgument] and no effect at all, or hands the pipe exactly
    the packet with its third byte replaced by the counter, advances the counter
    modulo 256, and returns what the pipe returned; the only memory it writes is the
    beginning of the output buffer. *)
Theorem SendInterruptData_correct {DK : DriverKit} data size (w : input_world) iv :
  w_st w = Some iv → pipe_ready w (iv_outPipe iv) → 3 ≤ size ≤ Z.of_nat (length data) →
  let m := pd_memory (iv_outPipe iv) in
  let packet := <[2%nat := iv_outCounter iv]> (take (Z.to_nat size) data) in
  wp (SendInterruptData data size) (λ ret w',
    if decide (bm_length m < size) then ret = kIOReturnBadArgument ∧ w' = w else
    ∃ p n, pd_pipe (iv_outPipe iv) = Some p ∧
      w_trace w' = w_trace w ++ [Ev (IOUSBHostPipe_IO p (bm_buffer m) size packet) (ret, n)] ∧
      w_mem w' = alter (overwrite 0 packet) (bm_address m) (w_mem w) ∧
      w_st w' = Some (set_outCounter (wrap8 (iv_outCounter iv + 1)) iv)) w.
Proof.
  intros Hst Hr Hs m packet. eapply wp_SendInterruptData; [done..| |].
  - intros Hlt. by rewrite decide_True.
  - intros Hle p blk ret n Hp Hblk. rewrite decide_False by (subst m; lia). exists p, n.
    split_and!; try done. by rewrite (alter_insert_Some _ _ _ _ Hblk).
Qed.

Lemma SendInterruptData_correct_witness :
  ∃ ret w', @SendInterruptData sample INIT_PACKET INIT_PACKET_SIZE (sample_ready [])
      = Done ret w' ∧ w_st w' = Some (set_outCounter 0 sample_iv_ready).
Proof.
  destruct (wp_elim _ _ _ (@SendInterruptData_correct sample INIT_PACKET INIT_PACKET_SIZE
    (sample_ready []) sample_iv_ready eq_refl
    (proj1 (proj1 (sample_comm_ready [])) OutPipe) ltac:(vm_compute; intuition discriminate)))
    as (ret & w' & Hrun & Hpost).
  rewrite decide_False in Hpost by (vm_compute; discriminate).
  destruct Hpost as (p & n & _ & _ & _ & Hst). exists ret, w'. split; [exact Hrun|exact Hst].
Defined.

(** C31: none of the three packets the driver sends can write outside the output
    buffer, however short the mapped buffer is: the length check covers the copy, and
    each packet is long enough for the check to cover the counter byte as well.  A
    packet of two bytes would not be: the counter is then written past the end of a
    two-byte buffer. *)
Theorem SendInterruptData_in_bounds :
  (∀ {DK : DriverKit} data size (w : input_world) iv,
     (data, size) ∈ [(INIT_PACKET, INIT_PACKET_SIZE);
                     (SWAP_TO_WIRED_PACKET, SWAP_TO_WIRED_PACKET_SIZE);
                     (encode_guide_response guide_response, XBOXONE_GUIDE_RESPONSE_SIZE)] →
     w_st w = Some iv → pipe_ready w (iv_outPipe iv) →
     ∃ ret w', SendInterruptData data size w = Done ret w') ∧
  (∃ (w : input_world) iv, w_st w = Some iv ∧ pipe_ready w (iv_outPipe iv) ∧
     @SendInterruptData sample [1; 2] 2 w = Fault OutOfBounds).
Proof.
  split.
  - intros DK data size w iv Hin Hst Hr.
    assert (3 ≤ size ≤ Z.of_nat (length data)) as Hs.
    { rewrite !elem_of_cons, elem_of_nil in Hin. destruct_or! Hin; simplify_eq; by vm_compute. }
    destruct (wp_elim (SendInterruptData data size) (λ _ _, True) w) as (ret & w' & H & _); [|eauto].
    by eapply wp_SendInterruptData.
  - exists (sample_ready_with 64 2 []), (sample_iv_with 64 2). split_and!; [done| |by vm_compute].
    apply (proj1 (sample_pipes_ready 64 2 [] ltac:(lia) ltac:(lia)) OutPipe).
Qed.

Lemma SendInterruptData_in_bounds_witness :
  ∃ ret w', @SendInterruptData sample INIT_PACKET INIT_PACKET_SIZE (sample_ready []) = Done ret w'.
Proof.
  apply (proj1 SendInterruptData_in_bounds sample INIT_PACKET INIT_PACKET_SIZE
    (sample_ready []) sample_iv_ready); [left|reflexivity|].
  exact (proj1 (proj1 (sample_comm_ready [])) OutPipe).
Defined.

(** C37: the answer to a guide report is cut short.  Whenever [HandleGuideReport] answers a
    report of version 0x30, what it hands to the [OUT] pipe is nine bytes, four fewer than
    the structure it fills has and four fewer than the header of the packet itself
    announces: it passes the size of the data without the header. *)
Theorem guide_response_cut_short {DK : DriverKit} count ts buf (w : input_world) iv :
  w_st w = Some iv → pipes_ready w iv → in_buffer w iv buf → (4 ≤ length buf)%nat →
  classify buf = GuidePacket → buf !!! 1%nat = 0x30 →
  succeeded (answer (report_call iv buf count ts) (w_trace w)) = true →
  9 ≤ bm_length (pd_memory (iv_outPipe iv)) →
  wp (HandleGuideReport (bm_address (pd_memory (iv_inPipe iv))) count ts) (λ _ w', ∃ p bs evs,
    pd_pipe (iv_outPipe iv) = Some p ∧ w_trace w' = w_trace w ++ evs ∧
    out_packets evs = [(p, bs)] ∧
    Z.of_nat (length bs) + 4 = sizeof c_xboxone_guide_response ∧
    Z.of_nat (length bs) + 4 = XBOXONE_REPORT_HEADER_SIZE + bs !!! 3%nat) w.
Proof.
  intros Hst Hr Hbuf Hlen Hcl Hv Hacc Hout.
  apply (wp_HandleGuideReport _ _ _ buf _ w iv Hst Hr Hbuf).
  { unfold generic_bytes. case_decide; lia. }
  intros _. rewrite decide_True by (by apply classify_guide_inv). intros evs w' Htr _ Ho _ _ _.
  destruct (proj1 Hr OutPipe) as ([p Hp] & _). simpl in Hp.
  rewrite Hacc, Hv in Ho. rewrite (bool_decide_eq_true_2 (9 ≤ _)) in Ho by done.
  exists p, (guide_packet (iv_outCounter iv)). eexists. split; [done|]. split; [exact Htr|].
  rewrite out_packets_cons, Ho. unfold answers_out, packet_to. by rewrite Hp.
Qed.

Lemma guide_response_cut_short_witness :
  let bs := [0x07; 0x30; 1; 2; 1; 0] in
  wp (@HandleGuideReport sample 65536 6 1234) (λ _ w', ∃ p bs evs,
    pd_pipe (iv_outPipe sample_iv_ready) = Some p ∧
    w_trace w' = w_trace (sample_ready [0x07; 0x30; 1; 2; 1; 0]) ++ evs ∧
    out_packets evs = [(p, bs)] ∧
    Z.of_nat (length bs) + 4 = sizeof c_xboxone_guide_response ∧
    Z.of_nat (length bs) + 4 = XBOXONE_REPORT_HEADER_SIZE + bs !!! 3%nat) (sample_ready bs).
Proof.
  intros bs. apply (@guide_response_cut_short sample 6 1234 (sample_buffer 64 bs) (sample_ready bs)
    sample_iv_ready eq_refl (proj1 (sample_comm_ready bs)) (sample_in_buffer 64 64 bs));
    [vm_compute; lia|reflexivity|reflexivity|reflexivity|vm_compute; discriminate].
Defined.

(** C32: the byte count of a transfer is never compared with the header.  A completion
    that delivered no bytes at all is judged by the header still in the buffer from an
    earlier packet, and an empty report is forwarded. *)
Theorem GotData_trusts_stale_header {DK : DriverKit} ts buf (w : input_world) iv :
  w_st w = Some iv → comm_ready w iv → iv_enabled iv = true → in_buffer w iv buf →
  classify buf = ControllerPacket →
  wp (GotData_Impl kIOReturnSuccess 0 ts) (λ _ w', ∃ evs,
    w_trace w' = w_trace w ++ evs ∧ hid_reports evs = [(ts, 0, [])]) w.
Proof.
  intros Hst Hr He Hbuf Hc. eapply wp_mono; [by eapply GotData_Impl_ready|].
  intros _ w' [(p & evs & r & _ & Htr & _ & Hh & _) _]. eexists. split; [exact Htr|].
  rewrite hid_reports_app. unfold hid_reports. rewrite Hh. unfold forwards. by rewrite He, Hc.
Qed.

Lemma GotData_trusts_stale_header_witness :
  wp (@GotData_Impl sample kIOReturnSuccess 0 9) (λ _ w', ∃ evs,
    w_trace w' = w_trace (sample_ready [0x20; 0; 1; 14]) ++ evs ∧
    hid_reports evs = [(9, 0, [])]) (sample_ready [0x20; 0; 1; 14]).
Proof.
  apply (@GotData_trusts_stale_header sample 9 (sample_buffer 64 [0x20; 0; 1; 14]) _ sample_iv_ready);
    [reflexivity|exact (sample_comm_ready _)|reflexivity|exact (sample_in_buffer 64 64 _)|reflexivity].
Defined.
