(* ===== verification/HidDescription.v ===== *)
(** * HidDescription: presenting the controller as a HID device

    [CopyStringAtIndex], [newDeviceDescription] and [newReportDescriptor] of
    src/XboxControllerDriver/XboxOne/XboxOneInputInterface.cpp, with the constants of
    src/XboxControllerDriver/Shared/HIDConstants.h. *)

From S2P Require Import Prelude Effects DriverKit Sample Packets Descriptors InputState InputPipes.

(** ** HIDConstants.h *)

Definition kUSBHostClassRequestCompletionTimeout : Z := 5000.
Definition kLanguageIDEnglishUS : Z := 0x0409.
Definition kIOHIDRegisterServiceKey : dict_key := KeyLiteral "RegisterService".

(** ** String descriptors *)

(** [sizeof(IOUSBDescriptorHeader)]: the length and type bytes. *)
Definition descriptorHeaderSize : Z := sizeof (CStruct [uint8_t; uint8_t]).

(** [bString[index]]: a 16-bit code unit behind the descriptor header. *)
Definition code_unit (descriptor : list Z) (index : nat) : option Z :=
  let off := (Z.to_nat descriptorHeaderSize + 2 * index)%nat in
  b0 ← descriptor !! off;
  b1 ← descriptor !! S off;
  Some (le_value [b0; b1]).

(** The copying loop with [n] iterations left; [None] is an access outside the
    descriptor or the result buffer. *)
Fixpoint copy_chars (descriptor : list Z) (n index : nat) (result : list Z)
    : option (nat * list Z) :=
  match n with
  | O => Some (index, result)
  | S n' =>
      value ← code_unit descriptor index;
      if decide (value = 0) then Some (index, result) else
      _ ← result !! index;
      copy_chars descriptor n' (S index) (<[index := wrap8 value]> result)
  end.

Section definitions.
Context {DK : DriverKit}.

Definition CopyStringAtIndex (descriptorIndex descriptorLanguage : Z) : InputM ptr :=
  if decide (descriptorIndex = 0) then mret nullptr else
  iv ← ivars;
  i ← nonnull (iv_interface iv);
  descriptor ← call (CopyStringDescriptor i descriptorIndex descriptorLanguage);
  match descriptor with
  | None => mret nullptr
  | Some (o, bytes) =>
      match bytes !! 0%nat with
      | None => raise OutOfBounds
      | Some bLength =>
          if decide (bLength < descriptorHeaderSize)
          then free_descriptor (Some o);; mret nullptr else
          let length := wrap8 ((bLength - descriptorHeaderSize) / 2) in
          match copy_chars bytes (Z.to_nat length) 0 (replicate 256 0) with
          | None => raise OutOfBounds
          | Some (index, result) =>
              string ← call (OSStringCreate result (Z.of_nat index));
              free_descriptor (Some o);;
              mret string
          end
      end
  end.

(** One of the three string entries of the description. *)
Definition set_string_entry (dict : obj) (index : Z) (k : dict_key) : InputM unit :=
  value ← CopyStringAtIndex index kLanguageIDEnglishUS;
  match value with
  | Some s => call (OSDictionarySet dict k (VObject s));; OSSafeReleaseNULL (Some s)
  | None => mret tt
  end.

(** The entries whose values are known without asking further. *)
Definition set_fixed_entries (dict : obj) (iv : XboxOneInputInterface_IVars)
    (d : IOUSBDeviceDescriptor) : InputM unit :=
  call (OSDictionarySet dict kIOHIDRegisterServiceKey kOSBooleanTrue);;
  call (OSDictionarySet dict (KeyLiteral "HIDDefaultBehavior") kOSBooleanTrue);;
  call (OSDictionarySet dict (KeyLiteral "AppleVendorSupported") kOSBooleanTrue);;
  call (OSDictionarySet dict kIOHIDReportIntervalKey (VUInt64 (pd_interval (iv_inPipe iv))));;
  call (OSDictionarySet dict kIOHIDVendorIDKey (VUInt64 (USBToHost16 (idVendor d))));;
  call (OSDictionarySet dict kIOHIDProductIDKey (VUInt64 (USBToHost16 (idProduct d))));;
  call (OSDictionarySet dict kIOHIDTransportKey (VString "USB"));;
  call (OSDictionarySet dict kIOHIDVersionNumberKey (VUInt64 (USBToHost16 (bcdDevice d))));;
  call (OSDictionarySet dict kIOHIDCountryCodeKey (VUInt64 0));;
  call (OSDictionarySet dict kIOHIDRequestTimeoutKey
          (VUInt64 (kUSBHostClassRequestCompletionTimeout * 1000)));;
  call (OSDictionarySet dict kIOHIDPrimaryUsagePageKey (VUInt64 (ReportDescriptor !!! 1%nat)));;
  call (OSDictionarySet dict kIOHIDPrimaryUsageKey (VUInt64 (ReportDescriptor !!! 3%nat))).

Definition set_location_entry (dict properties : obj) : InputM unit :=
  value ← call (OSDictionaryGetValue properties kUSBHostPropertyLocationID);
  match value with
  | Some v => call (OSDictionarySet dict kIOHIDLocationIDKey (VObject v))
  | None => mret tt
  end.

Definition set_builtin_entry (dict properties : obj) : InputM unit :=
  portType ← call (OSDictionaryGetUInt64Value (Some properties) kUSBHostMatchingPropertyPortType);
  if decide (portType = kIOUSBHostPortTypeInternal)
  then call (OSDictionarySet dict kIOHIDBuiltInKey kOSBooleanTrue)
  else mret tt.

(** An out-parameter that starts as null. *)
Definition out_param (r : kern_return_t * ptr) : ptr := if succeeded (fst r) then snd r else nullptr.

Definition newDeviceDescription : InputM ptr :=
  iv ← ivars;
  match iv_interface iv with
  | None => mret nullptr
  | Some i =>
      r ← call (IOUSBHostInterface_CopyProperties i);
      match out_param r with
      | None => mret nullptr
      | Some properties =>
          r ← call (IOUSBHostInterface_CopyDevice i);
          match out_param r with
          | None => call (OSObject_release properties);; mret nullptr
          | Some device =>
              deviceDescriptor ← call (CopyDeviceDescriptor device);
              match deviceDescriptor with
              | None =>
                  call (OSObject_release properties);;
                  call (OSObject_release device);; mret nullptr
              | Some (dd, d) =>
                  dict ← call (OSDictionary_withCapacity 16);
                  match dict with
                  | None => mret tt
                  | Some dict =>
                      set_fixed_entries dict iv d;;
                      set_location_entry dict properties;;
                      set_string_entry dict (iManufacturer d) kIOHIDManufacturerKey;;
                      set_string_entry dict (iProduct d) kIOHIDProductKey;;
                      set_string_entry dict (iSerialNumber d) kIOHIDSerialNumberKey;;
                      set_builtin_entry dict properties
                  end;;
                  call (OSObject_release properties);;
                  call (IOUSBHostFreeDescriptor dd);;
                  call (OSObject_release device);;
                  mret dict
              end
          end
      end
  end.

Definition newReportDescriptor : InputM ptr :=
  call (OSData_withBytesNoCopy ReportDescriptor REPORT_DESCRIPTOR_SIZE).
End definitions.

(** ** Reference: the characters of a string descriptor *)

(** The 16-bit code units of a byte string. *)
Fixpoint decode_units (bs : list Z) : list Z :=
  match bs with
  | b0 :: b1 :: bs' => le_value [b0; b1] :: decode_units bs'
  | _ => []
  end.

Fixpoint until_zero (us : list Z) : list Z :=
  match us with
  | [] => []
  | u :: us' => if decide (u = 0) then [] else u :: until_zero us'
  end.

(** The low byte of each code unit up to the first zero, at most [n]. *)
Definition string_chars (descriptor : list Z) (n : nat) : list Z :=
  wrap8 <$> until_zero (take n (decode_units (drop 2 descriptor))).

(** ** Lemmas *)

Lemma decode_units_lookup bs i :
  decode_units bs !! i = (b0 ← bs !! (2 * i)%nat; b1 ← bs !! S (2 * i); Some (le_value [b0; b1])).
Proof.
  revert bs. induction i as [|i IH]; intros bs.
  { by destruct bs as [|b0 [|b1 bs]]. }
  destruct bs as [|b0 [|b1 bs]]; simpl decode_units; [done| |].
  - rewrite lookup_nil. replace (2 * S i)%nat with (S (S (2 * i))) by lia. done.
  - replace (2 * S i)%nat with (S (S (2 * i))) by lia. apply IH.
Qed.

Lemma decode_units_length bs : length (decode_units bs) = (length bs / 2)%nat.
Proof.
  revert bs. fix IH 1. intros [|b0 [|b1 bs]]; [done..|].
  cbn [decode_units length]. rewrite IH.
  replace (S (S (length bs))) with (length bs + 1 * 2)%nat by lia.
  rewrite Nat.div_add by lia. lia.
Qed.

Lemma code_unit_lookup descriptor i :
  code_unit descriptor i = decode_units (drop 2 descriptor) !! i.
Proof.
  unfold code_unit. change (Z.to_nat descriptorHeaderSize) with 2%nat.
  rewrite decode_units_lookup, !lookup_drop. by rewrite Nat.add_succ_r.
Qed.

Lemma copy_chars_spec descriptor n : ∀ index result,
  let chars := wrap8 <$> until_zero (take n (drop index (decode_units (drop 2 descriptor)))) in
  (index + n ≤ length (decode_units (drop 2 descriptor)))%nat → (index + n ≤ length result)%nat →
  ∃ result', copy_chars descriptor n index result = Some ((index + length chars)%nat, result') ∧
    length result' = length result ∧
    take (index + length chars) result' = take index result ++ chars.
Proof.
  set (us := decode_units (drop 2 descriptor)).
  induction n as [|n IH]; intros index result chars Hu Hr; cbn [copy_chars].
  { exists result. subst chars. simpl. by rewrite Nat.add_0_r, app_nil_r. }
  rewrite code_unit_lookup. fold us.
  destruct (lookup_lt_is_Some_2 us index ltac:(lia)) as [u Hlu]. rewrite Hlu. simpl mbind.
  subst chars. rewrite (drop_S us u index Hlu). cbn [take until_zero].
  case_decide as H0.
  { exists result. simpl. by rewrite Nat.add_0_r, app_nil_r. }
  destruct (lookup_lt_is_Some_2 result index ltac:(lia)) as [x Hx]. rewrite Hx. simpl mbind.
  destruct (IH (S index) (<[index:=wrap8 u]> result)) as (result' & Hc & Hl & Ht);
    [lia|rewrite length_insert; lia|].
  exists result'. rewrite Hc, fmap_cons. cbn [length]. rewrite Nat.add_succ_r.
  split_and!; [done|by rewrite length_insert in Hl|].
  rewrite Nat.add_succ_l in Ht. rewrite Ht.
  rewrite (take_S_r _ _ (wrap8 u)) by (rewrite list_lookup_insert_eq by lia; done).
  rewrite take_insert_ge by lia. by rewrite <- app_assoc.
Qed.

(** What [CopyStringAtIndex] asks of the framework, branch by branch. *)
Inductive copied (i : obj) (index language : Z) : ptr → dk_trace → Prop :=
| copied_none : index = 0 → copied i index language nullptr []
| copied_missing :
    index ≠ 0 →
    copied i index language nullptr [Ev (CopyStringDescriptor i index language) None]
| copied_malformed o bytes bLength :
    index ≠ 0 → bytes !! 0%nat = Some bLength → bLength < 2 →
    copied i index language nullptr
      [Ev (CopyStringDescriptor i index language) (Some (o, bytes));
       Ev (IOUSBHostFreeDescriptor o) tt]
| copied_string o bytes bLength result s :
    index ≠ 0 → bytes !! 0%nat = Some bLength → 2 ≤ bLength →
    let chars := string_chars bytes (Z.to_nat ((bLength - 2) / 2)) in
    (length chars ≤ 126)%nat → take (length chars) result = chars →
    copied i index language s
      [Ev (CopyStringDescriptor i index language) (Some (o, bytes));
       Ev (OSStringCreate result (Z.of_nat (length chars))) s;
       Ev (IOUSBHostFreeDescriptor o) tt].

Lemma until_zero_length us : (length (until_zero us) ≤ length us)%nat.
Proof. induction us; simpl; [done|]. case_decide; simpl; lia. Qed.

Lemma string_chars_length d n : (length (string_chars d n) ≤ n)%nat.
Proof.
  unfold string_chars. rewrite length_fmap. etransitivity; [apply until_zero_length|].
  rewrite length_take. lia.
Qed.

(** ** The device description *)

Definition entry_events (dict : obj) (entries : list (dict_key * dict_value)) : dk_trace :=
  (λ kv, Ev (OSDictionarySet dict kv.1 kv.2) tt) <$> entries.

(** An optional entry, its value released once the dictionary holds it. *)
Definition string_events (dict : obj) (k : dict_key) (s : ptr) : dk_trace :=
  match s with
  | Some s => [Ev (OSDictionarySet dict k (VObject s)) tt; Ev (OSObject_release s) tt]
  | None => []
  end.

(** The entries every device description has. *)
Definition description_entries {DK : DriverKit} (interval : Z) (d : IOUSBDeviceDescriptor)
    : list (dict_key * dict_value) :=
  [(KeyLiteral "RegisterService", kOSBooleanTrue);
   (KeyLiteral "HIDDefaultBehavior", kOSBooleanTrue);
   (KeyLiteral "AppleVendorSupported", kOSBooleanTrue);
   (kIOHIDReportIntervalKey, VUInt64 interval);
   (kIOHIDVendorIDKey, VUInt64 (USBToHost16 (idVendor d)));
   (kIOHIDProductIDKey, VUInt64 (USBToHost16 (idProduct d)));
   (kIOHIDTransportKey, VString "USB");
   (kIOHIDVersionNumberKey, VUInt64 (USBToHost16 (bcdDevice d)));
   (kIOHIDCountryCodeKey, VUInt64 0);
   (kIOHIDRequestTimeoutKey, VUInt64 5000000);
   (kIOHIDPrimaryUsagePageKey, VUInt64 0x01);
   (kIOHIDPrimaryUsageKey, VUInt64 0x05)].

(** The entries that depend on the properties of the interface. *)
Definition location_entries (v : ptr) : list (dict_key * dict_value) :=
  match v with Some o => [(kIOHIDLocationIDKey, VObject o)] | None => [] end.
Definition builtin_entries {DK : DriverKit} (portType : Z) : list (dict_key * dict_value) :=
  if bool_decide (portType = kIOUSBHostPortTypeInternal)
  then [(kIOHIDBuiltInKey, kOSBooleanTrue)] else [].

(** The last value a list of entries gives a key. *)
Fixpoint assoc_last (k : dict_key) (l : list (dict_key * dict_value)) : option dict_value :=
  match l with
  | [] => None
  | kv :: l' =>
      match assoc_last k l' with
      | Some v => Some v
      | None => if bool_decide (kv.1 = k) then Some kv.2 else None
      end
  end.

Section specifications.
Context {DK : DriverKit} {Hok : DriverKitOk DK}.
Implicit Types (iv : XboxOneInputInterface_IVars) (w : input_world).

Lemma CopyStringAtIndex_spec index language w iv i :
  w_st w = Some iv → iv_interface iv = Some i →
  wp (CopyStringAtIndex index language)
     (λ s w', ∃ evs, w' = extend evs w ∧ copied i index language s evs) w.
Proof.
  intros Hst Hi. unfold CopyStringAtIndex. wp_step.
  { wp_step. exists []. rewrite extend_nil. split; [done|by constructor]. }
  do 2 wp_step. rewrite Hi. do 3 wp_step. apply wp_call_eq. intros r Hans.
  destruct r as [[o bytes]|]; simpl in Hans.
  2: { wp_step. eexists. split; [done|by constructor]. }
  apply eq_sym, ok_string_descriptor in Hans as (bLength & Hb & Hu & Hl).
  rewrite Hb. change descriptorHeaderSize with 2.
  destruct (decide (bLength < 2)) as [Hlt|Hge].
  { simpl. wp_steps. destruct r. eexists. split; [by rewrite !log_extend, extend_extend|].
    by eapply copied_malformed. }
  set (len := Z.to_nat ((bLength - 2) / 2)). cbv zeta.
  replace (Z.to_nat (wrap8 ((bLength - 2) / 2))) with len by (unfold wrap8; lia).
  assert (len ≤ length (decode_units (drop 2 bytes)))%nat as Hn.
  { rewrite decode_units_length, length_drop. apply Nat.div_le_lower_bound; lia. }
  destruct (copy_chars_spec bytes len 0 (replicate 256 0)) as (result & Hc & _ & Ht);
    [lia|rewrite length_replicate; lia|].
  rewrite drop_0 in Hc, Ht. rewrite Hc. cbv beta iota. simpl free_descriptor. wp_steps.
  destruct r0. eexists. split; [by rewrite !log_extend, !extend_extend|].
  eapply copied_string; [done|done|lia| |exact Ht].
  etransitivity; [apply string_chars_length|]. subst len. lia.
Qed.

Lemma copied_refs i index language s evs o :
  copied i index language s evs → refs o evs = gained_ptr o s.
Proof. destruct 1; solve_ledger. Qed.

Lemma copied_silent i index language s evs : copied i index language s evs → silent evs.
Proof. destruct 1; eauto with silent. Qed.

Lemma copied_dict i index language s evs d k :
  copied i index language s evs → dict_lookup d k evs = None.
Proof. by destruct 1. Qed.

Lemma set_string_entry_spec dict index k w iv i :
  w_st w = Some iv → iv_interface iv = Some i →
  wp (set_string_entry dict index k)
     (λ _ w', ∃ s evs, w' = extend (evs ++ string_events dict k s) w ∧
        copied i index kLanguageIDEnglishUS s evs) w.
Proof.
  intros Hst Hi. unfold set_string_entry. wp_step.
  eapply wp_mono; [by eapply CopyStringAtIndex_spec|]. intros s w' (evs & -> & Hc).
  destruct s as [s|]; simpl OSSafeReleaseNULL; wp_steps; eexists _, evs; (split; [|done]).
  - destruct r, r0. by rewrite !log_extend, !extend_extend, <- ?app_assoc.
  - simpl. by rewrite app_nil_r.
Qed.

Lemma set_fixed_entries_spec dict iv d w :
  wp (set_fixed_entries dict iv d)
     (λ _ w', w' = extend (entry_events dict (description_entries (pd_interval (iv_inPipe iv)) d)) w) w.
Proof.
  unfold set_fixed_entries. wp_steps.
  repeat match goal with r : unit |- _ => destruct r end.
  by rewrite !log_extend, !extend_extend.
Qed.

Lemma set_location_entry_spec dict properties w :
  wp (set_location_entry dict properties)
     (λ _ w', ∃ v, w' = extend (Ev (OSDictionaryGetValue properties kUSBHostPropertyLocationID) v ::
        entry_events dict (location_entries v)) w) w.
Proof.
  unfold set_location_entry. do 2 wp_step. destruct r as [v|]; wp_steps; [exists (Some v)|by exists None].
  destruct r. by rewrite !log_extend, !extend_extend.
Qed.

Lemma set_builtin_entry_spec dict properties w :
  wp (set_builtin_entry dict properties)
     (λ _ w', ∃ v, w' = extend (Ev (OSDictionaryGetUInt64Value (Some properties)
          kUSBHostMatchingPropertyPortType) v ::
        entry_events dict (builtin_entries v)) w) w.
Proof.
  unfold set_builtin_entry, builtin_entries. do 2 wp_step. wp_steps; exists r.
  - rewrite bool_decide_true by done. destruct r0. by rewrite !log_extend, !extend_extend.
  - by rewrite bool_decide_false.
Qed.

Lemma refs_entry_events o dict l : refs o (entry_events dict l) = 0.
Proof. induction l; simpl; lia. Qed.

Lemma refs_string_events o dict k s : refs o (string_events dict k s) = - gained_ptr o s.
Proof. destruct s; simpl; rewrite ?gained_ptr_null; lia. Qed.

Lemma dict_entry_events dict k l : dict_lookup dict k (entry_events dict l) = assoc_last k l.
Proof.
  induction l as [|kv l IH]; simpl; [done|].
  rewrite IH. by rewrite (bool_decide_true (dict = dict)).
Qed.

Lemma dict_string_events dict k k' s :
  dict_lookup dict k' (string_events dict k s) = if decide (k' = k) then VObject <$> s else None.
Proof.
  destruct s; simpl; [|by case_decide]. rewrite bool_decide_true by done.
  case_decide; [by rewrite bool_decide_true|by rewrite bool_decide_false].
Qed.

(** All that [newDeviceDescription] does to the new dictionary. *)
Definition filling {DK : DriverKit} properties dict iv d v em sm ep sp es ss b : dk_trace :=
  entry_events dict (description_entries (pd_interval (iv_inPipe iv)) d) ++
  (Ev (OSDictionaryGetValue properties kUSBHostPropertyLocationID) v ::
     entry_events dict (location_entries v)) ++
  em ++ string_events dict kIOHIDManufacturerKey sm ++
  ep ++ string_events dict kIOHIDProductKey sp ++
  es ++ string_events dict kIOHIDSerialNumberKey ss ++
  Ev (OSDictionaryGetUInt64Value (Some properties) kUSBHostMatchingPropertyPortType) b ::
    entry_events dict (builtin_entries b).

Definition strings_copied i d em sm ep sp es ss : Prop :=
  copied i (iManufacturer d) kLanguageIDEnglishUS sm em ∧
  copied i (iProduct d) kLanguageIDEnglishUS sp ep ∧
  copied i (iSerialNumber d) kLanguageIDEnglishUS ss es.

Lemma refs_filling o properties dict iv d v em sm ep sp es ss b i :
  strings_copied i d em sm ep sp es ss →
  refs o (filling properties dict iv d v em sm ep sp es ss b) = 0.
Proof.
  intros (Hm & Hp & Hs). unfold filling. rewrite !refs_app. cbn [refs ref_delta].
  rewrite !refs_entry_events, !refs_string_events.
  rewrite (copied_refs _ _ _ _ _ _ Hm), (copied_refs _ _ _ _ _ _ Hp),
    (copied_refs _ _ _ _ _ _ Hs). lia.
Qed.

Definition description {DK : DriverKit} (interval : Z) (d : IOUSBDeviceDescriptor)
    (location sm sp ss : ptr) (portType : Z) (k : dict_key) : option dict_value :=
  match k with
  | kIOHIDManufacturerKey => VObject <$> sm
  | kIOHIDProductKey => VObject <$> sp
  | kIOHIDSerialNumberKey => VObject <$> ss
  | kIOHIDLocationIDKey => VObject <$> location
  | kIOHIDBuiltInKey => assoc_last k (builtin_entries portType)
  | _ => assoc_last k (description_entries interval d)
  end.

Lemma dict_filling k properties dict iv d v em sm ep sp es ss b i :
  strings_copied i d em sm ep sp es ss →
  dict_lookup dict k (filling properties dict iv d v em sm ep sp es ss b) =
    description (pd_interval (iv_inPipe iv)) d v sm sp ss b k.
Proof.
  intros (Hm & Hp & Hs). unfold filling. rewrite !dict_lookup_app.
  rewrite (copied_dict _ _ _ _ _ _ _ Hm), (copied_dict _ _ _ _ _ _ _ Hp),
    (copied_dict _ _ _ _ _ _ _ Hs).
  cbn [dict_lookup dict_set_of]. rewrite ?dict_lookup_app, !dict_string_events.
  cbn [dict_lookup dict_set_of]. rewrite !dict_entry_events.
  unfold description, builtin_entries.
  destruct (bool_decide (b = _)), k, v, sm, sp, ss; reflexivity.
Qed.

Lemma filling_spec dict properties iv d w i :
  w_st w = Some iv → iv_interface iv = Some i →
  wp (set_fixed_entries dict iv d;;
      set_location_entry dict properties;;
      set_string_entry dict (iManufacturer d) kIOHIDManufacturerKey;;
      set_string_entry dict (iProduct d) kIOHIDProductKey;;
      set_string_entry dict (iSerialNumber d) kIOHIDSerialNumberKey;;
      set_builtin_entry dict properties)
     (λ _ w', ∃ v em sm ep sp es ss b, strings_copied i d em sm ep sp es ss ∧
        w' = extend (filling properties dict iv d v em sm ep sp es ss b) w) w.
Proof.
  intros Hst Hi.
  wp_step. eapply wp_mono; [apply set_fixed_entries_spec|]. intros _ w1 ->.
  wp_step. eapply wp_mono; [apply set_location_entry_spec|]. intros _ w1 (v & ->).
  wp_step. eapply wp_mono; [by eapply set_string_entry_spec|]. intros _ w1 (sm & em & -> & Hm).
  wp_step. eapply wp_mono; [by eapply set_string_entry_spec|]. intros _ w1 (sp & ep & -> & Hp).
  wp_step. eapply wp_mono; [by eapply set_string_entry_spec|]. intros _ w1 (ss & es & -> & Hs).
  eapply wp_mono; [apply set_builtin_entry_spec|]. intros _ w1 (b & ->).
  exists v, em, sm, ep, sp, es, ss, b. split; [done|].
  rewrite !extend_extend. unfold filling. by rewrite <- !app_assoc.
Qed.

Lemma entry_events_silent dict l : silent (entry_events dict l).
Proof. induction l; simpl; auto with silent. Qed.

Lemma string_events_silent dict k s : silent (string_events dict k s).
Proof. destruct s; simpl; auto with silent. Qed.

Lemma entry_events_handed dict l : handed_over (entry_events dict l) = [].
Proof. by induction l. Qed.

Lemma string_events_handed dict k s : handed_over (string_events dict k s) = [].
Proof. by destruct s. Qed.

Lemma copied_handed i index language s evs : copied i index language s evs → handed_over evs = [].
Proof. by destruct 1. Qed.

Lemma filling_silent properties dict iv d v em sm ep sp es ss b i :
  strings_copied i d em sm ep sp es ss →
  silent (filling properties dict iv d v em sm ep sp es ss b).
Proof.
  intros (Hm & Hp & Hs). unfold filling.
  eauto 14 using entry_events_silent, string_events_silent, copied_silent with silent.
Qed.

Lemma filling_handed properties dict iv d v em sm ep sp es ss b i :
  strings_copied i d em sm ep sp es ss →
  handed_over (filling properties dict iv d v em sm ep sp es ss b) = [].
Proof.
  intros (Hm & Hp & Hs). unfold filling.
  repeat rewrite ?handed_over_app, ?handed_over_cons, ?entry_events_handed, ?string_events_handed.
  by rewrite (copied_handed _ _ _ _ _ Hm), (copied_handed _ _ _ _ _ Hp), (copied_handed _ _ _ _ _ Hs).
Qed.

(** The dictionary [dict] made during [evs] describes the device of interface [i]. *)
Definition described (i : obj) (interval : Z) (dict : obj) (evs : dk_trace) : Prop :=
  ∃ properties device dd d v b em sm ep sp es ss,
    infix [Ev (IOUSBHostInterface_CopyProperties i) (kIOReturnSuccess, Some properties);
           Ev (IOUSBHostInterface_CopyDevice i) (kIOReturnSuccess, Some device);
           Ev (CopyDeviceDescriptor device) (Some (dd, d))] evs ∧
    infix [Ev (OSDictionaryGetValue properties kUSBHostPropertyLocationID) v] evs ∧
    infix [Ev (OSDictionaryGetUInt64Value (Some properties) kUSBHostMatchingPropertyPortType) b] evs ∧
    strings_copied i d em sm ep sp es ss ∧
    infix em evs ∧ infix ep evs ∧ infix es evs ∧
    ∀ k, dict_lookup dict k evs = description interval d v sm sp ss b k.

(** Why there is no description, and what was asked of the framework then. *)
Inductive undescribed (interface : ptr) : dk_trace → Prop :=
| undescribed_interface : interface = nullptr → undescribed interface []
| undescribed_properties i r :
    interface = Some i → out_param r = nullptr →
    undescribed interface [Ev (IOUSBHostInterface_CopyProperties i) r]
| undescribed_device i properties r :
    interface = Some i → out_param r = nullptr →
    undescribed interface
      [Ev (IOUSBHostInterface_CopyProperties i) (kIOReturnSuccess, Some properties);
       Ev (IOUSBHostInterface_CopyDevice i) r; Ev (OSObject_release properties) tt]
| undescribed_descriptor i properties device :
    interface = Some i →
    undescribed interface
      [Ev (IOUSBHostInterface_CopyProperties i) (kIOReturnSuccess, Some properties);
       Ev (IOUSBHostInterface_CopyDevice i) (kIOReturnSuccess, Some device);
       Ev (CopyDeviceDescriptor device) None;
       Ev (OSObject_release properties) tt; Ev (OSObject_release device) tt]
| undescribed_dictionary i properties device dd d :
    interface = Some i →
    undescribed interface
      [Ev (IOUSBHostInterface_CopyProperties i) (kIOReturnSuccess, Some properties);
       Ev (IOUSBHostInterface_CopyDevice i) (kIOReturnSuccess, Some device);
       Ev (CopyDeviceDescriptor device) (Some (dd, d));
       Ev (OSDictionary_withCapacity 16) nullptr;
       Ev (OSObject_release properties) tt; Ev (IOUSBHostFreeDescriptor dd) tt;
       Ev (OSObject_release device) tt].

Lemma out_param_Some r x : out_param r = Some x → r = (kIOReturnSuccess, Some x).
Proof.
  destruct r as [ret p]. unfold out_param. simpl. destruct (succeeded ret) eqn:H; [|done].
  apply succeeded_true in H. by intros ->; subst.
Qed.

Lemma gained_out_param o r : gained o r = gained_ptr o (out_param r).
Proof.
  destruct r as [ret p]. unfold gained, out_param. simpl.
  by destruct (succeeded ret); rewrite ?gained_ptr_null.
Qed.

Definition description_post iv w (r : ptr) (w' : input_world) : Prop :=
  ∃ evs, w' = extend evs w ∧ silent evs ∧ handed_over evs = option_list r ∧
    (∀ o, refs o evs = gained_ptr o r) ∧
    match r with
    | Some dict => ∃ i, iv_interface iv = Some i ∧ described i (pd_interval (iv_inPipe iv)) dict evs
    | None => undescribed (iv_interface iv) evs
    end.

Lemma undescribed_post iv w evs :
  undescribed (iv_interface iv) evs → description_post iv w nullptr (extend evs w).
Proof.
  intros H. exists evs. split; [done|].
  destruct H as [| ? r ? Hr | ? ? r ? Hr | | ]; (split_and!;
    [eauto 10 with silent|done|intros o; simpl; rewrite ?(gained_out_param o r), ?Hr; solve_ledger
    |by econstructor]).
Qed.

Lemma newDeviceDescription_spec w iv :
  w_st w = Some iv → wp newDeviceDescription (description_post iv w) w.
Proof.
  intros Hst. unfold newDeviceDescription. do 2 wp_step.
  destruct (iv_interface iv) as [i|] eqn:Hi.
  2: { wp_step. rewrite <- (extend_nil w) at 2. apply undescribed_post. by constructor. }
  do 2 wp_step. destruct (out_param r) as [properties|] eqn:Hp.
  2: { wp_step. apply undescribed_post. by constructor. }
  apply out_param_Some in Hp as ->.
  do 2 wp_step. destruct (out_param r) as [device|] eqn:Hd.
  2: { wp_steps. destruct r0. rewrite !log_extend, !extend_extend. apply undescribed_post. by constructor. }
  apply out_param_Some in Hd as ->.
  do 2 wp_step. destruct r as [[dd d]|].
  2: { wp_steps. destruct r, r0. rewrite !log_extend, !extend_extend.
       apply undescribed_post. by constructor. }
  do 2 wp_step. destruct r as [dict|].
  2: { wp_steps. destruct r, r0, r1. rewrite !log_extend, !extend_extend.
       apply undescribed_post. by constructor. }
  wp_step. eapply wp_mono; [by eapply filling_spec|].
  intros _ w1 (v & em & sm & ep & sp & es & ss & b & Hc & ->). wp_steps.
  rewrite !log_extend, !extend_extend. eexists. split; [done|]. split.
  { apply silent_app; [eauto with silent|]. eauto 10 using filling_silent with silent. }
  split.
  { rewrite !handed_over_app. by erewrite filling_handed by done. }
  split.
  { intros o. rewrite !refs_app. erewrite refs_filling by done. solve_ledger. }
  exists i. split; [done|].
  exists properties, device, dd, d, v, b, em, sm, ep, sp, es, ss.
  split_and!; [..|intros k; rewrite !dict_lookup_app; erewrite dict_filling by done;
    cbn [dict_lookup dict_set_of]; by destruct (description _ _ _ _ _ _ _ k)].
  { by eexists [], _. }
  all: unfold filling; eauto 14 with infix.
Qed.

End specifications.

(** ** Theorems *)

(** C19: [CopyStringAtIndex] never reads past the descriptor or writes past its buffer.
    Index 0 and a missing or malformed descriptor give null; otherwise the string
    is created from the low bytes of the 16-bit code units up to the first zero or
    the end the length byte gives, at most 126 of them.  Every descriptor it got is
    freed, and the only reference it leaves is the string it returns. *)
Theorem CopyStringAtIndex_correct {DK : DriverKit} (Hok : DriverKitOk DK) index language
    (w : input_world) iv i :
  w_st w = Some iv → iv_interface iv = Some i →
  wp (CopyStringAtIndex index language) (λ s w', ∃ evs,
    w' = extend evs w ∧ copied i index language s evs ∧ ∀ o, refs o evs = gained_ptr o s) w.
Proof.
  intros Hst Hi. eapply wp_mono; [by eapply CopyStringAtIndex_spec|].
  intros s w' (evs & ? & ?). exists evs. split_and!; eauto using copied_refs.
Qed.

Lemma CopyStringAtIndex_correct_witness :
  wp (@CopyStringAtIndex sample 1 kLanguageIDEnglishUS) (λ s w', ∃ evs,
    w' = extend evs (sample_world sample_iv) ∧
    copied sample_provider 1 kLanguageIDEnglishUS s evs ∧ ∀ o, refs o evs = gained_ptr o s)
    (sample_world sample_iv).
Proof.
  apply (@CopyStringAtIndex_correct sample sample_ok 1 kLanguageIDEnglishUS
    (sample_world sample_iv) sample_iv sample_provider); reflexivity.
Defined.

(** C12: [newDeviceDescription] returns a dictionary whose contents are known for every
    key: the identifiers come from the device descriptor of the interface's device, the
    usage page and usage from the report descriptor, the strings from the string
    descriptors, the location and the built-in flag from the properties copied from the
    interface.  It returns null only when there is no interface or one of the properties,
    the device, its descriptor and the dictionary cannot be had.  It changes nothing else,
    and of all the objects it obtained only the returned dictionary is still owned. *)
Theorem newDeviceDescription_correct {DK : DriverKit} (Hok : DriverKitOk DK) (w : input_world) iv :
  w_st w = Some iv →
  wp newDeviceDescription (λ r w', ∃ evs, w' = extend evs w ∧
    handed_over evs = option_list r ∧ (∀ o, refs o evs = gained_ptr o r) ∧
    match r with
    | Some dict => ∃ i, iv_interface iv = Some i ∧ described i (pd_interval (iv_inPipe iv)) dict evs
    | None => undescribed (iv_interface iv) evs
    end) w.
Proof.
  intros Hst. eapply wp_mono; [by apply newDeviceDescription_spec|].
  intros r w' (evs & ? & _ & ? & ? & ?). by exists evs.
Qed.

Lemma newDeviceDescription_correct_witness :
  wp (@newDeviceDescription sample) (λ r w', ∃ evs, w' = extend evs (sample_world sample_iv) ∧
    handed_over evs = option_list r ∧ (∀ o, refs o evs = gained_ptr o r) ∧
    match r with
    | Some dict => ∃ i, iv_interface sample_iv = Some i ∧ @described sample i 0 dict evs
    | None => undescribed (iv_interface sample_iv) evs
    end) (sample_world sample_iv).
Proof.
  apply (@newDeviceDescription_correct sample sample_ok (sample_world sample_iv) sample_iv).
  reflexivity.
Defined.
