(* ===== verification/InputLifecycle.v ===== *)
(** * InputLifecycle: starting, stopping and freeing the input interface

    [init], [Start_Impl], [handleStart], [Stop_Impl] with its completion block and
    [free] of src/XboxControllerDriver/XboxOne/XboxOneInputInterface.cpp.

    [super::Start] belongs to the framework and calls back the methods this class
    overrides.  The model asks the framework for a [hid_start_script], the tree of
    the calls it makes and of how it goes on from their results, and runs it. *)

From S2P Require Import Prelude Effects DriverKit Sample Packets Descriptors InputState InputPipes InputComm HidDescription.

Section definitions.
Context {DK : DriverKit}.

(** ** Startup *)

Definition init : InputM bool :=
  result ← call Super_init;
  if negb result then mret false else
  allocated ← call IONewZero;
  if negb allocated then put_st None;; mret false else
  put_st (Some zero_ivars);;
  modify (set_enabled true);;
  mret true.

Definition handleStart (fuel : nat) (provider : ptr) : InputM bool :=
  result ← call (Super_handleStart provider);
  if negb result then mret false else
  result ← InitDescriptors;
  if negb result then mret false else
  result ← InitPipes fuel;
  if negb result then mret false else
  result ← SetupPipes;
  if negb result then mret false else
  iv ← ivars;
  '(ret, action) ← call (CreateActionGotData (bm_length (pd_memory (iv_inPipe iv))));
  if negb (succeeded ret) then mret false else
  modify (set_gotDataAction action);;
  SendInterruptData INIT_PACKET INIT_PACKET_SIZE;;
  SendInterruptData SWAP_TO_WIRED_PACKET SWAP_TO_WIRED_PACKET_SIZE;;
  RequestAsyncInterruptData;;
  iv ← ivars;
  i ← nonnull (iv_interface iv);
  call (OSObject_retain i);;
  mret true.

(** Runs what [super::Start] does. *)
Fixpoint run_start (fuel : nat) (provider : ptr) (script : hid_start_script)
    : InputM kern_return_t :=
  match script with
  | StartReturn ret => mret ret
  | StartHandleStart k => r ← handleStart fuel provider; run_start fuel provider (k r)
  | StartNewDeviceDescription k => r ← newDeviceDescription; run_start fuel provider (k r)
  | StartNewReportDescriptor k => r ← newReportDescriptor; run_start fuel provider (k r)
  end.

Definition Start_Impl (fuel : nat) (provider : ptr) : InputM kern_return_t :=
  modify (set_interface (OSDynamicCast Class_IOUSBHostInterface provider));;
  iv ← ivars;
  match iv_interface iv with
  | None => mret kIOReturnSuccess
  | Some i =>
      ret ← call (IOUSBHostInterface_Open i);
      if negb (succeeded ret) then mret ret else
      script ← call (Super_Start_HID provider);
      run_start fuel provider script
  end.

(** ** Shutdown *)

(** The block [Stop_Impl] hands to [Cancel]; it runs when the reads are cancelled. *)
Definition Stop_finalize (this : obj) (provider : obj) : InputM unit :=
  call (Super_Stop (Some provider));;
  call (OSObject_release this);;
  call (OSObject_release provider).

Definition Stop_Impl (this : obj) (provider : ptr) : InputM kern_return_t :=
  iv ← ivars;
  match iv_gotDataAction iv with
  | None => call (Super_Stop provider)
  | Some action =>
      call (OSObject_retain this);;
      p ← nonnull provider;
      call (OSObject_retain p);;
      call (OSAction_Cancel action p);;
      mret kIOReturnSuccess
  end.

Definition free : InputM unit :=
  p ← get_st;
  match p with
  | None => mret tt
  | Some iv =>
      free_descriptor (iv_configurationDescriptor iv);;
      OSSafeReleaseNULL (pd_pipe (iv_inPipe iv));;
      OSSafeReleaseNULL (bm_buffer (pd_memory (iv_inPipe iv)));;
      OSSafeReleaseNULL (pd_pipe (iv_outPipe iv));;
      OSSafeReleaseNULL (bm_buffer (pd_memory (iv_outPipe iv)));;
      OSSafeReleaseNULL (iv_gotDataAction iv);;
      OSSafeReleaseNULL (iv_interface iv);;
      call IODelete;;
      put_st None
  end;;
  call Super_free.
End definitions.

(** ** Specifications *)

(** The instance variables before [handleStart]: nothing is held yet. *)
Definition unopened (iv : XboxOneInputInterface_IVars) : Prop :=
  iv_configurationDescriptor iv = nullptr ∧ iv_gotDataAction iv = nullptr ∧
  ∀ s, pd_pipe (get_pipe s iv) = nullptr ∧ bm_buffer (pd_memory (get_pipe s iv)) = nullptr.

(** The packets that wake the controller up, handed to the pipe of [d] with counter [c]
    and the next one. *)
Definition start_packets (d : usb_pipe_data) (c : Z) : list (obj * list Z) :=
  packet_to d [0x05; 0x20; c; 0x01; 0x00] ++ packet_to d [0x05; 0x20; wrap8 (c + 1); 0x0f; 0x06].

(** They are sent when they fit the [OUT] buffer. *)
Definition start_fits (iv : XboxOneInputInterface_IVars) : bool :=
  bool_decide (5 ≤ bm_length (pd_memory (iv_outPipe iv))).

Section specifications.
Context {DK : DriverKit}.
Implicit Types (iv : XboxOneInputInterface_IVars) (w : input_world).

(** Every interface has fewer than [fuel] endpoints. *)
Definition finite_endpoints (fuel : nat) : Prop :=
  ∀ c d, ∃ eps, endpoint_chain c d nullptr eps ∧ (length eps < fuel)%nat.

(** An object that is up and running, after the events [evs], the buffers [ms] having been
    mapped: the [IN] buffer still holds what it held when it was mapped, the read request
    was made, and the interface retained. *)
Definition running (ms : list (list Z)) w' iv' (i : obj) (evs : dk_trace) : Prop :=
  pipes_ready w' iv' ∧ (∃ buf ms', ms = buf :: ms' ∧ in_buffer w' iv' buf) ∧
  ∃ p r, infix [Ev (read_call p iv') r; Ev (OSObject_retain i) tt] evs ∧
    pd_pipe (iv_inPipe iv') = Some p ∧ reads_armed evs = if succeeded r then 1 else 0.

(** The start from [w] on, the buffers [ms] having been mapped before: [ok] tells whether
    [handleStart] succeeded, and [lost] are the pipes opened but no longer held. *)
Definition start_from (ms : list (list Z)) w iv (i : obj) (ok : bool) (w' : input_world) : Prop :=
  ∃ iv' evs lost, w_st w' = Some iv' ∧ w_trace w' = w_trace w ++ evs ∧
    iv_interface iv' = Some i ∧ iv_enabled iv' = iv_enabled iv ∧ hid_calls evs = [] ∧
    pipes iv ++ opened_pipes evs ≡ₚ pipes iv' ++ lost ∧
    (∀ o, refs o evs = owned o iv' - owned o iv + held o (handed_over evs) + held o lost +
                       (if ok then gained_ptr o (Some i) else 0)) ∧
    out_packets evs =
      (if ok && start_fits iv' then start_packets (iv_outPipe iv') (iv_outCounter iv) else []) ∧
    iv_outCounter iv' =
      (if ok && start_fits iv' then wrap8 (iv_outCounter iv + 2) else iv_outCounter iv) ∧
    (if ok then running (ms ++ mappings evs) w' iv' i evs else reads_armed evs = 0).

Definition start_post w iv (i : obj) (ok : bool) (w' : input_world) : Prop :=
  start_from [] w iv i ok w'.

Lemma send_start_spec data w iv buf :
  w_st w = Some iv → pipes_ready w iv → in_buffer w iv buf → length data = 5%nat →
  let iv' := after_sends (start_fits iv) iv in
  wp (SendInterruptData data 5) (λ _ w', ∃ evs,
    w_st w' = Some iv' ∧ pipes_ready w' iv' ∧ in_buffer w' iv' buf ∧ w_trace w' = w_trace w ++ evs ∧
    out_packets evs =
      (if start_fits iv then packet_to (iv_outPipe iv) (<[2%nat := iv_outCounter iv]> data) else []) ∧
    hid_calls evs = [] ∧ idle evs) w.
Proof.
  intros Hst Hr Hbuf Hl iv'. subst iv'. unfold start_fits.
  apply (wp_SendInterruptData _ _ _ _ _ iv); [done|apply (proj1 Hr OutPipe)|lia|..].
  - intros Hlt. exists []. rewrite bool_decide_eq_false_2 by lia. rewrite app_nil_r.
    by split_and!.
  - intros Hle p blk ret n Hp Hblk. rewrite bool_decide_eq_true_2 by done. rewrite take_ge by (simpl; lia).
    destruct (proj1 Hr OutPipe) as (_ & _ & _ & _ & o & blk' & _ & _ & Hblk' & Hlen). simpl in Hblk', Hlen.
    assert (blk' = blk) as -> by congruence.
    set (w' := World _ _ _). assert (pipes_ready w' iv ∧ in_buffer w' iv buf) as [Hr' Hbuf'].
    { eapply (sent_ready (<[2%nat := iv_outCounter iv]> data) blk w);
        [done|done|done|rewrite length_insert; lia|done|]. intros b. simpl. by rewrite mapped_at_app. }
    eexists. split_and!; [done|by apply (pipes_ready_same _ iv)|done|done| |done|done].
    unfold packet_to. by rewrite Hp.
Qed.

Lemma start_fits_after b iv : start_fits (after_sends b iv) = start_fits iv.
Proof. by destruct b. Qed.

Lemma owned_after_sends o b iv : owned o (after_sends b iv) = owned o iv.
Proof. by destruct b. Qed.

(** The end of [handleStart], from the first packet on. *)
Lemma start_comm_spec w iv i buf ms :
  w_st w = Some iv → pipes_ready w iv → in_buffer w iv buf → iv_interface iv = Some i →
  wp (SendInterruptData INIT_PACKET INIT_PACKET_SIZE;;
      SendInterruptData SWAP_TO_WIRED_PACKET SWAP_TO_WIRED_PACKET_SIZE;;
      RequestAsyncInterruptData;;
      iv ← ivars;
      i ← nonnull (iv_interface iv);
      call (OSObject_retain i);;
      mret true)
     (λ b w', b = true ∧ start_from (buf :: ms) w iv i true w') w.
Proof.
  intros Hst Hr Hbuf Hi. change INIT_PACKET_SIZE with 5. change SWAP_TO_WIRED_PACKET_SIZE with 5.
  wp_step. eapply wp_mono; [by apply send_start_spec|].
  intros _ w1 (e1 & Hst1 & Hr1 & Hbuf1 & Htr1 & Hs1 & Hh1 & (Ha1 & (Ho1 & Hd1 & Hp1) & Hm1 & _)).
  wp_step. eapply wp_mono; [by apply send_start_spec|].
  intros _ w2 (e2 & Hst2 & Hr2 & Hbuf2 & Htr2 & Hs2 & Hh2 & (Ha2 & (Ho2 & Hd2 & Hp2) & Hm2 & _)).
  rewrite start_fits_after in *.
  set (iv2 := after_sends _ (after_sends _ iv)) in *.
  destruct (proj1 Hr2 InPipe) as ([p Hp] & _).
  assert (iv_interface iv2 = Some i ∧ pipes iv2 = pipes iv ∧ iv_enabled iv2 = iv_enabled iv ∧
    iv_outPipe iv2 = iv_outPipe iv) as (Hi2 & Hpi2 & He2 & Hout2)
    by (subst iv2; by destruct (start_fits iv)).
  wp_step. eapply (wp_RequestAsyncInterruptData _ p); [done..|]. intros r.
  do 2 wp_step. rewrite Hi2. wp_steps. split; [done|]. destruct r0.
  exists iv2, (e1 ++ e2 ++ [Ev (read_call p iv2) r; Ev (OSObject_retain i) tt]), [].
  assert (start_fits iv2 = start_fits iv) as Hf by (subst iv2; by rewrite !start_fits_after).
  rewrite Hf, !hid_calls_app, !out_packets_app, !opened_pipes_app, !mappings_app,
    Hh1, Hh2, Hs1, Hs2, Hp1, Hp2, Hm1, Hm2.
  split_and!; [done| |done|done|done|by rewrite Hpi2|..].
  - simpl. rewrite Htr2, Htr1. by rewrite <- !app_assoc.
  - intros o. rewrite !refs_app, !handed_over_app, Ho1, Ho2, Hd1, Hd2. subst iv2.
    rewrite !owned_after_sends. simpl. lia.
  - rewrite Hout2. change (out_packets [_; _]) with (@nil (obj * list Z)).
    by destruct (start_fits iv); rewrite ?app_nil_r.
  - subst iv2. destruct (start_fits iv); simpl; [unfold wrap8; lia|done].
  - split_and!.
    + by do 2 (apply pipes_ready_log; [done|]).
    + exists buf, ms. by rewrite !app_nil_r.
    + exists p, r. rewrite !reads_armed_app, Ha1, Ha2. split_and!; [|done|simpl; lia].
      apply infix_app, infix_app, infix_refl.
Qed.

(** One quiet part of the set-up, and several: the pipes [ops] are opened, the buffers [ms]
    mapped, and the pipes [lost] lost. *)
Definition setup_step (ops : list obj) (ms : list (list Z)) (lost : list obj) w iv w' iv' : Prop :=
  w_st w' = Some iv' ∧ quiet ops ms (w_trace w) (w_trace w') ∧ keeps_comm iv iv' ∧
  ledger ops lost iv iv' (w_trace w) (w_trace w').

Lemma setup_step_trans ops1 ms1 l1 ops2 ms2 l2 w1 iv1 w2 iv2 w3 iv3 :
  setup_step ops1 ms1 l1 w1 iv1 w2 iv2 → setup_step ops2 ms2 l2 w2 iv2 w3 iv3 →
  setup_step (ops1 ++ ops2) (ms1 ++ ms2) (l1 ++ l2) w1 iv1 w3 iv3.
Proof.
  intros (? & ? & ? & ?) (? & ? & ? & ?). unfold setup_step.
  split_and!; eauto using quiet_trans, keeps_comm_trans, ledger_trans.
Qed.

(** A part that opens, maps and loses nothing. *)
Lemma setup_step_quiet w iv w' iv' :
  w_st w' = Some iv' → quiet [] [] (w_trace w) (w_trace w') → keeps_comm iv iv' →
  balanced iv iv' (w_trace w) (w_trace w') → pipes iv' = pipes iv →
  setup_step [] [] [] w iv w' iv'.
Proof. intros. unfold setup_step. split_and!; auto using ledger_balanced. Qed.

(** What comes before the packets adds to what [handleStart] achieves. *)
Lemma start_from_after ops ms1 l1 ms w iv w1 iv1 i b w' :
  setup_step ops ms1 l1 w iv w1 iv1 → start_from (ms ++ ms1) w1 iv1 i b w' →
  start_from ms w iv i b w'.
Proof.
  intros (_ & (e1 & Htr1 & Hs1 & Hh1 & Ha1 & Hd1 & <- & <-) & (_ & Hc & He) & [Hb Hpi])
    (iv' & evs & lost & Hst & Htr & Hi & He' & Hh & Hpi' & Ho & Hs & Hc' & Hr).
  exists iv', (e1 ++ evs), (l1 ++ lost).
  rewrite hid_calls_app, out_packets_app, opened_pipes_app, mappings_app, Hs1, Hh1, (app_assoc ms).
  rewrite Hc in Hs, Hc'. split_and!; try done.
  - by rewrite Htr, Htr1, <- app_assoc.
  - by rewrite He'.
  - by eapply pipes_trans.
  - intros o. specialize (Hb o). specialize (Ho o). rewrite Htr1, refs_app in Hb.
    rewrite refs_app, handed_over_app, Hd1, app_nil_l, held_app. lia.
  - destruct b; [|by rewrite reads_armed_app, Ha1, Hr].
    destruct Hr as (Hr & Hm & p & r & Hx & Hp & Ha). split_and!; [done..|]. exists p, r.
    rewrite reads_armed_app, Ha1, Ha. split_and!; [by apply infix_app|done|lia].
Qed.

Lemma setup_step_failed ops ms lost w iv i w' iv' :
  setup_step ops ms lost w iv w' iv' → iv_interface iv = Some i → start_post w iv i false w'.
Proof.
  intros H Hi. eapply start_from_after; [exact H|]. destruct H as (Hst & _ & (Hi' & _) & _).
  exists iv', [], []. rewrite !app_nil_r, Hi'. split_and!; try done. intros o. simpl. lia.
Qed.

(** Opening the pipes of an interface whose descriptors are known. *)
Lemma InitPipes_step fuel w iv i :
  finite_endpoints fuel → w_st w = Some iv → iv_interface iv = Some i →
  (∀ s, pd_pipe (get_pipe s iv) = nullptr ∧ bm_buffer (pd_memory (get_pipe s iv)) = nullptr) →
  wp (InitPipes fuel) (λ b w', ∃ iv' ops lost, setup_step ops [] lost w iv w' iv' ∧
    iv_gotDataAction iv' = iv_gotDataAction iv ∧ (b = true → pipes_open iv')) w.
Proof.
  intros Heps Hst Hi Hun.
  destruct (Heps (iv_configurationDescriptor iv) (iv_interfaceDescriptor iv)) as (eps & Hch & Hlen).
  eapply wp_mono; [eapply (init_pipes_loop_spec i eps (w_trace w)); try done|].
  { apply pipes_described_null. apply Hun. }
  intros b w' (iv' & ops & lost & Hst' & _ & Hq & (Hk & _ & _ & Hact & Hm) & Hl & Hb).
  exists iv', ops, lost. split_and!; [by unfold setup_step|done|].
  intros Htrue s. split; [by apply Hb|]. destruct (Hm s) as (p & ep & ->). apply Hun.
Qed.

(** Setting both pipes up. *)
Lemma SetupPipes_step `{!DriverKitOk DK} w iv i :
  w_st w = Some iv → iv_interface iv = Some i → pipes_open iv →
  wp SetupPipes (λ b w', ∃ iv' ms, setup_step [] ms [] w iv w' iv' ∧
    iv_gotDataAction iv' = iv_gotDataAction iv ∧ (b = true → pipes_set_up w' iv' ms)) w.
Proof.
  intros Hst Hi Hopen. eapply wp_mono; [by eapply SetupPipes_spec|].
  intros b w' (iv' & ms & (? & ? & ? & _ & ? & ? & _) & ? & Hr). exists iv', ms. split_and!; [|done|].
  - unfold setup_step. split_and!; auto using ledger_balanced.
  - intros Hb. by apply Hr.
Qed.

(** Storing the callback object. *)
Lemma action_step w iv ret action n :
  w_st w = Some iv → iv_gotDataAction iv = nullptr → succeeded ret = true →
  let w' := set_st (Some (set_gotDataAction action iv)) (log (Ev (CreateActionGotData n) (ret, action)) w) in
  setup_step [] [] [] w iv w' (set_gotDataAction action iv) ∧
  (pipes_ready w iv → pipes_ready w' (set_gotDataAction action iv)).
Proof.
  intros Hst Hact Hret w'. split.
  - apply setup_step_quiet; try done; [simpl; auto|]. subst w'. solve_balanced.
  - intros Hr. apply (pipes_ready_same _ iv); [done|]. by apply (pipes_ready_log _ w iv).
Qed.

(** The callback object, then the packets. *)
Lemma action_spec w iv i ms :
  w_st w = Some iv → iv_interface iv = Some i → iv_gotDataAction iv = nullptr →
  pipes_set_up w iv ms →
  wp ('(ret, action) ← call (CreateActionGotData (bm_length (pd_memory (iv_inPipe iv))));
      if negb (succeeded ret) then mret false else
      modify (set_gotDataAction action);;
      SendInterruptData INIT_PACKET INIT_PACKET_SIZE;;
      SendInterruptData SWAP_TO_WIRED_PACKET SWAP_TO_WIRED_PACKET_SIZE;;
      RequestAsyncInterruptData;;
      iv ← ivars;
      i ← nonnull (iv_interface iv);
      call (OSObject_retain i);;
      mret true)
     (λ b w', start_from ms w iv i b w' ∧
        ((∀ n tr, ∃ p, answer (CreateActionGotData n) tr = (kIOReturnSuccess, p)) → b = true)) w.
Proof.
  intros Hst Hi Hact [Hr (buf & ms' & -> & Hbuf)]. wp_step. apply wp_call_eq.
  intros [ret action] Hans. wp_step.
  2: { wp_step. split.
       - eapply (start_from_after [] [] []); [|exists iv, [], []; rewrite !app_nil_r; split_and!; try done].
         + apply setup_step_quiet; auto; [simpl; auto|by solve_balanced].
         + intros o. simpl. lia.
       - intros Hco. destruct (Hco (bm_length (pd_memory (iv_inPipe iv))) (w_trace w)) as [q Hq].
         rewrite Hq in Hans. by injection Hans as -> ->. }
  destruct (action_step w iv ret action (bm_length (pd_memory (iv_inPipe iv))) Hst Hact Hb) as [Hstep Hrdy].
  do 2 wp_step. eapply wp_mono; [eapply (start_comm_spec _ _ i buf ms'); [done|by apply Hrdy|done|done]|].
  intros b w' [-> Hpost]. split; [|done]. eapply start_from_after; [exact Hstep|].
  by rewrite app_nil_r.
Qed.

Lemma handleStart_spec `{!DriverKitOk DK} fuel provider w iv i :
  finite_endpoints fuel → w_st w = Some iv → iv_interface iv = Some i → unopened iv →
  wp (handleStart fuel provider) (start_post w iv i) w.
Proof.
  intros Heps Hst Hi (Hcfg & Hact & Hun). unfold handleStart. do 2 wp_step.
  set (w0 := log _ w).
  assert (setup_step [] [] [] w iv w0 iv) as H0.
  { subst w0. apply setup_step_quiet; auto; [simpl; auto|by solve_balanced]. }
  clearbody w0. wp_step; [|wp_step; by eapply setup_step_failed].
  wp_step. eapply wp_mono; [by eapply InitDescriptors_spec; [apply H0|..]|].
  intros b1 w1 (iv1 & c & d & Hst1 & _ & Hq1 & Heq1 & Hb1 & _).
  assert (setup_step [] [] [] w iv w1 iv1) as H1.
  { apply (setup_step_trans [] [] [] [] [] [] _ _ w0 iv); [exact H0|]. by apply setup_step_quiet; subst iv1. }
  destruct b1; cbn [negb]; [|wp_step; by eapply setup_step_failed].
  wp_step. eapply wp_mono; [eapply (InitPipes_step _ _ iv1 i); try done; subst iv1; [done|]|].
  { intros []; [apply (Hun InPipe)|apply (Hun OutPipe)]. }
  intros b2 w2 (iv2 & ops & lost & H2 & Hact2 & Ho2).
  pose proof (setup_step_trans _ _ _ _ _ _ _ _ _ _ _ _ H1 H2) as H02.
  destruct b2; cbn [negb]; [|wp_step; by eapply setup_step_failed].
  assert (iv_interface iv2 = Some i) as Hi2 by (destruct H02 as (_ & _ & (-> & _) & _); done).
  wp_step. eapply wp_mono; [eapply SetupPipes_step; [apply H2|done|by apply Ho2]|].
  intros b3 w3 (iv3 & ms & H3 & Hact3 & Hr3).
  pose proof (setup_step_trans _ _ _ _ _ _ _ _ _ _ _ _ H02 H3) as H03.
  destruct b3; cbn [negb]; [|wp_step; by eapply setup_step_failed].
  pose proof H3 as (Hst3 & _ & (Hi3 & _) & _). do 2 wp_step.
  eapply wp_mono; [apply (action_spec _ _ i ms); [done|by rewrite Hi3| |by apply Hr3]|].
  - rewrite Hact3, Hact2. by subst iv1.
  - intros b w' [Hpost _]. by eapply start_from_after; [exact H03|].
Qed.

(** ** A start that succeeds *)

(** Every interface has fewer than [fuel] endpoints, among them interrupt endpoints of
    both directions. *)
Definition both_directions (fuel : nat) : Prop :=
  ∀ c d, ∃ eps, endpoint_chain c d nullptr eps ∧ (length eps < fuel)%nat ∧
    InPipe ∈ interrupt_pipes eps ∧ OutPipe ∈ interrupt_pipes eps.

Lemma both_directions_finite fuel : both_directions fuel → finite_endpoints fuel.
Proof. intros H c d. destruct (H c d) as (eps & ? & ? & _). eauto. Qed.

Lemma handleStart_complete `{!DriverKitOk DK, !Cooperative} fuel provider w iv i :
  both_directions fuel → w_st w = Some iv → iv_interface iv = Some i → unopened iv →
  wp (handleStart fuel provider) (λ b _, b = true) w.
Proof.
  intros Hboth Hst Hi (Hcfg & Hact & Hun). pose proof (both_directions_finite _ Hboth) as Heps.
  unfold handleStart. wp_step. apply wp_call_eq. intros r ->. rewrite co_handleStart. cbn [negb].
  wp_step. eapply wp_mono; [apply wp_and; [by eapply InitDescriptors_complete
    |by eapply InitDescriptors_spec]|].
  intros b1 w1 [-> (iv1 & c & d & Hst1 & _ & _ & Heq1 & _)]. cbn [negb].
  assert (iv_interface iv1 = Some i) as Hi1 by (by subst iv1).
  assert (∀ s, get_pipe s iv1 = get_pipe s iv) as Hp1 by (intros []; by subst iv1).
  wp_step. eapply wp_mono; [apply wp_and; [|eapply (InitPipes_step _ _ iv1 i); try done]|].
  { destruct (Hboth (iv_configurationDescriptor iv1) (iv_interfaceDescriptor iv1))
      as (eps & Hch & Hf & Hin & Hout).
    eapply init_pipes_loop_complete; eauto using co_pipe. intros []; by right. }
  { intros s. rewrite Hp1. apply Hun. }
  intros b2 w2 [-> (iv2 & ops & lost & (Hst2 & _ & (Hi2 & _) & _) & Hact2 & Ho2)]. cbn [negb].
  specialize (Ho2 eq_refl). rewrite Hi1 in Hi2.
  wp_step. eapply wp_mono; [apply wp_and; [by eapply SetupPipes_complete|by eapply SetupPipes_step]|].
  intros b3 w3 [-> (iv3 & ms & (Hst3 & _ & (Hi3 & _) & _) & Hact3 & Hr3)]. cbn [negb].
  do 2 wp_step.
  eapply wp_mono; [apply (action_spec _ _ i ms); [done|by rewrite Hi3| |by apply Hr3]|].
  - rewrite Hact3, Hact2. by subst iv1.
  - intros b w' [_ Hb]. apply Hb, co_action.
Qed.

(** ** [super::Start] *)

(** Events that leave no reference but what is handed to the framework. *)
Definition hands_over (e : dk_trace) : Prop :=
  silent e ∧ ∀ o, refs o e = held o (handed_over e).

Lemma hands_over_nil : hands_over [].
Proof. split; [apply silent_nil|done]. Qed.

Lemma hands_over_app e1 e2 : hands_over e1 → hands_over e2 → hands_over (e1 ++ e2).
Proof.
  intros [Hs1 Ho1] [Hs2 Ho2]. split; [by apply silent_app|].
  intros o. by rewrite refs_app, handed_over_app, held_app, Ho1, Ho2.
Qed.

Lemma silent_ready e w iv : silent e → pipes_ready w iv → pipes_ready (extend e w) iv.
Proof.
  intros (_ & _ & _ & _ & _ & Hm)%silent_projections. apply pipes_ready_keeps, keeps_blocks_lengths.
  intros b a Hb. simpl. by rewrite mapped_at_app, Hm.
Qed.

Context {Hok : DriverKitOk DK}.

Lemma newDeviceDescription_hands w iv :
  w_st w = Some iv →
  wp newDeviceDescription (λ r w', ∃ e, w' = extend e w ∧ hands_over e) w.
Proof.
  intros Hst. eapply wp_mono; [by apply newDeviceDescription_spec|].
  intros r w' (e & -> & Hs & Hd & Ho & _). exists e. split; [done|].
  split; [done|]. intros o. by rewrite Hd, held_option.
Qed.

Lemma newReportDescriptor_hands w :
  wp newReportDescriptor (λ r w', ∃ e, w' = extend e w ∧ hands_over e) w.
Proof.
  unfold newReportDescriptor. wp_step.
  exists [Ev (OSData_withBytesNoCopy ReportDescriptor REPORT_DESCRIPTOR_SIZE) r].
  split; [done|]. split; [eauto with silent|]. intros o. unfold handed_over. simpl.
  rewrite app_nil_r, held_option. lia.
Qed.

(** Composing a start with what happens before and after [handleStart]. *)
Lemma start_post_before w iv i ok e w' :
  hands_over e → start_post (extend e w) iv i ok w' → start_post w iv i ok w'.
Proof.
  intros [(Hs1 & Hh1 & Ha1 & Hm1 & Hp1 & _)%silent_projections Ho1]
    (iv' & evs & lost & Hst & Htr & Hi & He & Hh & Hpi & Ho & Hs & Hc & Hr). simpl in Htr.
  exists iv', (e ++ evs), lost.
  rewrite hid_calls_app, out_packets_app, opened_pipes_app, mappings_app, Hs1, Hh1, Hm1, Hp1.
  split_and!; try done.
  - by rewrite app_assoc.
  - intros o. rewrite refs_app, handed_over_app, held_app, Ho, Ho1. lia.
  - destruct ok; [|by rewrite reads_armed_app, Ha1, Hr].
    destruct Hr as (Hr & Hm & p & r & Hx & Hp & Ha). split_and!; [done..|]. exists p, r.
    rewrite reads_armed_app, Ha1, Ha. split_and!; [by apply infix_app|done|lia].
Qed.

Lemma start_post_later w iv i ok e w1 :
  start_post w iv i ok w1 → hands_over e → start_post w iv i ok (extend e w1).
Proof.
  intros (iv' & evs & lost & Hst & Htr & Hi & He & Hh & Hpi & Ho & Hs & Hc & Hr) [Hsil Ho1].
  pose proof (silent_projections _ Hsil) as (Hs1 & Hh1 & Ha1 & Hm1 & Hp1 & _).
  exists iv', (evs ++ e), lost.
  rewrite hid_calls_app, out_packets_app, opened_pipes_app, mappings_app, Hs1, Hh1, Hm1, Hp1, !app_nil_r.
  split_and!; try done.
  - simpl. by rewrite Htr, app_assoc.
  - intros o. rewrite refs_app, handed_over_app, held_app, Ho, Ho1. lia.
  - destruct ok; [|by rewrite reads_armed_app, Ha1, Hr].
    destruct Hr as (Hr & Hm & p & r & Hx & Hp & Ha). split_and!; [by apply silent_ready|done|].
    exists p, r. rewrite reads_armed_app, Ha1, Z.add_0_r. split_and!; [by apply infix_app_l|done..].
Qed.

(** Once [handleStart] has run, the rest of the start only asks for descriptions. *)
Lemma run_start_tail fuel provider script : handles_once false script → ∀ w iv,
  w_st w = Some iv →
  wp (run_start fuel provider script)
     (λ _ w', ∃ e, w' = extend e w ∧ hands_over e) w.
Proof.
  induction script as [ret|k IH|k IH|k IH]; intros Honce w iv Hst; cbn [run_start].
  - wp_step. exists []. rewrite extend_nil. split; [done|apply hands_over_nil].
  - by destruct Honce.
  - wp_step. eapply wp_mono; [by eapply newDeviceDescription_hands|].
    intros r w1 (e & -> & Hh). eapply wp_mono; [by eapply (IH r (Honce r))|].
    intros _ w' (e' & -> & Hh'). rewrite extend_extend. eauto using hands_over_app.
  - wp_step. eapply wp_mono; [by eapply newReportDescriptor_hands|].
    intros r w1 (e & -> & Hh). eapply wp_mono; [by eapply (IH r (Honce r))|].
    intros _ w' (e' & -> & Hh'). rewrite extend_extend. eauto using hands_over_app.
Qed.

Lemma run_start_spec fuel provider script i : finite_endpoints fuel → handles_once true script →
  ∀ w iv, w_st w = Some iv → iv_interface iv = Some i → unopened iv →
  wp (run_start fuel provider script) (λ _ w', ∃ ok, start_post w iv i ok w') w.
Proof.
  intros Heps. induction script as [ret|k IH|k IH|k IH]; intros Honce w iv Hst Hi Hun; cbn [run_start].
  - wp_step. exists false, iv, [], []. rewrite !app_nil_r. split_and!; try done. intros o. simpl. lia.
  - destruct Honce as [_ Honce]. wp_step. eapply wp_mono; [by eapply handleStart_spec|].
    intros ok w1 Hpost. pose proof Hpost as (iv1 & _ & _ & Hst1 & _).
    eapply wp_mono; [by eapply (run_start_tail _ _ (k ok))|].
    intros _ w' (e & -> & Hh). exists ok. by apply start_post_later.
  - wp_step. eapply wp_mono; [by eapply newDeviceDescription_hands|].
    intros r w1 (e & -> & Hh). eapply wp_mono; [by eapply (IH r (Honce r))|].
    intros _ w' (ok & Hpost). eauto using start_post_before.
  - wp_step. eapply wp_mono; [by eapply newReportDescriptor_hands|].
    intros r w1 (e & -> & Hh). eapply wp_mono; [by eapply (IH r (Honce r))|].
    intros _ w' (ok & Hpost). eauto using start_post_before.
Qed.

Lemma start_post_world w1 w2 iv i ok w' :
  w_trace w1 = w_trace w2 → start_post w1 iv i ok w' → start_post w2 iv i ok w'.
Proof. unfold start_post, start_from. by intros ->. Qed.

Lemma unopened_set_interface p iv : unopened iv → unopened (set_interface p iv).
Proof. intros (? & ? & Hs). split_and!; [done..|]. intros s. specialize (Hs s). by destruct s. Qed.

(** What [Start_Impl] leaves behind. *)
Definition Start_post w iv (provider : ptr) (ret : kern_return_t) (w' : input_world) : Prop :=
  match OSDynamicCast Class_IOUSBHostInterface provider with
  | None => ret = kIOReturnSuccess ∧ w' = set_st (Some (set_interface nullptr iv)) w
  | Some i => ∃ ok, start_post w (set_interface (Some i) iv) i ok w'
  end.

Lemma Start_Impl_spec fuel provider w iv :
  finite_endpoints fuel → w_st w = Some iv → unopened iv →
  wp (Start_Impl fuel provider) (Start_post w iv provider) w.
Proof.
  intros Heps Hst Hun. unfold Start_Impl, Start_post. do 4 wp_step. simpl.
  destruct (OSDynamicCast _ provider) as [i|]; [|by wp_step].
  do 2 wp_step. set (iv1 := set_interface (Some i) iv).
  set (w1 := log _ _).
  assert (hands_over [Ev (IOUSBHostInterface_Open i) r]) as Hopen
    by (split; [eauto with silent|done]).
  wp_step.
  2: { wp_step. exists false, iv1, [Ev (IOUSBHostInterface_Open i) r], [].
       split_and!; try done. intros o. subst iv1. simpl. lia. }
  wp_step. apply wp_call_eq. intros script ->. set (w2 := log _ w1).
  eapply wp_mono; [eapply (run_start_spec _ _ _ i Heps); [apply ok_handles_once|done|done|]|].
  { by apply unopened_set_interface. }
  intros ret w' (ok & Hpost). exists ok.
  apply (start_post_world (set_st (Some iv1) w)); [done|].
  eapply start_post_before; [exact Hopen|].
  eapply (start_post_before _ _ _ _ [Ev (Super_Start_HID provider) _]);
    [split; [eauto with silent|done]|exact Hpost].
Qed.

(** ** free *)

Definition free_events iv : dk_trace :=
  ((λ d, Ev (IOUSBHostFreeDescriptor d) tt) <$> option_list (iv_configurationDescriptor iv)) ++
  ((λ o, Ev (OSObject_release o) tt) <$>
     option_list (pd_pipe (iv_inPipe iv)) ++ option_list (bm_buffer (pd_memory (iv_inPipe iv))) ++
     option_list (pd_pipe (iv_outPipe iv)) ++ option_list (bm_buffer (pd_memory (iv_outPipe iv))) ++
     option_list (iv_gotDataAction iv) ++ option_list (iv_interface iv)) ++
  [Ev IODelete tt].

Lemma refs_releases o l : refs o ((λ x, Ev (OSObject_release x) tt) <$> l) = - held o l.
Proof.
  unfold held. induction l as [|x l IH]; [done|]. rewrite fmap_cons.
  cbn [refs ref_delta foldr]. rewrite IH. lia.
Qed.

Lemma refs_free_events o iv :
  refs o (free_events iv) = - owned o iv - gained_ptr o (iv_interface iv).
Proof.
  unfold free_events. rewrite !refs_app, refs_releases, !held_app, !held_option.
  unfold owned, pipe_owned. destruct (iv_configurationDescriptor iv); simpl;
    rewrite ?gained_ptr_null; lia.
Qed.

Lemma handed_free_events iv : handed_over (free_events iv) = [].
Proof.
  unfold free_events. rewrite !handed_over_app.
  generalize (option_list (pd_pipe (iv_inPipe iv)) ++
    option_list (bm_buffer (pd_memory (iv_inPipe iv))) ++ option_list (pd_pipe (iv_outPipe iv)) ++
    option_list (bm_buffer (pd_memory (iv_outPipe iv))) ++ option_list (iv_gotDataAction iv) ++
    option_list (iv_interface iv)). intros l.
  destruct (iv_configurationDescriptor iv); by induction l.
Qed.

Lemma free_events_silent iv : silent (free_events iv).
Proof.
  unfold free_events. apply silent_app; [|apply silent_app; [|eauto with silent]].
  - by destruct (iv_configurationDescriptor iv); simpl; eauto with silent.
  - apply Forall_fmap, Forall_true. done.
Qed.

Lemma wp_release p (Φ : unit → input_world → Prop) w :
  Φ tt (extend ((λ o, Ev (OSObject_release o) tt) <$> option_list p) w) → wp (OSSafeReleaseNULL p) Φ w.
Proof.
  destruct p; simpl; intros HΦ; wp_step; [by destruct r|]. by rewrite extend_nil in HΦ.
Qed.

Lemma wp_free_descriptor p (Φ : unit → input_world → Prop) w :
  Φ tt (extend ((λ d, Ev (IOUSBHostFreeDescriptor d) tt) <$> option_list p) w) →
  wp (free_descriptor p) Φ w.
Proof.
  destruct p; simpl; intros HΦ; wp_step; [by destruct r|]. by rewrite extend_nil in HΦ.
Qed.

Lemma free_spec w :
  wp free (λ _ w', w' = set_st None
    (extend (match w_st w with Some iv => free_events iv | None => [] end ++ [Ev Super_free tt]) w)) w.
Proof.
  unfold free. do 3 wp_step. destruct (w_st w) as [iv|] eqn:Hst.
  2: { wp_steps. destruct r, w; simpl in *. by subst. }
  wp_step. apply wp_free_descriptor. do 6 (wp_step; apply wp_release).
  wp_steps. destruct r, r0. unfold free_events. rewrite !fmap_app, <- !app_assoc.
  rewrite !log_extend, !extend_extend. unfold extend, set_st. simpl. by rewrite <- !app_assoc.
Qed.

(** ** init and Stop *)

Lemma init_spec w :
  wp init (λ b w', ∃ e, silent e ∧ neutral e ∧ w_mem w' = w_mem w ∧ w_trace w' = w_trace w ++ e ∧
    (b = true → w_st w' = Some (set_enabled true zero_ivars)) ∧
    (b = false → w_st w = None → w_st w' = None)) w.
Proof.
  unfold init. wp_steps; eexists;
    (split; [|split; [|split_and!; [done|simpl; rewrite <- ?app_assoc; reflexivity|done..]]]);
    [eauto with silent|done|eauto with silent|done|eauto with silent|done].
Qed.

Lemma unopened_zero : unopened (set_enabled true zero_ivars).
Proof. split_and!; [done..|]. by intros []. Qed.

Lemma owned_unopened o iv : unopened iv → owned o iv = 0.
Proof.
  intros (Hc & Ha & Hs). destruct (Hs InPipe) as [Hp1 Hb1], (Hs OutPipe) as [Hp2 Hb2]. simpl in *.
  unfold owned, pipe_owned. by rewrite Hc, Ha, Hp1, Hb1, Hp2, Hb2, !gained_ptr_null.
Qed.

Lemma pipes_unopened iv : unopened iv → pipes iv = [].
Proof.
  intros (_ & _ & Hs). destruct (Hs InPipe) as [Hp1 _], (Hs OutPipe) as [Hp2 _]. simpl in *.
  unfold pipes. by rewrite Hp1, Hp2.
Qed.

(** [Stop_Impl] stops at once, or takes the references its completion block returns. *)
Definition Stop_post (this : obj) (provider : ptr) w iv (ret : kern_return_t) (w' : input_world) : Prop :=
  match iv_gotDataAction iv with
  | None => w' = extend [Ev (Super_Stop provider) ret] w
  | Some action =>
      ∃ p, provider = Some p ∧ ret = kIOReturnSuccess ∧
        w' = extend [Ev (OSObject_retain this) tt; Ev (OSObject_retain p) tt;
                     Ev (OSAction_Cancel action p) tt] w
  end.

Lemma Stop_Impl_spec this provider w iv :
  w_st w = Some iv → (is_Some (iv_gotDataAction iv) → is_Some provider) →
  wp (Stop_Impl this provider) (Stop_post this provider w iv) w.
Proof.
  intros Hst Hp. unfold Stop_Impl, Stop_post. do 2 wp_step.
  destruct (iv_gotDataAction iv) as [action|]; [|by wp_step].
  destruct Hp as [p ->]; [by eexists|]. wp_steps. destruct r, r0, r1. exists p.
  by rewrite !log_extend, !extend_extend.
Qed.

Lemma Stop_finalize_spec this p w :
  wp (Stop_finalize this p) (λ _ w', ∃ ret,
    w' = extend [Ev (Super_Stop (Some p)) ret; Ev (OSObject_release this) tt;
                 Ev (OSObject_release p) tt] w) w.
Proof.
  unfold Stop_finalize. wp_steps. destruct r0, r1. exists r.
  by rewrite !log_extend, !extend_extend.
Qed.
End specifications.

(** ** Theorems *)

(** C9: [handleStart] runs without a fault on every framework whose interfaces have
    finitely many endpoints and which behaves as documented.  When it returns true both
    pipes are usable, the two wake-up packets were handed to the [OUT] pipe in order with
    consecutive counters (unless the [OUT] buffer is too small for them), one read was
    requested on the [IN] pipe and is queued if the framework accepted it, and every
    reference taken is held by the instance variables, the interface's included, except
    for the pipes of surplus endpoints, which are lost.  When it returns false nothing was
    sent or queued, and the interface was not retained. *)
Theorem handleStart_correct {DK : DriverKit} (Hok : DriverKitOk DK) fuel provider
    (w : input_world) iv i :
  finite_endpoints fuel → w_st w = Some iv → iv_interface iv = Some i → unopened iv →
  wp (handleStart fuel provider) (λ b w', start_post w iv i b w') w.
Proof. apply handleStart_spec. Qed.

(** The state [init] and the cast in [Start_Impl] leave. *)
Definition sample_iv_cast : XboxOneInputInterface_IVars :=
  set_interface (Some sample_provider) (set_enabled true zero_ivars).

Lemma sample_both_directions : @both_directions sample 5.
Proof.
  intros c d. exists [sample_ep_audio; sample_ep_in; sample_ep_out].
  split; [repeat econstructor|]. split; [simpl; lia|]. split; [left|right; left].
Qed.

Lemma sample_finite_endpoints : @finite_endpoints sample 5.
Proof. apply both_directions_finite, sample_both_directions. Qed.

Lemma sample_unopened : unopened sample_iv_cast.
Proof. split_and!; [reflexivity..|]. intros []; split; reflexivity. Qed.

Lemma handleStart_correct_witness :
  wp (@handleStart sample 5 (Some sample_provider))
     (λ b w', start_post (sample_world sample_iv_cast) sample_iv_cast sample_provider b w')
     (sample_world sample_iv_cast).
Proof.
  apply (@handleStart_correct sample sample_ok 5 (Some sample_provider)
    (sample_world sample_iv_cast) sample_iv_cast sample_provider);
    [apply sample_finite_endpoints|reflexivity|reflexivity|apply sample_unopened].
Defined.

(** C21: [handleStart] succeeds whenever it can.  If the interface has an interrupt endpoint
    of each direction and no call of the set-up fails, it returns true, whatever becomes of
    the wake-up packets and of the read request. *)
Theorem handleStart_succeeds {DK : DriverKit} (Hok : DriverKitOk DK) (Hco : Cooperative) fuel
    provider (w : input_world) iv i :
  both_directions fuel → w_st w = Some iv → iv_interface iv = Some i → unopened iv →
  wp (handleStart fuel provider) (λ b w', b = true ∧ start_post w iv i true w') w.
Proof.
  intros Hboth Hst Hi Hun. eapply wp_mono.
  - apply wp_and; [by eapply handleStart_complete|].
    eapply handleStart_spec; eauto using both_directions_finite.
  - intros b w' [-> Hpost]. done.
Qed.

Lemma sample_cooperative : @Cooperative sample.
Proof. split; intros; try (eexists; reflexivity); try reflexivity; discriminate. Qed.

Lemma handleStart_succeeds_witness :
  wp (@handleStart sample 5 (Some sample_provider))
     (λ b w', b = true ∧
        start_post (sample_world sample_iv_cast) sample_iv_cast sample_provider true w')
     (sample_world sample_iv_cast).
Proof.
  apply (@handleStart_succeeds sample sample_ok sample_cooperative 5 (Some sample_provider)
    (sample_world sample_iv_cast) sample_iv_cast sample_provider);
    [apply sample_both_directions|reflexivity|reflexivity|apply sample_unopened].
Defined.

(** C18: from [Start_Impl] to [free] the books balance but for two cases.  Whatever the
    framework does in [super::Start], [free] gives back every reference that was taken,
    except the descriptions the framework itself was handed and the pipes [lost], which
    were opened for surplus endpoints and are not in the instance variables any more.  And
    after a start in which [handleStart] did not succeed, [free] releases the interface
    although it was never retained. *)
Theorem Start_free_ledger {DK : DriverKit} (Hok : DriverKitOk DK) fuel provider
    (w : input_world) iv i :
  finite_endpoints fuel → w_st w = Some iv → unopened iv →
  OSDynamicCast Class_IOUSBHostInterface provider = Some i →
  wp (Start_Impl fuel provider) (λ _ w1, ∃ ok iv1 lost,
    start_post w (set_interface (Some i) iv) i ok w1 ∧ w_st w1 = Some iv1 ∧
    wp free (λ _ w', w_st w' = None ∧ ∃ evs, w_trace w' = w_trace w ++ evs ∧
      opened_pipes evs ≡ₚ pipes iv1 ++ lost ∧
      ∀ o, refs o evs = held o (handed_over evs) + held o lost -
                        (if ok then 0 else gained_ptr o (Some i))) w1) w.
Proof.
  intros Heps Hst Hun Hcast. eapply wp_mono; [by apply Start_Impl_spec|].
  intros ret w1. unfold Start_post. rewrite Hcast. intros (ok & Hpost).
  pose proof Hpost as (iv1 & evs & lost & Hst1 & Htr & Hi & _ & _ & Hp & Ho & _).
  exists ok, iv1, lost. split_and!; [done..|].
  eapply wp_mono; [apply free_spec|]. intros _ w' ->. rewrite Hst1. split; [done|].
  cbn [w_trace set_st extend]. rewrite Htr, <- app_assoc. eexists. split; [done|]. split.
  - pose proof (silent_projections _ (free_events_silent iv1)) as (_ & _ & _ & _ & Hfree & _).
    rewrite !opened_pipes_app, Hfree, !app_nil_r, <- Hp.
    by rewrite (pipes_unopened _ (unopened_set_interface (Some i) _ Hun)).
  - intros o.
    rewrite !refs_app, !handed_over_app, handed_free_events, !held_app, refs_free_events, Hi, Ho.
    rewrite (owned_unopened o (set_interface (Some i) iv)) by (by apply unopened_set_interface).
    simpl. destruct ok; lia.
Qed.

Lemma Start_free_ledger_witness :
  let w := sample_world (set_enabled true zero_ivars) in
  wp (@Start_Impl sample 5 (Some sample_provider)) (λ _ w1, ∃ ok iv1 lost,
    start_post w sample_iv_cast sample_provider ok w1 ∧ w_st w1 = Some iv1 ∧
    wp (@free sample) (λ _ w', w_st w' = None ∧ ∃ evs, w_trace w' = w_trace w ++ evs ∧
      opened_pipes evs ≡ₚ pipes iv1 ++ lost ∧
      ∀ o, refs o evs = held o (handed_over evs) + held o lost -
                        (if ok then 0 else gained_ptr o (Some sample_provider))) w1) w.
Proof.
  intros w. apply (@Start_free_ledger sample sample_ok 5 (Some sample_provider) w
    (set_enabled true zero_ivars) sample_provider);
    [apply sample_finite_endpoints|reflexivity| |reflexivity].
  split_and!; [reflexivity..|]. intros []; split; reflexivity.
Defined.

(** C39: when the provider is not a USB interface, [Start_Impl] reports success although
    it did nothing: the framework was not called and no [super::Start] took place. *)
Theorem Start_cast_failure_succeeds {DK : DriverKit} fuel provider (w : input_world) iv :
  w_st w = Some iv → OSDynamicCast Class_IOUSBHostInterface provider = nullptr →
  wp (Start_Impl fuel provider) (λ ret w', ret = kIOReturnSuccess ∧ w_trace w' = w_trace w) w.
Proof.
  intros Hst Hcast. unfold Start_Impl. do 4 wp_step. rewrite Hcast. by wp_step.
Qed.

Lemma Start_cast_failure_succeeds_witness :
  wp (@Start_Impl sample 5 (Some sample_device)) (λ ret w', ret = kIOReturnSuccess ∧ w_trace w' = [])
     (sample_world zero_ivars).
Proof.
  apply (@Start_cast_failure_succeeds sample 5 (Some sample_device) (sample_world zero_ivars) zero_ivars);
    reflexivity.
Defined.

(** C27: stopping is passed on exactly once and is balanced.  Without a callback object
    [Stop_Impl] passes the stop on at once, does nothing else and returns the answer.  With
    one, it does not pass it on; it retains the driver and the provider, asks for
    cancellation and returns success; the completion block, run from any later state of
    the driver, passes the stop on and then gives both references back. *)
Theorem Stop_balanced {DK : DriverKit} this p (w w1 : input_world) iv :
  w_st w = Some iv →
  wp (Stop_Impl this (Some p)) (λ ret w', ∃ evs, w' = extend evs w ∧
    match iv_gotDataAction iv with
    | None => evs = [Ev (Super_Stop (Some p)) ret]
    | Some action =>
        ret = kIOReturnSuccess ∧
        evs = [Ev (OSObject_retain this) tt; Ev (OSObject_retain p) tt;
               Ev (OSAction_Cancel action p) tt] ∧
        wp (Stop_finalize this p) (λ _ w2, ∃ ret2 evs2, w2 = extend evs2 w1 ∧
          evs2 = [Ev (Super_Stop (Some p)) ret2; Ev (OSObject_release this) tt;
                  Ev (OSObject_release p) tt] ∧
          ∀ o, refs o evs + refs o evs2 = 0) w1
    end) w.
Proof.
  intros Hst. eapply wp_mono; [eapply Stop_Impl_spec; [done|by eexists]|].
  intros ret w'. unfold Stop_post. destruct (iv_gotDataAction iv) as [action|]; [|by eauto].
  intros (p' & [= <-] & -> & ->). eexists. split_and!; [done..|].
  eapply wp_mono; [apply Stop_finalize_spec|]. intros _ w2 (ret & ->). do 2 eexists.
  split_and!; [done..|]. intros o. simpl. lia.
Qed.

Lemma Stop_balanced_witness :
  let iv := set_gotDataAction (Some sample_action) zero_ivars in
  wp (@Stop_Impl sample sample_this (Some sample_provider)) (λ ret w', ∃ evs,
    w' = extend evs (sample_world iv) ∧ ret = kIOReturnSuccess ∧
    evs = [Ev (OSObject_retain sample_this) tt; Ev (OSObject_retain sample_provider) tt;
           Ev (OSAction_Cancel sample_action sample_provider) tt] ∧
    wp (@Stop_finalize sample sample_this sample_provider) (λ _ w2, ∃ ret2 evs2,
      w2 = extend evs2 (sample_world iv) ∧
      evs2 = [Ev (Super_Stop (Some sample_provider)) ret2; Ev (OSObject_release sample_this) tt;
              Ev (OSObject_release sample_provider) tt] ∧
      ∀ o, refs o evs + refs o evs2 = 0) (sample_world iv)) (sample_world iv).
Proof.
  intros iv. apply (@Stop_balanced sample sample_this sample_provider (sample_world iv)
    (sample_world iv) iv); reflexivity.
Defined.
