(* ===== verification/UserClient.v ===== *)
(** * UserClient: src/XboxControllerDriver/XboxOne/XboxOneUserClient.cpp

    The object through which an application switches the driver on and off, and
    [NewUserClient_Impl] of XboxOneInputInterface.cpp, which creates it.  A user
    client holds a pointer to the input interface, so its methods run on a heap
    with the instance variables of all objects of the two classes. *)

From S2P Require Import Prelude Effects DriverKit Sample InputState InputPipes InputComm.

(** ** ExternalMethodType and externalMethodChecks *)

Definition ExternalMethodType_Unknown : Z := 0.
Definition ExternalMethodType_Licensing : Z := 1.
Definition kNumberOfExternalMethods : Z := 2.

(** A function a dispatch entry can name: the one of this file, or another. *)
Inductive IOUserClientMethodFunction : Set :=
| Fn_StaticHandleLicensing
| Fn_other (id : Z).

Record IOUserClientMethodDispatch : Set := {
  function : option IOUserClientMethodFunction;
  checks : method_checks;
}.

Definition externalMethodChecks : list IOUserClientMethodDispatch :=
  [{| function := None;
      checks := {| checkCompletionExists := false; checkScalarInputCount := 0;
                   checkStructureInputSize := 0; checkScalarOutputCount := 0;
                   checkStructureOutputSize := 0 |} |};
   {| function := Some Fn_StaticHandleLicensing;
      checks := {| checkCompletionExists := false; checkScalarInputCount := 1;
                   checkStructureInputSize := 0; checkScalarOutputCount := 1;
                   checkStructureOutputSize := 0 |} |}].

(** The arrays of [IOUserClientMethodArguments] the driver uses. *)
Record IOUserClientMethodArguments : Set := {
  scalarInput : list Z;
  scalarOutput : list Z;
}.

(** ** The heap *)

Record XboxOneUserClient_IVars : Set := {
  uc_inputInterface : ptr;
}.

(** For each object the [ivars] pointer it holds. *)
Record heap := Heap {
  h_clients : gmap obj (option XboxOneUserClient_IVars);
  h_inputs : gmap obj (option XboxOneInputInterface_IVars);
}.

Abbreviation HeapM := (M driverkitE heap).
Abbreviation heap_world := (world driverkitE heap).

Definition put_client (o : obj) (p : option XboxOneUserClient_IVars) (h : heap) : heap :=
  Heap (<[o := p]> (h_clients h)) (h_inputs h).
Definition put_input (o : obj) (p : option XboxOneInputInterface_IVars) (h : heap) : heap :=
  Heap (h_clients h) (<[o := p]> (h_inputs h)).

Abbreviation ClientM := (M driverkitE (option XboxOneUserClient_IVars)).

(** Calls a method of a user client, or of an input interface. *)
Definition on_client {A} (o : obj) (m : ClientM A) : HeapM A :=
  zoom (λ h, h_clients h !! o) (put_client o) m.
Definition on_input {A} (o : obj) (m : InputM A) : HeapM A :=
  zoom (λ h, h_inputs h !! o) (put_input o) m.

Section definitions.
Context {DK : DriverKit}.

(** ** Lifecycle *)

Definition client_init : ClientM bool :=
  result ← call Super_init;
  if negb result then mret false else
  allocated ← call IONewZero;
  if negb allocated then put_st None;; mret false else
  put_st (Some {| uc_inputInterface := nullptr |});;
  mret true.

Definition client_Start_Impl (provider : ptr) : ClientM kern_return_t :=
  ret ← call (Super_Start provider);
  if negb (succeeded ret) then mret ret else
  ret ← call RegisterService;
  if negb (succeeded ret) then mret ret else
  mret kIOReturnSuccess.

Definition SetInputInterface (interface : ptr) : ClientM unit :=
  modify (λ _, {| uc_inputInterface := OSDynamicCast Class_XboxOneInputInterface interface |}).

Definition client_Stop_Impl (provider : ptr) : ClientM kern_return_t :=
  call (Super_Stop provider).

Definition client_free : ClientM unit :=
  p ← get_st;
  match p with
  | Some _ => call IODelete;; put_st None
  | None => mret tt
  end;;
  call Super_free.

(** ** External communication *)

Definition HandleLicensing (this : obj) (arguments : IOUserClientMethodArguments)
    : HeapM (kern_return_t * IOUserClientMethodArguments) :=
  match scalarInput arguments !! 0%nat with
  | None => raise OutOfBounds
  | Some v =>
      let enable := bool_decide (v ≠ 0) in
      iv ← on_client this ivars;
      result ← match uc_inputInterface iv with
               | Some o => on_input o (SetEnable enable);; mret (Z.b2z enable)
               | None => mret 0
               end;
      match scalarOutput arguments !! 0%nat with
      | None => raise OutOfBounds
      | Some _ =>
          mret (kIOReturnSuccess,
                {| scalarInput := scalarInput arguments;
                   scalarOutput := <[0%nat := result]> (scalarOutput arguments) |})
      end
  end.

Definition StaticHandleLicensing (target : ptr) (arguments : IOUserClientMethodArguments)
    : HeapM (kern_return_t * IOUserClientMethodArguments) :=
  match target with
  | None => mret (kIOReturnError, arguments)
  | Some o => HandleLicensing o arguments
  end.

(** [super::ExternalMethod]: the framework checks the arguments against the dispatch
    entry and either refuses or invokes the function of the entry. *)
Definition super_ExternalMethod (selector : Z) (arguments : IOUserClientMethodArguments)
    (dispatch : option IOUserClientMethodDispatch) (target : ptr)
    : HeapM (kern_return_t * IOUserClientMethodArguments) :=
  refusal ← call (Super_ExternalMethod selector (checks <$> dispatch)
                    (Z.of_nat (length (scalarInput arguments)))
                    (Z.of_nat (length (scalarOutput arguments))));
  match refusal with
  | Some ret => mret (ret, arguments)
  | None =>
      match d ← dispatch; function d with
      | Some Fn_StaticHandleLicensing => StaticHandleLicensing target arguments
      | Some (Fn_other id) => ret ← call (ExternalFunction id); mret (ret, arguments)
      | None => raise BadCall
      end
  end.

Definition ExternalMethod (this : obj) (selector : Z) (arguments : IOUserClientMethodArguments)
    (dispatch : option IOUserClientMethodDispatch) (target : ptr)
    : HeapM (kern_return_t * IOUserClientMethodArguments) :=
  if decide (ExternalMethodType_Unknown < selector) then
    if decide (selector < kNumberOfExternalMethods) then
      match externalMethodChecks !! Z.to_nat selector with
      | None => raise OutOfBounds
      | Some d =>
          super_ExternalMethod selector arguments (Some d)
            (match target with Some o => Some o | None => Some this end)
      end
    else super_ExternalMethod selector arguments dispatch target
  else mret (kIOReturnNotFound, arguments).

(** ** XboxOneInputInterface::NewUserClient_Impl *)

(** What [IOService::Create] does for the class named in the property list. *)
Fixpoint run_create (this : obj) (script : create_script) : HeapM (kern_return_t * ptr) :=
  match script with
  | CreateReturn ret client => mret (ret, client)
  | CreateInit client k =>
      h ← get_st; put_st (put_client client None h);;
      r ← on_client client client_init;
      run_create this (k r)
  | CreateStart client k =>
      r ← on_client client (client_Start_Impl (Some this));
      run_create this (k r)
  end.

Definition NewUserClient_Impl (this : obj) : HeapM (kern_return_t * ptr) :=
  script ← call (IOService_Create "UserClientProperties");
  '(ret, client) ← run_create this script;
  if negb (succeeded ret) then mret (ret, nullptr) else
  match OSDynamicCast Class_XboxOneUserClient client with
  | None =>
      c ← nonnull client;
      call (OSObject_release c);;
      mret (kIOReturnError, nullptr)
  | Some userClient =>
      on_client userClient (SetInputInterface (Some this));;
      mret (kIOReturnSuccess, Some userClient)
  end.
End definitions.

(** ** The interface between the two classes

    What the input interface promises the user client: switching never faults, calls
    nothing, and changes the one flag, if the object has instance variables. *)
Class EnableSwitch (switch : bool → InputM unit) : Prop :=
  switch_spec b w : wp (switch b) (λ _ w', w' = set_st (set_enabled b <$> w_st w) w) w.

#[global] Instance SetEnable_switch : EnableSwitch SetEnable.
Proof.
  intros b [[iv|] m tr]; unfold SetEnable; by wp_steps.
Qed.

(** ** Specifications *)

(** What a licensing request with input [v] does to the heap, and what it answers. *)
Definition licensed (iv : XboxOneUserClient_IVars) (v : Z) (h : heap) : heap :=
  match uc_inputInterface iv with
  | Some o =>
      match h_inputs h !! o with
      | Some p => put_input o (set_enabled (bool_decide (v ≠ 0)) <$> p) h
      | None => h
      end
  | None => h
  end.
Definition licensing_output (iv : XboxOneUserClient_IVars) (v : Z) : Z :=
  match uc_inputInterface iv with
  | Some _ => Z.b2z (bool_decide (v ≠ 0))
  | None => 0
  end.

(** The client points to an interface that is there, if to any. *)
Definition client_linked (this : obj) (iv : XboxOneUserClient_IVars) (h : heap) : Prop :=
  h_clients h !! this = Some (Some iv) ∧
  ∀ o, uc_inputInterface iv = Some o → is_Some (h_inputs h !! o).

Section specifications.
Context {DK : DriverKit}.
Implicit Types (w : heap_world) (args : IOUserClientMethodArguments).

Lemma put_client_id o p h : h_clients h !! o = Some p → put_client o p h = h.
Proof. intros Hp. destruct h. unfold put_client. simpl in *. by rewrite insert_id. Qed.

Lemma set_st_id {S} (w : world driverkitE S) : set_st (w_st w) w = w.
Proof. by destruct w. Qed.

Lemma wp_client_ivars this iv (Φ : _ → heap_world → Prop) w :
  h_clients (w_st w) !! this = Some (Some iv) → Φ iv w → wp (on_client this ivars) Φ w.
Proof.
  intros Hc HΦ. eapply wp_zoom; [exact Hc|]. wp_step. simpl. rewrite put_client_id by done.
  by destruct w.
Qed.

Lemma wp_SetEnable o b p (Φ : unit → heap_world → Prop) w :
  h_inputs (w_st w) !! o = Some p →
  Φ tt (set_st (put_input o (set_enabled b <$> p) (w_st w)) w) →
  wp (on_input o (SetEnable b)) Φ w.
Proof.
  intros Hp HΦ. eapply wp_zoom; [exact Hp|]. eapply wp_mono; [apply switch_spec|].
  by intros [] w' ->.
Qed.

Lemma HandleLicensing_spec this iv v x args (Φ : _ → heap_world → Prop) w :
  client_linked this iv (w_st w) → scalarInput args = [v] → scalarOutput args = [x] →
  Φ (kIOReturnSuccess, {| scalarInput := [v]; scalarOutput := [licensing_output iv v] |})
    (set_st (licensed iv v (w_st w)) w) →
  wp (HandleLicensing this args) Φ w.
Proof.
  intros [Hc Hl] Hin Hout HΦ. unfold HandleLicensing. rewrite Hin. simpl.
  wp_step. eapply wp_client_ivars; [done|]. unfold licensed, licensing_output in HΦ.
  destruct (uc_inputInterface iv) as [o|].
  - destruct (Hl o eq_refl) as [p Hp]. rewrite Hp in HΦ. do 2 wp_step.
    eapply wp_SetEnable; [done|]. wp_step. rewrite Hout. by wp_step.
  - do 2 wp_step. rewrite Hout. simpl. wp_step. by rewrite set_st_id in HΦ.
Qed.

(** The question the framework is asked about a call. *)
Definition dispatch_call (selector : Z) args (dispatch : option IOUserClientMethodDispatch)
    : driverkitE (option kern_return_t) :=
  Super_ExternalMethod selector (checks <$> dispatch)
    (Z.of_nat (length (scalarInput args))) (Z.of_nat (length (scalarOutput args))).

(** A call on selector 1: refused by the framework, or carried out. *)
Definition licensing_post iv args w (r : kern_return_t * IOUserClientMethodArguments)
    (w' : heap_world) : Prop :=
  ∃ refusal, w_mem w' = w_mem w ∧
    w_trace w' = w_trace w ++ [Ev (dispatch_call 1 args (externalMethodChecks !! 1%nat)) refusal] ∧
    match refusal with
    | Some ret => ret ≠ kIOReturnSuccess ∧ r = (ret, args) ∧ w_st w' = w_st w
    | None =>
        ∃ v x, scalarInput args = [v] ∧ scalarOutput args = [x] ∧
          r = (kIOReturnSuccess, {| scalarInput := [v]; scalarOutput := [licensing_output iv v] |}) ∧
          w_st w' = licensed iv v (w_st w)
    end.

Lemma length_one {A} (l : list A) : count_checked 1 (Z.of_nat (length l)) → ∃ x, l = [x].
Proof.
  unfold count_checked, kIOUserClientVariableStructureSize.
  destruct l as [|x [|y l]]; simpl; intros [|]; try lia; by exists x.
Qed.

Lemma ExternalMethod_licensing_spec `{!DriverKitOk DK} this iv args dispatch target w :
  client_linked this iv (w_st w) → target = nullptr ∨ target = Some this →
  wp (ExternalMethod this 1 args dispatch target) (licensing_post iv args w) w.
Proof.
  intros Hlink Htarget. unfold ExternalMethod, super_ExternalMethod. simpl.
  replace (match target with Some o => Some o | None => Some this end) with (Some this)
    by (by destruct Htarget as [->| ->]).
  wp_step. apply wp_call_eq. intros refusal Hans. destruct refusal as [ret|].
  - apply eq_sym, ok_external_refusal in Hans. wp_step. exists (Some ret). by split_and!.
  - apply eq_sym, ok_external_checks in Hans as (c & [= <-] & Hin & Hout).
    simpl in Hin, Hout. apply length_one in Hin as [v Hin]. apply length_one in Hout as [x Hout].
    simpl. eapply HandleLicensing_spec; [done..|]. exists None. split_and!; [done..|].
    by exists v, x.
Qed.

Lemma ExternalMethod_unknown_spec `{!DriverKitOk DK} this selector args target w :
  2 ≤ selector →
  wp (ExternalMethod this selector args None target)
     (λ r w', ∃ ret, r = (ret, args) ∧
        w' = log (Ev (dispatch_call selector args None) (Some ret)) w) w.
Proof.
  intros Hs. unfold ExternalMethod, super_ExternalMethod.
  change ExternalMethodType_Unknown with 0. change kNumberOfExternalMethods with 2.
  rewrite decide_True, decide_False by lia.
  wp_step. apply wp_call_eq. intros refusal Hans. destruct refusal as [ret|].
  - wp_step. by exists ret.
  - by apply eq_sym, ok_external_checks in Hans as (c & ? & _).
Qed.

(** ** Creating a user client *)

(** The client the framework created is the one that is connected. *)
Definition connected (this : obj) w (r : kern_return_t * ptr) (w' : heap_world) : Prop :=
  h_inputs (w_st w') = h_inputs (w_st w) ∧ w_mem w' = w_mem w ∧
  (fst r = kIOReturnSuccess → ∃ c, snd r = Some c ∧ dk_instanceof Class_XboxOneUserClient c ∧
     h_clients (w_st w') !! c =
       Some (Some {| uc_inputInterface := OSDynamicCast Class_XboxOneInputInterface (Some this) |})) ∧
  (fst r ≠ kIOReturnSuccess → snd r = nullptr).

Lemma client_init_spec (v : world driverkitE (option XboxOneUserClient_IVars)) :
  wp client_init (λ b v', w_mem v' = w_mem v ∧
    (b = true → w_st v' = Some {| uc_inputInterface := nullptr |})) v.
Proof. unfold client_init. wp_steps; done. Qed.

Lemma client_Start_spec provider (v : world driverkitE (option XboxOneUserClient_IVars)) :
  wp (client_Start_Impl provider) (λ _ v', w_mem v' = w_mem v ∧ w_st v' = w_st v) v.
Proof. unfold client_Start_Impl. wp_steps; done. Qed.

Lemma wp_on_client {A} c p (m : ClientM A) (Φ : A → heap_world → Prop) w :
  h_clients (w_st w) !! c = Some p →
  wp m (λ a v', Φ a (set_st (put_client c (w_st v') (w_st w)) v')) (set_st p w) →
  wp (on_client c m) Φ w.
Proof. intros Hc HΦ. by eapply wp_zoom. Qed.

(** The object a documented creation returns, initialised. *)
Lemma run_create_spec this script w :
  creates script →
  wp (run_create this script) (λ r w', h_inputs (w_st w') = h_inputs (w_st w) ∧ w_mem w' = w_mem w ∧
    (fst r = kIOReturnSuccess → ∃ c, snd r = Some c ∧ ∃ iv, h_clients (w_st w') !! c = Some (Some iv))) w.
Proof.
  destruct script as [ret p|c k|c k]; cbn [creates run_create]; [|intros Hcr|done].
  { intros Hret. wp_step. by split_and!. }
  destruct Hcr as (ret & Hret & Hfalse & k' & Htrue & Hk').
  do 3 wp_step. wp_step. wp_step.
  eapply wp_on_client; [apply lookup_insert_eq|].
  eapply wp_mono; [apply client_init_spec|]. intros b w1 [Hm1 Hst1]. destruct b.
  2: { rewrite Hfalse. cbn [run_create]. wp_step. by split_and!. }
  rewrite Htrue. cbn [run_create]. wp_step.
  eapply wp_on_client; [simpl; apply lookup_insert_eq|].
  eapply wp_mono; [apply client_Start_spec|]. intros r w2 [Hm2 Hst2]. simpl in Hst2, Hm1, Hm2.
  rewrite Hk'. destruct (succeeded r) eqn:Hr; cbn [run_create]; wp_step; simpl.
  - split_and!; [done|congruence|]. intros _. exists c. split; [done|].
    rewrite Hst2, (Hst1 eq_refl). eexists. apply lookup_insert_eq.
  - split_and!; [done|congruence|]. intros ->. done.
Qed.

Lemma NewUserClient_spec `{!DriverKitOk DK} this w :
  wp (NewUserClient_Impl this) (connected this w) w.
Proof.
  unfold NewUserClient_Impl. wp_step. apply wp_call_eq. intros script ->.
  wp_step. eapply wp_mono; [apply run_create_spec, ok_creates|].
  intros [ret client] w1 (Hin & Hm & Hok). simpl in *. wp_step.
  2: { wp_step. split_and!; try done. simpl. intros ->. done. }
  apply succeeded_true in Hb as ->. destruct (Hok eq_refl) as (c & -> & iv & Hc).
  simpl. destruct (dk_instanceof Class_XboxOneUserClient c) eqn:Hcls.
  - wp_step. eapply wp_on_client; [exact Hc|]. unfold SetInputInterface. do 2 wp_step.
    split_and!; try done. intros _. exists c. split_and!; [done|by rewrite Hcls|].
    simpl. apply lookup_insert_eq.
  - wp_steps. by split_and!.
Qed.
End specifications.

(** ** Theorems *)

Definition sample_heap : heap :=
  Heap {[ sample_client := Some {| uc_inputInterface := Some sample_this |} ]}
       {[ sample_this := Some sample_iv_ready ]}.
Definition sample_heap_world : heap_world := World sample_heap ∅ [].

(** C11: a call on the licensing selector is either refused by the framework, and
    then changes nothing, or it is carried out exactly: the enabled flag of the
    connected interface becomes whether the input is non-zero, the output tells the
    same (and zero when no interface is connected), and nothing else in any object
    changes.  The argument arrays are never accessed outside their bounds. *)
Theorem ExternalMethod_licensing {DK : DriverKit} (Hok : DriverKitOk DK) this iv args dispatch
    target (w : heap_world) :
  client_linked this iv (w_st w) → target = nullptr ∨ target = Some this →
  wp (ExternalMethod this ExternalMethodType_Licensing args dispatch target)
     (licensing_post iv args w) w.
Proof. apply ExternalMethod_licensing_spec. Qed.

Lemma ExternalMethod_licensing_witness :
  wp (@ExternalMethod sample sample_client ExternalMethodType_Licensing
        {| scalarInput := [0]; scalarOutput := [7] |} None nullptr)
     (licensing_post {| uc_inputInterface := Some sample_this |}
        {| scalarInput := [0]; scalarOutput := [7] |} sample_heap_world) sample_heap_world.
Proof.
  apply (@ExternalMethod_licensing sample sample_ok sample_client
    {| uc_inputInterface := Some sample_this |} {| scalarInput := [0]; scalarOutput := [7] |}
    None nullptr sample_heap_world); [|left; reflexivity].
  split; [reflexivity|]. intros o [= <-]. eexists. reflexivity.
Defined.

(** C26: the other selectors have no effect on the driver.  Selector 0 is answered with
    [kIOReturnNotFound] without asking the framework.  A selector beyond the table, called
    without a dispatch entry of the caller's own, is passed on once with its arguments
    unchanged, and what the framework answers is returned; no object changes. *)
Theorem ExternalMethod_other_selectors {DK : DriverKit} (Hok : DriverKitOk DK) this selector args
    target (w : heap_world) :
  0 ≤ selector → selector ≠ ExternalMethodType_Licensing →
  wp (ExternalMethod this selector args None target) (λ r w', snd r = args ∧
    if decide (selector = ExternalMethodType_Unknown)
    then fst r = kIOReturnNotFound ∧ w' = w
    else w' = log (Ev (dispatch_call selector args None) (Some (fst r))) w) w.
Proof.
  unfold ExternalMethodType_Licensing, ExternalMethodType_Unknown. intros H0 H1. case_decide as Hs.
  { subst selector. unfold ExternalMethod. rewrite decide_False by done. by wp_step. }
  eapply wp_mono; [apply ExternalMethod_unknown_spec; lia|].
  intros r w' (ret & -> & ->). done.
Qed.

Lemma ExternalMethod_other_selectors_witness :
  let args := {| scalarInput := [0]; scalarOutput := [7] |} in
  wp (@ExternalMethod sample sample_client 2 args None nullptr)
     (λ r w', snd r = args ∧
        w' = log (Ev (dispatch_call 2 args None) (Some (fst r))) sample_heap_world)
     sample_heap_world.
Proof.
  intros args. apply (@ExternalMethod_other_selectors sample sample_ok sample_client 2 args nullptr
    sample_heap_world); [lia|].
  unfold ExternalMethodType_Licensing. lia.
Defined.

(** C17: [NewUserClient_Impl] never faults.  When it succeeds, the object handed to the
    application is a user client connected to this very interface (or to none, when
    the object is not an input interface); when it fails no client is handed over; in
    either case no input interface is touched. *)
Theorem NewUserClient_connects {DK : DriverKit} (Hok : DriverKitOk DK) this (w : heap_world) :
  wp (NewUserClient_Impl this) (connected this w) w.
Proof. apply NewUserClient_spec. Qed.

Lemma NewUserClient_connects_witness :
  wp (@NewUserClient_Impl sample sample_this) (@connected sample sample_this sample_heap_world)
     sample_heap_world.
Proof. apply (@NewUserClient_connects sample sample_ok sample_this sample_heap_world). Defined.
