(* ===== verification/Device.v ===== *)
(** * Device: src/XboxControllerDriver/XboxOne/XboxOneDevice.cpp

    The driver that matches the USB device as a whole and activates its
    configuration, so that the input interface can be matched.  Its instance
    variables are an empty structure. *)

From S2P Require Import Prelude Effects DriverKit Sample.

Definition TARGET_CONFIGURATION : Z := 1.

Record XboxOneDevice_IVars : Set := { }.

Abbreviation DeviceM := (M driverkitE (option XboxOneDevice_IVars)).
Abbreviation device_world := (world driverkitE (option XboxOneDevice_IVars)).

Section definitions.
Context {DK : DriverKit}.

Definition device_init : DeviceM bool :=
  result ← call Super_init;
  if negb result then mret false else
  allocated ← call IONewZero;
  if negb allocated then put_st None;; mret false else
  put_st (Some Build_XboxOneDevice_IVars);;
  mret true.

(** From the configuration descriptor to the exit label. *)
Definition activate (device : obj) (provider : ptr) : DeviceM kern_return_t :=
  ret ← call (SetConfiguration device TARGET_CONFIGURATION true);
  if negb (succeeded ret) then mret ret else
  ret ← call (Super_Start provider);
  if negb (succeeded ret) then mret ret else
  ret ← call RegisterService;
  if negb (succeeded ret) then mret ret else
  mret kIOReturnSuccess.

Definition device_Start_Impl (provider : ptr) : DeviceM kern_return_t :=
  match OSDynamicCast Class_IOUSBHostDevice provider with
  | None => mret kIOReturnError
  | Some device =>
      deviceDescriptor ← call (CopyDeviceDescriptor device);
      match deviceDescriptor with
      | None => mret kIOReturnSuccess
      | Some (dd, d) =>
          if decide (bNumConfigurations d < 1)
          then free_descriptor (Some dd);; mret kIOReturnSuccess else
          ret ← call (IOUSBHostDevice_Open device);
          if negb (succeeded ret) then free_descriptor (Some dd);; mret ret else
          configurationDescriptor ←
            call (CopyConfigurationDescriptorWithValue device TARGET_CONFIGURATION);
          match configurationDescriptor with
          | None => free_descriptor (Some dd);; mret ret
          | Some cd =>
              ret ← activate device provider;
              free_descriptor (Some dd);;
              free_descriptor (Some cd);;
              mret ret
          end
      end
  end.

Definition device_Stop_Impl (provider : ptr) : DeviceM kern_return_t :=
  call (Super_Stop provider).

Definition device_free : DeviceM unit :=
  p ← get_st;
  match p with
  | Some _ => call IODelete;; put_st None
  | None => mret tt
  end;;
  call Super_free.

(** ** Specification *)

(** The device was left alone although the start reports success. *)
Definition skipped (device : obj) (evs : dk_trace) : Prop :=
  Ev (CopyDeviceDescriptor device) None ∈ evs ∨
  (∃ dd d, Ev (CopyDeviceDescriptor device) (Some (dd, d)) ∈ evs ∧ bNumConfigurations d < 1) ∨
  Ev (CopyConfigurationDescriptorWithValue device TARGET_CONFIGURATION) nullptr ∈ evs.

(** The device is open, its configuration active, the superclass started and the
    service registered, in this order. *)
Definition activated (device : obj) (provider : ptr) (evs : dk_trace) : Prop :=
  ∃ e1 e2 e3, evs = e1 ++ [Ev (IOUSBHostDevice_Open device) kIOReturnSuccess] ++ e2 ++
    [Ev (SetConfiguration device TARGET_CONFIGURATION true) kIOReturnSuccess;
     Ev (Super_Start provider) kIOReturnSuccess; Ev RegisterService kIOReturnSuccess] ++ e3.

Definition device_post (device : obj) (provider : ptr) (w : device_world) (ret : kern_return_t)
    (w' : device_world) : Prop :=
  ∃ evs, w' = extend evs w ∧ (∀ o, refs o evs = 0) ∧
    (ret = kIOReturnSuccess → activated device provider evs ∨
       skipped device evs ∧ (∀ r, Ev (Super_Start provider) r ∉ evs) ∧
       ∀ r, Ev RegisterService r ∉ evs).

Lemma device_failed device provider w ret evs :
  ret ≠ kIOReturnSuccess → (∀ o, refs o evs = 0) → device_post device provider w ret (extend evs w).
Proof. intros Hret Ho. exists evs. by split_and!. Qed.

Lemma device_skipped device provider w evs :
  skipped device evs → (∀ r, Ev (Super_Start provider) r ∉ evs) →
  (∀ r, Ev RegisterService r ∉ evs) → (∀ o, refs o evs = 0) →
  device_post device provider w kIOReturnSuccess (extend evs w).
Proof. intros. exists evs. split_and!; auto. Qed.
End definitions.

(** Collects the events since [w] and solves the ledger. *)
Ltac gather := rewrite !log_extend, ?extend_extend; cbn [app].
Ltac not_among := intros; rewrite ?elem_of_cons, elem_of_nil; intuition discriminate.

Section proofs.
Context {DK : DriverKit}.
Implicit Types w : device_world.

Lemma activate_spec device provider w :
  wp (activate device provider) (λ ret w', ∃ evs, w' = extend evs w ∧ (∀ o, refs o evs = 0) ∧
    (ret = kIOReturnSuccess → evs =
      [Ev (SetConfiguration device TARGET_CONFIGURATION true) kIOReturnSuccess;
       Ev (Super_Start provider) kIOReturnSuccess; Ev RegisterService kIOReturnSuccess])) w.
Proof.
  unfold activate. wp_steps; gather; eexists; (split; [done|]; split; [done|]);
    repeat match goal with
    | H : succeeded _ = true |- _ => apply succeeded_true in H as ->
    | H : succeeded _ = false |- _ => apply succeeded_false in H
    end; done.
Qed.

Lemma device_Start_spec provider device w :
  OSDynamicCast Class_IOUSBHostDevice provider = Some device →
  wp (device_Start_Impl provider) (device_post device provider w) w.
Proof.
  intros Hcast. unfold device_Start_Impl. rewrite Hcast. do 2 wp_step.
  destruct r as [[dd d]|].
  2: { wp_step. gather. apply device_skipped; [left; set_solver|not_among..|done]. }
  destruct (decide (bNumConfigurations d < 1)) as [Hn|Hn].
  { simpl. wp_steps. gather. apply device_skipped; [right; left; set_solver|not_among..|solve_ledger]. }
  do 2 wp_step. wp_step.
  2: { simpl. wp_steps. gather. apply device_failed; [by apply succeeded_false|solve_ledger]. }
  apply succeeded_true in Hb as ->. do 2 wp_step. destruct r as [cd|].
  2: { simpl. wp_steps. gather. apply device_skipped; [right; right; set_solver|not_among..|solve_ledger]. }
  wp_step. eapply wp_mono; [apply activate_spec|]. intros ret w1 (evs & -> & Ho & Hret).
  simpl. wp_steps. gather. eexists. split; [done|]. split.
  - intros o. cbn [refs ref_delta]. rewrite refs_app, Ho. solve_ledger.
  - intros Hs. left. rewrite (Hret Hs). by eexists [_], [_], _.
Qed.
End proofs.

(** ** Theorems *)



(** C40: a device without a descriptor makes the start report success, with nothing
    started: the error paths for a missing descriptor do not set an error code. *)
Theorem device_Start_reports_success {DK : DriverKit} provider device (w : device_world) :
  OSDynamicCast Class_IOUSBHostDevice provider = Some device →
  answer (CopyDeviceDescriptor device) (w_trace w) = None →
  device_Start_Impl provider w =
    Done kIOReturnSuccess (log (Ev (CopyDeviceDescriptor device) None) w).
Proof.
  intros Hcast Hans. unfold device_Start_Impl. rewrite Hcast.
  unfold mbind, M_bind, call. by rewrite Hans.
Qed.

(** A framework that has lost the device descriptor. *)
Definition sample_no_descriptor : Env driverkitE := λ R c tr,
  match c in driverkitE R return R with
  | CopyDeviceDescriptor _ => None
  | c => sample_answer _ c tr
  end.

Lemma device_Start_reports_success_witness :
  @device_Start_Impl (sample_with sample_no_descriptor [] false) (Some sample_device) (World None ∅ []) =
    Done kIOReturnSuccess (log (Ev (CopyDeviceDescriptor sample_device) None) (World None ∅ [])).
Proof.
  apply (@device_Start_reports_success (sample_with sample_no_descriptor [] false)
    (Some sample_device) sample_device (World None ∅ [])); reflexivity.
Defined.
