(* ===== verification/CoreInterface.v ===== *)
(** * CoreInterface: src/XboxControllerDriver/XboxOne/XboxOneInterface.cpp

    A driver for the interface that derives from the framework's USB HID class.  The
    file is in the repository but not in the project that builds the driver. *)

From S2P Require Import Prelude Effects DriverKit Sample.

Definition XboxOneInterfaceTypeUnknown : Z := 255.
Definition XboxOneInterfaceTypeInput : Z := 0.

Record XboxOneInterface_IVars : Set := {
  ci_interfaceType : Z;
  ci_interface : ptr;
}.

Abbreviation CoreM := (M driverkitE (option XboxOneInterface_IVars)).
Abbreviation core_world := (world driverkitE (option XboxOneInterface_IVars)).

Definition set_ci_interface (p : ptr) (iv : XboxOneInterface_IVars) : XboxOneInterface_IVars :=
  {| ci_interfaceType := ci_interfaceType iv; ci_interface := p |}.

Section definitions.
Context {DK : DriverKit}.

Definition core_init : CoreM bool :=
  result ← call Super_init;
  if negb result then mret false else
  allocated ← call IONewZero;
  if negb allocated then put_st None;; mret false else
  put_st (Some {| ci_interfaceType := 0; ci_interface := nullptr |});;
  mret true.

Definition core_handleStart (provider : ptr) : CoreM bool :=
  modify (set_ci_interface (OSDynamicCast Class_IOUSBHostInterface provider));;
  iv ← ivars;
  match ci_interface iv with
  | None => mret false
  | Some i =>
      configurationDescriptor ← call (CopyConfigurationDescriptor i);
      match configurationDescriptor with
      | None => mret false
      | Some cd =>
          interfaceDescriptor ← call (GetInterfaceDescriptor i (Some cd));
          result ← match interfaceDescriptor with
                   | None => mret false
                   | Some (_, bInterfaceNumber) =>
                       if decide (bInterfaceNumber = XboxOneInterfaceTypeInput)
                       then call (Super_handleStart provider)
                       else mret false
                   end;
          free_descriptor (Some cd);;
          mret result
      end
  end.

(** Runs what [super::Start] of the USB HID class does. *)
Fixpoint run_usb_start (provider : ptr) (script : usb_hid_start_script) : CoreM kern_return_t :=
  match script with
  | UsbStartReturn ret => mret ret
  | UsbStartHandleStart k => r ← core_handleStart provider; run_usb_start provider (k r)
  end.

Definition core_Start_Impl (provider : ptr) : CoreM kern_return_t :=
  script ← call (Super_Start_USBHID provider);
  run_usb_start provider script.

Definition core_Stop_Impl (provider : ptr) : CoreM kern_return_t :=
  call (Super_Stop provider).

Definition core_free : CoreM unit :=
  p ← get_st;
  match p with
  | Some _ => call IODelete;; put_st None
  | None => mret tt
  end;;
  call Super_free.

(** ** Specification *)

(** What [handleStart] asks of the framework for a provider that is the interface [i],
    branch by branch: it fails for a provider that is no USB interface, for want of a
    descriptor, and for an interface number other than 0; else the superclass decides. *)
Inductive core_handled (provider i : ptr) : bool → dk_trace → Prop :=
| core_not_usb : i = nullptr → core_handled provider i false []
| core_no_configuration x :
    i = Some x → core_handled provider i false [Ev (CopyConfigurationDescriptor x) nullptr]
| core_no_interface x cd :
    i = Some x →
    core_handled provider i false
      [Ev (CopyConfigurationDescriptor x) (Some cd); Ev (GetInterfaceDescriptor x (Some cd)) None;
       Ev (IOUSBHostFreeDescriptor cd) tt]
| core_unsupported x cd d bInterfaceNumber :
    i = Some x → bInterfaceNumber ≠ XboxOneInterfaceTypeInput →
    core_handled provider i false
      [Ev (CopyConfigurationDescriptor x) (Some cd);
       Ev (GetInterfaceDescriptor x (Some cd)) (Some (d, bInterfaceNumber));
       Ev (IOUSBHostFreeDescriptor cd) tt]
| core_input x cd d b :
    i = Some x →
    core_handled provider i b
      [Ev (CopyConfigurationDescriptor x) (Some cd);
       Ev (GetInterfaceDescriptor x (Some cd)) (Some (d, XboxOneInterfaceTypeInput));
       Ev (Super_handleStart provider) b; Ev (IOUSBHostFreeDescriptor cd) tt].

Definition core_handle_post (provider : ptr) (w : core_world) (iv : XboxOneInterface_IVars) (b : bool)
    (w' : core_world) : Prop :=
  let i := OSDynamicCast Class_IOUSBHostInterface provider in
  ∃ evs, w' = extend evs (set_st (Some (set_ci_interface i iv)) w) ∧
    core_handled provider i b evs ∧ ∀ o, refs o evs = 0.

Lemma core_handled_refs provider i b evs o : core_handled provider i b evs → refs o evs = 0.
Proof. destruct 1; solve_ledger. Qed.

Lemma core_handleStart_spec provider w iv :
  w_st w = Some iv → wp (core_handleStart provider) (core_handle_post provider w iv) w.
Proof.
  intros Hst. set (i := OSDynamicCast Class_IOUSBHostInterface provider).
  assert (∀ b evs w', w' = extend evs (set_st (Some (set_ci_interface i iv)) w) →
    core_handled provider i b evs → core_handle_post provider w iv b w') as Hpost.
  { intros b evs w' -> Hrun. eexists. split_and!; [done..|]. eauto using core_handled_refs. }
  unfold core_handleStart. do 4 wp_step. simpl. fold i. destruct i as [x|] eqn:Hi.
  2: { wp_step. eapply Hpost; [by rewrite extend_nil|by constructor]. }
  do 2 wp_step. destruct r as [cd|].
  2: { wp_step. eapply Hpost; [by rewrite log_extend|by constructor]. }
  do 2 wp_step. destruct r as [[d n]|].
  - wp_step. destruct (decide (n = XboxOneInterfaceTypeInput)) as [->|Hn]; wp_step; simpl; wp_steps.
    + destruct r0. eapply Hpost; [by rewrite !log_extend, !extend_extend|by constructor].
    + destruct r. eapply Hpost; [by rewrite !log_extend, !extend_extend|by constructor].
  - do 2 wp_step. simpl. wp_steps. destruct r.
    eapply Hpost; [by rewrite !log_extend, !extend_extend|by constructor].
Qed.

Lemma run_usb_start_spec provider script : ∀ w iv,
  w_st w = Some iv →
  wp (run_usb_start provider script) (λ _ w', is_Some (w_st w') ∧ w_mem w' = w_mem w ∧
    ∃ evs, w_trace w' = w_trace w ++ evs ∧ ∀ o, refs o evs = 0) w.
Proof.
  induction script as [ret|k IH]; intros w iv Hst; cbn [run_usb_start].
  - wp_step. rewrite Hst. split_and!; [by eexists|done|]. exists []. by rewrite app_nil_r.
  - wp_step. eapply wp_mono; [by eapply core_handleStart_spec|].
    intros b w1 (e1 & -> & _ & Ho1). set (w1 := extend e1 _).
    assert (w_mem w1 = w_mem w ∧ w_trace w1 = w_trace w ++ e1) as [Hm1 Htr1] by done.
    eapply wp_mono; [by eapply (IH _ w1)|]. intros _ w2 (Hst2 & Hm2 & e2 & Htr2 & Ho2).
    split_and!; [done|congruence|]. exists (e1 ++ e2). rewrite Htr2, Htr1, app_assoc. split; [done|].
    intros o. by rewrite refs_app, Ho1, Ho2.
Qed.
End definitions.

(** ** Theorems *)

(** C29: [handleStart] of the core interface never faults, remembers the interface it
    was given and changes nothing else, and frees the configuration descriptor on every
    path.  It returns false when the provider is no USB interface, when a descriptor is
    missing, and when the interface has a number other than 0; otherwise it asks the
    superclass, once, and returns its answer. *)
Theorem core_handleStart_correct {DK : DriverKit} provider (w : core_world) iv :
  w_st w = Some iv → wp (core_handleStart provider) (core_handle_post provider w iv) w.
Proof. apply core_handleStart_spec. Qed.

Lemma core_handleStart_correct_witness :
  let iv := {| ci_interfaceType := 0; ci_interface := nullptr |} in
  wp (@core_handleStart sample (Some sample_provider))
     (@core_handle_post sample (Some sample_provider) (World (Some iv) ∅ []) iv) (World (Some iv) ∅ []).
Proof.
  intros iv. apply (@core_handleStart_correct sample (Some sample_provider) (World (Some iv) ∅ []) iv).
  reflexivity.
Defined.

(** The start of the core interface holds no reference afterwards, however often
    the superclass calls [handleStart] and whatever it makes of the results. *)
Lemma core_Start_balanced {DK : DriverKit} provider (w : core_world) iv :
  w_st w = Some iv →
  wp (core_Start_Impl provider) (λ _ w', is_Some (w_st w') ∧
    ∀ o, refs o (w_trace w') = refs o (w_trace w)) w.
Proof.
  intros Hst. unfold core_Start_Impl. do 2 wp_step.
  eapply wp_mono; [by eapply run_usb_start_spec|]. intros _ w' (Hst' & _ & evs & Htr & Ho).
  split; [done|]. intros o. rewrite Htr. cbn [w_trace log]. rewrite !refs_app, Ho. simpl. lia.
Qed.
