(* ===== verification/Tester.v ===== *)
(** * Tester: src/UserClientTester/main.cpp

    The command line program that connects to the driver's user client and sends one
    licensing request.  IOKit's client library is its environment; the lines it prints
    are calls too.  The iteration over matching services has no bound of its own, so
    the loop takes fuel, and the theorems give a bound that is enough. *)

From S2P Require Import Prelude Effects DriverKit UserClient.

(** [io_object_t] and its null value. *)
Definition IO_OBJECT_NULL : Z := 0.
Definition EXIT_FAILURE : Z := 1.

(** What [printf] is called with. *)
Inductive message : Set :=
| Msg_unable_to_find (ret : kern_return_t)
| Msg_searching
| Msg_opened
| Msg_failed_opening (ret : kern_return_t)
| Msg_failed_to_match
| Msg_call_failed (ret : kern_return_t)
| Msg_input (size data : Z)
| Msg_output (size data : Z).

Inductive iokitE : Set → Type :=
| IOServiceGetMatchingServices (name : string) : iokitE (kern_return_t * Z)
| IOIteratorNext (iterator : Z) : iokitE Z
| IOServiceOpen (service : Z) : iokitE (kern_return_t * Z)
| IOObjectRelease (object : Z) : iokitE unit
| IOConnectCallScalarMethod (connection selector : Z) (input : list Z) (capacity : Z)
    : iokitE (kern_return_t * (Z * list Z))
| Printf (m : message) : iokitE unit.

Abbreviation TesterM := (M iokitE unit).
Abbreviation tester_world := (world iokitE unit).
Abbreviation iokit_event := (event iokitE).
Abbreviation iokit_trace := (list (event iokitE)).

Definition dextIdentifier : string := "XboxOneInputInterface".
Definition tester_selector : Z := 1.
Definition tester_arraySize : Z := 1.
Definition tester_input : list Z := [1].

Section definitions.
Context {IOKit : Env iokitE}.

(** The [while] loop; returns [service] and [connection] as it leaves them. *)
Fixpoint open_service (fuel : nat) (iterator connection : Z) : TesterM (Z * Z) :=
  match fuel with
  | O => raise OutOfFuel
  | S fuel' =>
      service ← call (IOIteratorNext iterator);
      if decide (service = IO_OBJECT_NULL) then mret (service, connection) else
      r ← call (IOServiceOpen service);
      let connection := if succeeded (fst r) then snd r else connection in
      if succeeded (fst r) then
        call (Printf Msg_opened);;
        mret (service, connection)
      else
        call (Printf (Msg_failed_opening (fst r)));;
        call (IOObjectRelease service);;
        open_service fuel' iterator connection
  end.

(** The licensing request and what is printed about it.  The output array starts
    zeroed, and the call writes the scalars it returns over it. *)
Definition send_request (connection : Z) : TesterM unit :=
  r ← call (IOConnectCallScalarMethod connection tester_selector tester_input tester_arraySize);
  let '(ret, (count, outputs)) := r in
  (if negb (succeeded ret) then call (Printf (Msg_call_failed ret)) else mret tt);;
  call (Printf (Msg_input tester_arraySize (tester_input !!! 0%nat)));;
  call (Printf (Msg_output count (default 0 (outputs !! 0%nat)))).

Definition main (fuel : nat) : TesterM Z :=
  r ← call (IOServiceGetMatchingServices dextIdentifier);
  let '(ret, it) := r in
  let iterator := if succeeded ret then it else IO_OBJECT_NULL in
  (if negb (succeeded ret) then call (Printf (Msg_unable_to_find ret)) else mret tt);;
  call (Printf Msg_searching);;
  r ← open_service fuel iterator IO_OBJECT_NULL;
  let '(service, connection) := r in
  call (IOObjectRelease iterator);;
  if decide (service = IO_OBJECT_NULL) then
    call (Printf Msg_failed_to_match);;
    mret EXIT_FAILURE
  else
    send_request connection;;
    mret 0.
End definitions.

(** ** Specification *)

(** The objects the program was given, connections included, and has not released. *)
Definition tester_delta (o : Z) (e : iokit_event) : Z :=
  match e with
  | Ev c r =>
      match c in iokitE R return R → Z with
      | IOServiceGetMatchingServices _ => λ r,
          if succeeded (fst r) && bool_decide (snd r = o) then 1 else 0
      | IOIteratorNext _ => λ r, if bool_decide (r = o) then 1 else 0
      | IOServiceOpen _ => λ r, if succeeded (fst r) && bool_decide (snd r = o) then 1 else 0
      | IOObjectRelease x => λ _, if bool_decide (x = o) then -1 else 0
      | _ => λ _, 0
      end r
  end.
Fixpoint tester_refs (o : Z) (tr : iokit_trace) : Z :=
  match tr with
  | [] => 0
  | e :: tr' => tester_delta o e + tester_refs o tr'
  end.

(** The requests made of the driver. *)
Definition request (e : iokit_event) : list (Z * Z * list Z) :=
  match e with
  | Ev c r =>
      match c in iokitE R return R → list (Z * Z * list Z) with
      | IOConnectCallScalarMethod connection selector input _ => λ _, [(connection, selector, input)]
      | _ => λ _, []
      end r
  end.
Definition requests (tr : iokit_trace) : list (Z * Z * list Z) := tr ≫= request.

(** How often the iterator has been asked. *)
Definition next_asked (it : Z) (e : iokit_event) : nat :=
  match e with
  | Ev c r =>
      match c in iokitE R return R → nat with
      | IOIteratorNext x => λ _, if bool_decide (x = it) then 1%nat else 0%nat
      | _ => λ _, 0%nat
      end r
  end.
Fixpoint asked (it : Z) (tr : iokit_trace) : nat :=
  match tr with
  | [] => 0
  | e :: tr' => next_asked it e + asked it tr'
  end.

(** Iterators yield a finite list of services, one after the other, then null. *)
Definition iterates {IOKit : Env iokitE} (it : Z) (services : list Z) : Prop :=
  (IO_OBJECT_NULL ∉ services) ∧
  ∀ tr, answer (IOIteratorNext it) tr = default IO_OBJECT_NULL (services !! asked it tr).

(** What is logged about a service that could not be opened. *)
Definition rejected (it : Z) (x : Z * (kern_return_t * Z)) : iokit_trace :=
  [Ev (IOIteratorNext it) (fst x); Ev (IOServiceOpen (fst x)) (snd x);
   Ev (Printf (Msg_failed_opening (fst (snd x)))) tt; Ev (IOObjectRelease (fst x)) tt].

(** The loop tries the services in order and stops at the first that opens. *)
Inductive opens (it : Z) : list Z → Z → Z → iokit_trace → Prop :=
| opens_none : opens it [] IO_OBJECT_NULL IO_OBJECT_NULL [Ev (IOIteratorNext it) IO_OBJECT_NULL]
| opens_first s ss connection :
    opens it (s :: ss) s connection
      [Ev (IOIteratorNext it) s; Ev (IOServiceOpen s) (kIOReturnSuccess, connection);
       Ev (Printf Msg_opened) tt]
| opens_next s ss service connection ret c evs :
    ret ≠ kIOReturnSuccess → opens it ss service connection evs →
    opens it (s :: ss) service connection (rejected it (s, (ret, c)) ++ evs).

Lemma asked_app it tr1 tr2 : asked it (tr1 ++ tr2) = (asked it tr1 + asked it tr2)%nat.
Proof. induction tr1; simpl; lia. Qed.

Lemma tester_refs_app o tr1 tr2 : tester_refs o (tr1 ++ tr2) = tester_refs o tr1 + tester_refs o tr2.
Proof. induction tr1; simpl; lia. Qed.

Lemma requests_app tr1 tr2 : requests (tr1 ++ tr2) = requests tr1 ++ requests tr2.
Proof. apply bind_app. Qed.

Section specifications.
Context {IOKit : Env iokitE}.

Lemma open_service_spec it services : iterates it services →
  ∀ ss fuel (w : tester_world), drop (asked it (w_trace w)) services = ss → (length ss < fuel)%nat →
  wp (open_service fuel it IO_OBJECT_NULL)
     (λ r w', ∃ evs, w' = extend evs w ∧ opens it ss (fst r) (snd r) evs) w.
Proof.
  intros [Hnull Hit]. induction ss as [|s ss IH]; intros fuel w Hd Hf;
    (destruct fuel as [|fuel]; [simpl in Hf; lia|]); cbn [open_service];
    wp_step; apply wp_call_eq; intros x ->; rewrite Hit.
  - rewrite lookup_ge_None_2
      by (apply (f_equal length) in Hd; rewrite length_drop in Hd; simpl in Hd; lia).
    simpl. wp_step.
    eexists. split; [done|constructor].
  - assert (services !! asked it (w_trace w) = Some s) as Hs.
    { rewrite <- (Nat.add_0_r (asked _ _)), <- lookup_drop, Hd. done. }
    rewrite Hs. simpl. rewrite decide_False by (intros ->; apply Hnull; by eapply list_elem_of_lookup_2).
    do 2 wp_step. destruct r as [ret c]. simpl. destruct (succeeded ret) eqn:Hr.
    + apply succeeded_true in Hr as ->. wp_steps. destruct r.
      rewrite !log_extend, !extend_extend. eexists. split; [done|]. constructor.
    + apply succeeded_false in Hr. do 4 wp_step.
      rewrite !log_extend, !extend_extend. destruct r, r0.
      eapply wp_mono; [apply IH; [|simpl in Hf; lia]|].
      * cbn [w_trace extend]. rewrite asked_app. simpl. rewrite bool_decide_eq_true_2 by done.
        by rewrite <- drop_drop, Hd.
      * intros [service connection] w' (evs & -> & Ho). rewrite extend_extend.
        eexists. split; [done|]. by apply (opens_next it s ss service connection ret c).
Qed.

(** What is left of a service that was opened: the service and the connection. *)
Definition left_open (service connection o : Z) : Z :=
  Z.b2z (bool_decide (service = o)) + Z.b2z (bool_decide (connection = o)).

Lemma opens_refs it ss service connection evs o :
  opens it ss service connection evs → o ≠ IO_OBJECT_NULL →
  tester_refs o evs = left_open service connection o.
Proof.
  unfold left_open.
  intros Ho Hne. induction Ho as [|s ss connection|s ss service connection ret c evs Hr Ho IH].
  - simpl. rewrite !bool_decide_eq_false_2 by done. done.
  - simpl. repeat case_bool_decide; simpl; lia.
  - apply succeeded_false in Hr. rewrite tester_refs_app, IH. simpl. rewrite Hr. simpl.
    repeat case_bool_decide; simpl; lia.
Qed.

Lemma opens_requests it ss service connection evs :
  opens it ss service connection evs → requests evs = [].
Proof. induction 1 as [| |??????? _ _ IH]; [done..|]. by rewrite requests_app, IH. Qed.

Lemma send_request_spec connection (w : tester_world) :
  wp (send_request connection) (λ _ w', ∃ evs, w' = extend evs w ∧
    requests evs = [(connection, ExternalMethodType_Licensing, [1])] ∧ ∀ o, tester_refs o evs = 0) w.
Proof.
  unfold send_request. do 2 wp_step. destruct r as [ret [count outputs]].
  wp_steps; rewrite !log_extend, !extend_extend; eexists; by split_and!.
Qed.

(** One run of the program over the services [services]. *)
Definition main_post (it : Z) (services : list Z) (w : tester_world) (code : Z)
    (w' : tester_world) : Prop :=
  ∃ evs service connection e, w' = extend evs w ∧ opens it services service connection e ∧
    infix e evs ∧ code = (if decide (service = IO_OBJECT_NULL) then EXIT_FAILURE else 0) ∧
    requests evs = (if decide (service = IO_OBJECT_NULL) then []
                    else [(connection, ExternalMethodType_Licensing, [1])]) ∧
    ∀ o, o ≠ IO_OBJECT_NULL → tester_refs o evs = left_open service connection o.

(** The iterator the program goes through: null when the search failed. *)
Definition iterator_of (r : kern_return_t * Z) : Z :=
  if succeeded (fst r) then snd r else IO_OBJECT_NULL.

(** The program from the loop on, the search having been logged as [e0]. *)
Lemma main_loop_spec fuel it services (e0 : iokit_trace) (w : tester_world) :
  iterates it services → (length services < fuel)%nat → asked it (w_trace (extend e0 w)) = 0%nat →
  requests e0 = [] →
  (∀ o, o ≠ IO_OBJECT_NULL → tester_refs o e0 = Z.b2z (bool_decide (it = o))) →
  wp (r ← open_service fuel it IO_OBJECT_NULL;
      let '(service, connection) := r in
      call (IOObjectRelease it);;
      if decide (service = IO_OBJECT_NULL) then
        call (Printf Msg_failed_to_match);;
        mret EXIT_FAILURE
      else
        send_request connection;;
        mret 0) (main_post it services w) (extend e0 w).
Proof.
  intros Hit Hf Hasked Hreq0 Hrefs0. wp_step.
  eapply wp_mono; [eapply (open_service_spec it services Hit services); [by rewrite Hasked|done]|].
  intros [service connection] w1 (e & -> & Ho). cbn [fst snd] in Ho.
  pose proof (opens_requests _ _ _ _ _ Ho) as Hreq. do 2 wp_step. rewrite log_extend, !extend_extend.
  assert (∀ e2 o, o ≠ IO_OBJECT_NULL → tester_refs o e2 = 0 →
    tester_refs o ((e0 ++ e ++ [Ev (IOObjectRelease it) r]) ++ e2) = left_open service connection o) as Hrefs.
  { intros e2 o Hne H2. rewrite !tester_refs_app, (Hrefs0 o Hne), (opens_refs _ _ _ _ _ _ Ho Hne), H2.
    simpl. case_bool_decide; simpl; lia. }
  destruct (decide (service = IO_OBJECT_NULL)) as [Hnull|Hs].
  - wp_steps. rewrite log_extend, extend_extend. eexists _, service, connection, e.
    rewrite !decide_True by done. split_and!; [done|done|auto with infix|done| |].
    + by rewrite !requests_app, Hreq0, Hreq.
    + intros o Hne. by apply Hrefs.
  - wp_step. eapply wp_mono; [apply send_request_spec|]. intros _ w' (e2 & -> & Hr2 & Ho2).
    wp_step. rewrite extend_extend. eexists _, service, connection, e.
    rewrite !decide_False by done. split_and!; [done|done|auto with infix|done| |].
    + by rewrite !requests_app, Hreq0, Hreq, Hr2.
    + intros o Hne. by apply Hrefs.
Qed.

Lemma main_spec fuel services (m : memory) :
  let it := iterator_of (answer (IOServiceGetMatchingServices dextIdentifier) []) in
  iterates it services → (length services < fuel)%nat →
  wp (main fuel) (main_post it services (World tt m [])) (World tt m []).
Proof.
  intros it Hit Hf. unfold main. wp_step. apply wp_call_eq. intros r Hr.
  assert (it = iterator_of r) as Heq by (by subst r). clearbody it. clear Hr. destruct r as [ret x].
  unfold iterator_of in Heq. cbn [fst snd] in Heq. rewrite <- Heq.
  wp_step. destruct (succeeded ret) eqn:Hs; cbn [negb]; subst it; do 3 wp_step;
    rewrite !log_extend, !extend_extend; (apply main_loop_spec; [done..|]); intros o Hne; simpl; rewrite Hs.
  - simpl. case_bool_decide; simpl; lia.
  - simpl. by rewrite bool_decide_eq_false_2.
Qed.
End specifications.

(** ** Theorems *)

(** C30: given a finite list of matching services, the program terminates, also when the
    search for them fails.  It tries them in order and stops at the first that opens; if
    none does, it sends nothing and exits with a failure; otherwise it makes exactly one
    request, on the connection it opened, for the licensing selector of the user client
    with the input 1, and exits with 0.  Every object it was given is released, except
    the service it opened and the connection. *)
Theorem main_correct {IOKit : Env iokitE} fuel services (m : memory) :
  let it := iterator_of (answer (IOServiceGetMatchingServices dextIdentifier) []) in
  iterates it services → (length services < fuel)%nat →
  wp (main fuel) (main_post it services (World tt m [])) (World tt m []).
Proof. apply main_spec. Qed.

(** Two services, of which the second opens. *)
Definition sample_iokit : Env iokitE := λ R c tr,
  match c in iokitE R return R with
  | IOServiceGetMatchingServices _ => (kIOReturnSuccess, 9)
  | IOIteratorNext it => default IO_OBJECT_NULL ([11; 12] !! asked it tr)
  | IOServiceOpen s => if decide (s = 12) then (kIOReturnSuccess, 77) else (kIOReturnError, 0)
  | IOObjectRelease _ => tt
  | IOConnectCallScalarMethod _ _ _ _ => (kIOReturnSuccess, (1, [1]))
  | Printf _ => tt
  end.

Lemma main_correct_witness :
  wp (@main sample_iokit 3) (main_post 9 [11; 12] (World tt ∅ [])) (World tt ∅ []).
Proof.
  apply (@main_correct sample_iokit 3 [11; 12] ∅); [|simpl; lia].
  split; [|reflexivity]. unfold IO_OBJECT_NULL. rewrite !elem_of_cons, elem_of_nil. lia.
Defined.
