(* ===== verification/System.v ===== *)
(** * System: the input interface under the framework's calls

    The framework drives the object: it initialises it, starts it, completes reads,
    stops and frees it, in an order it documents.  [allowed] is that protocol, [exec]
    one call, and [step] one call the protocol allows.  Rule induction over the
    reachable states gives the properties of whole lifetimes: the only fault a call can
    end in is reading past an input buffer that is too short, at most one read is
    outstanding, packet counters are consecutive, the reference ledger balances but for
    lost pipes, and the reports the HID stack was given are those of an abstract gate
    that knows nothing of memory, pipes or descriptors. *)

From S2P Require Import Prelude Effects DriverKit Sample Packets InputState InputPipes InputComm HidDescription InputLifecycle UserClient.

(** ** Calls and their protocol *)

Inductive phase : Set :=
| Allocated
| Initialised
| Active (ret : kern_return_t)
| Stopping (provider : obj)
| Stopped
| Freed.

Inductive op : Set :=
| OpInit
| OpStart (provider : ptr)
| OpComplete (c : completion)
| OpEnable (b : bool)
| OpStop (provider : obj)
| OpFinalize
| OpFree.

(** The object with its phase and the number of reads completed so far. *)
Record sys := Sys {
  s_phase : phase;
  s_completed : Z;
  s_world : input_world;
}.

Definition initial : sys := Sys Allocated 0 (World None ∅ []).

(** The object is between [Start] and [Stop], or stopping. *)
Definition live (ph : phase) : bool :=
  match ph with Active _ | Stopping _ => true | _ => false end.

(** ** The abstract gate

    It remembers whether the driver is enabled, what the input buffer holds, and which
    reports it let through. *)

Record gate : Set := Gate {
  g_enabled : bool;
  g_buffer : list Z;
  g_reports : list (Z * Z * list Z);
}.

Definition gate_step (g : gate) (o : op) : gate :=
  match o with
  | OpInit => Gate true (g_buffer g) (g_reports g)
  | OpEnable b => Gate b (g_buffer g) (g_reports g)
  | OpComplete c =>
      let buf := received c (g_buffer g) in
      Gate (g_enabled g) buf (g_reports g ++ expected_reports (g_enabled g) buf c)
  | _ => g
  end.

(** The gate over an input buffer that held [buf] at first. *)
Definition gate_run (buf : list Z) (os : list op) : gate := foldl gate_step (Gate false buf []) os.

(** What the input buffer held when it was mapped: it is the first to be. *)
Definition first_buffer (tr : dk_trace) : list Z := default [] (head (mappings tr)).

Section system.
Context {DK : DriverKit}.
Variable fuel : nat.
Variable this : obj.

Definition allowed (o : op) (s : sys) : Prop :=
  match o with
  | OpInit => s_phase s = Allocated
  | OpStart _ => s_phase s = Initialised
  | OpComplete c =>
      live (s_phase s) = true ∧ s_completed s < reads_armed (w_trace (s_world s)) ∧
      ∀ iv, w_st (s_world s) = Some iv → packet_fits iv c
  | OpEnable _ => live (s_phase s) = true
  | OpStop _ => ∃ ret, s_phase s = Active ret
  | OpFinalize => ∃ p, s_phase s = Stopping p
  | OpFree =>
      s_phase s = Initialised ∨ s_phase s = Stopped ∨
      ∃ ret, s_phase s = Active ret ∧ ret ≠ kIOReturnSuccess
  end.

(** The phase after [Stop_Impl]: a callback object makes it wait for cancellation. *)
Definition after_stop (provider : obj) (w : input_world) : phase :=
  match w_st w ≫= iv_gotDataAction with Some _ => Stopping provider | None => Stopped end.

(** One call; [None] is a fault. *)
Definition exec (o : op) (s : sys) : option sys :=
  let run {A} (m : InputM A) (k : A → input_world → sys) :=
    match m (s_world s) with Done a w => Some (k a w) | Fault _ => None end in
  match o with
  | OpInit => run init (λ b w, Sys (if b : bool then Initialised else Stopped) (s_completed s) w)
  | OpStart provider => run (Start_Impl fuel provider) (λ ret w, Sys (Active ret) (s_completed s) w)
  | OpComplete c => run (deliver c) (λ _ w, Sys (s_phase s) (s_completed s + 1) w)
  | OpEnable b => run (SetEnable b) (λ _ w, Sys (s_phase s) (s_completed s) w)
  | OpStop p => run (Stop_Impl this (Some p)) (λ _ w, Sys (after_stop p w) (s_completed s) w)
  | OpFinalize =>
      match s_phase s with
      | Stopping p => run (Stop_finalize this p) (λ _ w, Sys Stopped (s_completed s) w)
      | _ => None
      end
  | OpFree => run free (λ _ w, Sys Freed (s_completed s) w)
  end.

Inductive step : sys → op → sys → Prop :=
| do_step s o s' : allowed o s → exec o s = Some s' → step s o s'.

(** A run, with the calls made, oldest first. *)
Inductive steps : list op → sys → Prop :=
| steps_nil : steps [] initial
| steps_snoc os s o s' : steps os s → step s o s' → steps (os ++ [o]) s'.

(** A completion for which the input buffer is too short. *)
Definition overruns (o : op) (s : sys) : bool :=
  let w := s_world s in
  match o with
  | OpComplete c =>
      default false
        (iv ← w_st w; buf ← w_mem w !! bm_address (pd_memory (iv_inPipe iv));
         let accepted := succeeded (answer (delivery_call iv c) (w_trace w)) in
         Some (bool_decide (length buf <
                 bytes_read (c_status c) (iv_enabled iv) accepted (received c buf))%nat))
  | _ => false
  end.

(** ** The invariant *)

(** All packets went to the pipe [p], the [k]-th one with counter [k] modulo 256; the
    counter now is [c]. *)
Definition counters_ok (tr : dk_trace) (p : ptr) (c : Z) : Prop :=
  let n := length (out_packets tr) in
  Forall (λ x, p = Some (fst x)) (out_packets tr) ∧
  (λ x : obj * list Z, x.2 !!! 2%nat) <$> out_packets tr = (λ k : nat, wrap8 k) <$> seq 0 n ∧
  c = wrap8 n.

(** References held for a pending stop. *)
Definition stop_refs (o : obj) (ph : phase) : Z :=
  match ph with
  | Stopping p => gained_ptr o (Some this) + gained_ptr o (Some p)
  | _ => 0
  end.

(** The books of an object whose [handleStart] succeeded or not. *)
Definition books (ok : bool) (lost : list obj) (iv : XboxOneInputInterface_IVars) (ph : phase)
    (tr : dk_trace) : Prop :=
  opened_pipes tr ≡ₚ pipes iv ++ lost ∧
  ∀ o, refs o tr = owned o iv + held o (handed_over tr) + held o lost +
    (if ok then gained_ptr o (iv_interface iv) else 0) + stop_refs o ph.

Definition started_inv (os : list op) (s : sys) : Prop :=
  let w := s_world s in
  let g := gate_run (first_buffer (w_trace w)) os in
  ∃ iv ok lost, w_st w = Some iv ∧ iv_enabled iv = g_enabled g ∧
    counters_ok (w_trace w) (pd_pipe (iv_outPipe iv)) (iv_outCounter iv) ∧
    books ok lost iv (s_phase s) (w_trace w) ∧
    (if ok then pipes_ready w iv ∧ in_buffer w iv (g_buffer g) ∧
                0 ≤ reads_armed (w_trace w) - s_completed s ≤ 1
     else reads_armed (w_trace w) = 0 ∧ s_completed s = 0).

Definition fresh_world (w : input_world) : Prop :=
  neutral (w_trace w) ∧ out_packets (w_trace w) = [] ∧ reads_armed (w_trace w) = 0 ∧
  mappings (w_trace w) = [] ∧ hid_reports (w_trace w) = [].

(** The references left when the object is gone. *)
Definition freed_inv (s : sys) : Prop :=
  let tr := w_trace (s_world s) in
  w_st (s_world s) = None ∧ ∃ (ok : bool) (i : ptr) lost,
    (if ok then ∃ p_in p_out, opened_pipes tr ≡ₚ p_in :: p_out :: lost else reads_armed tr = 0) ∧
    (∃ p c, counters_ok tr p c) ∧
    ∀ o, refs o tr = held o (handed_over tr) + held o lost - (if ok then 0 else gained_ptr o i).

Definition inv (os : list op) (s : sys) : Prop :=
  let tr := w_trace (s_world s) in
  hid_reports tr = g_reports (gate_run (first_buffer tr) os) ∧
  match s_phase s with
  | Allocated => s = initial ∧ os = []
  | Initialised =>
      w_st (s_world s) = Some (set_enabled true zero_ivars) ∧
      (∀ buf, gate_run buf os = Gate true buf []) ∧ fresh_world (s_world s) ∧ s_completed s = 0
  | Active _ | Stopping _ => started_inv os s
  | Stopped => started_inv os s ∨ w_st (s_world s) = None ∧ fresh_world (s_world s)
  | Freed => freed_inv s
  end.

(** ** Every call preserves the invariant *)

(** What a call establishes: it overruns the input buffer, or it returns and the
    invariant holds again. *)
Definition preserves (os : list op) (s : sys) (o : op) : Prop :=
  match exec o s with
  | Some s' => overruns o s = false ∧ inv (os ++ [o]) s'
  | None => overruns o s = true
  end.

Lemma preserves_intro os s o s' :
  exec o s = Some s' → overruns o s = false → inv (os ++ [o]) s' → preserves os s o.
Proof. unfold preserves. by intros ->. Qed.

Lemma gate_run_snoc buf os o : gate_run buf (os ++ [o]) = gate_step (gate_run buf os) o.
Proof. apply foldl_snoc. Qed.

Lemma first_buffer_app tr evs : mappings evs = [] → first_buffer (tr ++ evs) = first_buffer tr.
Proof. intros H. unfold first_buffer. by rewrite mappings_app, H, app_nil_r. Qed.

Lemma counters_ok_fresh w p : fresh_world w → counters_ok (w_trace w) p 0.
Proof. intros (_ & Hs & _). unfold counters_ok. rewrite Hs. by split. Qed.

Lemma counters_ok_app tr evs p c ps :
  counters_ok tr p c → out_packets evs = ps → Forall (λ x, p = Some (fst x)) ps →
  (λ x : obj * list Z, x.2 !!! 2%nat) <$> ps = (λ k : nat, wrap8 (c + k)) <$> seq 0 (length ps) →
  counters_ok (tr ++ evs) p (wrap8 (c + length ps)).
Proof.
  intros (Hp & Hk & ->) Hs Hps Hcs. unfold counters_ok.
  rewrite out_packets_app, Hs, fmap_app, length_app, Hk, Hcs.
  set (n := length (out_packets tr)). split_and!; [by apply Forall_app| |unfold wrap8; lia].
  rewrite seq_app, fmap_app. f_equal.
  replace (seq (0 + n) (length ps)) with (Nat.add n <$> seq 0 (length ps))
    by (rewrite fmap_add_seq; f_equal; lia).
  rewrite <- list_fmap_compose. apply list_fmap_ext. intros _ k _. simpl.
  unfold wrap8. lia.
Qed.

Lemma counters_ok_silent tr evs p c :
  counters_ok tr p c → out_packets evs = [] → counters_ok (tr ++ evs) p c.
Proof. intros H Hs. unfold counters_ok. by rewrite out_packets_app, Hs, app_nil_r. Qed.

Lemma preserves_init os s : allowed OpInit s → inv os s → preserves os s OpInit.
Proof.
  intros Hph [_ Hinv]. simpl in Hph. rewrite Hph in Hinv. destruct Hinv as [-> ->].
  destruct (wp_elim _ _ _ (init_spec (s_world initial)))
    as (b & w' & Hrun & e & Hs & Ho & Hm & Htr & Ht & Hf).
  simpl in Htr. pose proof (silent_projections _ Hs) as (Hs1 & Hs2 & Hs3 & Hs4 & _).
  assert (fresh_world w') as Hfresh
    by (split_and!; rewrite Htr; auto; unfold hid_reports; by rewrite Hs2).
  eapply preserves_intro; [unfold exec; rewrite Hrun; done|done|].
  split; [simpl; destruct Hfresh as (_ & _ & _ & _ & ->); by destruct b|].
  destruct b; simpl; [split_and!; auto|by auto].
Qed.

Section preservation.
Context {Hok : DriverKitOk DK}.
Hypothesis Heps : finite_endpoints fuel.

(** A finished start, whatever came of it. *)
Lemma started_inv_intro os w i ok w' ret :
  fresh_world w → (∀ buf, gate_run buf os = Gate true buf []) →
  start_post w (set_interface (Some i) (set_enabled true zero_ivars)) i ok w' →
  started_inv os (Sys (Active ret) 0 w').
Proof.
  intros Hfresh Hg (iv & evs & lost & Hst & Htr & Hi & He & _ & Hpi & Ho' & Hs' & Hc' & Hr).
  pose proof Hfresh as ((Ho & Hd & Hop) & Hs & Ha & Hm & _).
  exists iv, ok, lost. simpl. rewrite Hg, Htr. split_and!; [done|by rewrite He|..].
  - assert (counters_ok (w_trace w) (pd_pipe (iv_outPipe iv)) 0) as Hc0 by (by apply counters_ok_fresh).
    rewrite Hc'. simpl. destruct (ok && start_fits iv) eqn:Hsent.
    + apply andb_true_iff in Hsent as [-> _]. destruct (proj1 (proj1 Hr) OutPipe) as ([p Hp] & _).
      simpl in Hp. unfold start_packets, packet_to in Hs'. rewrite Hp in Hs' |- *.
      eapply (counters_ok_app _ _ _ 0 [(p, _); (p, _)]);
        [by rewrite <- Hp|exact Hs'|by repeat constructor|by vm_compute].
    + by apply counters_ok_silent.
  - split; [by rewrite opened_pipes_app, Hop, <- Hpi|].
    intros o. rewrite refs_app, handed_over_app, Hd, Ho, Ho', Hi.
    rewrite (owned_unopened o (set_interface _ _)) by apply unopened_set_interface, unopened_zero.
    simpl. lia.
  - rewrite reads_armed_app, Ha. destruct ok; [|by rewrite Hr].
    destruct Hr as (Hrdy & (buf & ms & Hms & Hbuf) & p & r & _ & _ & ->). simpl in Hms.
    split_and!; [done| |by destruct (succeeded r)..].
    unfold first_buffer. by rewrite mappings_app, Hm, Hms.
Qed.

Lemma preserves_start os s provider :
  allowed (OpStart provider) s → inv os s → preserves os s (OpStart provider).
Proof.
  intros Hph [Hrep Hinv]. simpl in Hph. rewrite Hph in Hinv. destruct Hinv as (Hst & Hg & Hfresh & Hc).
  destruct (wp_elim _ _ _ (Start_Impl_spec fuel provider (s_world s) _ Heps Hst unopened_zero))
    as (ret & w' & Hrun & Hpost).
  assert (∀ buf, gate_run buf (os ++ [OpStart provider]) = Gate true buf []) as Hg'
    by (intros buf; by rewrite gate_run_snoc, Hg).
  assert (hid_reports (w_trace (s_world s)) = []) as Hh0 by apply Hfresh.
  eapply preserves_intro; [unfold exec; rewrite Hrun; done|done|].
  unfold inv. rewrite Hg', Hc. simpl.
  unfold Start_post in Hpost. destruct (OSDynamicCast _ provider) as [i|].
  - destruct Hpost as (ok & Hpost). split; [|by eapply started_inv_intro].
    destruct Hpost as (iv & evs & lost & _ & -> & _ & _ & Hh & _).
    rewrite hid_reports_app, Hh0. unfold hid_reports. by rewrite Hh.
  - destruct Hpost as [-> ->]. split; [done|].
    destruct Hfresh as ((Ho & Hd & Hop) & ? & ? & ? & ?).
    eexists _, false, []. simpl. rewrite Hg'. split_and!; try done.
    + by apply counters_ok_fresh.
    + split; [by rewrite Hop|]. intros o. rewrite Ho, Hd.
      rewrite (owned_unopened o (set_interface _ _)) by apply unopened_set_interface, unopened_zero. done.
Qed.

Lemma live_started os s : live (s_phase s) = true → inv os s → started_inv os s.
Proof. intros Hl [_ Hinv]. by destruct (s_phase s). Qed.

(** The invariant after a step of a live object. *)
Lemma live_inv os s :
  live (s_phase s) = true →
  hid_reports (w_trace (s_world s)) = g_reports (gate_run (first_buffer (w_trace (s_world s))) os) →
  started_inv os s → inv os s.
Proof. intros Hl Hh Hs. split; [done|]. by destruct (s_phase s). Qed.

(** The counter after the answer to a completion, if there is one. *)
Lemma counters_ok_sends b tr evs iv p :
  counters_ok tr (pd_pipe (iv_outPipe iv)) (iv_outCounter iv) → pd_pipe (iv_outPipe iv) = Some p →
  out_packets evs = answers_out b iv →
  counters_ok (tr ++ evs) (pd_pipe (iv_outPipe iv)) (iv_outCounter (after_sends b iv)).
Proof.
  intros Hcnt Hp Ho. destruct b; [|by apply counters_ok_silent].
  unfold answers_out, packet_to in Ho. rewrite Hp in Ho.
  eapply (counters_ok_app _ _ _ _ [(p, _)]); [done|exact Ho|by repeat constructor|].
  destruct Hcnt as (_ & _ & ->). simpl. by rewrite Z.add_0_r, (wrap8_id (wrap8 _)) by apply wrap8_u8.
Qed.

Lemma preserves_complete os s c :
  allowed (OpComplete c) s → inv os s → preserves os s (OpComplete c).
Proof.
  intros (Hlive & Hpend & Hfit) Hinv. pose proof (live_started _ _ Hlive Hinv) as Hs.
  destruct Hs as (iv & ok & lost & Hst & Hen & Hcnt & [Hop Hbk] & Hr).
  destruct ok; [|destruct Hr as [Ha Hc]; rewrite Ha, Hc in Hpend; lia].
  destruct Hr as (Hrdy & Hbuf & Hreads). set (g := gate_run _ os) in *.
  pose proof (deliver_spec c _ _ _ Hst Hrdy Hbuf (Hfit _ Hst)) as Hwp.
  assert (overruns (OpComplete c) s = bool_decide (length (g_buffer g) <
    bytes_read (c_status c) (iv_enabled iv)
      (succeeded (answer (delivery_call iv c) (w_trace (s_world s)))) (received c (g_buffer g)))%nat) as Hover
    by (unfold overruns; rewrite Hst; simpl; by rewrite Hbuf).
  unfold preserves, exec. rewrite Hover. revert Hwp. set (accepted := succeeded _). set (b := sends _ _ _ _).
  intros [([] & w' & Hrun & Hle & evs & Hst' & Hrdy' & Hbuf' & Htr & Hh & Ho & Harm & (Hrf & Hd & Hpp) & Hm)
         |(f & Hrun & -> & Hlt)]%wpx_elim; rewrite Hrun; [|by apply bool_decide_eq_true].
  split; [apply bool_decide_eq_false; lia|].
  destruct (proj1 Hrdy OutPipe) as ([p Hp] & _). simpl in Hp.
  assert (gate_run (first_buffer (w_trace w')) (os ++ [OpComplete c]) = gate_step g (OpComplete c)) as Hg'
    by (by rewrite gate_run_snoc, Htr, first_buffer_app).
  apply live_inv; [done| |].
  { cbn [s_world]. rewrite Hg', Htr, hid_reports_app, (proj1 Hinv). unfold hid_reports at 1.
    rewrite Hh, <- list_fmap_compose, Hen. simpl. by rewrite list_fmap_id. }
  exists (after_sends b iv), true, lost. cbn [s_world s_phase s_completed]. rewrite Hg', Htr.
  split_and!; [done|by destruct b|..].
  - replace (pd_pipe (iv_outPipe (after_sends b iv))) with (pd_pipe (iv_outPipe iv)) by (by destruct b).
    by eapply counters_ok_sends.
  - split; [rewrite opened_pipes_app, Hpp, app_nil_r; by destruct b|].
    intros o. rewrite refs_app, handed_over_app, Hrf, Hd, app_nil_r, Z.add_0_r, (Hbk o), owned_after_sends.
    by destruct b.
  - done.
  - done.
  - rewrite reads_armed_app. lia.
  - rewrite reads_armed_app. lia.
Qed.

(** Changing the flag, or logging silent events, keeps what was started. *)
Lemma started_inv_set os o s s' iv b evs :
  started_inv os s → w_st (s_world s) = Some iv →
  (∀ g, gate_step g o = Gate b (g_buffer g) (g_reports g) ∨
        gate_step g o = g ∧ b = iv_enabled iv) →
  s_completed s' = s_completed s → w_st (s_world s') = Some (set_enabled b iv) →
  w_mem (s_world s') = w_mem (s_world s) →
  w_trace (s_world s') = w_trace (s_world s) ++ evs → silent evs → handed_over evs = [] →
  (∀ o, refs o evs = stop_refs o (s_phase s') - stop_refs o (s_phase s)) →
  started_inv (os ++ [o]) s'.
Proof.
  intros (iv0 & ok & lost & Hst & Hen & Hcnt & [Hop Hbk] & Hr) Hst0 Hg Hc Hst' Hm Htr Hsil Hd Ho.
  assert (iv0 = iv) as -> by congruence.
  pose proof (silent_projections _ Hsil) as (Hs1 & _ & Hs3 & Hs4 & Hs5 & Hmap).
  exists (set_enabled b iv), ok, lost. rewrite Htr, first_buffer_app, gate_run_snoc by done.
  set (g := gate_run _ os) in *.
  assert (g_enabled (gate_step g o) = b ∧ g_buffer (gate_step g o) = g_buffer g) as [Hgb Hgf].
  { destruct (Hg g) as [->|[-> ->]]; [done|]. by rewrite Hen. }
  split_and!; [done|by rewrite Hgb|by apply counters_ok_silent|..].
  - split; [by rewrite opened_pipes_app, Hs5, app_nil_r|].
    intros x. rewrite refs_app, handed_over_app, Hd, app_nil_r, (Hbk x), Ho. unfold owned. simpl. lia.
  - rewrite reads_armed_app, Hs3, Hc, Z.add_0_r, Hgf. destruct ok; [|done].
    destruct Hr as (Hr & Hbuf & ?). split_and!; [|unfold in_buffer; by rewrite Hm|lia..].
    apply (pipes_ready_same _ iv); [done|]. eapply pipes_ready_keeps; [|exact Hr].
    apply keeps_blocks_lengths. intros x a Hx. by rewrite Htr, mapped_at_app, Hmap, Hm.
Qed.

(** A call that forwards nothing and maps nothing. *)
Lemma reports_kept os s o (w' : input_world) evs :
  inv os s → w_trace w' = w_trace (s_world s) ++ evs → silent evs →
  (∀ g, g_reports (gate_step g o) = g_reports g) →
  hid_reports (w_trace w') = g_reports (gate_run (first_buffer (w_trace w')) (os ++ [o])).
Proof.
  intros [Hrep _] Htr (_ & Hh & _ & Hm & _)%silent_projections Hg.
  rewrite Htr, first_buffer_app, gate_run_snoc, Hg, <- Hrep, hid_reports_app by done.
  unfold hid_reports at 2. by rewrite Hh, app_nil_r.
Qed.

Lemma preserves_enable os s b :
  allowed (OpEnable b) s → inv os s → preserves os s (OpEnable b).
Proof.
  intros Hlive Hinv. pose proof (live_started _ _ Hlive Hinv) as Hs.
  pose proof Hs as (iv & _ & _ & Hst & _).
  destruct (wp_elim _ _ _ (switch_spec b (s_world s))) as ([] & w' & Hrun & ->).
  eapply preserves_intro; [unfold exec; rewrite Hrun; done|done|]. apply live_inv; [done| |].
  { apply (reports_kept os s _ _ [] Hinv); [by rewrite app_nil_r|apply silent_nil|done]. }
  eapply (started_inv_set os _ s _ iv b []); try done; simpl.
  - intros g. by left.
  - by rewrite Hst.
  - by rewrite app_nil_r.
  - apply silent_nil.
  - intros o. lia.
Qed.

Lemma set_enabled_id iv : set_enabled (iv_enabled iv) iv = iv.
Proof. by destruct iv. Qed.

Lemma preserves_stop os s p :
  allowed (OpStop p) s → inv os s → preserves os s (OpStop p).
Proof.
  intros [ret0 Hph] Hinv. assert (live (s_phase s) = true) as Hlive by (by rewrite Hph).
  pose proof (live_started _ _ Hlive Hinv) as Hs. pose proof Hs as (iv & _ & _ & Hst & Hen & _).
  destruct (wp_elim _ _ _ (Stop_Impl_spec this (Some p) (s_world s) iv Hst ltac:(by eexists)))
    as (ret & w' & Hrun & Hpost).
  eapply preserves_intro; [unfold exec; rewrite Hrun; done|done|]. unfold Stop_post in Hpost.
  assert (∀ ph evs, w' = extend evs (s_world s) → silent evs → handed_over evs = [] →
    (∀ o, refs o evs = stop_refs o ph) →
    started_inv (os ++ [OpStop p]) (Sys ph (s_completed s) w')) as Hstarted.
  { intros ph evs -> Hsil Hd Ho. eapply (started_inv_set os _ s _ iv (iv_enabled iv) evs); try done; simpl.
    - intros g. by right.
    - by rewrite set_enabled_id.
    - intros o. rewrite Ho, Hph. simpl. lia. }
  unfold after_stop. destruct (iv_gotDataAction iv) as [action|] eqn:Ha.
  - destruct Hpost as (p' & [= <-] & _ & ->).
    split; [by eapply reports_kept; [exact Hinv|done|eauto with silent|]|].
    simpl. rewrite Hst. simpl. rewrite Ha. eapply Hstarted; [done|eauto with silent|done|].
    intros o. simpl. lia.
  - subst w'. split; [by eapply reports_kept; [exact Hinv|done|eauto with silent|]|].
    simpl. rewrite Hst. simpl. rewrite Ha. left. eapply Hstarted; [done|eauto with silent|done|].
    intros o. simpl. lia.
Qed.

Lemma preserves_finalize os s :
  allowed OpFinalize s → inv os s → preserves os s OpFinalize.
Proof.
  intros [p Hph] Hinv. assert (live (s_phase s) = true) as Hlive by (by rewrite Hph).
  pose proof (live_started _ _ Hlive Hinv) as Hs. pose proof Hs as (iv & _ & _ & Hst & Hen & _).
  destruct (wp_elim _ _ _ (Stop_finalize_spec this p (s_world s))) as ([] & w' & Hrun & ret & ->).
  eapply preserves_intro; [unfold exec; rewrite Hph, Hrun; done|done|].
  split; [by eapply reports_kept; [exact Hinv|done|eauto with silent|]|]. left.
  eapply (started_inv_set os _ s _ iv (iv_enabled iv)); try done; simpl.
  - intros g. by right.
  - by rewrite set_enabled_id.
  - eauto with silent.
  - intros o. rewrite Hph. simpl. lia.
Qed.

Definition free_result (w : input_world) : input_world :=
  set_st None (extend (match w_st w with Some iv => free_events iv | None => [] end ++
                       [Ev Super_free tt]) w).

(** Freeing an object that was started, one that was only initialised, and one
    whose initialisation failed. *)
Lemma freed_started os s w' :
  started_inv os s → (∀ o, stop_refs o (s_phase s) = 0) → w' = free_result (s_world s) →
  freed_inv (Sys Freed (s_completed s) w').
Proof.
  intros (iv & ok & lost & Hst & _ & Hcnt & [Hop Hbk] & Hr) Hph ->. unfold free_result. rewrite Hst.
  split; [done|]. exists ok, (iv_interface iv), lost.
  pose proof (silent_projections _ (free_events_silent iv)) as (Hs1 & _ & Hs3 & _ & Hs5 & _).
  cbn [s_world w_trace set_st extend]. split_and!.
  - rewrite !opened_pipes_app, !reads_armed_app, Hs3, Hs5, app_nil_r. destruct ok; [|by rewrite (proj1 Hr)].
    destruct (proj1 (proj1 Hr) InPipe) as ([p1 Hp1] & _), (proj1 (proj1 Hr) OutPipe) as ([p2 Hp2] & _).
    simpl in Hp1, Hp2. exists p1, p2. rewrite Hop. unfold pipes. by rewrite Hp1, Hp2.
  - do 2 eexists. apply counters_ok_silent; [exact Hcnt|]. by rewrite out_packets_app, Hs1.
  - intros o. rewrite !refs_app, !handed_over_app, handed_free_events, !held_app, refs_free_events,
      (Hbk o), (Hph o). simpl. destruct ok; lia.
Qed.

Lemma freed_fresh s w' :
  fresh_world (s_world s) →
  w_st (s_world s) = None ∨ w_st (s_world s) = Some (set_enabled true zero_ivars) →
  w' = free_result (s_world s) → freed_inv (Sys Freed (s_completed s) w').
Proof.
  intros Hfresh Hst ->. pose proof (counters_ok_fresh _ nullptr Hfresh) as Hk.
  destruct Hfresh as ((Ho & Hd & Hop) & Hs & Ha & _). split; [done|]. exists false, nullptr, [].
  cbn [s_world w_trace free_result set_st extend]. split_and!.
  - rewrite !reads_armed_app, Ha. by destruct Hst as [-> | ->].
  - do 2 eexists. apply counters_ok_silent; [exact Hk|]. by destruct Hst as [-> | ->].
  - intros o. rewrite !refs_app, !handed_over_app, Ho, Hd. by destruct Hst as [-> | ->].
Qed.

Lemma preserves_free os s :
  allowed OpFree s → inv os s → preserves os s OpFree.
Proof.
  intros Hph Hinv. destruct (wp_elim _ _ _ (free_spec (s_world s))) as ([] & w' & Hrun & Hw).
  change (w' = free_result (s_world s)) in Hw.
  eapply preserves_intro; [unfold exec; rewrite Hrun; done|done|]. split.
  { subst w'. eapply reports_kept; [exact Hinv|done| |done].
    apply silent_app; [|eauto with silent].
    destruct (w_st (s_world s)); [apply free_events_silent|apply silent_nil]. }
  destruct Hinv as [_ Hinv]. simpl.
  destruct Hph as [Hph|[Hph|(ret & Hph & _)]]; rewrite Hph in Hinv.
  - destruct Hinv as (Hst & _ & Hfresh & _). eapply freed_fresh; eauto.
  - destruct Hinv as [Hs|[Hst Hfresh]]; [|eapply freed_fresh; eauto].
    eapply freed_started; [done| |done]. intros o. by rewrite Hph.
  - eapply freed_started; [done| |done]. intros o. by rewrite Hph.
Qed.

Lemma preserved os s o : allowed o s → inv os s → preserves os s o.
Proof.
  destruct o; eauto using preserves_init, preserves_start, preserves_complete, preserves_enable,
    preserves_stop, preserves_finalize, preserves_free.
Qed.

Lemma inv_counters os s : inv os s → ∃ p c, counters_ok (w_trace (s_world s)) p c.
Proof.
  intros [_ Hinv]. destruct (s_phase s) eqn:Hph.
  - destruct Hinv as [-> _]. by exists nullptr, 0.
  - destruct Hinv as (_ & _ & Hf & _). exists nullptr. eauto using counters_ok_fresh.
  - destruct Hinv as (iv & ok & lost & _ & _ & Hc & _). eauto.
  - destruct Hinv as (iv & ok & lost & _ & _ & Hc & _). eauto.
  - destruct Hinv as [(iv & ok & lost & _ & _ & Hc & _)|[_ Hf]]; [by eauto|].
    exists nullptr. eauto using counters_ok_fresh.
  - by destruct Hinv as (_ & ok & i & lost & _ & Hc & _).
Qed.

Lemma steps_inv os s : steps os s → inv os s.
Proof.
  induction 1 as [|os s o s' Hsteps IH Hstep]; [done|].
  destruct Hstep as [s o s' Ha He]. pose proof (preserved _ _ _ Ha IH) as Hp.
  unfold preserves in Hp. rewrite He in Hp. apply Hp.
Qed.

(** A call overruns the buffer or returns. *)
Lemma steps_progress os s o :
  steps os s → allowed o s →
  if overruns o s then exec o s = None else ∃ s', step s o s'.
Proof.
  intros Hs Ha. pose proof (preserved os s o Ha (steps_inv _ _ Hs)) as Hp. unfold preserves in Hp.
  destruct (exec o s) as [s'|] eqn:He; [|by rewrite Hp]. destruct Hp as [-> _].
  exists s'. by constructor.
Qed.

(** Where packets can be as long as what is read of them, nothing is overrun. *)
Lemma no_overrun os s o iv :
  steps os s → allowed o s → w_st (s_world s) = Some iv →
  (if DEBUG then 18 else 4) ≤ pd_maxPacketSize (iv_inPipe iv) → overruns o s = false.
Proof.
  intros Hs Ha Hst Hmax. destruct o as [| |c| | | |]; try done.
  destruct Ha as (Hlive & Hpend & _).
  destruct (live_started _ _ Hlive (steps_inv _ _ Hs)) as (iv' & ok & lost & Hst' & _ & _ & _ & Hr).
  assert (iv' = iv) as -> by congruence.
  destruct ok; [|destruct Hr as [Hz Hc]; rewrite Hz, Hc in Hpend; lia].
  destruct Hr as (Hrdy & Hbuf & _). unfold overruns. rewrite Hst. simpl. rewrite Hbuf. simpl.
  apply bool_decide_eq_false, Nat.nlt_ge, (bytes_read_ready (s_world s) iv); [|done].
  split; [done|]. destruct (proj1 Hrdy InPipe) as (_ & _ & _ & Hle & _). simpl in Hle. lia.
Qed.
End preservation.
End system.

(** ** Lifetimes: theorems *)

(** C2: in every state the protocol can reach, a call it allows returns, for every answer
    of the framework: no null pointer is used, no byte outside a buffer is touched, no
    loop runs on.  There is one exception, and it is exact: a completed read whose
    handling reads more of the input buffer than the buffer has. *)
Theorem no_call_faults {DK : DriverKit} (Hok : DriverKitOk DK) fuel this os s o :
  finite_endpoints fuel → steps fuel this os s → allowed o s →
  if overruns o s then exec fuel this o s = None else ∃ s', step fuel this s o s'.
Proof. intros Heps Hs Ha. by eapply steps_progress. Qed.

(** C34: the one fault a call can end in, reading past a short input buffer, does not arise
    for a controller whose endpoint can carry a packet of the size the driver reads: if the maximum packet size of
    the [IN] pipe is at least a header, and in a debug build a button report, every call the
    protocol allows returns. *)
Theorem full_packets_never_fault {DK : DriverKit} (Hok : DriverKitOk DK) fuel this os s o :
  finite_endpoints fuel → steps fuel this os s → allowed o s →
  (∀ iv, w_st (s_world s) = Some iv →
     (if DEBUG then 18 else 4) ≤ pd_maxPacketSize (iv_inPipe iv)) →
  ∃ s', step fuel this s o s'.
Proof.
  intros Heps Hs Ha Hmax. pose proof (steps_progress fuel this Heps os s o Hs Ha) as Hp.
  destruct (w_st (s_world s)) as [iv|] eqn:Hst.
  - by rewrite (no_overrun fuel this Heps os s o iv Hs Ha Hst (Hmax iv eq_refl)) in Hp.
  - assert (overruns o s = false) as Hno by (destruct o; try done; unfold overruns; by rewrite Hst).
    by rewrite Hno in Hp.
Qed.

(** C1: the driver implements the abstract gate.  After any sequence of calls the reports
    the HID stack has been given, with their time stamps, lengths and bytes, are those the
    gate has let through: the transfers that succeeded while the driver was enabled and
    after which the input buffer begins with the header of a known packet, in order.  Bytes
    a short transfer leaves in the buffer from earlier packets count. *)
Theorem reports_refine_gate {DK : DriverKit} (Hok : DriverKitOk DK) fuel this os s :
  finite_endpoints fuel → steps fuel this os s →
  let tr := w_trace (s_world s) in
  hid_reports tr = g_reports (gate_run (first_buffer tr) os).
Proof. intros Heps Hs. by apply (steps_inv fuel this Heps). Qed.

(** C13: while the object is live at most one read is outstanding: of the reads the
    framework accepted, all but at most one have completed.  The driver requests a read at
    the end of a successful start and one per completion, never a second one on top. *)
Theorem one_read_outstanding {DK : DriverKit} (Hok : DriverKitOk DK) fuel this os s :
  finite_endpoints fuel → steps fuel this os s → live (s_phase s) = true →
  0 ≤ reads_armed (w_trace (s_world s)) - s_completed s ≤ 1.
Proof.
  intros Heps Hs%(steps_inv fuel this Heps) Hl. apply live_started in Hs; [|done].
  destruct Hs as (iv & [] & lost & _ & _ & _ & _ & Hr); [apply Hr|]. destruct Hr as [-> ->]. lia.
Qed.

(** C7: over the whole lifetime of the object the packets for the controller are handed to
    one and the same pipe and are numbered consecutively: the [k]-th one, wake-up packets
    and answers alike, and transfers that fail included, carries [k] modulo 256 in its
    counter byte. *)
Theorem packet_counters_consecutive {DK : DriverKit} (Hok : DriverKitOk DK) fuel this os s :
  finite_endpoints fuel → steps fuel this os s →
  ∃ pipe, ∀ k p bs, out_packets (w_trace (s_world s)) !! k = Some (p, bs) →
    p = pipe ∧ bs !!! 2%nat = wrap8 (Z.of_nat k).
Proof.
  intros Heps Hs%(steps_inv fuel this Heps). apply inv_counters in Hs as (pipe & c & Hp & Hk & _).
  exists (default 1%positive pipe). intros k p bs Hl. split.
  - rewrite Forall_lookup in Hp. by rewrite (Hp _ _ Hl).
  - apply (f_equal (λ l, l !! k)) in Hk. rewrite !list_lookup_fmap, Hl in Hk.
    rewrite lookup_seq_lt in Hk by (by eapply lookup_lt_Some). simpl in Hk. by injection Hk.
Qed.

(** C5: a lifetime in which the controller was ever listened to takes no reference too many
    and leaves behind only the pipes of surplus endpoints: when the object is freed, all
    but two of the pipes that were opened are lost, and every object that was retained,
    copied or created has been released as often, but for one reference to each lost pipe
    and to each description handed to the framework. *)
Theorem lifetime_balanced {DK : DriverKit} (Hok : DriverKitOk DK) fuel this os s :
  finite_endpoints fuel → steps fuel this os s → s_phase s = Freed →
  let tr := w_trace (s_world s) in
  0 < reads_armed tr →
  ∃ p_in p_out lost, opened_pipes tr ≡ₚ p_in :: p_out :: lost ∧
    ∀ o, refs o tr = held o (handed_over tr) + held o lost.
Proof.
  intros Heps Hs%(steps_inv fuel this Heps) Hph tr Ha. destruct Hs as [_ Hs]. rewrite Hph in Hs.
  destruct Hs as (_ & ok & i & lost & Hopen & _ & Ho). fold tr in Hopen, Ho.
  destruct ok; [|lia]. destruct Hopen as (p1 & p2 & Hopen). exists p1, p2, lost. split; [done|].
  intros o. rewrite Ho. lia.
Qed.

(** *** A concrete lifetime *)

Definition sample_packet : completion :=
  {| c_status := kIOReturnSuccess; c_timestamp := 100;
     c_bytes := [0x07; 0x30; 1; 2; 1; 0] |}.

(** The state after one more call. *)
Definition sample_exec (o : op) (s : sys) : sys := default initial (@exec sample 5 sample_this o s).

Definition sample_ops : list op :=
  [OpInit; OpStart (Some sample_provider); OpComplete sample_packet; OpEnable false;
   OpStop sample_provider; OpFinalize; OpFree].
Definition sample_sys (n : nat) : sys := foldl (λ s o, sample_exec o s) initial (take n sample_ops).

Lemma sample_steps_2 : @steps sample 5 sample_this (take 2 sample_ops) (sample_sys 2).
Proof.
  apply (steps_snoc 5 sample_this [OpInit] (sample_sys 1)).
  - apply (steps_snoc 5 sample_this [] (sample_sys 0)); [constructor|].
    apply do_step; [vm_compute; reflexivity|vm_compute; reflexivity].
  - apply do_step; [vm_compute; reflexivity|vm_compute; reflexivity].
Qed.

Lemma sample_in_pipe (iv : XboxOneInputInterface_IVars) :
  w_st (s_world (sample_sys 2)) = Some iv →
  bm_length (pd_memory (iv_inPipe iv)) = 64 ∧ pd_maxPacketSize (iv_inPipe iv) = 64.
Proof.
  intros Hiv.
  assert ((λ iv, (bm_length (pd_memory (iv_inPipe iv)), pd_maxPacketSize (iv_inPipe iv))) <$> Some iv =
    Some (64, 64)) as Hl by (rewrite <- Hiv; vm_compute; reflexivity).
  injection Hl as Hl Hmax. exact (conj Hl Hmax).
Qed.

Lemma sample_allowed : allowed (OpComplete sample_packet) (sample_sys 2).
Proof.
  split; [vm_compute; reflexivity|]. split; [vm_compute; reflexivity|].
  intros iv [Hl _]%sample_in_pipe. unfold packet_fits. rewrite Hl. simpl. lia.
Qed.

Lemma sample_steps_3 : @steps sample 5 sample_this (take 3 sample_ops) (sample_sys 3).
Proof.
  apply (steps_snoc 5 sample_this (take 2 sample_ops) (sample_sys 2)); [apply sample_steps_2|].
  apply do_step; [apply sample_allowed|vm_compute; reflexivity].
Qed.

Lemma sample_steps_7 : @steps sample 5 sample_this sample_ops (sample_sys 7).
Proof.
  apply (steps_snoc 5 sample_this (take 6 sample_ops) (sample_sys 6)).
  - apply (steps_snoc 5 sample_this (take 5 sample_ops) (sample_sys 5)).
    + apply (steps_snoc 5 sample_this (take 4 sample_ops) (sample_sys 4)).
      * apply (steps_snoc 5 sample_this (take 3 sample_ops) (sample_sys 3)); [apply sample_steps_3|].
        apply do_step; [vm_compute; reflexivity|vm_compute; reflexivity].
      * apply do_step; [exists kIOReturnSuccess; vm_compute; reflexivity|vm_compute; reflexivity].
    + apply do_step; [exists sample_provider; vm_compute; reflexivity|vm_compute; reflexivity].
  - apply do_step; [right; left; vm_compute; reflexivity|vm_compute; reflexivity].
Qed.

Lemma no_call_faults_witness :
  let o := OpComplete sample_packet in
  if @overruns sample o (sample_sys 2) then @exec sample 5 sample_this o (sample_sys 2) = None
  else ∃ s', @step sample 5 sample_this (sample_sys 2) o s'.
Proof.
  apply (@no_call_faults sample sample_ok 5 sample_this (take 2 sample_ops) (sample_sys 2));
    [exact sample_finite_endpoints|exact sample_steps_2|exact sample_allowed].
Defined.

Lemma full_packets_never_fault_witness :
  ∃ s', @step sample 5 sample_this (sample_sys 2) (OpComplete sample_packet) s'.
Proof.
  apply (@full_packets_never_fault sample sample_ok 5 sample_this (take 2 sample_ops) (sample_sys 2));
    [exact sample_finite_endpoints|exact sample_steps_2|exact sample_allowed|].
  intros iv Hiv. destruct (sample_in_pipe iv Hiv) as [_ Hmax]. rewrite Hmax. vm_compute. discriminate.
Defined.

Lemma reports_refine_gate_witness :
  hid_reports (w_trace (s_world (sample_sys 3))) = [(100, 6, [0x07; 0x30; 1; 2; 1; 0])].
Proof.
  pose proof (@reports_refine_gate sample sample_ok 5 sample_this (take 3 sample_ops) (sample_sys 3)
    sample_finite_endpoints sample_steps_3) as H.
  cbv zeta in H. rewrite H. vm_compute. reflexivity.
Defined.

Lemma one_read_outstanding_witness :
  0 ≤ reads_armed (w_trace (s_world (sample_sys 3))) - s_completed (sample_sys 3) ≤ 1.
Proof.
  apply (@one_read_outstanding sample sample_ok 5 sample_this (take 3 sample_ops) (sample_sys 3)
    sample_finite_endpoints sample_steps_3).
  vm_compute. reflexivity.
Defined.

Lemma packet_counters_consecutive_witness :
  ∃ pipe, ∀ k p bs, out_packets (w_trace (s_world (sample_sys 3))) !! k = Some (p, bs) →
    p = pipe ∧ bs !!! 2%nat = wrap8 (Z.of_nat k).
Proof.
  exact (@packet_counters_consecutive sample sample_ok 5 sample_this (take 3 sample_ops) (sample_sys 3)
    sample_finite_endpoints sample_steps_3).
Defined.

Lemma lifetime_balanced_witness :
  let tr := w_trace (s_world (sample_sys 7)) in
  ∃ p_in p_out lost, opened_pipes tr ≡ₚ p_in :: p_out :: lost ∧
    ∀ o, refs o tr = held o (handed_over tr) + held o lost.
Proof.
  apply (@lifetime_balanced sample sample_ok 5 sample_this sample_ops (sample_sys 7)
    sample_finite_endpoints sample_steps_7); vm_compute; reflexivity.
Defined.

(** ** The switch, end to end *)

(** An application's request followed by packets from the controller. *)
Definition switch_and_deliver {DK : DriverKit} (client o : obj) (v x : Z) (cs : list completion)
    : HeapM (kern_return_t * IOUserClientMethodArguments) :=
  r ← ExternalMethod client ExternalMethodType_Licensing
        {| scalarInput := [v]; scalarOutput := [x] |} None nullptr;
  on_input o (deliver_all cs);;
  mret r.

(** Packets arriving at an interface on the heap, in a world [w1] not far from one in
    which it was ready. *)
Lemma deliver_on_heap {DK : DriverKit} o cs (w w1 : heap_world) iv iv1 buf e :
  w_mem w1 = w_mem w → w_trace w1 = w_trace w ++ [e] → (∀ b, map_of b e = None) →
  comm_ready (set_st (Some iv) w) iv → in_buffer (set_st (Some iv) w) iv buf →
  u8 (iv_outCounter iv) → Forall (packet_fits iv) cs → same_pipes iv iv1 →
  iv_outCounter iv1 = iv_outCounter iv → h_inputs (w_st w1) !! o = Some (Some iv1) →
  wp (on_input o (deliver_all cs)) (λ _ w', ∃ evs, w_trace w' = w_trace w1 ++ evs ∧
    hid_reports evs = (forwarded (iv_enabled iv1) buf cs).*1) w1.
Proof.
  intros Hm Htr Hmap [Hrdy Hlen] Hbuf Hu Hf [Hin Hout] Hcnt HI. eapply wp_zoom; [exact HI|].
  destruct (proj1 Hrdy OutPipe) as ([p Hp] & _). simpl in Hp.
  eapply wp_mono; [apply (deliver_all_spec cs _ iv1 buf p)|].
  - done.
  - split; [|by rewrite Hin]. apply (pipes_ready_same _ iv); [done|].
    eapply pipes_ready_keeps; [|exact Hrdy]. apply keeps_blocks_lengths. intros b a Hb. simpl in *.
    by rewrite Htr, mapped_at_app, Hm; simpl; rewrite Hmap.
  - unfold in_buffer in *. simpl in *. by rewrite Hin, Hm.
  - by rewrite Hcnt.
  - by rewrite Hout.
  - eapply Forall_impl; [exact Hf|]. intros c. unfold packet_fits. by rewrite Hin.
  - intros _ w' (n & evs & _ & Htr' & Hh & _). by exists evs.
Qed.


